(** * EA repository: metamodel, graph store, policies, views and history

    A shallow embedding of the governed typed-graph repository:

    - [eaMetaModel]: the object-type and relationship-type catalogues;
    - [RelationshipSemantics]: the canonical endpoint-rule table;
    - [EaRepository]: the object map and the relationship list;
    - [architectureScopePolicy] and [referenceFrameworkPolicy];
    - [ViewRepository]: validated view definitions and their name index;
    - [ViewRepositoryStore]: the view repository bound to the active
      project, with its revision counter;
    - [EaRepositoryContext]: the guarded setter with its scope gates, the
      commit effect (history, governance gate, persistence), loading,
      creating, clearing and undo/redo, and, in [Parsed], the
      deserializer on a parsed value of unknown shape;
    - [GraphView]: the graph a diagram draws and its depth filter;
    - the shell ([ExplorerTree], [CatalogTableTab], [ObjectTableTab]): id
      generation, creation guard and the updaters of the dialogs.

    Modelling conventions.  A JavaScript string is a sequence of code
    units; the model covers the code units below 256, held in a Rocq
    [string].  A JavaScript object used as a record with fixed keys is an
    association list read with [record_get]; a [Map] is an association
    list in insertion order ([JsMap]); an attribute bag is a finite map
    from keys to JSON values.  A method that mutates [this] and returns a
    result becomes a function from the state to the result and the next
    state. *)

From Stdlib Require Import String Ascii List Bool Arith Lia DecimalString.
From stdpp Require Import base option list gmap strings.
Import ListNotations.

Local Open Scope string_scope.
Local Open Scope nat_scope.
Local Open Scope list_scope.

(** ** JavaScript strings *)

Module Js.

(** The double-quote character, used inside the diagnostics. *)
Definition dq : string := String (ascii_of_nat 34) EmptyString.

(** ECMAScript WhiteSpace and LineTerminator code units below 256:
    TAB, LF, VT, FF, CR, SP and NBSP. *)
Definition is_white_space (c : ascii) : bool :=
  let n := nat_of_ascii c in
  ((9 <=? n) && (n <=? 13)) || (n =? 32) || (n =? 160).

Fixpoint trimStart (s : string) : string :=
  match s with
  | EmptyString => EmptyString
  | String c s' => if is_white_space c then trimStart s' else s
  end.

Fixpoint trimEnd (s : string) : string :=
  match s with
  | EmptyString => EmptyString
  | String c s' =>
      match trimEnd s' with
      | EmptyString => if is_white_space c then EmptyString else String c EmptyString
      | r => String c r
      end
  end.

(** [String.prototype.trim]. *)
Definition trim (s : string) : string := trimEnd (trimStart s).

(** Lower-casing of one code unit below 256: the Latin capital letters
    A-Z and the Latin-1 capitals U+00C0-U+00DE, the multiplication sign
    U+00D7 excepted. *)
Definition lower_ascii (c : ascii) : ascii :=
  let n := nat_of_ascii c in
  if ((65 <=? n) && (n <=? 90))
     || ((192 <=? n) && (n <=? 222) && negb (n =? 215))
  then ascii_of_nat (n + 32) else c.

(** [String.prototype.toLowerCase]. *)
Fixpoint toLowerCase (s : string) : string :=
  match s with
  | EmptyString => EmptyString
  | String c s' => String (lower_ascii c) (toLowerCase s')
  end.

(** Truthiness of a string: [!s] holds exactly for the empty string. *)
Definition truthy (s : string) : bool :=
  match s with EmptyString => false | _ => true end.

(** [Array.prototype.includes] on an array of strings. *)
Definition includes (l : list string) (x : string) : bool :=
  existsb (String.eqb x) l.

(** [Array.prototype.join]. *)
Fixpoint join (sep : string) (l : list string) : string :=
  match l with
  | [] => EmptyString
  | [x] => x
  | x :: rest => x +:+ sep +:+ join sep rest
  end.

(** Reading an own property of an object literal with fixed keys. *)
Fixpoint record_get {V : Type} (o : list (string * V)) (k : string) : option V :=
  match o with
  | [] => None
  | (k', v) :: rest => if String.eqb k k' then Some v else record_get rest k
  end.

(** [s.includes(sub)]: [sub] occurs in [s]. *)
Fixpoint string_includes (sub s : string) : bool :=
  String.prefix sub s
  || match s with
     | EmptyString => false
     | String _ s' => string_includes sub s'
     end.

(** JSON values held in attribute bags. *)
Inductive JsValue : Type :=
  | JNull
  | JBool (b : bool)
  | JNum (n : Z)
  | JStr (s : string).

#[global] Instance JsValue_eq_dec : EqDecision JsValue.
Proof. solve_decision. Defined.

(** A [Map] with string keys: an association list in insertion order,
    without repeated keys. *)
Definition JsMap (V : Type) : Type := list (string * V).

Fixpoint map_get {V : Type} (m : JsMap V) (k : string) : option V :=
  match m with
  | [] => None
  | (k', v) :: rest => if String.eqb k k' then Some v else map_get rest k
  end.

Definition map_has {V : Type} (m : JsMap V) (k : string) : bool :=
  match map_get m k with Some _ => true | None => false end.

(** [Map.prototype.set]: an existing key keeps its position. *)
Fixpoint map_set {V : Type} (m : JsMap V) (k : string) (v : V) : JsMap V :=
  match m with
  | [] => [(k, v)]
  | (k', v') :: rest =>
      if String.eqb k k' then (k, v) :: rest else (k', v') :: map_set rest k v
  end.

Fixpoint map_delete {V : Type} (m : JsMap V) (k : string) : JsMap V :=
  match m with
  | [] => []
  | (k', v') :: rest =>
      if String.eqb k k' then rest else (k', v') :: map_delete rest k
  end.

Definition map_keys {V : Type} (m : JsMap V) : list string := map fst m.
Definition map_values {V : Type} (m : JsMap V) : list V := map snd m.

End Js.

Import Js.

(** ** eaMetaModel *)

Module MetaModel.

Definition OBJECT_TYPES : list string :=
  [ "Enterprise"; "CapabilityCategory"; "Capability"; "SubCapability";
    "BusinessService"; "BusinessProcess"; "Department"; "Application";
    "ApplicationService"; "Technology"; "Programme"; "Project";
    "Principle"; "Requirement" ].

Definition RELATIONSHIP_TYPES : list string :=
  [ "DECOMPOSES_TO"; "REALIZES"; "DEPENDS_ON"; "HOSTED_ON"; "OWNS"; "HAS";
    "REALIZED_BY"; "PROVIDES"; "SUPPORTS"; "SUPPORTED_BY"; "IMPACTS";
    "IMPLEMENTS"; "DELIVERS" ].

Inductive EaLayer : Type := Strategy | Business | Application | Technology.

#[global] Instance EaLayer_eq_dec : EqDecision EaLayer.
Proof. solve_decision. Defined.

(** The [description] text of a definition plays no part in any check
    and is left out. *)
Record EaObjectTypeDefinition : Type := {
  ot_type : string;
  ot_layer : EaLayer;
  ot_attributes : list string;
  allowedOutgoingRelationships : list string;
  allowedIncomingRelationships : list string;
}.

Record EaRelationshipTypeDefinition : Type := {
  rt_type : string;
  rt_layer : EaLayer;
  fromTypes : list string;
  toTypes : list string;
  rt_attributes : list string;
}.

Definition OBJECT_TYPE_DEFINITIONS : list (string * EaObjectTypeDefinition) :=
  [ ("Enterprise",
      {| ot_type := "Enterprise"; ot_layer := Business; ot_attributes := ["name"];
         allowedOutgoingRelationships := ["OWNS"; "HAS"];
         allowedIncomingRelationships := ["OWNS"] |});
    ("Programme",
      {| ot_type := "Programme"; ot_layer := Strategy; ot_attributes := ["name"];
         allowedOutgoingRelationships := ["DELIVERS"; "IMPACTS"];
         allowedIncomingRelationships := [] |});
    ("Project",
      {| ot_type := "Project"; ot_layer := Strategy; ot_attributes := ["name"];
         allowedOutgoingRelationships := ["IMPLEMENTS"];
         allowedIncomingRelationships := [] |});
    ("Principle",
      {| ot_type := "Principle"; ot_layer := Strategy; ot_attributes := ["name"];
         allowedOutgoingRelationships := [];
         allowedIncomingRelationships := [] |});
    ("Requirement",
      {| ot_type := "Requirement"; ot_layer := Strategy; ot_attributes := ["name"];
         allowedOutgoingRelationships := [];
         allowedIncomingRelationships := [] |});
    ("CapabilityCategory",
      {| ot_type := "CapabilityCategory"; ot_layer := Business;
         ot_attributes := ["name"; "category"];
         allowedOutgoingRelationships := ["DECOMPOSES_TO"];
         allowedIncomingRelationships := ["DECOMPOSES_TO"; "DELIVERS"] |});
    ("Capability",
      {| ot_type := "Capability"; ot_layer := Business;
         ot_attributes := ["name"; "category"];
         allowedOutgoingRelationships := ["DECOMPOSES_TO"; "REALIZED_BY"; "SUPPORTED_BY"];
         allowedIncomingRelationships := ["DECOMPOSES_TO"; "DELIVERS"; "IMPACTS"; "OWNS"] |});
    ("SubCapability",
      {| ot_type := "SubCapability"; ot_layer := Business;
         ot_attributes := ["name"; "category"];
         allowedOutgoingRelationships := [];
         allowedIncomingRelationships := ["DECOMPOSES_TO"; "DELIVERS"] |});
    ("BusinessProcess",
      {| ot_type := "BusinessProcess"; ot_layer := Business; ot_attributes := ["name"];
         allowedOutgoingRelationships := ["REALIZES"];
         allowedIncomingRelationships := [] |});
    ("BusinessService",
      {| ot_type := "BusinessService"; ot_layer := Business; ot_attributes := ["name"];
         allowedOutgoingRelationships := [];
         allowedIncomingRelationships := ["REALIZED_BY"; "SUPPORTS"] |});
    ("Department",
      {| ot_type := "Department"; ot_layer := Business; ot_attributes := ["name"];
         allowedOutgoingRelationships := [];
         allowedIncomingRelationships := ["HAS"] |});
    ("Application",
      {| ot_type := "Application"; ot_layer := Application;
         ot_attributes := ["name"; "criticality"; "lifecycle"];
         allowedOutgoingRelationships := ["DEPENDS_ON"; "HOSTED_ON"; "PROVIDES"];
         allowedIncomingRelationships :=
           ["DEPENDS_ON"; "REALIZES"; "DELIVERS"; "SUPPORTED_BY"; "OWNS"; "IMPLEMENTS"] |});
    ("ApplicationService",
      {| ot_type := "ApplicationService"; ot_layer := Application; ot_attributes := ["name"];
         allowedOutgoingRelationships := ["SUPPORTS"];
         allowedIncomingRelationships := ["PROVIDES"] |});
    ("Technology",
      {| ot_type := "Technology"; ot_layer := Technology; ot_attributes := ["name"];
         allowedOutgoingRelationships := [];
         allowedIncomingRelationships := ["HOSTED_ON"] |}) ].

Definition RELATIONSHIP_TYPE_DEFINITIONS : list (string * EaRelationshipTypeDefinition) :=
  [ ("DECOMPOSES_TO",
      {| rt_type := "DECOMPOSES_TO"; rt_layer := Business;
         fromTypes := ["CapabilityCategory"; "Capability"; "SubCapability"];
         toTypes := ["CapabilityCategory"; "Capability"; "SubCapability"];
         rt_attributes := [] |});
    ("REALIZES",
      {| rt_type := "REALIZES"; rt_layer := Business;
         fromTypes := ["BusinessProcess"]; toTypes := ["Application"];
         rt_attributes := [] |});
    ("DEPENDS_ON",
      {| rt_type := "DEPENDS_ON"; rt_layer := Application;
         fromTypes := ["Application"]; toTypes := ["Application"];
         rt_attributes := ["dependencyStrength"; "dependencyType"] |});
    ("HOSTED_ON",
      {| rt_type := "HOSTED_ON"; rt_layer := Technology;
         fromTypes := ["Application"]; toTypes := ["Technology"];
         rt_attributes := [] |});
    ("DELIVERS",
      {| rt_type := "DELIVERS"; rt_layer := Strategy;
         fromTypes := ["Programme"];
         toTypes := ["CapabilityCategory"; "Capability"; "SubCapability"; "Application"];
         rt_attributes := [] |});
    ("OWNS",
      {| rt_type := "OWNS"; rt_layer := Business;
         fromTypes := ["Enterprise"];
         toTypes := ["Enterprise"; "Capability"; "Application"; "Programme"];
         rt_attributes := [] |});
    ("HAS",
      {| rt_type := "HAS"; rt_layer := Business;
         fromTypes := ["Enterprise"]; toTypes := ["Department"];
         rt_attributes := [] |});
    ("REALIZED_BY",
      {| rt_type := "REALIZED_BY"; rt_layer := Business;
         fromTypes := ["Capability"; "SubCapability"]; toTypes := ["BusinessService"];
         rt_attributes := [] |});
    ("PROVIDES",
      {| rt_type := "PROVIDES"; rt_layer := Application;
         fromTypes := ["Application"]; toTypes := ["ApplicationService"];
         rt_attributes := [] |});
    ("SUPPORTS",
      {| rt_type := "SUPPORTS"; rt_layer := Application;
         fromTypes := ["ApplicationService"]; toTypes := ["BusinessService"];
         rt_attributes := [] |});
    ("SUPPORTED_BY",
      {| rt_type := "SUPPORTED_BY"; rt_layer := Business;
         fromTypes := ["Capability"; "SubCapability"]; toTypes := ["Application"];
         rt_attributes := [] |});
    ("IMPACTS",
      {| rt_type := "IMPACTS"; rt_layer := Strategy;
         fromTypes := ["Programme"]; toTypes := ["Capability"; "SubCapability"];
         rt_attributes := [] |});
    ("IMPLEMENTS",
      {| rt_type := "IMPLEMENTS"; rt_layer := Strategy;
         fromTypes := ["Project"]; toTypes := ["Application"];
         rt_attributes := [] |}) ].

(** The argument has type [unknown] in the source; a value that is not a
    string fails the [typeof] test, as a string outside the list does. *)
Definition isValidObjectType (type : string) : bool :=
  includes OBJECT_TYPES type.

Definition isValidRelationshipType (type : string) : bool :=
  includes RELATIONSHIP_TYPES type.

End MetaModel.

Import MetaModel.

(** ** RelationshipSemantics: the canonical endpoint rules *)

Module RelationshipSemantics.

Record RelationshipEndpointRule : Type := {
  from : list string;
  to : list string;
}.

Definition RELATIONSHIP_ENDPOINT_RULES : list (string * RelationshipEndpointRule) :=
  [ ("DECOMPOSES_TO", {| from := ["Capability"]; to := ["Capability"] |});
    ("REALIZES", {| from := ["BusinessProcess"]; to := ["Application"] |});
    ("OWNS", {| from := ["Enterprise"];
                to := ["Enterprise"; "Capability"; "Application"; "Programme"] |});
    ("HAS", {| from := ["Enterprise"]; to := ["Department"] |});
    ("REALIZED_BY", {| from := ["Capability"]; to := ["BusinessService"] |});
    ("PROVIDES", {| from := ["Application"]; to := ["ApplicationService"] |});
    ("SUPPORTS", {| from := ["ApplicationService"]; to := ["BusinessService"] |});
    ("SUPPORTED_BY", {| from := ["Capability"]; to := ["Application"] |});
    ("DEPENDS_ON", {| from := ["Application"]; to := ["Application"] |});
    ("HOSTED_ON", {| from := ["Application"]; to := ["Technology"] |});
    ("IMPACTS", {| from := ["Programme"]; to := ["Capability"] |});
    ("IMPLEMENTS", {| from := ["Project"]; to := ["Application"] |});
    ("DELIVERS", {| from := ["Programme"];
                    to := ["Capability"; "Application"; "Technology"] |}) ].

(** The lookup reads the own keys of the table.  The property names an
    object literal inherits ([constructor], [toString] and the like) are
    left out: every caller modelled here asks for a type it has already
    found in a list of relationship types. *)
Definition getRelationshipEndpointRule (type : string) : option RelationshipEndpointRule :=
  let key := trim type in
  record_get RELATIONSHIP_ENDPOINT_RULES key.

Definition isKnownRelationshipType (type : string) : bool :=
  match getRelationshipEndpointRule type with Some _ => true | None => false end.

End RelationshipSemantics.

Import RelationshipSemantics.

(** ** referenceFrameworkPolicy *)

Module ReferenceFrameworkPolicy.

Record FrameworkRelationshipPolicy : Type := {
  allowedRelationshipTypes : list string;
}.

Definition ARCHIMATE_RELATIONSHIPS : list string :=
  [ "DECOMPOSES_TO"; "REALIZES"; "DEPENDS_ON"; "HOSTED_ON"; "IMPACTS" ].

Definition DEFAULT_POLICY : FrameworkRelationshipPolicy :=
  {| allowedRelationshipTypes := [] |}.

(** The framework is a string, [null] or [undefined]; the last two are
    [None]. *)
Definition getFrameworkRelationshipPolicy (referenceFramework : option string)
  : FrameworkRelationshipPolicy :=
  match referenceFramework with
  | Some fw =>
      if String.eqb fw "ArchiMate"
      then {| allowedRelationshipTypes := ARCHIMATE_RELATIONSHIPS |}
      else DEFAULT_POLICY
  | None => DEFAULT_POLICY
  end.

Definition isRelationshipTypeAllowedForReferenceFramework
  (referenceFramework : option string) (relationshipType : string) : bool :=
  let t := trim relationshipType in
  if negb (truthy t) then false
  else
    let policy := getFrameworkRelationshipPolicy referenceFramework in
    if length (allowedRelationshipTypes policy) =? 0 then true
    else includes (allowedRelationshipTypes policy) t.

End ReferenceFrameworkPolicy.

Import ReferenceFrameworkPolicy.

(** ** architectureScopePolicy *)

Module ArchitectureScopePolicy.

Definition layer_of (objectType : string) : option EaLayer :=
  ot_layer <$> record_get OBJECT_TYPE_DEFINITIONS objectType.

Definition layer_is (l : option EaLayer) (x : EaLayer) : bool :=
  match l with Some y => bool_decide (y = x) | None => false end.

Definition isObjectTypeWritableForScope
  (architectureScope : option string) (objectType : string) : bool :=
  let layer := layer_of objectType in
  match architectureScope with
  | Some scope =>
      if String.eqb scope "Programme" then
        String.eqb objectType "Programme" || String.eqb objectType "Project"
        || String.eqb objectType "Capability" || String.eqb objectType "Application"
      else if String.eqb scope "Business Unit" then
        layer_is layer Business || layer_is layer Application || layer_is layer Technology
      else if String.eqb scope "Domain" then
        String.eqb objectType "Capability" || String.eqb objectType "BusinessService"
        || String.eqb objectType "Application" || String.eqb objectType "ApplicationService"
      else true
  | None => true
  end.

Definition isAnyObjectTypeWritableForScope
  (architectureScope : option string) (objectType : option string) : bool :=
  match objectType with
  | None => false
  | Some t =>
      if negb (truthy t) then false
      else if negb (isValidObjectType t) then false
      else isObjectTypeWritableForScope architectureScope t
  end.

(** [architectureScope === name]. *)
Definition scope_is (architectureScope : option string) (name : string) : bool :=
  match architectureScope with
  | Some scope => String.eqb scope name
  | None => false
  end.

Definition reason_business_unit_layers : string :=
  "Read-only in Business Unit scope: "
  +:+ "only Business + Application + Technology layers are editable.".
Definition reason_domain_types : string :=
  "Read-only in Domain scope: only Capabilities + Business Services + "
  +:+ "Applications + Application Services are editable.".
Definition reason_programme_types : string :=
  "Read-only in Programme scope: only Programmes, Projects, "
  +:+ "impacted Capabilities, and impacted Applications are editable.".


End ArchitectureScopePolicy.

Import ArchitectureScopePolicy.

(** ** Agreement of the two endpoint tables

    The comparison the data model asks for, written from its words: two
    lists denote the same set of object types, and the canonical rule and
    the full definition of a relationship type agree on both ends. *)

Module Consistency.

Definition subset_of (l1 l2 : list string) : bool := forallb (includes l2) l1.

Definition same_set (l1 l2 : list string) : bool :=
  subset_of l1 l2 && subset_of l2 l1.

Definition tables_consistent_at (t : string) : bool :=
  match getRelationshipEndpointRule t, record_get RELATIONSHIP_TYPE_DEFINITIONS t with
  | Some rule, Some def =>
      same_set (from rule) (fromTypes def) && same_set (to rule) (toTypes def)
  | _, _ => false
  end.

(** The relationship types on which the two tables do agree. *)
Definition AGREEING_TYPES : list string :=
  [ "REALIZES"; "DEPENDS_ON"; "HOSTED_ON"; "OWNS"; "HAS"; "PROVIDES";
    "SUPPORTS"; "IMPLEMENTS" ].

(** What holds of every relationship type: both tables know it, the
    canonical [from] list lies within [fromTypes], the canonical [to]
    list lies within [toTypes] (nothing is said of the [to] list of
    DELIVERS), and the tables agree on the types of [AGREEING_TYPES]. *)
Definition tables_compatible_at (t : string) : bool :=
  match getRelationshipEndpointRule t, record_get RELATIONSHIP_TYPE_DEFINITIONS t with
  | Some rule, Some def =>
      subset_of (from rule) (fromTypes def)
      && (String.eqb t "DELIVERS" || subset_of (to rule) (toTypes def))
      && (negb (includes AGREEING_TYPES t) || tables_consistent_at t)
  | _, _ => false
  end.

End Consistency.

Import Consistency.

(** ** eaRepository: the graph store *)

Module Repository.

(** An attribute bag, [Record<string, unknown>], restricted to JSON
    values. *)
Abbreviation Attrs := (gmap string JsValue).

Record EaObject : Type := {
  o_id : string;
  o_type : string;
  o_attributes : Attrs;
}.

Record EaRelationship : Type := {
  fromId : string;
  toId : string;
  r_type : string;
  r_attributes : Attrs;
}.

#[global] Instance EaObject_eq_dec : EqDecision EaObject.
Proof. solve_decision. Defined.

#[global] Instance EaRelationship_eq_dec : EqDecision EaRelationship.
Proof. solve_decision. Defined.

(** The argument of [addObject]: [type] is unchecked and [attributes]
    may be absent. *)
Record ObjectInput : Type := {
  in_id : string;
  in_type : string;
  in_attributes : option Attrs;
}.

(** The argument of [addRelationship]. *)
Record RelationshipInput : Type := {
  in_fromId : string;
  in_toId : string;
  in_rtype : string;
  in_rattributes : option Attrs;
}.

(** [{ ok: true } | { ok: false; error }]. *)
Inductive EaRepositoryAddResult : Type :=
  | Ok
  | Fail (error : string).

Definition is_ok (r : EaRepositoryAddResult) : bool :=
  match r with Ok => true | Fail _ => false end.

Record EaRepository : Type := {
  objects : JsMap EaObject;
  relationships : list EaRelationship;
}.

#[global] Instance EaRepository_eq_dec : EqDecision EaRepository.
Proof. solve_decision. Defined.

Definition empty : EaRepository := {| objects := []; relationships := [] |}.

Inductive UpdateMode : Type := merge | replace.

(** *** Diagnostics *)

Definition err_object_id_required : string := "Object id is required.".
Definition err_invalid_object_type (t : string) : string :=
  "Invalid object type " +:+ dq +:+ t +:+ dq +:+ ".".
Definition err_duplicate_object_id (id : string) : string :=
  "Duplicate object id " +:+ dq +:+ id +:+ dq +:+ ".".
Definition err_from_required : string := "Relationship fromId is required.".
Definition err_to_required : string := "Relationship toId is required.".
Definition err_invalid_relationship_type (t : string) : string :=
  "Invalid relationship type " +:+ dq +:+ t +:+ dq +:+ ".".
Definition err_no_definition (t : string) : string :=
  "Invalid relationship type " +:+ dq +:+ t +:+ dq +:+ " (no definition).".
Definition err_reference_required : string := "Reference id is required.".
Definition err_unknown_object_id (id : string) : string :=
  "Unknown object id " +:+ dq +:+ id +:+ dq +:+ ".".
Definition err_invalid_endpoints (t fromType toType : string) : string :=
  "Invalid endpoints for relationship type " +:+ dq +:+ t +:+ dq +:+ " ("
  +:+ dq +:+ fromType +:+ dq +:+ " -> " +:+ dq +:+ toType +:+ dq +:+ ").".

(** *** Methods *)

Definition addObject (this : EaRepository) (object : ObjectInput)
  : EaRepositoryAddResult * EaRepository :=
  let id := trim (in_id object) in
  if negb (truthy id) then (Fail err_object_id_required, this)
  else if negb (isValidObjectType (in_type object)) then
    (Fail (err_invalid_object_type (in_type object)), this)
  else if map_has (objects this) id then
    (Fail (err_duplicate_object_id id), this)
  else
    (Ok,
     {| objects :=
          map_set (objects this) id
            {| o_id := id;
               o_type := in_type object;
               o_attributes := default ∅ (in_attributes object) |};
        relationships := relationships this |}).

Definition validateReference (this : EaRepository) (id : string)
  : EaRepositoryAddResult :=
  let key := trim id in
  if negb (truthy key) then Fail err_reference_required
  else if negb (map_has (objects this) key) then Fail (err_unknown_object_id key)
  else Ok.

Definition addRelationship (this : EaRepository) (rel : RelationshipInput)
  : EaRepositoryAddResult * EaRepository :=
  let fromId := trim (in_fromId rel) in
  let toId := trim (in_toId rel) in
  if negb (truthy fromId) then (Fail err_from_required, this)
  else if negb (truthy toId) then (Fail err_to_required, this)
  else if negb (isValidRelationshipType (in_rtype rel)) then
    (Fail (err_invalid_relationship_type (in_rtype rel)), this)
  else
    match validateReference this fromId with
    | Fail e => (Fail e, this)
    | Ok =>
    match validateReference this toId with
    | Fail e => (Fail e, this)
    | Ok =>
    match record_get RELATIONSHIP_TYPE_DEFINITIONS (in_rtype rel) with
    | None => (Fail (err_no_definition (in_rtype rel)), this)
    | Some relationshipTypeDef =>
    match map_get (objects this) fromId with
    | None => (Fail (err_unknown_object_id fromId), this)
    | Some fromObj =>
    match map_get (objects this) toId with
    | None => (Fail (err_unknown_object_id toId), this)
    | Some toObj =>
        let fromType := o_type fromObj in
        let toType := o_type toObj in
        if negb (includes (fromTypes relationshipTypeDef) fromType)
           || negb (includes (toTypes relationshipTypeDef) toType)
        then (Fail (err_invalid_endpoints (in_rtype rel) fromType toType), this)
        else
          (Ok,
           {| objects := objects this;
              relationships :=
                relationships this ++
                  [ {| fromId := fromId;
                       toId := toId;
                       r_type := in_rtype rel;
                       r_attributes := default ∅ (in_rattributes rel) |} ] |})
    end end end end end.

(** [{ ...existing.attributes, ...patch }]: the keys of the patch win. *)
Definition updateObjectAttributes (this : EaRepository) (id : string)
  (patch : Attrs) (mode : UpdateMode) : EaRepositoryAddResult * EaRepository :=
  let key := trim id in
  if negb (truthy key) then (Fail err_object_id_required, this)
  else
    match map_get (objects this) key with
    | None => (Fail (err_unknown_object_id key), this)
    | Some existing =>
        let nextAttributes :=
          match mode with
          | replace => patch
          | merge => patch ∪ o_attributes existing
          end in
        (Ok,
         {| objects :=
              map_set (objects this) key
                {| o_id := o_id existing;
                   o_type := o_type existing;
                   o_attributes := nextAttributes |};
            relationships := relationships this |})
    end.

(** The objects of one type, in the order of the Map. *)
Definition getObjectsByType (this : EaRepository) (type : string) : list EaObject :=
  if negb (isValidObjectType type) then []
  else List.filter (fun obj => String.eqb (o_type obj) type)
                   (map_values (objects this)).

Definition getRelationshipsByType (this : EaRepository) (type : string)
  : list EaRelationship :=
  if negb (isValidRelationshipType type) then []
  else List.filter (fun r => String.eqb (r_type r) type) (relationships this).

(** The constructor: a best-effort load that skips the items the two
    insert methods refuse. *)
Definition load_objects (this : EaRepository) (objs : list ObjectInput) : EaRepository :=
  fold_left (fun repo obj => snd (addObject repo obj)) objs this.

Definition load_relationships (this : EaRepository) (rels : list RelationshipInput)
  : EaRepository :=
  fold_left (fun repo rel => snd (addRelationship repo rel)) rels this.

Definition construct (objs : list ObjectInput) (rels : list RelationshipInput)
  : EaRepository :=
  load_relationships (load_objects empty objs) rels.

(** The object [addObject] stores for an input, and the relationship
    [addRelationship] stores. *)
Definition stored_object (x : ObjectInput) : EaObject :=
  {| o_id := trim (in_id x); o_type := in_type x;
     o_attributes := default ∅ (in_attributes x) |}.

Definition stored_relationship (rel : RelationshipInput) : EaRelationship :=
  {| fromId := trim (in_fromId rel); toId := trim (in_toId rel);
     r_type := in_rtype rel; r_attributes := default ∅ (in_rattributes rel) |}.

(** *** Runs of calls

    The three methods that change a repository, and a run of them on
    one repository; a call that fails leaves it as it was. *)
Inductive Call : Type :=
  | ToAddObject (object : ObjectInput)
  | ToAddRelationship (rel : RelationshipInput)
  | ToUpdateObjectAttributes (id : string) (patch : Attrs) (mode : UpdateMode).

Definition apply_call (this : EaRepository) (c : Call) : EaRepository :=
  match c with
  | ToAddObject object => snd (addObject this object)
  | ToAddRelationship rel => snd (addRelationship this rel)
  | ToUpdateObjectAttributes id patch mode =>
      snd (updateObjectAttributes this id patch mode)
  end.

Definition apply_calls (this : EaRepository) (cs : list Call) : EaRepository :=
  fold_left apply_call cs this.

(** *** Reading attributes

    [attributes[key] === true], and the soft-delete mark the shell puts
    on an object. *)
Definition attribute_true (attributes : Attrs) (key : string) : bool :=
  bool_decide (attributes !! key = Some (JBool true)).

Definition isSoftDeleted (attributes : Attrs) : bool :=
  attribute_true attributes "_deleted".

(** [typeof raw === 'string' ? raw.trim() : ''], for an attribute that may
    be absent. *)
Definition trimmed_text (raw : option JsValue) : string :=
  match raw with
  | Some (JStr s) => trim s
  | _ => EmptyString
  end.

End Repository.

Import Repository.

(** ** ViewRepository *)

Module Views.

(** Modelled from the spec: the view definition, whose type declaration
    ([ViewDefinition]) is not among the sources.  The fields the
    validator reads are named; every other own property of the object
    the caller passes (root element, layout type, approval status, and
    whatever else it carries) is kept in [v_other] with its value. *)
Record ViewDefinition : Type := {
  v_id : string;
  v_name : string;
  viewType : string;
  allowedElementTypes : list string;
  allowedRelationshipTypes : list string;
  v_other : list (string * JsValue);
}.

Inductive ViewRepositoryCreateResult : Type :=
  | CreateOk (view : ViewDefinition)
  | CreateFail (error : string)
  | CreateThrow.

Inductive ViewRepositoryDeleteResult : Type :=
  | DeleteOk (deleted : ViewDefinition)
  | DeleteFail (error : string).

Definition VIEW_TYPES : list string :=
  [ "ApplicationDependency"; "CapabilityMap"; "ApplicationLandscape";
    "TechnologyLandscape"; "ImpactView" ].

Definition isValidViewType (value : string) : bool := includes VIEW_TYPES value.

Definition normalizeName (value : string) : string := toLowerCase (trim value).

(** [Array.from(new Set(values))]: the first occurrence of each value,
    in order. *)
Definition dedupe (values : list string) : list string :=
  fold_left (fun seen v => if includes seen v then seen else seen ++ [v]) values [].

Definition normalizeList (values : list string) : list string :=
  dedupe (List.filter (fun v => 0 <? String.length v) (map trim values)).

Definition hasAny (set : list string) (candidates : list string) : bool :=
  existsb (fun c => includes set c) candidates.

Definition FORBIDDEN_EMBEDDED_KEYS : list string :=
  [ "elements"; "relationships"; "objects"; "nodes"; "edges"; "positions";
    "nodePositions"; "layout"; "graph"; "repository"; "catalog"; "render";
    "cytoscape" ].

(** The first forbidden key the view owns with a value other than
    [null]. *)
Definition hasEmbeddedPayload (view : ViewDefinition) : option string :=
  find (fun key =>
          match record_get (v_other view) key with
          | Some JNull | None => false
          | Some _ => true
          end)
       FORBIDDEN_EMBEDDED_KEYS.

Record ViewTypeRule : Type := {
  rule_elementTypes : list string;
  rule_relationshipTypes : list string;
}.

Definition viewTypeRules : list (string * ViewTypeRule) :=
  [ ("CapabilityMap",
      {| rule_elementTypes :=
           ["Capability"; "BusinessService"; "ApplicationService"; "Application"];
         rule_relationshipTypes :=
           ["DECOMPOSES_TO"; "REALIZED_BY"; "SUPPORTS"; "SUPPORTED_BY"] |});
    ("ApplicationDependency",
      {| rule_elementTypes := ["Application"];
         rule_relationshipTypes := ["DEPENDS_ON"] |});
    ("ApplicationLandscape",
      {| rule_elementTypes := ["Application"]; rule_relationshipTypes := [] |});
    ("TechnologyLandscape",
      {| rule_elementTypes := ["Technology"]; rule_relationshipTypes := [] |});
    ("ImpactView",
      {| rule_elementTypes := ["Programme"; "Capability"];
         rule_relationshipTypes := ["IMPACTS"] |}) ].

Record ViewRepository : Type := {
  projectId : string;
  byId : gmap string ViewDefinition;
  idByNormalizedName : gmap string string;
}.

(** The constructor, for a project id that is not blank. *)
Definition new (projectId : string) : ViewRepository :=
  {| projectId := trim projectId; byId := ∅; idByNormalizedName := ∅ |}.

(** *** Diagnostics *)

Definition err_embedded (key : string) : string :=
  "Rejected createView: view definitions must not embed payloads (forbidden key "
  +:+ dq +:+ key +:+ dq +:+ ").".
Definition err_id_required : string := "Rejected createView: id is required.".
Definition err_duplicate_id (id : string) : string :=
  "Rejected createView: duplicate id " +:+ dq +:+ id +:+ dq +:+ ".".
Definition err_name_required : string := "Rejected createView: name is required.".
Definition err_duplicate_name (name : string) : string :=
  "Rejected createView: duplicate view name " +:+ dq +:+ name +:+ dq
  +:+ " for project.".
Definition err_invalid_viewType (vt : string) : string :=
  "Rejected createView: invalid viewType " +:+ dq +:+ vt +:+ dq +:+ ".".
Definition err_no_element_types : string :=
  "Rejected createView: allowedElementTypes must be non-empty.".
Definition err_element_not_allowed (t vt : string) : string :=
  "Rejected createView: elementType " +:+ dq +:+ t +:+ dq
  +:+ " is not allowed for viewType " +:+ dq +:+ vt +:+ dq +:+ ".".
Definition err_relationship_not_allowed (t vt : string) : string :=
  "Rejected createView: relationshipType " +:+ dq +:+ t +:+ dq
  +:+ " is not allowed for viewType " +:+ dq +:+ vt +:+ dq +:+ ".".
Definition err_unknown_relationship (t : string) : string :=
  "Rejected createView: unknown relationshipType " +:+ dq +:+ t +:+ dq
  +:+ " (no endpoint semantics defined).".
Definition err_requires_endpoints (t : string) (endpoints : RelationshipEndpointRule)
  (elementTypes : list string) : string :=
  "Rejected createView: relationshipType " +:+ dq +:+ t +:+ dq
  +:+ " requires endpoint types (" +:+ join " | " (from endpoints)
  +:+ " -> " +:+ join " | " (to endpoints)
  +:+ "), but allowedElementTypes=[" +:+ join ", " elementTypes +:+ "].".
Definition err_delete_id_required : string :=
  "Rejected deleteViewById: id is required.".
Definition err_no_such_view (key : string) : string :=
  "Rejected deleteViewById: no such view " +:+ dq +:+ key +:+ dq +:+ ".".

(** *** Methods *)

(** The last loop of [createView]: the first relationship type without
    endpoint semantics, or whose rule the element types do not cover,
    ends the loop with its message. *)
Fixpoint check_endpoints (elementTypes : list string) (relationshipTypes : list string)
  : option string :=
  match relationshipTypes with
  | [] => None
  | relationshipType :: rest =>
      match getRelationshipEndpointRule relationshipType with
      | None => Some (err_unknown_relationship relationshipType)
      | Some endpoints =>
          if negb (hasAny elementTypes (from endpoints))
             || negb (hasAny elementTypes (to endpoints))
          then Some (err_requires_endpoints relationshipType endpoints elementTypes)
          else check_endpoints elementTypes rest
      end
  end.

Definition createView (this : ViewRepository) (view : ViewDefinition)
  : ViewRepositoryCreateResult * ViewRepository :=
  match hasEmbeddedPayload view with
  | Some embeddedKey => (CreateFail (err_embedded embeddedKey), this)
  | None =>
  let id := trim (v_id view) in
  if negb (truthy id) then (CreateFail err_id_required, this)
  else if bool_decide (is_Some (byId this !! id)) then
    (CreateFail (err_duplicate_id id), this)
  else
  let name := trim (v_name view) in
  if negb (truthy name) then (CreateFail err_name_required, this)
  else
  let normalizedName := normalizeName name in
  if bool_decide (is_Some (idByNormalizedName this !! normalizedName)) then
    (CreateFail (err_duplicate_name name), this)
  else if negb (isValidViewType (viewType view)) then
    (CreateFail (err_invalid_viewType (viewType view)), this)
  else
  let normalizedElementTypes := normalizeList (allowedElementTypes view) in
  let normalizedRelationshipTypes := normalizeList (allowedRelationshipTypes view) in
  if length normalizedElementTypes =? 0 then (CreateFail err_no_element_types, this)
  else
  match record_get viewTypeRules (viewType view) with
  | None => (CreateThrow, this)
  | Some rule =>
  match find (fun t => negb (includes (rule_elementTypes rule) t))
             normalizedElementTypes with
  | Some t => (CreateFail (err_element_not_allowed t (viewType view)), this)
  | None =>
  match find (fun t => negb (includes (rule_relationshipTypes rule) t))
             normalizedRelationshipTypes with
  | Some t => (CreateFail (err_relationship_not_allowed t (viewType view)), this)
  | None =>
  match check_endpoints normalizedElementTypes normalizedRelationshipTypes with
  | Some error => (CreateFail error, this)
  | None =>
      let stored :=
        {| v_id := v_id view;
           v_name := name;
           viewType := viewType view;
           allowedElementTypes := normalizedElementTypes;
           allowedRelationshipTypes := normalizedRelationshipTypes;
           v_other := v_other view |} in
      (CreateOk stored,
       {| projectId := projectId this;
          byId := <[id := stored]> (byId this);
          idByNormalizedName := <[normalizedName := id]> (idByNormalizedName this) |})
  end end end end
  end.

Definition deleteViewById (this : ViewRepository) (id : string)
  : ViewRepositoryDeleteResult * ViewRepository :=
  let key := trim id in
  if negb (truthy key) then (DeleteFail err_delete_id_required, this)
  else
    match byId this !! key with
    | None => (DeleteFail (err_no_such_view key), this)
    | Some existing =>
        (DeleteOk existing,
         {| projectId := projectId this;
            byId := delete key (byId this);
            idByNormalizedName :=
              delete (normalizeName (v_name existing)) (idByNormalizedName this) |})
    end.

Definition getViewById (this : ViewRepository) (id : string) : option ViewDefinition :=
  byId this !! trim id.

(** *** Sequences of operations *)

Inductive Operation : Type :=
  | OpCreateView (view : ViewDefinition)
  | OpDeleteViewById (id : string).

Definition step (this : ViewRepository) (op : Operation) : ViewRepository :=
  match op with
  | OpCreateView view => snd (createView this view)
  | OpDeleteViewById id => snd (deleteViewById this id)
  end.

Definition run (this : ViewRepository) (ops : list Operation) : ViewRepository :=
  fold_left step ops this.

(** The name index holds exactly one entry per stored view: a view is
    stored under its trimmed id, its normalized name is mapped to that
    id, and every entry of the index comes from such a view. *)
Definition name_index_exact (this : ViewRepository) : Prop :=
  (forall id view, byId this !! id = Some view ->
     id = trim (v_id view)
     /\ idByNormalizedName this !! normalizeName (v_name view) = Some id)
  /\ (forall name id, idByNormalizedName this !! name = Some id ->
        exists view, byId this !! id = Some view
                     /\ normalizeName (v_name view) = name).

(** The relationship type [t] of a view is not covered by the element
    types [elementTypes]: its canonical rule has no [from] type or no
    [to] type among them. *)
Definition uncovered (elementTypes : list string) (t : string) : Prop :=
  exists endpoints,
    getRelationshipEndpointRule t = Some endpoints
    /\ (hasAny elementTypes (from endpoints) = false
        \/ hasAny elementTypes (to endpoints) = false).

End Views.

Import Views.

(** ** ViewRepositoryStore: the view repository of the running process *)

Module ViewRepositoryStore.

(** The two module variables.  In a browser every increment of the
    revision is followed by an [ea:viewsChanged] event. *)
Record Store : Type := {
  viewRepository : option ViewRepository;
  viewsRevision : nat;
}.

Definition initial : Store := {| viewRepository := None; viewsRevision := 0 |}.

Definition err_no_project : string :=
  "No active project. Create/select a project before creating views.".
Definition err_project_required : string := "ViewRepository requires a projectId.".

Definition getViewRepositoryRevision (st : Store) : nat := viewsRevision st.

Definition notifyViewsChanged (st : Store) : Store :=
  {| viewRepository := viewRepository st; viewsRevision := S (viewsRevision st) |}.

(** [new ViewRepository(projectId)]: the constructor throws on an id
    that is blank once trimmed. *)
Definition construct (projectId : string) : string + ViewRepository :=
  if negb (truthy (trim projectId)) then inl err_project_required
  else inr (Views.new projectId).

(** [project] is the id of the project the project store holds, if
    any.  The result is the error thrown, or the repository. *)
Definition getViewRepository (project : option string) (st : Store)
  : (string + ViewRepository) * Store :=
  let projectId := default EmptyString project in
  if negb (truthy projectId) then (inl err_no_project, st)
  else
    match viewRepository st with
    | Some repo =>
        if negb (String.eqb (Views.projectId repo) projectId) then
          match construct projectId with
          | inl error => (inl error, st)
          | inr fresh =>
              (inr fresh,
               notifyViewsChanged
                 {| viewRepository := Some fresh; viewsRevision := viewsRevision st |})
          end
        else (inr repo, st)
    | None =>
        match construct projectId with
        | inl error => (inl error, st)
        | inr fresh =>
            (inr fresh,
             notifyViewsChanged
               {| viewRepository := Some fresh; viewsRevision := viewsRevision st |})
        end
    end.

(** The repository is one object: what [createView] does to it is seen
    through the module variable. *)
Definition createView (project : option string) (view : ViewDefinition) (st : Store)
  : (string + ViewRepositoryCreateResult) * Store :=
  match getViewRepository project st with
  | (inl error, st1) => (inl error, st1)
  | (inr repo, st1) =>
      let '(result, repo') := Views.createView repo view in
      let st2 := {| viewRepository := Some repo'; viewsRevision := viewsRevision st1 |} in
      (inr result,
       match result with
       | CreateOk _ => notifyViewsChanged st2
       | _ => st2
       end)
  end.

Definition deleteView (project : option string) (viewId : string) (st : Store)
  : (string + ViewRepositoryDeleteResult) * Store :=
  match getViewRepository project st with
  | (inl error, st1) => (inl error, st1)
  | (inr repo, st1) =>
      let '(result, repo') := Views.deleteViewById repo viewId in
      let st2 := {| viewRepository := Some repo'; viewsRevision := viewsRevision st1 |} in
      (inr result,
       match result with
       | DeleteOk _ => notifyViewsChanged st2
       | DeleteFail _ => st2
       end)
  end.

(** [getViewRepository().getViewById(viewId)], as the shell reads a
    view. *)
Definition readView (project : option string) (viewId : string) (st : Store)
  : (string + option ViewDefinition) * Store :=
  match getViewRepository project st with
  | (inl error, st1) => (inl error, st1)
  | (inr repo, st1) => (inr (Views.getViewById repo viewId), st1)
  end.

(** The store holds a repository made for the project [projectId]. *)
Definition bound_to (projectId : string) (st : Store) : Prop :=
  exists repo, viewRepository st = Some repo /\ Views.projectId repo = projectId.

(** The repository the store holds, if any, carries a trimmed project
    id, as every repository the constructor makes does. *)
Definition trimmed_binding (st : Store) : Prop :=
  forall repo, viewRepository st = Some repo ->
    trim (Views.projectId repo) = Views.projectId repo.

End ViewRepositoryStore.

(** ** EaRepositoryContext: the commit effect, history and persistence *)

Module Context.

(** A reading of the clock, as [new Date()] gives it. *)
Definition Time : Type := nat.

(** Modelled from the spec: the repository metadata, whose module
    ([repositoryMetadata]) is not among the sources.  The record holds
    the per-project fields the context reads: the architecture scope,
    the reference framework, the governance mode (Strict or Advisory) and
    the lifecycle coverage, with the repository name. *)
Record EaRepositoryMetadata : Type := {
  repositoryName : string;
  architectureScope : option string;
  referenceFramework : option string;
  governanceMode : string;
  lifecycleCoverage : string;
}.

#[global] Instance EaRepositoryMetadata_eq_dec : EqDecision EaRepositoryMetadata.
Proof. solve_decision. Defined.

(** The versioned envelope.  A snapshot is kept as the value the JSON
    text denotes: the text and its parse are taken to determine each
    other, so comparing two texts is comparing two envelopes. *)
Record SerializedRepository : Type := {
  version : nat;
  s_metadata : EaRepositoryMetadata;
  s_objects : list EaObject;
  s_relationships : list EaRelationship;
  updatedAt : Time;
}.

#[global] Instance SerializedRepository_eq_dec : EqDecision SerializedRepository.
Proof. solve_decision. Defined.

Definition STORAGE_KEY : string := "ea.repository.snapshot.v1".
Definition HISTORY_LIMIT : nat := 50.

Definition serializeRepository (repo : EaRepository) (metadata : EaRepositoryMetadata)
  (now : Time) : SerializedRepository :=
  {| version := 1;
     s_metadata := metadata;
     s_objects :=
       map (fun o => {| o_id := o_id o; o_type := o_type o;
                        o_attributes := o_attributes o |})
           (map_values (objects repo));
     s_relationships :=
       map (fun r => {| fromId := fromId r; toId := toId r; r_type := r_type r;
                        r_attributes := r_attributes r |})
           (relationships repo);
     updatedAt := now |}.

Definition object_input (o : EaObject) : ObjectInput :=
  {| in_id := o_id o; in_type := o_type o; in_attributes := Some (o_attributes o) |}.

Definition relationship_input (r : EaRelationship) : RelationshipInput :=
  {| in_fromId := fromId r; in_toId := toId r; in_rtype := r_type r;
     in_rattributes := Some (r_attributes r) |}.

(** *** Reference-framework gate of a proposed repository

    The arrow of the two endpoint messages, U+2192 in the source, is
    written [->]. *)

Definition err_framework_blocked_type (t : string) : string :=
  "ArchiMate reference framework allows standard ArchiMate relationship set only (blocked: "
  +:+ t +:+ ").".
Definition err_framework_invalid_relationship (r : EaRelationship) : string :=
  "ArchiMate reference framework blocked invalid relationship "
  +:+ r_type r +:+ " (" +:+ fromId r +:+ " -> " +:+ toId r +:+ ").".
Definition err_framework_invalid_endpoints (t fromType toType : string) : string :=
  "ArchiMate reference framework blocked invalid endpoints for "
  +:+ t +:+ " (" +:+ fromType +:+ " -> " +:+ toType +:+ ").".

Fixpoint archimate_violation (repo : EaRepository) (rels : list EaRelationship)
  : option string :=
  match rels with
  | [] => None
  | r :: rest =>
      if negb (isRelationshipTypeAllowedForReferenceFramework (Some "ArchiMate") (r_type r))
      then Some (err_framework_blocked_type (r_type r))
      else
        match record_get RELATIONSHIP_TYPE_DEFINITIONS (r_type r),
              map_get (objects repo) (fromId r), map_get (objects repo) (toId r) with
        | Some def, Some from, Some to =>
            if negb (includes (fromTypes def) (o_type from))
               || negb (includes (toTypes def) (o_type to))
            then Some (err_framework_invalid_endpoints (r_type r) (o_type from) (o_type to))
            else archimate_violation repo rest
        | _, _, _ => Some (err_framework_invalid_relationship r)
        end
  end.

Definition hasReferenceFrameworkViolations (repo : EaRepository)
  (referenceFramework : option string) : option string :=
  match referenceFramework with
  | None => None
  | Some fw =>
      if negb (truthy fw) then None
      else if String.eqb fw "ArchiMate"
      then archimate_violation repo (relationships repo)
      else None
  end.

(** *** Governance summary and effects *)

(** Modelled from the spec: the summary of the governance-debt report,
    whose module ([governanceValidation]) is not among the sources: one
    count per finding category, and their total. *)
Record GovernanceSummary : Type := {
  mandatoryFindingCount : nat;
  invalidRelationshipInsertCount : nat;
  relationshipErrorCount : nat;
  relationshipWarningCount : nat;
  lifecycleTagMissingCount : nat;
  total : nat;
}.

(** What the effect does to the world outside the provider. *)
Inductive Event : Type :=
  | StorageSetItem (raw : SerializedRepository)
  | StorageRemoveItem
  | GovernanceLogSaveBlocked (summary : GovernanceSummary)
  | GovernanceLogSaveWarned (summary : GovernanceSummary)
  | ModalError (summary : GovernanceSummary)
  | ModalDestroy
  | MessageSuccess (text : string)
  | MessageWarning (text : string).

Definition is_storage_set (e : Event) : bool :=
  match e with StorageSetItem _ => true | _ => false end.
Definition is_modal_error (e : Event) : bool :=
  match e with ModalError _ => true | _ => false end.
Definition is_message_success (e : Event) : bool :=
  match e with MessageSuccess _ => true | _ => false end.

Definition count_events (p : Event -> bool) (l : list Event) : nat :=
  length (List.filter p l).

(** The refs of the provider that hold the history. *)
Record History : Type := {
  undoStack : list SerializedRepository;
  redoStack : list SerializedRepository;
  lastSerialized : option SerializedRepository;
  suppressHistory : bool;
  canUndo : bool;
  canRedo : bool;
}.

(** The refs that remember what governance last reported. *)
Record Governance : Type := {
  lastSaveBlockedKey : option string;
  saveBlockedModal : bool;
  lastAdvisoryWarnKey : option string;
}.

(** The provider: React state, refs, the storage slot, and the effects
    emitted so far, oldest first. *)
Record State : Type := {
  eaRepository : option EaRepository;
  metadata : option EaRepositoryMetadata;
  history : History;
  governance : Governance;
  storage : option SerializedRepository;
  trace : list Event;
}.

Definition with_repository (st : State) (repo : option EaRepository)
  (md : option EaRepositoryMetadata) : State :=
  {| eaRepository := repo; metadata := md; history := history st;
     governance := governance st; storage := storage st; trace := trace st |}.

Definition with_history (st : State) (h : History) : State :=
  {| eaRepository := eaRepository st; metadata := metadata st; history := h;
     governance := governance st; storage := storage st; trace := trace st |}.

(** Array operations on the two stacks: index 0 is the head of the list. *)
Definition push {A : Type} (l : list A) (x : A) : list A := l ++ [x].
Definition shift {A : Type} (l : list A) : list A := tail l.
Definition unshift {A : Type} (l : list A) (x : A) : list A := x :: l.
Definition pop {A : Type} (l : list A) : list A := removelast l.

(** [${n}]: a count in decimal. *)
Definition show_nat (n : nat) : string := NilEmpty.string_of_uint (Nat.to_uint n).

Definition debt_key (s : GovernanceSummary) : string :=
  show_nat (mandatoryFindingCount s) +:+ "|"
  +:+ show_nat (invalidRelationshipInsertCount s) +:+ "|"
  +:+ show_nat (relationshipErrorCount s) +:+ "|"
  +:+ show_nat (relationshipWarningCount s) +:+ "|"
  +:+ show_nat (lifecycleTagMissingCount s).

(** The sum whose being positive blocks saving in Strict mode. *)
Definition strict_debt (s : GovernanceSummary) : nat :=
  mandatoryFindingCount s + relationshipErrorCount s
  + invalidRelationshipInsertCount s + lifecycleTagMissingCount s.

Definition key_truthy (k : option string) : bool :=
  match k with Some s => truthy s | None => false end.

Section Provider.

(** [validateRepositoryMetadata] and [buildGovernanceDebt] come from
    modules outside this development and are taken as given; of the
    governance report only the summary is kept. *)
Variable validateRepositoryMetadata :
  EaRepositoryMetadata -> string + EaRepositoryMetadata.
Variable buildGovernanceDebt : EaRepository -> Time -> string -> GovernanceSummary.

(** [tryDeserializeRepository] on a value that has the shape of
    [SerializedRepository], as every snapshot the provider wrote has:
    [objects] and [relationships] are arrays whose items carry strings
    for their ids and types.  On such a value the code neither refuses
    for a missing array, nor catches an exception of the constructor,
    nor throws.  [Parsed.tryDeserializeRepository] follows the code on a
    value of unknown shape, with both refusals and the exception, and
    returns what this function gives on the values of this shape. *)
Definition tryDeserializeRepository (value : SerializedRepository)
  : string + (EaRepository * EaRepositoryMetadata) :=
  match validateRepositoryMetadata (s_metadata value) with
  | inl error => inl error
  | inr md =>
      let objects := s_objects value in
      let relationships := s_relationships value in
      let unsupported :=
        match referenceFramework md with
        | Some fw =>
            if String.eqb fw "ArchiMate" then
              find (fun r => negb (isRelationshipTypeAllowedForReferenceFramework
                                     (Some "ArchiMate") (trim (r_type r))))
                   relationships
            else None
        | None => None
        end in
      match unsupported with
      | Some r =>
          inl ("Invalid ArchiMate repository snapshot: unsupported relationship type "
               +:+ dq +:+ trim (r_type r) +:+ dq +:+ ".")
      | None =>
          inr (construct (map object_input objects)
                         (map relationship_input relationships), md)
      end
  end.

(** History tracking of the persistence effect, for the snapshot
    [nextSerialized] of the state being committed. *)
Definition track_history (nextSerialized : SerializedRepository) (h : History) : History :=
  let tracked :=
    if negb (suppressHistory h) then
      match lastSerialized h with
      | Some prevSerialized =>
          if bool_decide (prevSerialized <> nextSerialized) then
            let undo := push (undoStack h) prevSerialized in
            {| undoStack :=
                 if HISTORY_LIMIT <? length undo then shift undo else undo;
               redoStack := [];
               lastSerialized := lastSerialized h;
               suppressHistory := suppressHistory h;
               canUndo := true;
               canRedo := false |}
          else h
      | None => h
      end
    else h in
  {| undoStack := undoStack tracked;
     redoStack := redoStack tracked;
     lastSerialized := Some nextSerialized;
     suppressHistory := false;
     canUndo := canUndo tracked;
     canRedo := canRedo tracked |}.

(** The Strict branch.  The result says whether the effect returns
    before writing the snapshot. *)
Definition strict_gate (debt : GovernanceSummary) (g : Governance)
  : bool * Governance * list Event :=
  let key := debt_key debt in
  let blocked :=
    (0 <? mandatoryFindingCount debt) || (0 <? relationshipErrorCount debt)
    || (0 <? invalidRelationshipInsertCount debt)
    || (0 <? lifecycleTagMissingCount debt) in
  if blocked then
    if bool_decide (lastSaveBlockedKey g <> Some key) then
      (true,
       {| lastSaveBlockedKey := Some key;
          saveBlockedModal := true;
          lastAdvisoryWarnKey := lastAdvisoryWarnKey g |},
       [GovernanceLogSaveBlocked debt]
       ++ (if saveBlockedModal g then [ModalDestroy] else [])
       ++ [ModalError debt])
    else (true, g, [])
  else if key_truthy (lastSaveBlockedKey g) then
    (false,
     {| lastSaveBlockedKey := None;
        saveBlockedModal := false;
        lastAdvisoryWarnKey := lastAdvisoryWarnKey g |},
     (if saveBlockedModal g then [ModalDestroy] else [])
     ++ [MessageSuccess "Governance compliant: saving re-enabled."])
  else (false, g, []).

(** The Advisory branch: warn once per key, never block. *)
Definition advisory_gate (debt : GovernanceSummary) (g : Governance)
  : Governance * list Event :=
  let key := debt_key debt in
  let warned :=
    if (0 <? total debt) && bool_decide (lastAdvisoryWarnKey g <> Some key) then
      ({| lastSaveBlockedKey := lastSaveBlockedKey g;
          saveBlockedModal := saveBlockedModal g;
          lastAdvisoryWarnKey := Some key |},
       [MessageWarning ("Saved with governance warnings (Advisory): "
                        +:+ show_nat (total debt) +:+ " issue(s).");
        GovernanceLogSaveWarned debt])
    else (g, []) in
  if total debt =? 0 then
    ({| lastSaveBlockedKey := lastSaveBlockedKey (fst warned);
        saveBlockedModal := saveBlockedModal (fst warned);
        lastAdvisoryWarnKey := None |},
     snd warned)
  else warned.

(** The persistence effect, run after a render in which the repository
    or the metadata changed.  Its body sits in a [try] whose [catch]
    drops the error; the governance engine and the storage are taken not
    to throw. *)
Definition persist (now : Time) (st : State) : State :=
  match eaRepository st, metadata st with
  | Some repo, Some md =>
      let nextSerialized := serializeRepository repo md now in
      let h := track_history nextSerialized (history st) in
      let save (g : Governance) (events : list Event) : State :=
        {| eaRepository := eaRepository st; metadata := metadata st;
           history := h; governance := g;
           storage := Some nextSerialized;
           trace := trace st ++ events ++ [StorageSetItem nextSerialized] |} in
      if String.eqb (governanceMode md) "Strict" then
        let debt := buildGovernanceDebt repo now (lifecycleCoverage md) in
        match strict_gate debt (governance st) with
        | (true, g, events) =>
            {| eaRepository := eaRepository st; metadata := metadata st;
               history := h; governance := g;
               storage := storage st;
               trace := trace st ++ events |}
        | (false, g, events) => save g events
        end
      else if String.eqb (governanceMode md) "Advisory" then
        let debt := buildGovernanceDebt repo now (lifecycleCoverage md) in
        let '(g, events) := advisory_gate debt (governance st) in
        save g events
      else save (governance st) []
  | _, _ =>
      {| eaRepository := eaRepository st; metadata := metadata st;
         history :=
           {| undoStack := undoStack (history st);
              redoStack := redoStack (history st);
              lastSerialized := None;
              suppressHistory := suppressHistory (history st);
              canUndo := canUndo (history st);
              canRedo := canRedo (history st) |};
         governance := governance st;
         storage := None;
         trace := trace st ++ [StorageRemoveItem] |}
  end.

(** A commit the gates of [setEaRepository] have accepted: the proposed
    repository becomes the state and the effect runs on it. *)
Definition commit (next : EaRepository) (now : Time) (st : State) : State :=
  persist now (with_repository st (Some next) (metadata st)).

(** [applySerialized]: on success the repository and the metadata are
    replaced and the next effect run is told to leave the history
    alone. *)
Definition applySerialized (raw : SerializedRepository) (st : State) : bool * State :=
  match tryDeserializeRepository raw with
  | inl _ => (false, st)
  | inr (repo, md) =>
      (true,
       {| eaRepository := Some repo; metadata := Some md;
          history :=
            {| undoStack := undoStack (history st);
               redoStack := redoStack (history st);
               lastSerialized := lastSerialized (history st);
               suppressHistory := true;
               canUndo := canUndo (history st);
               canRedo := canRedo (history st) |};
          governance := governance st; storage := storage st;
          trace := trace st |})
  end.

Definition undo (st : State) : bool * State :=
  let h := history st in
  match last (undoStack h) with
  | None =>
      (false,
       with_history st
         {| undoStack := undoStack h; redoStack := redoStack h;
            lastSerialized := lastSerialized h;
            suppressHistory := suppressHistory h;
            canUndo := false; canRedo := canRedo h |})
  | Some prevRaw =>
      let undo' := pop (undoStack h) in
      let redo' :=
        match lastSerialized h with
        | Some currentRaw =>
            let r := unshift (redoStack h) currentRaw in
            if HISTORY_LIMIT <? length r then pop r else r
        | None => redoStack h
        end in
      let st1 :=
        with_history st
          {| undoStack := undo'; redoStack := redo';
             lastSerialized := lastSerialized h;
             suppressHistory := suppressHistory h;
             canUndo := canUndo h; canRedo := canRedo h |} in
      match applySerialized prevRaw st1 with
      | (false, st2) => (false, st2)
      | (true, st2) =>
          (true,
           with_history st2
             {| undoStack := undoStack (history st2);
                redoStack := redoStack (history st2);
                lastSerialized := Some prevRaw;
                suppressHistory := suppressHistory (history st2);
                canUndo := 0 <? length (undoStack (history st2));
                canRedo := 0 <? length (redoStack (history st2)) |})
      end
  end.

Definition redo (st : State) : bool * State :=
  let h := history st in
  match redoStack h with
  | [] =>
      (false,
       with_history st
         {| undoStack := undoStack h; redoStack := redoStack h;
            lastSerialized := lastSerialized h;
            suppressHistory := suppressHistory h;
            canUndo := canUndo h; canRedo := false |})
  | nextRaw :: _ =>
      let redo' := shift (redoStack h) in
      let undo' :=
        match lastSerialized h with
        | Some currentRaw =>
            let u := push (undoStack h) currentRaw in
            if HISTORY_LIMIT <? length u then shift u else u
        | None => undoStack h
        end in
      let st1 :=
        with_history st
          {| undoStack := undo'; redoStack := redo';
             lastSerialized := lastSerialized h;
             suppressHistory := suppressHistory h;
             canUndo := canUndo h; canRedo := canRedo h |} in
      match applySerialized nextRaw st1 with
      | (false, st2) => (false, st2)
      | (true, st2) =>
          (true,
           with_history st2
             {| undoStack := undoStack (history st2);
                redoStack := redoStack (history st2);
                lastSerialized := Some nextRaw;
                suppressHistory := suppressHistory (history st2);
                canUndo := 0 <? length (undoStack (history st2));
                canRedo := 0 <? length (redoStack (history st2)) |})
      end
  end.

End Provider.

(** Both stacks are within the history limit. *)
Definition bounded (st : State) : Prop :=
  length (undoStack (history st)) <= HISTORY_LIMIT
  /\ length (redoStack (history st)) <= HISTORY_LIMIT.

(** A run of accepted commits, each with the clock reading of its
    effect. *)
Definition commits
  (buildGovernanceDebt : EaRepository -> Time -> string -> GovernanceSummary)
  (steps : list (EaRepository * Time)) (st : State) : State :=
  fold_left (fun s step => commit buildGovernanceDebt (fst step) (snd step) s) steps st.

(** The effects emitted between two states of one run. *)
Definition events_since (before after : State) : list Event :=
  drop (length (trace before)) (trace after).

(** *** What the store keeps true of a repository *)

Definition object_entry_ok (entry : string * EaObject) : Prop :=
  let '(key, o) := entry in
  o_id o = key /\ trim key = key /\ key <> EmptyString
  /\ isValidObjectType (o_type o) = true.

Definition relationship_ok (objs : JsMap EaObject) (r : EaRelationship) : Prop :=
  trim (fromId r) = fromId r /\ fromId r <> EmptyString
  /\ trim (toId r) = toId r /\ toId r <> EmptyString
  /\ In (r_type r) RELATIONSHIP_TYPES
  /\ exists fromObj toObj def,
       map_get objs (fromId r) = Some fromObj
       /\ map_get objs (toId r) = Some toObj
       /\ record_get RELATIONSHIP_TYPE_DEFINITIONS (r_type r) = Some def
       /\ In (o_type fromObj) (fromTypes def)
       /\ In (o_type toObj) (toTypes def).

(** Every repository built with [addObject], [addRelationship] and
    [updateObjectAttributes] satisfies this: keys are the trimmed ids of
    typed objects, without repetition, and every relationship joins two
    stored objects of types its definition admits. *)
Definition well_formed (repo : EaRepository) : Prop :=
  NoDup (map_keys (objects repo))
  /\ Forall object_entry_ok (objects repo)
  /\ Forall (relationship_ok (objects repo)) (relationships repo).

(** Under ArchiMate, the relationship types of a repository the gate
    lets through. *)
Definition framework_ok (md : EaRepositoryMetadata) (repo : EaRepository) : Prop :=
  referenceFramework md = Some "ArchiMate" ->
  Forall (fun r => isRelationshipTypeAllowedForReferenceFramework
                     (Some "ArchiMate") (r_type r) = true)
         (relationships repo).

Definition is_message_warning (e : Event) : bool :=
  match e with MessageWarning _ => true | _ => false end.

(** *** Scope gates of a proposed repository *)

Definition countLiveObjectsByType (repo : EaRepository) (type : string) : nat :=
  length (List.filter
            (fun obj => String.eqb (o_type obj) type
                        && negb (isSoftDeleted (o_attributes obj)))
            (map_values (objects repo))).

Definition err_enterprise_root : string :=
  "Business Unit scope requires exactly one Enterprise root.".
Definition err_enterprise_ownership : string :=
  "Enterprise-to-Enterprise ownership is disabled in Business Unit scope.".
Definition err_cross_domain : string :=
  "Cross-domain relationships are blocked in Domain scope.".
Definition err_programme_first : string :=
  "Programme scope requires at least one Programme before creating other elements.".

(** The loop of [hasBusinessUnitScopeViolations] over the
    relationships: the first ownership between two live enterprises
    ends it. *)
Fixpoint enterprise_ownership (repo : EaRepository) (rels : list EaRelationship)
  : option string :=
  match rels with
  | [] => None
  | r :: rest =>
      if negb (String.eqb (r_type r) "OWNS") then enterprise_ownership repo rest
      else
        match map_get (objects repo) (fromId r), map_get (objects repo) (toId r) with
        | Some from, Some to =>
            if isSoftDeleted (o_attributes from) then enterprise_ownership repo rest
            else if isSoftDeleted (o_attributes to) then enterprise_ownership repo rest
            else if String.eqb (o_type from) "Enterprise"
                    && String.eqb (o_type to) "Enterprise"
            then Some err_enterprise_ownership
            else enterprise_ownership repo rest
        | _, _ => enterprise_ownership repo rest
        end
  end.

Definition hasBusinessUnitScopeViolations (repo : EaRepository) : option string :=
  let enterpriseCount := countLiveObjectsByType repo "Enterprise" in
  if enterpriseCount <? 1 then Some err_enterprise_root
  else if 1 <? enterpriseCount then Some err_enterprise_root
  else enterprise_ownership repo (relationships repo).

(** The argument has type [unknown]: an attribute value, or nothing. *)
Definition normalizeDomainId (value : option JsValue) : option string :=
  let raw := trimmed_text value in
  if negb (truthy raw) then None else Some (toLowerCase raw).

Definition getObjectDomainId (obj : option EaObject) : option string :=
  match obj with
  | None => None
  | Some obj => normalizeDomainId (o_attributes obj !! "domainId")
  end.

(** [a ?? b] on two domain ids. *)
Definition or_else (a b : option string) : option string :=
  match a with Some _ => a | None => b end.

Fixpoint cross_domain (repo : EaRepository) (current : option string)
  (rels : list EaRelationship) : option string :=
  match rels with
  | [] => None
  | r :: rest =>
      match map_get (objects repo) (fromId r), map_get (objects repo) (toId r) with
      | Some from, Some to =>
          if isSoftDeleted (o_attributes from) then cross_domain repo current rest
          else if isSoftDeleted (o_attributes to) then cross_domain repo current rest
          else
            let fromDomain := or_else (getObjectDomainId (Some from)) current in
            let toDomain := or_else (getObjectDomainId (Some to)) current in
            if key_truthy fromDomain && key_truthy toDomain
               && bool_decide (fromDomain <> toDomain)
            then Some err_cross_domain
            else cross_domain repo current rest
      | _, _ => cross_domain repo current rest
      end
  end.

Definition hasDomainScopeRelationshipViolations (repo : EaRepository)
  (currentDomainId : option string) : option string :=
  let current := normalizeDomainId (JStr <$> currentDomainId) in
  cross_domain repo current (relationships repo).

Definition hasProgrammeScopeViolations (repo : EaRepository) : option string :=
  let programmeCount := countLiveObjectsByType repo "Programme" in
  if 0 <? programmeCount then None
  else
    match find (fun obj => negb (isSoftDeleted (o_attributes obj))
                           && negb (String.eqb (o_type obj) "Programme"))
               (map_values (objects repo)) with
    | Some _ => Some err_programme_first
    | None => None
    end.

(** [SetStateAction]: the next value, or a function of the previous
    one. *)
Inductive SetStateAction : Type :=
  | SetValue (next : option EaRepository)
  | SetUpdater (next : option EaRepository -> option EaRepository).

Definition resolve (next : SetStateAction) (prev : option EaRepository)
  : option EaRepository :=
  match next with
  | SetValue v => v
  | SetUpdater f => f prev
  end.

(** [message.warning(text)], the state left as it is. *)
Definition warn (st : State) (text : string) : State :=
  {| eaRepository := eaRepository st; metadata := metadata st;
     history := history st; governance := governance st;
     storage := storage st; trace := trace st ++ [MessageWarning text] |}.

Section Gates.

(** [stableStringify] renders an attribute bag with its keys sorted by
    [localeCompare], whose order belongs to the platform; the rendering
    is taken as given. *)
Variable stableStringify : Attrs -> string.

(** The loop of [hasReadOnlyObjectChanges] over the ids of both
    repositories. *)
Fixpoint read_only_change (architectureScope : option string)
  (prevById nextById : JsMap EaObject) (ids : list string) : bool :=
  match ids with
  | [] => false
  | id :: rest =>
      let a := map_get prevById id in
      let b := map_get nextById id in
      let typeA := o_type <$> a in
      let typeB := o_type <$> b in
      let writableA := isAnyObjectTypeWritableForScope architectureScope typeA in
      let writableB := isAnyObjectTypeWritableForScope architectureScope typeB in
      if negb writableA || negb writableB then
        match a, b with
        | Some a, Some b =>
            if negb (String.eqb (o_type a) (o_type b)) then true
            else if negb (String.eqb (stableStringify (o_attributes a))
                                     (stableStringify (o_attributes b)))
            then true
            else read_only_change architectureScope prevById nextById rest
        | _, _ => true
        end
      else read_only_change architectureScope prevById nextById rest
  end.

Definition hasReadOnlyObjectChanges (prev next : option EaRepository)
  (architectureScope : option string) : bool :=
  if negb (scope_is architectureScope "Business Unit")
     && negb (scope_is architectureScope "Domain")
     && negb (scope_is architectureScope "Programme")
  then false
  else
    match prev, next with
    | Some prev, Some next =>
        let prevById := objects prev in
        let nextById := objects next in
        let ids := dedupe (map_keys prevById ++ map_keys nextById) in
        read_only_change architectureScope prevById nextById ids
    | _, _ => false
    end.

(** The state updater of [setEaRepository]: a proposal that fails a
    gate leaves the previous repository in place and raises one
    warning.  The callback is made anew when the scope or the framework
    of the metadata changes, and not when the name alone does: the scope
    and framework it reads are those of the state, while the name it
    passes to the Domain gate, [capturedName], is the one the metadata
    had when the callback was made. *)
Definition setEaRepository (capturedName : option string) (next : SetStateAction)
  (st : State) : State :=
  let prev := eaRepository st in
  match resolve next prev with
  | None => with_repository st None (metadata st)
  | Some resolved =>
      let scope := metadata st ≫= architectureScope in
      let framework := metadata st ≫= referenceFramework in
      match hasReferenceFrameworkViolations resolved framework with
      | Some frameworkViolation => warn st frameworkViolation
      | None =>
      match (if scope_is scope "Business Unit"
             then hasBusinessUnitScopeViolations resolved else None) with
      | Some violation => warn st violation
      | None =>
      match (if scope_is scope "Domain"
             then hasDomainScopeRelationshipViolations resolved capturedName
             else None) with
      | Some violation => warn st violation
      | None =>
      match (if scope_is scope "Programme"
             then hasProgrammeScopeViolations resolved else None) with
      | Some violation => warn st violation
      | None =>
          if negb (hasReadOnlyObjectChanges prev (Some resolved) scope)
          then with_repository st (Some resolved) (metadata st)
          else if scope_is scope "Domain" then warn st reason_domain_types
          else if scope_is scope "Programme" then warn st reason_programme_types
          else warn st reason_business_unit_layers
      end end end end
  end.

End Gates.

(** *** New history roots *)

(** The two stacks emptied and both flags lowered; the last snapshot
    is not touched. *)
Definition reset_history (h : History) : History :=
  {| undoStack := []; redoStack := [];
     lastSerialized := lastSerialized h;
     suppressHistory := suppressHistory h;
     canUndo := false; canRedo := false |}.

Definition clearRepository (st : State) : State :=
  {| eaRepository := None; metadata := None;
     history := reset_history (history st);
     governance := governance st; storage := storage st; trace := trace st |}.

Section Loading.

Variable validateRepositoryMetadata :
  EaRepositoryMetadata -> string + EaRepositoryMetadata.

(** The snapshot is taken after [JSON.parse]; a text that does not
    parse is refused before anything else happens. *)
Definition loadRepositoryFromJsonText (parsed : SerializedRepository) (st : State)
  : EaRepositoryAddResult * State :=
  match tryDeserializeRepository validateRepositoryMetadata parsed with
  | inl error => (Fail error, st)
  | inr (repo, md) =>
      (Ok,
       {| eaRepository := Some repo; metadata := Some md;
          history := reset_history (history st);
          governance := governance st; storage := storage st;
          trace := trace st |})
  end.

(** [organizationName] is the field of the input the Enterprise root is
    named after; the creation time joins the input before it is
    validated. *)
Definition createNewRepository (input : EaRepositoryMetadata)
  (organizationName : option string) (st : State)
  : EaRepositoryAddResult * State :=
  match validateRepositoryMetadata input with
  | inl error => (Fail error, st)
  | inr md =>
      let repo :=
        if scope_is (architectureScope md) "Business Unit" then
          let name :=
            if truthy (trim (default EmptyString organizationName))
            then trim (default EmptyString organizationName)
            else "Business Unit" in
          snd (addObject Repository.empty
                 {| in_id := "ent-root"; in_type := "Enterprise";
                    in_attributes := Some {[ "name" := JStr name ]} |})
        else Repository.empty in
      (Ok,
       {| eaRepository := Some repo; metadata := Some md;
          history := reset_history (history st);
          governance := governance st; storage := storage st;
          trace := trace st |})
  end.

End Loading.

End Context.

Import Context.

(** *** What the Advisory branch emits when it warns *)

Definition advisory_warning (debt : GovernanceSummary) : list Event :=
  [MessageWarning ("Saved with governance warnings (Advisory): "
                   +:+ show_nat (total debt) +:+ " issue(s).");
   GovernanceLogSaveWarned debt].

(** The Enterprise root [createNewRepository] places under Business Unit
    scope. *)
Definition enterprise_root (organizationName : option string) : EaObject :=
  {| o_id := "ent-root"; o_type := "Enterprise";
     o_attributes :=
       {[ "name" :=
            JStr (if truthy (trim (default EmptyString organizationName))
                  then trim (default EmptyString organizationName)
                  else "Business Unit") ]} |}.

(** *** Changes of debt signature along a run

    The number of signatures of [keys] that differ from the one before
    them, the first being compared with [last], the signature last
    reported when the run begins. *)
Fixpoint signature_changes (last : option string) (keys : list string) : nat :=
  match keys with
  | [] => 0
  | key :: rest =>
      (if bool_decide (last = Some key) then 0 else 1)
      + signature_changes (Some key) rest
  end.

(** ** Snapshots of unknown shape

    [tryDeserializeRepository] takes a value of type [unknown]: what
    [JSON.parse] made of the text of a file or of a stored entry.  This
    module follows the code on such a value, with what a value of the
    right shape never meets: [objects] or [relationships] that is no
    array, an exception thrown while the constructor loads the items,
    and an exception thrown by the check of the relationship types,
    which nothing catches.

    A value is seen through the properties the code reads.  The
    attributes of an item are absent or an attribute bag; no branch of
    the code looks at them. *)

Module Parsed.

(** A property the code treats as a string.  [UOther text] is a boolean,
    a number, an array or an object, none of which has a [trim] method;
    [text] is what [String(value)] gives for it, and [None] when that
    conversion throws, as it does for an object whose own [toString] is
    no function. *)
Inductive Unknown : Type :=
  | UUndefined
  | UNull
  | UString (s : string)
  | UOther (text : option string).

(** The exceptions met on a parsed value: a property read from [null],
    a call of [trim] on a value that has none, and an object that cannot
    be converted to a string. *)
Inductive TypeError : Type :=
  | ReadOfNull (property : string)
  | NotAFunction (method : string)
  | NotPrimitive.

Inductive Outcome (A : Type) : Type :=
  | Returned (a : A)
  | Thrown (e : TypeError).

Arguments Returned {A} a.
Arguments Thrown {A} e.

(** [String(value)]. *)
Definition to_string (value : Unknown) : Outcome string :=
  match value with
  | UUndefined => Returned "undefined"
  | UNull => Returned "null"
  | UString s => Returned s
  | UOther (Some text) => Returned text
  | UOther None => Thrown NotPrimitive
  end.

(** [(value ?? '').trim()]. *)
Definition trimmed (value : Unknown) : Outcome string :=
  match value with
  | UUndefined => Returned (trim EmptyString)
  | UNull => Returned (trim EmptyString)
  | UString s => Returned (trim s)
  | UOther _ => Thrown (NotAFunction "trim")
  end.

(** [isValidObjectType(type)] and [isValidRelationshipType(type)] on a
    value of type [unknown]: the string, when the value is a string of
    the list. *)
Definition valid_object_type (type : Unknown) : option string :=
  match type with
  | UString t => if isValidObjectType t then Some t else None
  | _ => None
  end.

Definition valid_relationship_type (type : Unknown) : option string :=
  match type with
  | UString t => if isValidRelationshipType t then Some t else None
  | _ => None
  end.

(** An element of the [objects] array: [null], or any other value with
    what its properties [id], [type] and [attributes] read.  On a number,
    a string, a boolean or an array all three read [undefined]. *)
Inductive ObjectItem : Type :=
  | ObjectNull
  | ObjectValue (id type : Unknown) (attributes : option Attrs).

(** An element of the [relationships] array. *)
Inductive RelationshipItem : Type :=
  | RelationshipNull
  | RelationshipValue (fromId toId type : Unknown) (attributes : option Attrs).

(** [EaRepository.addObject] on an item of unknown shape.  The message
    for a type outside the list converts the type to a string. *)
Definition addObject (this : EaRepository) (object : ObjectItem)
  : Outcome (EaRepositoryAddResult * EaRepository) :=
  match object with
  | ObjectNull => Thrown (ReadOfNull "id")
  | ObjectValue object_id object_type attributes =>
      match trimmed object_id with
      | Thrown e => Thrown e
      | Returned id =>
          if negb (truthy id) then Returned (Fail err_object_id_required, this)
          else
            match valid_object_type object_type with
            | None =>
                match to_string object_type with
                | Thrown e => Thrown e
                | Returned text => Returned (Fail (err_invalid_object_type text), this)
                end
            | Some type =>
                Returned
                  (if map_has (objects this) id then
                     (Fail (err_duplicate_object_id id), this)
                   else
                     (Ok,
                      {| objects :=
                           map_set (objects this) id
                             {| o_id := id;
                                o_type := type;
                                o_attributes := default ∅ attributes |};
                         relationships := relationships this |}))
            end
      end
  end.

(** [EaRepository.addRelationship] on an item of unknown shape: both ids
    are trimmed before anything is checked. *)
Definition addRelationship (this : EaRepository) (rel : RelationshipItem)
  : Outcome (EaRepositoryAddResult * EaRepository) :=
  match rel with
  | RelationshipNull => Thrown (ReadOfNull "fromId")
  | RelationshipValue rel_fromId rel_toId rel_type attributes =>
      match trimmed rel_fromId with
      | Thrown e => Thrown e
      | Returned fromId =>
      match trimmed rel_toId with
      | Thrown e => Thrown e
      | Returned toId =>
          if negb (truthy fromId) then Returned (Fail err_from_required, this)
          else if negb (truthy toId) then Returned (Fail err_to_required, this)
          else
            match valid_relationship_type rel_type with
            | None =>
                match to_string rel_type with
                | Thrown e => Thrown e
                | Returned text =>
                    Returned (Fail (err_invalid_relationship_type text), this)
                end
            | Some type =>
                Returned
                  match validateReference this fromId with
                  | Fail e => (Fail e, this)
                  | Ok =>
                  match validateReference this toId with
                  | Fail e => (Fail e, this)
                  | Ok =>
                  match record_get RELATIONSHIP_TYPE_DEFINITIONS type with
                  | None => (Fail (err_no_definition type), this)
                  | Some relationshipTypeDef =>
                  match map_get (objects this) fromId with
                  | None => (Fail (err_unknown_object_id fromId), this)
                  | Some fromObj =>
                  match map_get (objects this) toId with
                  | None => (Fail (err_unknown_object_id toId), this)
                  | Some toObj =>
                      let fromType := o_type fromObj in
                      let toType := o_type toObj in
                      if negb (includes (fromTypes relationshipTypeDef) fromType)
                         || negb (includes (toTypes relationshipTypeDef) toType)
                      then (Fail (err_invalid_endpoints type fromType toType), this)
                      else
                        (Ok,
                         {| objects := objects this;
                            relationships :=
                              relationships this ++
                                [ {| fromId := fromId;
                                     toId := toId;
                                     r_type := type;
                                     r_attributes := default ∅ attributes |} ] |})
                  end end end end end
            end
      end end
  end.

(** The two loops of the constructor: a call that fails is skipped, a
    call that throws ends the constructor. *)
Fixpoint load_objects (this : EaRepository) (objs : list ObjectItem)
  : Outcome EaRepository :=
  match objs with
  | [] => Returned this
  | obj :: rest =>
      match addObject this obj with
      | Thrown e => Thrown e
      | Returned (_, next) => load_objects next rest
      end
  end.

Fixpoint load_relationships (this : EaRepository) (rels : list RelationshipItem)
  : Outcome EaRepository :=
  match rels with
  | [] => Returned this
  | rel :: rest =>
      match addRelationship this rel with
      | Thrown e => Thrown e
      | Returned (_, next) => load_relationships next rest
      end
  end.

Definition construct (objs : list ObjectItem) (rels : list RelationshipItem)
  : Outcome EaRepository :=
  match load_objects Repository.empty objs with
  | Thrown e => Thrown e
  | Returned loaded => load_relationships loaded rels
  end.

(** The parsed value, seen through the three properties the code reads:
    [metadata] as it is, and each of [objects] and [relationships] when
    it is an array.  A value that is no object, [null] included, reads
    [undefined] for all three. *)
Record Snapshot (RawMetadata : Type) : Type := {
  raw_metadata : RawMetadata;
  raw_objects : option (list ObjectItem);
  raw_relationships : option (list RelationshipItem);
}.

Arguments raw_metadata {RawMetadata} _.
Arguments raw_objects {RawMetadata} _.
Arguments raw_relationships {RawMetadata} _.

(** [String(r?.type ?? '')]. *)
Definition type_text (r : RelationshipItem) : Outcome string :=
  match r with
  | RelationshipNull => Returned EmptyString
  | RelationshipValue _ _ UUndefined _ => Returned EmptyString
  | RelationshipValue _ _ UNull _ => Returned EmptyString
  | RelationshipValue _ _ type _ => to_string type
  end.

(** The loop over the relationships under ArchiMate: the trimmed type of
    the first relationship whose type is outside the ArchiMate set. *)
Fixpoint first_unsupported (relationships : list RelationshipItem)
  : Outcome (option string) :=
  match relationships with
  | [] => Returned None
  | r :: rest =>
      match type_text r with
      | Thrown e => Thrown e
      | Returned text =>
          let t := trim text in
          if negb (isRelationshipTypeAllowedForReferenceFramework (Some "ArchiMate") t)
          then Returned (Some t)
          else first_unsupported rest
      end
  end.

Definition err_expected_arrays : string :=
  "Invalid repository snapshot: expected { objects, relationships }.".
Definition err_unsupported_relationship_type (t : string) : string :=
  "Invalid ArchiMate repository snapshot: unsupported relationship type "
  +:+ dq +:+ t +:+ dq +:+ ".".
Definition err_failed_to_load : string := "Failed to load repository snapshot.".

Section Deserialize.

(** [validateRepositoryMetadata] comes from a module outside this
    development and is taken as given, on whatever [metadata] reads.
    The message of a [TypeError] is the engine's. *)
Variable RawMetadata : Type.
Variable validateRepositoryMetadata : RawMetadata -> string + EaRepositoryMetadata.
Variable message : TypeError -> string.

(** Only the constructor runs inside [try]: an exception of the check of
    the relationship types leaves the function. *)
Definition tryDeserializeRepository (value : Snapshot RawMetadata)
  : Outcome (string + (EaRepository * EaRepositoryMetadata)) :=
  match validateRepositoryMetadata (raw_metadata value) with
  | inl error => Returned (inl error)
  | inr md =>
      match raw_objects value, raw_relationships value with
      | Some objects, Some relationships =>
          let unsupported :=
            match referenceFramework md with
            | Some fw =>
                if String.eqb fw "ArchiMate" then first_unsupported relationships
                else Returned None
            | None => Returned None
            end in
          match unsupported with
          | Thrown e => Thrown e
          | Returned (Some t) => Returned (inl (err_unsupported_relationship_type t))
          | Returned None =>
              match construct objects relationships with
              | Returned repo => Returned (inr (repo, md))
              | Thrown e =>
                  Returned
                    (inl (if truthy (message e) then message e
                          else err_failed_to_load))
              end
          end
      | _, _ => Returned (inl err_expected_arrays)
      end
  end.

End Deserialize.

(** The items at which the constructor throws: [null]; an item whose
    id, or one of whose two ids, is neither missing nor a string; and an
    item with an id, or two, that is not blank and a type that cannot be
    converted to a string for the message. *)
Definition object_throws (item : ObjectItem) : bool :=
  match item with
  | ObjectNull => true
  | ObjectValue (UOther _) _ _ => true
  | ObjectValue (UString s) (UOther None) _ => truthy (trim s)
  | ObjectValue _ _ _ => false
  end.

Definition relationship_throws (item : RelationshipItem) : bool :=
  match item with
  | RelationshipNull => true
  | RelationshipValue (UOther _) _ _ _ => true
  | RelationshipValue _ (UOther _) _ _ => true
  | RelationshipValue (UString a) (UString b) (UOther None) _ =>
      truthy (trim a) && truthy (trim b)
  | RelationshipValue _ _ _ _ => false
  end.

(** A snapshot of the right shape, as the provider writes it, as a
    parsed value. *)
Definition object_item (o : EaObject) : ObjectItem :=
  ObjectValue (UString (o_id o)) (UString (o_type o)) (Some (o_attributes o)).

Definition relationship_item (r : EaRelationship) : RelationshipItem :=
  RelationshipValue (UString (fromId r)) (UString (toId r)) (UString (r_type r))
                    (Some (r_attributes r)).

Definition of_serialized (value : SerializedRepository)
  : Snapshot EaRepositoryMetadata :=
  {| raw_metadata := s_metadata value;
     raw_objects := Some (map object_item (s_objects value));
     raw_relationships := Some (map relationship_item (s_relationships value)) |}.

End Parsed.

(** ** The repository as shared objects

    [clone] is about identity: which Map, which array and which attribute
    bags two repositories hold.  Here the store is explicit.  A location
    names a Map instance, an array or an attribute bag; an object and a
    relationship hold their bag by reference, and a repository holds its
    Map and its array by reference.  Objects and relationships are never
    written in place (an update puts a new object in the Map), so they
    are kept as values. *)

Module Store.

Definition loc : Type := positive.

Record ObjectRef : Type := {
  h_id : string;
  h_type : string;
  h_attributes : loc;
}.

Record RelationshipRef : Type := {
  h_fromId : string;
  h_toId : string;
  h_rtype : string;
  h_rattributes : loc;
}.

(** An [EaRepository] instance. *)
Record RepositoryRef : Type := {
  objects_ref : loc;
  relationships_ref : loc;
}.

Record Heap : Type := {
  bags : gmap loc Attrs;
  maps : gmap loc (JsMap ObjectRef);
  arrays : gmap loc (list RelationshipRef);
}.

Definition read_bag (s : Heap) (l : loc) : Attrs := default ∅ (bags s !! l).
Definition read_map (s : Heap) (l : loc) : JsMap ObjectRef := default [] (maps s !! l).
Definition read_array (s : Heap) (l : loc) : list RelationshipRef :=
  default [] (arrays s !! l).

(** Allocation picks a location the heap does not use yet. *)
Definition alloc_bag (s : Heap) (a : Attrs) : loc * Heap :=
  let l := fresh (dom (bags s)) in
  (l, {| bags := <[l := a]> (bags s); maps := maps s; arrays := arrays s |}).

Definition alloc_map (s : Heap) (m : JsMap ObjectRef) : loc * Heap :=
  let l := fresh (dom (maps s)) in
  (l, {| bags := bags s; maps := <[l := m]> (maps s); arrays := arrays s |}).

Definition alloc_array (s : Heap) (a : list RelationshipRef) : loc * Heap :=
  let l := fresh (dom (arrays s)) in
  (l, {| bags := bags s; maps := maps s; arrays := <[l := a]> (arrays s) |}).

Definition write_map (s : Heap) (l : loc) (m : JsMap ObjectRef) : Heap :=
  {| bags := bags s; maps := <[l := m]> (maps s); arrays := arrays s |}.

(** [new EaRepository()]: a new Map and a new, empty array. *)
Definition new_repository (s : Heap) : RepositoryRef * Heap :=
  let '(m, s1) := alloc_map s [] in
  let '(a, s2) := alloc_array s1 [] in
  ({| objects_ref := m; relationships_ref := a |}, s2).

(** The loop of [clone]: each object is set in the target Map as a new
    object with a new bag holding the entries of the old one. *)
Fixpoint copy_objects (s : Heap) (target : loc) (entries : JsMap ObjectRef) : Heap :=
  match entries with
  | [] => s
  | (id, obj) :: rest =>
      let '(a, s1) := alloc_bag s (read_bag s (h_attributes obj)) in
      let copy := {| h_id := h_id obj; h_type := h_type obj; h_attributes := a |} in
      copy_objects (write_map s1 target (map_set (read_map s1 target) id copy))
        target rest
  end.

(** [this.relationships.map((r) => ({ ...r, attributes: { ...r.attributes } }))]. *)
Fixpoint copy_relationships (s : Heap) (rels : list RelationshipRef)
  : list RelationshipRef * Heap :=
  match rels with
  | [] => ([], s)
  | r :: rest =>
      let '(a, s1) := alloc_bag s (read_bag s (h_rattributes r)) in
      let copy := {| h_fromId := h_fromId r; h_toId := h_toId r;
                     h_rtype := h_rtype r; h_rattributes := a |} in
      let '(rest', s2) := copy_relationships s1 rest in
      (copy :: rest', s2)
  end.

Definition clone (s : Heap) (this : RepositoryRef) : RepositoryRef * Heap :=
  let '(next, s1) := new_repository s in
  let s2 := copy_objects s1 (objects_ref next) (read_map s1 (objects_ref this)) in
  let '(rels, s3) := copy_relationships s2 (read_array s2 (relationships_ref this)) in
  let '(a, s4) := alloc_array s3 rels in
  ({| objects_ref := objects_ref next; relationships_ref := a |}, s4).

(** The argument of [addObject]: the attribute bag, when given, is the
    caller's own. *)
Record ObjectInputRef : Type := {
  hi_id : string;
  hi_type : string;
  hi_attributes : option loc;
}.

Definition addObject (s : Heap) (this : RepositoryRef) (object : ObjectInputRef)
  : EaRepositoryAddResult * Heap :=
  let id := trim (hi_id object) in
  if negb (truthy id) then (Fail err_object_id_required, s)
  else if negb (isValidObjectType (hi_type object)) then
    (Fail (err_invalid_object_type (hi_type object)), s)
  else if map_has (read_map s (objects_ref this)) id then
    (Fail (err_duplicate_object_id id), s)
  else
    let '(a, s1) :=
      match hi_attributes object with
      | Some a => (a, s)
      | None => alloc_bag s ∅
      end in
    (Ok,
     write_map s1 (objects_ref this)
       (map_set (read_map s1 (objects_ref this)) id
          {| h_id := id; h_type := hi_type object; h_attributes := a |})).

Definition write_array (s : Heap) (l : loc) (a : list RelationshipRef) : Heap :=
  {| bags := bags s; maps := maps s; arrays := <[l := a]> (arrays s) |}.

Record RelationshipInputRef : Type := {
  hi_fromId : string;
  hi_toId : string;
  hi_rtype : string;
  hi_rattributes : option loc;
}.

Definition validateReference (s : Heap) (this : RepositoryRef) (id : string)
  : EaRepositoryAddResult :=
  let key := trim id in
  if negb (truthy key) then Fail err_reference_required
  else if negb (map_has (read_map s (objects_ref this)) key)
       then Fail (err_unknown_object_id key)
       else Ok.

Definition addRelationship (s : Heap) (this : RepositoryRef)
  (rel : RelationshipInputRef) : EaRepositoryAddResult * Heap :=
  let fromId := trim (hi_fromId rel) in
  let toId := trim (hi_toId rel) in
  if negb (truthy fromId) then (Fail err_from_required, s)
  else if negb (truthy toId) then (Fail err_to_required, s)
  else if negb (isValidRelationshipType (hi_rtype rel)) then
    (Fail (err_invalid_relationship_type (hi_rtype rel)), s)
  else
    match validateReference s this fromId with
    | Fail e => (Fail e, s)
    | Ok =>
    match validateReference s this toId with
    | Fail e => (Fail e, s)
    | Ok =>
    match record_get RELATIONSHIP_TYPE_DEFINITIONS (hi_rtype rel) with
    | None => (Fail (err_no_definition (hi_rtype rel)), s)
    | Some relationshipTypeDef =>
    match map_get (read_map s (objects_ref this)) fromId with
    | None => (Fail (err_unknown_object_id fromId), s)
    | Some fromObj =>
    match map_get (read_map s (objects_ref this)) toId with
    | None => (Fail (err_unknown_object_id toId), s)
    | Some toObj =>
        if negb (includes (fromTypes relationshipTypeDef) (h_type fromObj))
           || negb (includes (toTypes relationshipTypeDef) (h_type toObj))
        then (Fail (err_invalid_endpoints (hi_rtype rel) (h_type fromObj)
                      (h_type toObj)), s)
        else
          let '(a, s1) :=
            match hi_rattributes rel with
            | Some a => (a, s)
            | None => alloc_bag s ∅
            end in
          (Ok,
           write_array s1 (relationships_ref this)
             (read_array s1 (relationships_ref this) ++
                [ {| h_fromId := fromId; h_toId := toId;
                     h_rtype := hi_rtype rel; h_rattributes := a |} ]))
    end end end end end.

(** The patch is read, never kept: the object gets a new bag. *)
Definition updateObjectAttributes (s : Heap) (this : RepositoryRef) (id : string)
  (patch : Attrs) (mode : UpdateMode) : EaRepositoryAddResult * Heap :=
  let key := trim id in
  if negb (truthy key) then (Fail err_object_id_required, s)
  else
    match map_get (read_map s (objects_ref this)) key with
    | None => (Fail (err_unknown_object_id key), s)
    | Some existing =>
        let nextAttributes :=
          match mode with
          | replace => patch
          | merge => patch ∪ read_bag s (h_attributes existing)
          end in
        let '(a, s1) := alloc_bag s nextAttributes in
        (Ok,
         write_map s1 (objects_ref this)
           (map_set (read_map s1 (objects_ref this)) key
              {| h_id := h_id existing; h_type := h_type existing;
                 h_attributes := a |}))
    end.

(** The mutating calls of the repository, and a run of them on one
    instance. *)
Inductive Mutation : Type :=
  | CallAddObject (object : ObjectInputRef)
  | CallAddRelationship (rel : RelationshipInputRef)
  | CallUpdateObjectAttributes (id : string) (patch : Attrs) (mode : UpdateMode).

Definition mutate (this : RepositoryRef) (s : Heap) (m : Mutation) : Heap :=
  match m with
  | CallAddObject object => snd (addObject s this object)
  | CallAddRelationship rel => snd (addRelationship s this rel)
  | CallUpdateObjectAttributes id patch mode =>
      snd (updateObjectAttributes s this id patch mode)
  end.

Definition mutate_all (this : RepositoryRef) (s : Heap) (ms : list Mutation) : Heap :=
  fold_left (mutate this) ms s.

(** [this.objects.has(id)]. *)
Definition has_object (s : Heap) (this : RepositoryRef) (id : string) : bool :=
  map_has (read_map s (objects_ref this)) id.

(** The repository a reference denotes: every bag read through. *)
Definition resolve_object (s : Heap) (o : ObjectRef) : EaObject :=
  {| o_id := h_id o; o_type := h_type o;
     o_attributes := read_bag s (h_attributes o) |}.

Definition resolve_relationship (s : Heap) (r : RelationshipRef) : EaRelationship :=
  {| fromId := h_fromId r; toId := h_toId r; r_type := h_rtype r;
     r_attributes := read_bag s (h_rattributes r) |}.

Definition resolve_entry (s : Heap) (entry : string * ObjectRef)
  : string * EaObject :=
  (fst entry, resolve_object s (snd entry)).

Definition content (s : Heap) (this : RepositoryRef) : EaRepository :=
  {| objects := map (resolve_entry s) (read_map s (objects_ref this));
     relationships :=
       map (resolve_relationship s) (read_array s (relationships_ref this)) |}.

(** The argument of [addObject], with the caller's bag read through. *)
Definition resolve_input (s : Heap) (object : ObjectInputRef) : ObjectInput :=
  {| in_id := hi_id object; in_type := hi_type object;
     in_attributes := read_bag s <$> hi_attributes object |}.

(** The bags a repository reaches. *)
Definition bag_locs (s : Heap) (this : RepositoryRef) : list loc :=
  map (fun entry => h_attributes (snd entry)) (read_map s (objects_ref this))
  ++ map h_rattributes (read_array s (relationships_ref this)).

(** The repository lives in the heap: its Map, its array and the bags it
    reaches are allocated, and its Map has no repeated key. *)
Definition allocated (s : Heap) (this : RepositoryRef) : Prop :=
  objects_ref this ∈ dom (maps s)
  /\ relationships_ref this ∈ dom (arrays s)
  /\ (forall l, In l (bag_locs s this) -> l ∈ dom (bags s))
  /\ NoDup (map_keys (read_map s (objects_ref this))).

(** Every cell of [s] is found unchanged in [s']. *)
Definition preserved (s s' : Heap) : Prop :=
  (forall l, l ∈ dom (bags s) -> bags s' !! l = bags s !! l)
  /\ (forall l, l ∈ dom (maps s) -> maps s' !! l = maps s !! l)
  /\ (forall l, l ∈ dom (arrays s) -> arrays s' !! l = arrays s !! l).

End Store.

(** ** GraphView: the graph a diagram draws from the repository *)

Module GraphView.

Record EaGraphNode : Type := {
  n_id : string;
  label : string;
  objectType : string;
  n_attributes : Attrs;
}.

Record EaGraphEdge : Type := {
  e_fromId : string;
  e_toId : string;
  relationshipType : string;
  e_attributes : Attrs;
}.

Record GraphData : Type := {
  nodes : list EaGraphNode;
  edges : list EaGraphEdge;
}.

Definition no_graph : GraphData := {| nodes := []; edges := [] |}.

(** [Set.prototype.add]: a member is not added twice, a new one goes
    last. *)
Definition set_add (s : list string) (x : string) : list string :=
  if includes s x then s else s ++ [x].

(** The adjacency Map: each source id with the targets of its edges, in
    the order of the edges. *)
Definition outgoing_of (edges : list EaGraphEdge) : JsMap (list string) :=
  fold_left
    (fun outgoing e =>
       match map_get outgoing (e_fromId e) with
       | Some current => map_set outgoing (e_fromId e) (current ++ [e_toId e])
       | None => map_set outgoing (e_fromId e) [e_toId e]
       end)
    edges [].

(** One neighbour of a frontier node: a new one joins [included] and
    the next frontier. *)
Definition visit (acc : list string * list string) (neighborId : string)
  : list string * list string :=
  let '(included, next) := acc in
  if negb (includes included neighborId)
  then (set_add included neighborId, set_add next neighborId)
  else acc.

Definition expand (outgoing : JsMap (list string))
  (acc : list string * list string) (nodeId : string) : list string * list string :=
  let neighbors := default [] (map_get outgoing nodeId) in
  fold_left visit neighbors acc.

(** The loop [for (let i = 0; i < depth; i += 1)], left early when the
    frontier is empty. *)
Fixpoint levels (outgoing : JsMap (list string)) (depth : nat)
  (included frontier : list string) : list string :=
  match depth with
  | 0 => included
  | S depth' =>
      let '(included', next) := fold_left (expand outgoing) frontier (included, []) in
      if length next =? 0 then included'
      else levels outgoing depth' included' next
  end.

Definition filterGraphByDepth (data : GraphData) (rootId : string) (depth : nat)
  : GraphData :=
  if negb (truthy rootId) then no_graph
  else
    let outgoing := outgoing_of (edges data) in
    let included := levels outgoing depth [rootId] [rootId] in
    {| nodes := List.filter (fun n => includes included (n_id n)) (nodes data);
       edges := List.filter (fun e => includes included (e_fromId e)
                                      && includes included (e_toId e))
                            (edges data) |}.

(** What Cytoscape is given. *)
Inductive Element : Type :=
  | NodeElement (id label objectType : string)
  | EdgeElement (id source target relationshipType : string).

Inductive ViewMode : Type := landscape | impact.

(** [filtered.edges ... .map((e, index) => ...)]: the edges numbered
    from [index]. *)
Fixpoint edge_elements (index : nat) (l : list EaGraphEdge) : list Element :=
  match l with
  | [] => []
  | e :: rest =>
      EdgeElement ("e-" +:+ show_nat index) (e_fromId e) (e_toId e)
                  (relationshipType e)
      :: edge_elements (S index) rest
  end.

Section Rendering.

(** The lifecycle policy comes from a module outside this development. *)
Variable isObjectVisibleForLifecycleCoverage : option string -> Attrs -> bool.

Definition node_of (obj : EaObject) : EaGraphNode :=
  let name :=
    match o_attributes obj !! "name" with
    | Some (JStr s) => if truthy (trim s) then s else o_id obj
    | _ => o_id obj
    end in
  {| n_id := o_id obj; label := name; objectType := o_type obj;
     n_attributes := o_attributes obj |}.

Definition graph_nodes (eaRepository : EaRepository) (allowedObjectTypes : list string)
  (lifecycleCoverage : option string) : list EaGraphNode :=
  map node_of
    (List.filter
       (fun obj => isObjectVisibleForLifecycleCoverage lifecycleCoverage
                     (o_attributes obj))
       (List.filter
          (fun obj => negb (attribute_true (o_attributes obj) "_deleted"))
          (List.filter
             (fun obj => negb (attribute_true (o_attributes obj) "hiddenFromDiagrams"))
             (List.filter
                (fun obj => includes allowedObjectTypes (o_type obj))
                (map_values (objects eaRepository)))))).

Definition graph_edges (eaRepository : EaRepository)
  (allowedRelationshipTypes : list string) (nodes : list EaGraphNode)
  : list EaGraphEdge :=
  let nodeIdSet := map n_id nodes in
  map (fun r => {| e_fromId := fromId r; e_toId := toId r;
                   relationshipType := r_type r; e_attributes := r_attributes r |})
    (List.filter
       (fun r => includes nodeIdSet (fromId r) && includes nodeIdSet (toId r))
       (List.filter
          (fun r => includes allowedRelationshipTypes (r_type r))
          (relationships eaRepository))).

(** The graph of the effect that draws the diagram, and the element
    list built from it. *)
Definition filtered_graph (eaRepository : EaRepository)
  (allowedObjectTypes allowedRelationshipTypes : list string)
  (lifecycleCoverage : option string) (viewMode : ViewMode)
  (rootNodeId : option string) (depth : nat) : GraphData :=
  let nodes := graph_nodes eaRepository allowedObjectTypes lifecycleCoverage in
  let edges := graph_edges eaRepository allowedRelationshipTypes nodes in
  let data := {| nodes := nodes; edges := edges |} in
  let resolvedRootId :=
    match rootNodeId with
    | Some root =>
        if truthy root && existsb (fun n => String.eqb (n_id n) root) nodes
        then root else EmptyString
    | None => EmptyString
    end in
  match viewMode with
  | landscape => data
  | impact =>
      if truthy resolvedRootId then filterGraphByDepth data resolvedRootId depth
      else no_graph
  end.

Definition elements (eaRepository : EaRepository)
  (allowedObjectTypes allowedRelationshipTypes : list string)
  (lifecycleCoverage : option string) (viewMode : ViewMode)
  (rootNodeId : option string) (depth : nat) : list Element :=
  let filtered :=
    filtered_graph eaRepository allowedObjectTypes allowedRelationshipTypes
      lifecycleCoverage viewMode rootNodeId depth in
  let nodeById := map n_id (nodes filtered) in
  map (fun n => NodeElement (n_id n) (label n) (objectType n)) (nodes filtered)
  ++ edge_elements 0
       (List.filter
          (fun e => includes nodeById (e_fromId e) && includes nodeById (e_toId e))
          (edges filtered)).

End Rendering.

(** [v] can be reached from [root] along at most [k] edges. *)
Inductive within (edges : list EaGraphEdge) (root : string) : nat -> string -> Prop :=
  | within_root (k : nat) : within edges root k root
  | within_step (k : nat) (e : EaGraphEdge) :
      within edges root k (e_fromId e) -> In e edges ->
      within edges root (S k) (e_toId e).

(** The ids of the nodes and the endpoints of the edges in an element
    list. *)
Definition node_ids (l : list Element) : list string :=
  flat_map (fun el => match el with
                      | NodeElement id _ _ => [id]
                      | EdgeElement _ _ _ _ => []
                      end) l.

Definition edge_ends (l : list Element) : list (string * string) :=
  flat_map (fun el => match el with
                      | NodeElement _ _ _ => []
                      | EdgeElement _ source target _ => [(source, target)]
                      end) l.

End GraphView.

(** ** The shell: explorer tree, catalogue table and object table

    The callbacks of the shell propose a new repository to
    [setEaRepository] as a function of the previous one.  Each function
    below is such an updater with the error it shows, if any; [clone]
    gives a repository of the same content, so the updater works on the
    content of [prev]. *)

From Stdlib Require Import DecimalNat.

Module ExplorerTree.

Definition nameForObject (obj : EaObject) : string :=
  let name := trimmed_text (o_attributes obj !! "name") in
  if truthy name then name else o_id obj.

Definition ID_PREFIXES : list (string * string) :=
  [ ("Enterprise", "ent-"); ("Application", "app-");
    ("ApplicationService", "appsvc-"); ("Technology", "tech-");
    ("Programme", "prog-"); ("Project", "proj-"); ("Capability", "cap-");
    ("BusinessService", "bizsvc-"); ("BusinessProcess", "proc-");
    ("Department", "dept-"); ("Principle", "principle-");
    ("Requirement", "req-") ].

(** The [switch] over the type, with its [default] branch. *)
Definition defaultIdPrefixForType (type : string) : string :=
  match record_get ID_PREFIXES type with
  | Some prefix => prefix
  | None => toLowerCase type +:+ "-"
  end.

(** [`${normalized}-${i}`]. *)
Definition numbered (normalized : string) (i : nat) : string :=
  normalized +:+ "-" +:+ show_nat i.

(** The loop [while (existingIds.has(`${normalized}-${i}`)) i += 1],
    for at most [steps] turns. *)
Fixpoint first_free (existingIds : list string) (normalized : string)
  (i steps : nat) : string :=
  match steps with
  | 0 => numbered normalized i
  | S steps' =>
      if includes existingIds (numbered normalized i)
      then first_free existingIds normalized (S i) steps'
      else numbered normalized i
  end.

(** A set with [n] members holds at most [n] of the numbered
    candidates, so [n] turns of the loop are enough. *)
Definition makeUniqueId (existingIds : list string) (base : string) : string :=
  let normalized := if truthy (trim base) then trim base else "new" in
  if negb (includes existingIds normalized) then normalized
  else first_free existingIds normalized 2 (length existingIds).

Definition countLiveObjectsByType (objectsById : JsMap EaObject) (type : string) : nat :=
  length (List.filter
            (fun o => String.eqb (o_type o) type
                      && negb (isSoftDeleted (o_attributes o)))
            (map_values objectsById)).

Definition warn_no_repository : string :=
  "No repository loaded. Create a repository first.".
Definition warn_programme_first : string :=
  "Create at least one Programme before creating other elements.".
Definition warn_programme_types : string :=
  "Programme scope is focused: only Programmes, Projects, Capabilities, "
  +:+ "and Applications can be created.".
Definition warn_domain_types : string :=
  "Domain scope is focused: only Capabilities, Business Services, "
  +:+ "Applications, and Application Services can be created.".
Definition warn_one_enterprise : string :=
  "Business Unit scope allows exactly one Enterprise root.".

(** The checks [createObject] makes before it opens its dialog: the
    warning shown, or nothing. *)
Definition createObject_guard (eaRepository : option EaRepository)
  (architectureScope : option string) (type : string) : option string :=
  match eaRepository with
  | None => Some warn_no_repository
  | Some repo =>
      let programme :=
        if scope_is architectureScope "Programme" then
          let programmeCount := countLiveObjectsByType (objects repo) "Programme" in
          if (programmeCount <? 1) && negb (String.eqb type "Programme")
          then Some warn_programme_first
          else if negb (includes ["Programme"; "Project"; "Capability"; "Application"]
                                 type)
          then Some warn_programme_types
          else None
        else None in
      match programme with
      | Some warning => Some warning
      | None =>
          let domain :=
            if scope_is architectureScope "Domain" then
              if negb (includes ["Capability"; "BusinessService"; "Application";
                                 "ApplicationService"] type)
              then Some warn_domain_types
              else None
            else None in
          match domain with
          | Some warning => Some warning
          | None =>
              if scope_is architectureScope "Business Unit"
                 && String.eqb type "Enterprise"
              then
                let liveEnterprises :=
                  countLiveObjectsByType (objects repo) "Enterprise" in
                if 1 <=? liveEnterprises then Some warn_one_enterprise else None
              else None
          end
      end
  end.

(** What the dialog of [createObject] holds when it is confirmed. *)
Record CreateForm : Type := {
  f_name : string;
  f_description : string;
  f_lifecycleState : string;
  f_ownerRole : string;
  f_ownerName : string;
}.

Definition created_attributes (form : CreateForm) (architectureScope : option string)
  (repositoryName : option string) : Attrs :=
  let entered : Attrs :=
    {[ "name" := JStr (trim (f_name form));
       "description" := JStr (trim (f_description form));
       "lifecycleState" := JStr (f_lifecycleState form);
       "ownerRole" := JStr (trim (f_ownerRole form));
       "ownerName" := JStr (trim (f_ownerName form)) ]} in
  if scope_is architectureScope "Domain" then
    let domain := trim (default EmptyString repositoryName) in
    <[ "domainId" := JStr (if truthy domain then domain else "domain") ]> entered
  else entered.

(** The updater [createObject] hands over once the dialog is confirmed
    with a name that is not blank. *)
Definition createObject_updater (defaultId type : string) (form : CreateForm)
  (architectureScope repositoryName : option string) (prev : option EaRepository)
  : option string * option EaRepository :=
  match prev with
  | None => (None, prev)
  | Some repo =>
      match addObject repo
              {| in_id := defaultId; in_type := type;
                 in_attributes :=
                   Some (created_attributes form architectureScope repositoryName) |}
      with
      | (Fail error, _) => (Some error, prev)
      | (Ok, next) => (None, Some next)
      end
  end.

(** [now] is the reading of [Date.now()]. *)
Definition duplicateObject_updater (src : EaObject) (now : nat)
  (prev : option EaRepository) : option string * option EaRepository :=
  match prev with
  | None => (None, prev)
  | Some repo =>
      let base := defaultIdPrefixForType (o_type src) +:+ "copy-" +:+ show_nat now in
      let newId := makeUniqueId (map_keys (objects repo)) base in
      match addObject repo
              {| in_id := newId; in_type := o_type src;
                 in_attributes :=
                   Some (<[ "name" := JStr (nameForObject src +:+ " (Copy)") ]>
                           (o_attributes src)) |}
      with
      | (Fail error, _) => (Some error, prev)
      | (Ok, next) => (None, Some next)
      end
  end.

(** Deleting an element marks it. *)
Definition deleteObject_updater (id : string) (prev : option EaRepository)
  : option string * option EaRepository :=
  match prev with
  | None => (None, prev)
  | Some repo =>
      match updateObjectAttributes repo id {[ "_deleted" := JBool true ]} merge with
      | (Fail error, _) => (Some error, prev)
      | (Ok, next) => (None, Some next)
      end
  end.

End ExplorerTree.

Module CatalogTableTab.

Definition layerForObjectType (type : string) : string :=
  if String.eqb type "Enterprise" || String.eqb type "Capability"
     || String.eqb type "CapabilityCategory" || String.eqb type "SubCapability"
     || String.eqb type "BusinessService" || String.eqb type "BusinessProcess"
     || String.eqb type "Department"
  then "Business"
  else if String.eqb type "Application" || String.eqb type "ApplicationService"
  then "Application"
  else if String.eqb type "Technology" then "Technology"
  else if String.eqb type "Programme" || String.eqb type "Project"
          || String.eqb type "Principle" || String.eqb type "Requirement"
  then "Strategy"
  else "Unknown".

(** The layer of a definition as the string the source holds. *)
Definition layer_name (layer : EaLayer) : string :=
  match layer with
  | Strategy => "Strategy"
  | Business => "Business"
  | Application => "Application"
  | Technology => "Technology"
  end.

End CatalogTableTab.

Module ObjectTableTab.

(** The relationship types the dialog offers for an element of type
    [fromType]. *)
Definition relationshipOptions (fromType : string) (referenceFramework : option string)
  : list string :=
  let allowedOutgoing :=
    match record_get OBJECT_TYPE_DEFINITIONS fromType with
    | Some def => allowedOutgoingRelationships def
    | None => []
    end in
  List.filter
    (fun t => isRelationshipTypeAllowedForReferenceFramework referenceFramework t)
    (List.filter isValidRelationshipType allowedOutgoing).

(** The updater of the dialog, for the element [id], the target and the
    type picked. *)
Definition createRelationship_updater (id finalTo finalType : string)
  (prev : option EaRepository) : option string * option EaRepository :=
  match prev with
  | None => (None, prev)
  | Some repo =>
      match addRelationship repo
              {| in_fromId := id; in_toId := finalTo; in_rtype := finalType;
                 in_rattributes := Some ∅ |}
      with
      | (Fail error, _) => (Some error, prev)
      | (Ok, next) => (None, Some next)
      end
  end.

(** A row of the relationship table names a relationship by its type
    and its two ends. *)
Definition deleteRelationship_updater (rel_type rel_fromId rel_toId : string)
  (prev : option EaRepository) : option EaRepository :=
  match prev with
  | None => prev
  | Some repo =>
      Some {| objects := objects repo;
              relationships :=
                List.filter
                  (fun r => negb (String.eqb (r_type r) rel_type
                                  && String.eqb (fromId r) rel_fromId
                                  && String.eqb (toId r) rel_toId))
                  (relationships repo) |}
  end.

End ObjectTableTab.

(** ** Sample data *)

Module Samples.

Definition obj (id type : string) : ObjectInput :=
  {| in_id := id; in_type := type; in_attributes := None |}.

Definition named (id type name : string) : ObjectInput :=
  {| in_id := id; in_type := type;
     in_attributes := Some {[ "name" := JStr name ]} |}.

Definition rel (fromId type toId : string) : RelationshipInput :=
  {| in_fromId := fromId; in_toId := toId; in_rtype := type;
     in_rattributes := None |}.

(** An enterprise with one department, one capability and one
    business service. *)
Definition repo_org : EaRepository :=
  load_objects Repository.empty
    [ obj "ent-root" "Enterprise"; obj "dep-1" "Department";
      obj "cap-1" "Capability"; obj "svc-1" "BusinessService" ].

Definition view (id name vt : string) (elementTypes relationshipTypes : list string)
  : ViewDefinition :=
  {| v_id := id; v_name := name; viewType := vt;
     allowedElementTypes := elementTypes;
     allowedRelationshipTypes := relationshipTypes;
     v_other := [] |}.

(** A capability map that lists REALIZED_BY without BusinessService. *)
Definition capability_view : ViewDefinition :=
  view "view-1" "Capabilities" "CapabilityMap" ["Capability"] ["REALIZED_BY"].

(** The same view without an id. *)
Definition capability_view_no_id : ViewDefinition :=
  view " " "Capabilities" "CapabilityMap" ["Capability"] ["REALIZED_BY"].

(** A capability map whose element types cover its relationship type. *)
Definition traceability_view (id name : string) : ViewDefinition :=
  view id name "CapabilityMap" ["Capability"; "BusinessService"] ["REALIZED_BY"].

(** A stand-in governance engine: every object without a non-blank
    [name] is one mandatory finding, and there is no other debt. *)
Definition name_debt (repo : EaRepository) (now : Time) (coverage : string)
  : GovernanceSummary :=
  let missing :=
    length (List.filter
              (fun o => match o_attributes o !! "name" with
                        | Some (JStr s) => negb (truthy (trim s))
                        | _ => true
                        end)
              (map_values (objects repo))) in
  {| mandatoryFindingCount := missing;
     invalidRelationshipInsertCount := 0;
     relationshipErrorCount := 0;
     relationshipWarningCount := 0;
     lifecycleTagMissingCount := 0;
     total := missing |}.

(** A metadata validator that accepts what it is given. *)
Definition accept_metadata (md : EaRepositoryMetadata)
  : string + EaRepositoryMetadata := inr md.

Definition strict_metadata : EaRepositoryMetadata :=
  {| repositoryName := "Sample"; architectureScope := None;
     referenceFramework := None; governanceMode := "Strict";
     lifecycleCoverage := "Both" |}.

Definition advisory_metadata : EaRepositoryMetadata :=
  {| repositoryName := "Sample"; architectureScope := None;
     referenceFramework := None; governanceMode := "Advisory";
     lifecycleCoverage := "Both" |}.

(** The provider right after a repository was created, before any
    effect has run. *)
Definition fresh_state (md : EaRepositoryMetadata) : State :=
  {| eaRepository := Some Repository.empty; metadata := Some md;
     history :=
       {| undoStack := []; redoStack := []; lastSerialized := None;
          suppressHistory := false; canUndo := false; canRedo := false |};
     governance :=
       {| lastSaveBlockedKey := None; saveBlockedModal := false;
          lastAdvisoryWarnKey := None |};
     storage := None; trace := [] |}.

(** One application, first without a name, then named. *)
Definition repo_unnamed : EaRepository :=
  snd (addObject Repository.empty (obj "app-1" "Application")).

Definition repo_named : EaRepository :=
  snd (updateObjectAttributes repo_unnamed "app-1"
         {[ "name" := JStr "Billing" ]} merge).

Definition repo_two : EaRepository :=
  snd (addObject repo_named (named "app-2" "Application" "Ledger")).

Definition repo_three : EaRepository :=
  snd (addRelationship repo_two (rel "app-1" "DEPENDS_ON" "app-2")).

(** The provider after the first effect run on a new, empty
    repository. *)
Definition started_state : State :=
  Context.persist name_debt 0 (fresh_state advisory_metadata).

(** A heap holding one repository with one application. *)
Definition empty_heap : Store.Heap :=
  {| Store.bags := ∅; Store.maps := ∅; Store.arrays := ∅ |}.

Definition heap_this : Store.RepositoryRef :=
  fst (Store.new_repository empty_heap).

Definition heap_one : Store.Heap :=
  snd (Store.addObject (snd (Store.new_repository empty_heap)) heap_this
         {| Store.hi_id := "app-1"; Store.hi_type := "Application";
            Store.hi_attributes := None |}).

Definition second_application : Store.ObjectInputRef :=
  {| Store.hi_id := "app-2"; Store.hi_type := "Application";
     Store.hi_attributes := None |}.

End Samples.

(** ** More sample data *)

Module Cases.

(** A rendering of attribute bags that tells no two apart. *)
Definition plain_text (attributes : Attrs) : string := "{}".

Definition domain_metadata : EaRepositoryMetadata :=
  {| repositoryName := "Payments"; architectureScope := Some "Domain";
     referenceFramework := None; governanceMode := "Advisory";
     lifecycleCoverage := "Both" |}.

(** The provider holding one named application under Domain scope. *)
Definition domain_state : State :=
  with_repository (Samples.fresh_state domain_metadata)
    (Some Samples.repo_named) (Some domain_metadata).

(** Two applications without a name. *)
Definition repo_two_unnamed : EaRepository :=
  snd (addObject Samples.repo_unnamed (Samples.obj "app-2" "Application")).

(** A run of three blocked evaluations: one missing name, two, and one
    again. *)
Definition back_and_forth : list (EaRepository * Time) :=
  [ (Samples.repo_unnamed, 1); (repo_two_unnamed, 2); (Samples.repo_unnamed, 3) ].

End Cases.

(** * Properties *)

(** ** Strings and lists *)

Section Examples.

Example trim_outer_blanks :
  trim (String (ascii_of_nat 9) " ent root  ") = "ent root".
Proof. reflexivity. Qed.

Example trim_blank : trim "   " = EmptyString.
Proof. reflexivity. Qed.

Example toLowerCase_mixed : toLowerCase "Capability MAP-1" = "capability map-1".
Proof. reflexivity. Qed.

Example normalizeList_first_occurrences :
  normalizeList ["B"; " A"; "A"; ""; "B "; "C"] = ["B"; "A"; "C"].
Proof. reflexivity. Qed.

Example join_endpoint_types :
  join " | " ["Capability"; "Application"; "Technology"]
  = "Capability | Application | Technology".
Proof. reflexivity. Qed.

Example map_set_keeps_position :
  map_set [("a", 1); ("b", 2)] "a" 3 = [("a", 3); ("b", 2)]
  /\ map_set [("a", 1); ("b", 2)] "c" 3 = [("a", 1); ("b", 2); ("c", 3)].
Proof. split; reflexivity. Qed.

Example debt_key_format :
  debt_key {| mandatoryFindingCount := 12; invalidRelationshipInsertCount := 0;
              relationshipErrorCount := 3; relationshipWarningCount := 1;
              lifecycleTagMissingCount := 0; total := 16 |}
  = "12|0|3|1|0".
Proof. reflexivity. Qed.

End Examples.

Section StringFacts.

Lemma includes_In (l : list string) (x : string) :
  includes l x = true <-> In x l.
Proof.
  unfold includes. rewrite existsb_exists. split.
  - intros [y [Hy Heq]]. apply String.eqb_eq in Heq. now subst.
  - intros Hin. exists x. split; [assumption | apply String.eqb_refl].
Qed.

Lemma includes_false (l : list string) (x : string) :
  includes l x = false <-> ~ In x l.
Proof.
  rewrite <- includes_In. destruct (includes l x); split; intros H;
    try congruence; try (intros ?; congruence).
Qed.

Lemma truthy_false (s : string) : truthy s = false <-> s = EmptyString.
Proof. destruct s; simpl; split; congruence. Qed.

Lemma truthy_true (s : string) : truthy s = true <-> s <> EmptyString.
Proof. destruct s; simpl; split; congruence. Qed.

End StringFacts.

(** *** Trimming *)

Section TrimFacts.

Lemma trimEnd_cons_keep (c : ascii) (s : string) :
  is_white_space c = false -> trimEnd (String c s) = String c (trimEnd s).
Proof.
  intros Hc. simpl. destruct (trimEnd s); [now rewrite Hc | reflexivity].
Qed.

Lemma trimEnd_idempotent (s : string) : trimEnd (trimEnd s) = trimEnd s.
Proof.
  induction s as [| c s IH]; [reflexivity |].
  simpl. destruct (trimEnd s) as [| d r] eqn:Hr.
  - destruct (is_white_space c) eqn:Hc; [reflexivity |].
    simpl. now rewrite Hc.
  - change (trimEnd (String c (String d r)) = String c (String d r)).
    simpl trimEnd at 1. fold trimEnd.
    change (match trimEnd (String d r) with
            | EmptyString =>
                if is_white_space c then EmptyString else String c EmptyString
            | String a r0 => String c (String a r0)
            end = String c (String d r)).
    now rewrite IH.
Qed.

Lemma trimStart_head (s : string) :
  trimStart s = EmptyString
  \/ exists c r, trimStart s = String c r /\ is_white_space c = false.
Proof.
  induction s as [| c s IH]; [now left |].
  simpl. destruct (is_white_space c) eqn:Hc; [exact IH |].
  right. now exists c, s.
Qed.

Lemma trimStart_trim (s : string) : trimStart (trim s) = trim s.
Proof.
  unfold trim. destruct (trimStart_head s) as [-> | (c & r & -> & Hc)];
    [reflexivity |].
  rewrite trimEnd_cons_keep by assumption. simpl. now rewrite Hc.
Qed.

Lemma trim_idempotent (s : string) : trim (trim s) = trim s.
Proof.
  unfold trim at 1. rewrite trimStart_trim. unfold trim.
  apply trimEnd_idempotent.
Qed.

End TrimFacts.

(** *** Substrings *)

Section SubstringFacts.

Lemma prefix_app (x b : string) : String.prefix x (x +:+ b) = true.
Proof.
  induction x as [| c x IH]; simpl; [now destruct b |].
  destruct (ascii_dec c c); [exact IH | congruence].
Qed.

Lemma string_includes_prefix (x s : string) :
  String.prefix x s = true -> string_includes x s = true.
Proof. intros H. destruct s; cbn [string_includes]; now rewrite H. Qed.

Lemma string_includes_cons (x : string) (c : ascii) (s : string) :
  string_includes x s = true -> string_includes x (String c s) = true.
Proof.
  intros H. change (string_includes x (String c s))
    with (String.prefix x (String c s) || string_includes x s).
  rewrite H. apply orb_true_r.
Qed.

Lemma string_includes_app (a x b : string) :
  string_includes x (a +:+ x +:+ b) = true.
Proof.
  induction a as [| c a IH].
  - change (string_includes x (x +:+ b) = true).
    apply string_includes_prefix, prefix_app.
  - change (string_includes x (String c (a +:+ x +:+ b)) = true).
    apply string_includes_cons, IH.
Qed.

Lemma string_includes_here (x b : string) :
  string_includes x (x +:+ b) = true.
Proof. apply string_includes_prefix, prefix_app. Qed.

Lemma string_includes_skip (a x s : string) :
  string_includes x s = true -> string_includes x (a +:+ s) = true.
Proof.
  intros H. induction a as [| c a IH]; [exact H |].
  change (string_includes x (String c (a +:+ s)) = true).
  apply string_includes_cons, IH.
Qed.

Lemma prefix_app_l (x m r : string) :
  String.prefix x m = true -> String.prefix x (m +:+ r) = true.
Proof.
  revert m. induction x as [| c x IH]; intros m H;
    [destruct (m +:+ r); reflexivity |].
  destruct m as [| d m]; [discriminate |].
  change (String d m +:+ r) with (String d (m +:+ r)).
  simpl in *. destruct (ascii_dec c d); [now apply IH | discriminate].
Qed.

Lemma string_includes_app_l (x m r : string) :
  string_includes x m = true -> string_includes x (m +:+ r) = true.
Proof.
  induction m as [| c m IH]; intros H.
  - cbn [string_includes] in H. rewrite orb_false_r in H.
    destruct x; [| discriminate]. now destruct r.
  - change (String.prefix x (String c m) || string_includes x m = true) in H.
    change (String c m +:+ r) with (String c (m +:+ r)).
    apply orb_prop in H. destruct H as [H | H].
    + apply string_includes_prefix.
      now apply (prefix_app_l x (String c m) r).
    + apply string_includes_cons, IH, H.
Qed.

End SubstringFacts.

(** A segment of a concatenation occurs in it. *)
Ltac find_segment :=
  repeat first [ apply string_includes_here | apply string_includes_skip ].

(** *** Insertion-ordered maps *)

Section JsMapFacts.

Context {V : Type}.

Lemma map_get_set_eq (m : JsMap V) (k : string) (v : V) :
  map_get (map_set m k v) k = Some v.
Proof.
  induction m as [| [k' v'] m IH]; simpl.
  - now rewrite String.eqb_refl.
  - destruct (String.eqb k k') eqn:Hk; simpl.
    + now rewrite String.eqb_refl.
    + now rewrite Hk.
Qed.

Lemma map_get_set_ne (m : JsMap V) (k k' : string) (v : V) :
  k <> k' -> map_get (map_set m k v) k' = map_get m k'.
Proof.
  intros Hne. induction m as [| [k0 v0] m IH]; simpl.
  - destruct (String.eqb k' k) eqn:Hk; [| reflexivity].
    apply String.eqb_eq in Hk. congruence.
  - destruct (String.eqb k k0) eqn:Hk; simpl.
    + apply String.eqb_eq in Hk. subst k0.
      destruct (String.eqb k' k) eqn:Hk'; [| reflexivity].
      apply String.eqb_eq in Hk'. congruence.
    + destruct (String.eqb k' k0); [reflexivity | exact IH].
Qed.

Lemma map_has_set_eq (m : JsMap V) (k : string) (v : V) :
  map_has (map_set m k v) k = true.
Proof. unfold map_has. now rewrite map_get_set_eq. Qed.

Lemma map_set_fresh (m : JsMap V) (k : string) (v : V) :
  map_get m k = None -> map_set m k v = m ++ [(k, v)].
Proof.
  induction m as [| [k' v'] m IH]; simpl; [reflexivity |].
  destruct (String.eqb k k'); [discriminate |].
  intros H. now rewrite IH.
Qed.

Lemma map_get_app_fresh (m : JsMap V) (k k' : string) (v : V) :
  map_get (m ++ [(k, v)]) k' =
  match map_get m k' with
  | Some x => Some x
  | None => if String.eqb k' k then Some v else None
  end.
Proof.
  induction m as [| [k0 v0] m IH]; simpl; [reflexivity |].
  destruct (String.eqb k' k0); [reflexivity | exact IH].
Qed.

End JsMapFacts.

(** ** Metamodel tables and policies *)

Section Tables.

(** C1, as stated, fails: for DECOMPOSES_TO the canonical rule admits
    only Capability at either end, while the full definition admits
    CapabilityCategory, Capability and SubCapability; so the two tables
    are not consistent on every relationship type. *)
Lemma tables_not_consistent :
  tables_consistent_at "DECOMPOSES_TO" = false
  /\ ~ (forall t, In t RELATIONSHIP_TYPES -> tables_consistent_at t = true).
Proof.
  split; [reflexivity |].
  intros H. specialize (H "DECOMPOSES_TO"). 
  assert (Hin : In "DECOMPOSES_TO" RELATIONSHIP_TYPES) by (simpl; auto).
  apply H in Hin. vm_compute in Hin. discriminate.
Qed.

(** C1, amended: every relationship type has an entry in both tables;
    the canonical rule's [from] list is contained in the definition's
    [fromTypes]; for every type other than DELIVERS the rule's [to] list
    is contained in the definition's [toTypes]; and the two tables agree,
    as sets, on both ends for REALIZES, DEPENDS_ON, HOSTED_ON, OWNS, HAS,
    PROVIDES, SUPPORTS and IMPLEMENTS. *)
Theorem tables_compatible (t : string) :
  In t RELATIONSHIP_TYPES ->
  exists rule def,
    getRelationshipEndpointRule t = Some rule
    /\ record_get RELATIONSHIP_TYPE_DEFINITIONS t = Some def
    /\ (forall x, In x (from rule) -> In x (fromTypes def))
    /\ (t <> "DELIVERS" -> forall x, In x (to rule) -> In x (toTypes def))
    /\ (In t AGREEING_TYPES ->
        (forall x, In x (from rule) <-> In x (fromTypes def))
        /\ (forall x, In x (to rule) <-> In x (toTypes def))).
Proof.
  intros Hin. simpl in Hin.
  repeat (destruct Hin as [<- | Hin]); try contradiction;
    eexists _, _; (split; [reflexivity |]); (split; [reflexivity |]);
    simpl; repeat split; intros; try tauto; try congruence;
    repeat match goal with
           | H : _ \/ _ |- _ => destruct H
           | H : @eq string _ _ |- _ => discriminate H
           end; try tauto.
Qed.

(** The amended statement at IMPACTS, a type on which the tables differ:
    the canonical rule stays within the definition. *)
Lemma tables_compatible_witness :
  exists rule def,
    getRelationshipEndpointRule "IMPACTS" = Some rule
    /\ record_get RELATIONSHIP_TYPE_DEFINITIONS "IMPACTS" = Some def
    /\ (forall x, In x (from rule) -> In x (fromTypes def))
    /\ (forall x, In x (to rule) -> In x (toTypes def)).
Proof.
  destruct (tables_compatible "IMPACTS") as (rule & def & Hr & Hd & Hf & Ht & _).
  - simpl. tauto.
  - exists rule, def. repeat split; try assumption.
    apply Ht. discriminate.
Defined.

End Tables.

Section Policies.

(** C7: [isObjectTypeWritableForScope] follows the scope table.  In
    Business Unit scope a type is writable exactly when its layer is
    Business, Application or Technology; in Domain scope exactly when it
    is Capability, BusinessService, Application or ApplicationService;
    in Programme scope exactly when it is Programme, Project, Capability
    or Application; under any other scope, Enterprise and the absent
    scope included, every type is writable. *)
Theorem isObjectTypeWritableForScope_table (scope : option string) (t : string) :
  (isObjectTypeWritableForScope (Some "Business Unit") t = true <->
     layer_of t = Some Business \/ layer_of t = Some Application
     \/ layer_of t = Some Technology)
  /\ (isObjectTypeWritableForScope (Some "Domain") t = true <->
        In t ["Capability"; "BusinessService"; "Application"; "ApplicationService"])
  /\ (isObjectTypeWritableForScope (Some "Programme") t = true <->
        In t ["Programme"; "Project"; "Capability"; "Application"])
  /\ (scope <> Some "Business Unit" -> scope <> Some "Domain" ->
      scope <> Some "Programme" ->
      isObjectTypeWritableForScope scope t = true).
Proof.
  repeat split.
  - unfold isObjectTypeWritableForScope. simpl.
    rewrite !orb_true_iff. unfold layer_is.
    destruct (layer_of t) as [l |]; [| intuition discriminate].
    rewrite !bool_decide_eq_true. intuition congruence.
  - unfold isObjectTypeWritableForScope. simpl.
    rewrite !orb_true_iff. unfold layer_is.
    destruct (layer_of t) as [l |]; [| intuition discriminate].
    rewrite !bool_decide_eq_true. intuition congruence.
  - unfold isObjectTypeWritableForScope. simpl.
    rewrite !orb_true_iff, !String.eqb_eq. intuition.
  - unfold isObjectTypeWritableForScope. simpl.
    rewrite !orb_true_iff, !String.eqb_eq. intuition.
  - unfold isObjectTypeWritableForScope. simpl.
    rewrite !orb_true_iff, !String.eqb_eq. intuition.
  - unfold isObjectTypeWritableForScope. simpl.
    rewrite !orb_true_iff, !String.eqb_eq. intuition.
  - intros Hbu Hd Hp. unfold isObjectTypeWritableForScope.
    destruct scope as [s |]; [| reflexivity].
    destruct (String.eqb_spec s "Programme"); [congruence |].
    destruct (String.eqb_spec s "Business Unit"); [congruence |].
    destruct (String.eqb_spec s "Domain"); [congruence | reflexivity].
Qed.

(** Enterprise scope and the absent scope leave a Strategy-layer type
    writable. *)
Lemma isObjectTypeWritableForScope_table_witness :
  isObjectTypeWritableForScope (Some "Enterprise") "Principle" = true
  /\ isObjectTypeWritableForScope None "Principle" = true.
Proof.
  split.
  - apply (isObjectTypeWritableForScope_table (Some "Enterprise") "Principle");
      discriminate.
  - apply (isObjectTypeWritableForScope_table None "Principle"); discriminate.
Defined.

(** The Business Unit row over the catalogue: the Strategy-layer types
    are the read-only ones. *)
Lemma business_unit_read_only_types (t : string) :
  In t OBJECT_TYPES ->
  (isObjectTypeWritableForScope (Some "Business Unit") t = false <->
   In t ["Programme"; "Project"; "Principle"; "Requirement"]).
Proof.
  intros Hin. simpl in Hin.
  repeat (destruct Hin as [<- | Hin]); try contradiction;
    vm_compute; split; intros H; try discriminate; try reflexivity;
    try tauto;
    repeat match goal with
           | H : _ \/ _ |- _ => destruct H
           | H : @eq string _ _ |- _ => discriminate H
           | H : False |- _ => destruct H
           end.
Qed.

(** C8: under ArchiMate a relationship type is allowed exactly when it is
    one of DECOMPOSES_TO, REALIZES, DEPENDS_ON, HOSTED_ON and IMPACTS,
    and every other relationship type is rejected; under any other
    framework the allow-list is empty and every relationship type is
    allowed.  On an arbitrary string the test is made on its trimmed
    form, and a string that trims to nothing is never allowed. *)
Theorem reference_framework_allow_list :
  (forall t, In t RELATIONSHIP_TYPES ->
     (isRelationshipTypeAllowedForReferenceFramework (Some "ArchiMate") t = true <->
      In t ["DECOMPOSES_TO"; "REALIZES"; "DEPENDS_ON"; "HOSTED_ON"; "IMPACTS"]))
  /\ (forall t,
        isRelationshipTypeAllowedForReferenceFramework (Some "ArchiMate") t = true <->
        In (trim t) ["DECOMPOSES_TO"; "REALIZES"; "DEPENDS_ON"; "HOSTED_ON"; "IMPACTS"])
  /\ (forall fw t, fw <> Some "ArchiMate" -> In t RELATIONSHIP_TYPES ->
        ReferenceFrameworkPolicy.allowedRelationshipTypes
          (getFrameworkRelationshipPolicy fw) = []
        /\ isRelationshipTypeAllowedForReferenceFramework fw t = true)
  /\ (forall fw t, fw <> Some "ArchiMate" -> trim t <> EmptyString ->
        isRelationshipTypeAllowedForReferenceFramework fw t = true).
Proof.
  assert (Hpol : forall fw, fw <> Some "ArchiMate" ->
            getFrameworkRelationshipPolicy fw = DEFAULT_POLICY).
  { intros [s |] Hne; [| reflexivity]. simpl.
    destruct (String.eqb_spec s "ArchiMate"); [congruence | reflexivity]. }
  assert (Hgen : forall t,
     isRelationshipTypeAllowedForReferenceFramework (Some "ArchiMate") t = true <->
     In (trim t) ["DECOMPOSES_TO"; "REALIZES"; "DEPENDS_ON"; "HOSTED_ON"; "IMPACTS"]).
  { intros t. unfold isRelationshipTypeAllowedForReferenceFramework.
    destruct (truthy (trim t)) eqn:Ht.
    - change (includes ARCHIMATE_RELATIONSHIPS (trim t) = true <->
              In (trim t) ARCHIMATE_RELATIONSHIPS).
      apply includes_In.
    - apply truthy_false in Ht. rewrite Ht. simpl.
      split; [discriminate | intuition discriminate]. }
  assert (Hother : forall fw t, fw <> Some "ArchiMate" -> trim t <> EmptyString ->
        isRelationshipTypeAllowedForReferenceFramework fw t = true).
  { intros fw t Hfw Ht. unfold isRelationshipTypeAllowedForReferenceFramework.
    apply truthy_true in Ht. rewrite Ht, (Hpol fw Hfw). reflexivity. }
  assert (Htrim : forall t, In t RELATIONSHIP_TYPES -> trim t = t).
  { intros t Hin. simpl in Hin.
    repeat (destruct Hin as [<- | Hin]); try contradiction; reflexivity. }
  split; [| split; [exact Hgen | split; [| exact Hother]]].
  - intros t Hin. rewrite Hgen, (Htrim t Hin). reflexivity.
  - intros fw t Hfw Hin. split; [now rewrite (Hpol fw Hfw) |].
    apply Hother; [assumption |]. rewrite (Htrim t Hin).
    simpl in Hin.
    repeat (destruct Hin as [<- | Hin]); try contradiction; discriminate.
Qed.

(** The frameworks and types of the policy's own test suite. *)
Lemma reference_framework_allow_list_witness :
  isRelationshipTypeAllowedForReferenceFramework (Some "ArchiMate") "IMPACTS" = true
  /\ isRelationshipTypeAllowedForReferenceFramework (Some "ArchiMate") "OWNS" <> true
  /\ isRelationshipTypeAllowedForReferenceFramework (Some "TOGAF") "OWNS" = true
  /\ isRelationshipTypeAllowedForReferenceFramework (Some "Custom") "DELIVERS" = true
  /\ isRelationshipTypeAllowedForReferenceFramework None "DELIVERS" = true.
Proof.
  destruct reference_framework_allow_list as (Harchi & _ & Hother & _).
  split; [| split; [| split; [| split]]].
  - apply (proj2 (Harchi "IMPACTS" ltac:(simpl; tauto))). simpl. tauto.
  - intros H. apply (proj1 (Harchi "OWNS" ltac:(simpl; tauto))) in H.
    simpl in H. intuition discriminate.
  - apply (Hother (Some "TOGAF") "OWNS"); [discriminate | simpl; tauto].
  - apply (Hother (Some "Custom") "DELIVERS"); [discriminate | simpl; tauto].
  - apply (Hother None "DELIVERS"); [discriminate | simpl; tauto].
Defined.

End Policies.

(** ** The graph store *)

Section RepositoryFacts.

Lemma validateReference_trimmed (this : EaRepository) (s : string) :
  validateReference this (trim s) =
  if negb (truthy (trim s)) then Fail err_reference_required
  else if negb (map_has (objects this) (trim s))
       then Fail (err_unknown_object_id (trim s))
       else Ok.
Proof. unfold validateReference. now rewrite trim_idempotent. Qed.

Lemma relationship_type_defined (ty : string) :
  In ty RELATIONSHIP_TYPES ->
  exists def, record_get RELATIONSHIP_TYPE_DEFINITIONS ty = Some def.
Proof.
  intros Hin. simpl in Hin.
  repeat (destruct Hin as [<- | Hin]); try contradiction;
    eexists; reflexivity.
Qed.

(** Once both ids resolve, the outcome is decided by the endpoint test
    alone. *)
Lemma addRelationship_resolved (this : EaRepository) (rel : RelationshipInput)
  (fromObj toObj : EaObject) (def : EaRelationshipTypeDefinition) :
  trim (in_fromId rel) <> EmptyString ->
  trim (in_toId rel) <> EmptyString ->
  In (in_rtype rel) RELATIONSHIP_TYPES ->
  map_get (objects this) (trim (in_fromId rel)) = Some fromObj ->
  map_get (objects this) (trim (in_toId rel)) = Some toObj ->
  record_get RELATIONSHIP_TYPE_DEFINITIONS (in_rtype rel) = Some def ->
  addRelationship this rel =
  if negb (includes (fromTypes def) (o_type fromObj))
     || negb (includes (toTypes def) (o_type toObj))
  then (Fail (err_invalid_endpoints (in_rtype rel) (o_type fromObj) (o_type toObj)), this)
  else (Ok,
        {| objects := objects this;
           relationships :=
             relationships this ++
               [ {| fromId := trim (in_fromId rel);
                    toId := trim (in_toId rel);
                    r_type := in_rtype rel;
                    r_attributes := default ∅ (in_rattributes rel) |} ] |}).
Proof.
  intros Hf Ht Hty Hfo Hto Hdef.
  apply truthy_true in Hf. apply truthy_true in Ht. apply includes_In in Hty.
  unfold addRelationship. cbv zeta.
  rewrite !validateReference_trimmed.
  unfold isValidRelationshipType, map_has.
  rewrite Hf, Ht, Hty, Hfo, Hto, Hdef. reflexivity.
Qed.

End RepositoryFacts.

Section AddRelationship.

(** C2, as stated, fails in one point: the invalid-endpoints message
    names the relationship type and the two observed endpoint types, and
    none of the allowed types.  A REALIZES edge from an Enterprise to a
    Department is refused with a message in which neither BusinessProcess
    nor Application, the allowed endpoint types, occurs. *)
Lemma addRelationship_message_omits_allowed_types :
  exists msg def,
    addRelationship Samples.repo_org (Samples.rel "ent-root" "REALIZES" "dep-1")
      = (Fail msg, Samples.repo_org)
    /\ msg = err_invalid_endpoints "REALIZES" "Enterprise" "Department"
    /\ record_get RELATIONSHIP_TYPE_DEFINITIONS "REALIZES" = Some def
    /\ fromTypes def ++ toTypes def = ["BusinessProcess"; "Application"]
    /\ forallb (fun allowed => negb (string_includes allowed msg))
         (fromTypes def ++ toTypes def) = true.
Proof.
  eexists _, _. split; [vm_compute; reflexivity |].
  split; [vm_compute; reflexivity |].
  split; [reflexivity |]. split; vm_compute; reflexivity.
Qed.

(** C2, amended: [addRelationship] fails, checking in this order, on a
    blank fromId, a blank toId, an unknown relationship type, a fromId
    and then a toId that resolves to no object, and endpoint object types
    outside the definition's fromTypes/toTypes, with a message that names
    the relationship type and the two observed endpoint types; a failing
    call returns the repository as it was.  Otherwise it appends exactly
    one relationship, with the trimmed ids, and succeeds.  So with both
    endpoints present a triple that is valid per the definition table
    succeeds and an invalid one fails with the invalid-endpoints error. *)
Theorem addRelationship_checks (this : EaRepository) (rel : RelationshipInput) :
  let f := trim (in_fromId rel) in
  let t := trim (in_toId rel) in
  let ty := in_rtype rel in
  (f = EmptyString -> addRelationship this rel = (Fail err_from_required, this))
  /\ (f <> EmptyString -> t = EmptyString ->
      addRelationship this rel = (Fail err_to_required, this))
  /\ (f <> EmptyString -> t <> EmptyString -> ~ In ty RELATIONSHIP_TYPES ->
      addRelationship this rel = (Fail (err_invalid_relationship_type ty), this))
  /\ (f <> EmptyString -> t <> EmptyString -> In ty RELATIONSHIP_TYPES ->
      map_get (objects this) f = None ->
      addRelationship this rel = (Fail (err_unknown_object_id f), this))
  /\ (f <> EmptyString -> t <> EmptyString -> In ty RELATIONSHIP_TYPES ->
      map_get (objects this) f <> None -> map_get (objects this) t = None ->
      addRelationship this rel = (Fail (err_unknown_object_id t), this))
  /\ (forall fromObj toObj,
      f <> EmptyString -> t <> EmptyString -> In ty RELATIONSHIP_TYPES ->
      map_get (objects this) f = Some fromObj ->
      map_get (objects this) t = Some toObj ->
      exists def,
        record_get RELATIONSHIP_TYPE_DEFINITIONS ty = Some def
        /\ (~ (In (o_type fromObj) (fromTypes def) /\ In (o_type toObj) (toTypes def)) ->
            let msg := err_invalid_endpoints ty (o_type fromObj) (o_type toObj) in
            addRelationship this rel = (Fail msg, this)
            /\ string_includes ty msg = true
            /\ string_includes (o_type fromObj) msg = true
            /\ string_includes (o_type toObj) msg = true)
        /\ (In (o_type fromObj) (fromTypes def) -> In (o_type toObj) (toTypes def) ->
            addRelationship this rel =
            (Ok,
             {| objects := objects this;
                relationships :=
                  relationships this ++
                    [ {| fromId := f; toId := t; r_type := ty;
                         r_attributes := default ∅ (in_rattributes rel) |} ] |}))).
Proof.
  cbv zeta.
  split; [| split; [| split; [| split; [| split]]]].
  - intros Hf. unfold addRelationship. cbv zeta. now rewrite Hf.
  - intros Hf Ht. apply truthy_true in Hf.
    unfold addRelationship. cbv zeta. now rewrite Hf, Ht.
  - intros Hf Ht Hty. apply truthy_true in Hf. apply truthy_true in Ht.
    apply includes_false in Hty.
    unfold addRelationship, isValidRelationshipType. cbv zeta.
    now rewrite Hf, Ht, Hty.
  - intros Hf Ht Hty Hfo. apply truthy_true in Hf. apply truthy_true in Ht.
    apply includes_In in Hty.
    unfold addRelationship, isValidRelationshipType. cbv zeta.
    rewrite !validateReference_trimmed. unfold map_has.
    now rewrite Hf, Ht, Hty, Hfo.
  - intros Hf Ht Hty Hfo Hto. apply truthy_true in Hf. apply truthy_true in Ht.
    apply includes_In in Hty.
    unfold addRelationship, isValidRelationshipType. cbv zeta.
    rewrite !validateReference_trimmed. unfold map_has.
    rewrite Hf, Ht, Hty, Hto.
    destruct (map_get (objects this) (trim (in_fromId rel))); [reflexivity | congruence].
  - intros fromObj toObj Hf Ht Hty Hfo Hto.
    destruct (relationship_type_defined _ Hty) as [def Hdef].
    exists def. split; [exact Hdef |].
    rewrite (addRelationship_resolved this rel fromObj toObj def) by assumption.
    split.
    + intros Hbad.
      assert (Hc : negb (includes (fromTypes def) (o_type fromObj))
                   || negb (includes (toTypes def) (o_type toObj)) = true).
      { destruct (includes (fromTypes def) (o_type fromObj)) eqn:H1;
          [| reflexivity].
        destruct (includes (toTypes def) (o_type toObj)) eqn:H2;
          [| reflexivity].
        exfalso. apply Hbad. split; now apply includes_In. }
      rewrite Hc. cbv zeta. split; [reflexivity |].
      unfold err_invalid_endpoints. split; [| split].
      * find_segment.
      * find_segment.
      * find_segment.
    + intros H1 H2. apply includes_In in H1, H2. now rewrite H1, H2.
Qed.

(** The checks at work on an enterprise with a department: HAS from the
    enterprise to the department is appended, and the reverse direction
    is refused as invalid endpoints. *)
Lemma addRelationship_checks_witness :
  addRelationship Samples.repo_org (Samples.rel " ent-root " "HAS" "dep-1")
    = (Ok,
       {| objects := objects Samples.repo_org;
          relationships :=
            [ {| fromId := "ent-root"; toId := "dep-1"; r_type := "HAS";
                 r_attributes := ∅ |} ] |})
  /\ addRelationship Samples.repo_org (Samples.rel "dep-1" "HAS" "ent-root")
    = (Fail (err_invalid_endpoints "HAS" "Department" "Enterprise"),
       Samples.repo_org).
Proof.
  split.
  - destruct (addRelationship_checks Samples.repo_org
                (Samples.rel " ent-root " "HAS" "dep-1"))
      as (_ & _ & _ & _ & _ & H).
    destruct (H {| o_id := "ent-root"; o_type := "Enterprise"; o_attributes := ∅ |}
                {| o_id := "dep-1"; o_type := "Department"; o_attributes := ∅ |})
      as (def & Hdef & _ & Hok);
      [discriminate | discriminate | simpl; tauto | reflexivity | reflexivity |].
    injection Hdef as <-. apply Hok; simpl; tauto.
  - destruct (addRelationship_checks Samples.repo_org
                (Samples.rel "dep-1" "HAS" "ent-root"))
      as (_ & _ & _ & _ & _ & H).
    destruct (H {| o_id := "dep-1"; o_type := "Department"; o_attributes := ∅ |}
                {| o_id := "ent-root"; o_type := "Enterprise"; o_attributes := ∅ |})
      as (def & Hdef & Hbad & _);
      [discriminate | discriminate | simpl; tauto | reflexivity | reflexivity |].
    injection Hdef as <-. apply Hbad. simpl. intros [[H1 | []] _]. discriminate H1.
Defined.

End AddRelationship.

Section Atomicity.

Lemma addObject_fail_unchanged (this : EaRepository) (o : ObjectInput)
  (e : string) (r' : EaRepository) :
  addObject this o = (Fail e, r') -> r' = this.
Proof.
  unfold addObject. cbv zeta.
  repeat match goal with
         | |- context [if ?b then _ else _] => destruct b
         end; intros H; now inversion H.
Qed.

Lemma addRelationship_fail_unchanged (this : EaRepository)
  (rel : RelationshipInput) (e : string) (r' : EaRepository) :
  addRelationship this rel = (Fail e, r') -> r' = this.
Proof.
  unfold addRelationship. cbv zeta.
  repeat match goal with
         | |- context [if ?b then _ else _] => destruct b
         | |- context [match ?x with _ => _ end] => destruct x
         end; intros H; now inversion H.
Qed.

Lemma updateObjectAttributes_fail_unchanged (this : EaRepository) (id : string)
  (patch : Attrs) (mode : UpdateMode) (e : string) (r' : EaRepository) :
  updateObjectAttributes this id patch mode = (Fail e, r') -> r' = this.
Proof.
  unfold updateObjectAttributes. cbv zeta.
  destruct (negb (truthy (trim id))); [intros H; now inversion H |].
  destruct (map_get (objects this) (trim id)); intros H; now inversion H.
Qed.

Lemma addObject_present (this : EaRepository) (o : ObjectInput) :
  map_has (objects this) (trim (in_id o)) = true ->
  is_ok (fst (addObject this o)) = false
  /\ (trim (in_id o) <> EmptyString -> isValidObjectType (in_type o) = true ->
      addObject this o = (Fail (err_duplicate_object_id (trim (in_id o))), this)).
Proof.
  intros Hhas. unfold addObject. cbv zeta. rewrite Hhas. split.
  - destruct (negb (truthy (trim (in_id o)))); [reflexivity |].
    destruct (negb (isValidObjectType (in_type o))); reflexivity.
  - intros Hid Hty. apply truthy_true in Hid. now rewrite Hid, Hty.
Qed.

Lemma addObject_ok_present (this : EaRepository) (o : ObjectInput)
  (r' : EaRepository) :
  addObject this o = (Ok, r') ->
  map_has (objects r') (trim (in_id o)) = true
  /\ trim (in_id o) <> EmptyString.
Proof.
  unfold addObject. cbv zeta.
  destruct (truthy (trim (in_id o))) eqn:Hid; [| discriminate]. simpl.
  destruct (negb (isValidObjectType (in_type o))); [discriminate |].
  destruct (map_has (objects this) (trim (in_id o))); [discriminate |].
  intros H. inversion H; subst; clear H. simpl.
  split; [apply map_has_set_eq | now apply truthy_true].
Qed.

(** C6, as stated, fails in its second half: with the id already
    present, an [addObject] whose type is not an object type fails with
    the invalid-type error, because the type is checked before the id is
    looked up. *)
Lemma addObject_present_id_invalid_type :
  map_has (objects Samples.repo_org) (trim "cap-1") = true
  /\ addObject Samples.repo_org (Samples.obj "cap-1" "Widget")
     = (Fail (err_invalid_object_type "Widget"), Samples.repo_org)
  /\ fst (addObject Samples.repo_org (Samples.obj "cap-1" "Widget"))
     <> Fail (err_duplicate_object_id "cap-1").
Proof.
  split; [reflexivity |]. split; [reflexivity |].
  vm_compute. discriminate.
Qed.

(** C6, amended: every failing call to [addObject], [addRelationship] or
    [updateObjectAttributes] returns the repository it was given, with
    the same objects map and relationships list.  [addObject] never
    succeeds on an id that is already present, nor twice with the same
    id; the failure is the duplicate-id error whenever the id is not
    blank and the given type is an object type. *)
Theorem failing_calls_leave_repository_unchanged :
  (forall this o e r', addObject this o = (Fail e, r') ->
     r' = this /\ objects r' = objects this
     /\ relationships r' = relationships this)
  /\ (forall this rel e r', addRelationship this rel = (Fail e, r') ->
        r' = this /\ objects r' = objects this
        /\ relationships r' = relationships this)
  /\ (forall this id patch mode e r',
        updateObjectAttributes this id patch mode = (Fail e, r') ->
        r' = this /\ objects r' = objects this
        /\ relationships r' = relationships this)
  /\ (forall this o,
        map_has (objects this) (trim (in_id o)) = true ->
        is_ok (fst (addObject this o)) = false
        /\ (trim (in_id o) <> EmptyString ->
            isValidObjectType (in_type o) = true ->
            addObject this o
            = (Fail (err_duplicate_object_id (trim (in_id o))), this)))
  /\ (forall this o r' o',
        addObject this o = (Ok, r') ->
        trim (in_id o') = trim (in_id o) ->
        is_ok (fst (addObject r' o')) = false
        /\ (isValidObjectType (in_type o') = true ->
            addObject r' o'
            = (Fail (err_duplicate_object_id (trim (in_id o))), r'))).
Proof.
  split; [| split; [| split; [| split]]].
  - intros this o e r' H. apply addObject_fail_unchanged in H. now subst.
  - intros this rel e r' H. apply addRelationship_fail_unchanged in H. now subst.
  - intros this id patch mode e r' H.
    apply updateObjectAttributes_fail_unchanged in H. now subst.
  - intros this o. apply addObject_present.
  - intros this o r' o' Hok Hid.
    destruct (addObject_ok_present _ _ _ Hok) as [Hhas Hne].
    rewrite <- Hid in Hhas, Hne.
    destruct (addObject_present r' o' Hhas) as [Hfail Hdup].
    split; [exact Hfail |]. intros Hty. rewrite <- Hid. now apply Hdup.
Qed.

(** Adding a capability twice: the second call is refused as a duplicate
    and the repository stays as the first call left it. *)
Lemma failing_calls_leave_repository_unchanged_witness :
  let r1 := snd (addObject Repository.empty (Samples.obj "cap-1" "Capability")) in
  addObject r1 (Samples.obj " cap-1" "Capability")
  = (Fail (err_duplicate_object_id "cap-1"), r1).
Proof.
  cbv zeta.
  destruct failing_calls_leave_repository_unchanged as (_ & _ & _ & _ & Htwice).
  apply (Htwice Repository.empty (Samples.obj "cap-1" "Capability") _
           (Samples.obj " cap-1" "Capability") eq_refl eq_refl).
  reflexivity.
Defined.

End Atomicity.

(** ** View definitions *)

Section EndpointCoverage.

Lemma prefix_refl (x : string) : String.prefix x x = true.
Proof.
  induction x as [| c x IH]; simpl; [reflexivity |].
  destruct (ascii_dec c c); [exact IH | congruence].
Qed.

Lemma string_includes_join (sep x : string) (l : list string) :
  In x l -> string_includes x (join sep l) = true.
Proof.
  induction l as [| y l IH]; [contradiction |].
  intros [-> | Hin].
  - destruct l as [| z l]; simpl join.
    + apply string_includes_prefix, prefix_refl.
    + apply string_includes_here.
  - destruct l as [| z l]; [contradiction |].
    change (join sep (y :: z :: l)) with (y +:+ sep +:+ join sep (z :: l)).
    apply string_includes_skip, string_includes_skip, IH, Hin.
Qed.

Lemma check_endpoints_uncovered (elementTypes relationshipTypes : list string)
  (t : string) :
  In t relationshipTypes -> uncovered elementTypes t ->
  exists error, check_endpoints elementTypes relationshipTypes = Some error.
Proof.
  intros Hin (ep & Hrule & Hcov).
  induction relationshipTypes as [| r rest IH]; [contradiction |].
  simpl. destruct (getRelationshipEndpointRule r) as [ep' |] eqn:Hr;
    [| eexists; reflexivity].
  destruct (negb (hasAny elementTypes (from ep'))
            || negb (hasAny elementTypes (to ep'))) eqn:Hc;
    [eexists; reflexivity |].
  destruct Hin as [-> | Hin]; [| now apply IH].
  rewrite Hrule in Hr. injection Hr as <-.
  destruct Hcov as [H | H]; rewrite H in Hc; simpl in Hc;
    [discriminate | now rewrite orb_true_r in Hc].
Qed.

(** When every relationship type of the list has endpoint semantics, the
    loop ends on the first uncovered type, with the message that names
    the endpoint types its rule requires. *)
Lemma check_endpoints_message (elementTypes relationshipTypes : list string) :
  (forall t, In t relationshipTypes -> getRelationshipEndpointRule t <> None) ->
  (exists t, In t relationshipTypes /\ uncovered elementTypes t) ->
  exists t endpoints,
    In t relationshipTypes
    /\ getRelationshipEndpointRule t = Some endpoints
    /\ (hasAny elementTypes (from endpoints) = false
        \/ hasAny elementTypes (to endpoints) = false)
    /\ check_endpoints elementTypes relationshipTypes
       = Some (err_requires_endpoints t endpoints elementTypes).
Proof.
  induction relationshipTypes as [| r rest IH]; intros Hknown (t & Hin & Hunc);
    [contradiction |].
  simpl. destruct (getRelationshipEndpointRule r) as [ep |] eqn:Hr.
  - destruct (negb (hasAny elementTypes (from ep))
              || negb (hasAny elementTypes (to ep))) eqn:Hc.
    + exists r, ep. split; [now left |]. split; [exact Hr |].
      split; [| reflexivity].
      apply orb_prop in Hc. destruct Hc as [Hc | Hc]; apply negb_true_iff in Hc;
        [now left | now right].
    + destruct Hin as [-> | Hin].
      * destruct Hunc as (ep' & Hr' & Hcov). rewrite Hr' in Hr. injection Hr as ->.
        destruct Hcov as [H | H]; rewrite H in Hc; simpl in Hc;
          [discriminate | now rewrite orb_true_r in Hc].
      * destruct IH as (t0 & ep0 & Hin0 & Hr0 & Hcov0 & Hres).
        { intros t' Ht'. apply Hknown. now right. }
        { exists t. now split. }
        exists t0, ep0. split; [now right |]. split; [exact Hr0 |].
        split; [exact Hcov0 | exact Hres].
  - exfalso. apply (Hknown r); [now left | exact Hr].
Qed.

Lemma valid_view_type_has_rule (vt : string) :
  isValidViewType vt = true ->
  exists rule, record_get viewTypeRules vt = Some rule.
Proof.
  intros H. apply includes_In in H. simpl in H.
  repeat (destruct H as [<- | H]); try contradiction; eexists; reflexivity.
Qed.

Lemma view_rule_relationships_known (vt : string) (rule : ViewTypeRule) (t : string) :
  record_get viewTypeRules vt = Some rule ->
  In t (rule_relationshipTypes rule) ->
  getRelationshipEndpointRule t <> None.
Proof.
  intros Hrule Hin.
  assert (Hall : forallb (fun r => forallb isKnownRelationshipType
                                     (rule_relationshipTypes (snd r)))
                   viewTypeRules = true) by (vm_compute; reflexivity).
  rewrite forallb_forall in Hall.
  assert (Hmem : In (vt, rule) viewTypeRules).
  { clear -Hrule. induction viewTypeRules as [| [k v] l IH]; [discriminate |].
    simpl in Hrule. destruct (String.eqb_spec vt k).
    - injection Hrule as ->. subst. now left.
    - right. now apply IH. }
  specialize (Hall _ Hmem). simpl in Hall. rewrite forallb_forall in Hall.
  specialize (Hall _ Hin). unfold isKnownRelationshipType in Hall.
  destruct (getRelationshipEndpointRule t); [discriminate | discriminate].
Qed.

Lemma find_none_all {A : Type} (p : A -> bool) (l : list A) :
  (forall x, In x l -> p x = false) -> find p l = None.
Proof.
  induction l as [| a l IH]; intros H; [reflexivity |].
  simpl. rewrite (H a (or_introl eq_refl)). apply IH.
  intros x Hx. apply H. now right.
Qed.

End EndpointCoverage.

Section CreateView.

(** [viewTypeRules] is read only for a valid view type, so the lookup
    never comes back empty. *)
Lemma createView_never_throws (this : ViewRepository) (view : ViewDefinition) :
  fst (createView this view) <> CreateThrow.
Proof.
  unfold createView. cbv zeta.
  destruct (hasEmbeddedPayload view); [discriminate |].
  destruct (negb (truthy (trim (v_id view)))); [discriminate |].
  destruct (bool_decide (is_Some (byId this !! trim (v_id view))));
    [discriminate |].
  destruct (negb (truthy (trim (v_name view)))); [discriminate |].
  destruct (bool_decide
              (is_Some (idByNormalizedName this
                          !! normalizeName (trim (v_name view)))));
    [discriminate |].
  destruct (isValidViewType (viewType view)) eqn:Hvt; [| discriminate].
  cbn [negb].
  destruct (length (normalizeList (allowedElementTypes view)) =? 0);
    [discriminate |].
  destruct (valid_view_type_has_rule _ Hvt) as [rule ->].
  destruct (find _ (normalizeList (allowedElementTypes view))); [discriminate |].
  destruct (find _ (normalizeList (allowedRelationshipTypes view)));
    [discriminate |].
  destruct (check_endpoints _ _); discriminate.
Qed.

(** C5, as stated, fails in one point: a view that also fails an earlier
    check is rejected with that check's message.  The capability map
    with REALIZED_BY and no BusinessService, given a blank id, is
    rejected with the id-is-required message, which names no endpoint
    type. *)
Lemma createView_uncovered_blank_id :
  (exists t, In t (normalizeList (allowedRelationshipTypes Samples.capability_view_no_id))
             /\ uncovered
                  (normalizeList (allowedElementTypes Samples.capability_view_no_id)) t)
  /\ createView (Views.new "project-1") Samples.capability_view_no_id
     = (CreateFail err_id_required, Views.new "project-1")
  /\ string_includes "Capability" err_id_required = false
  /\ string_includes "BusinessService" err_id_required = false.
Proof.
  split.
  - exists "REALIZED_BY". split; [vm_compute; tauto |].
    eexists. split; [reflexivity |]. right. reflexivity.
  - split; [reflexivity |]. split; reflexivity.
Qed.

(** C5, amended: [createView] rejects every view definition in which
    some allowed relationship type's canonical endpoint rule is not
    covered by the allowed element types, that is, the element types
    hold no [from] type or no [to] type of the rule, and leaves the
    repository as it was.  When the view passes the checks that come
    first (no embedded payload, an id and a name that are neither blank
    nor taken, a valid view type, element and relationship types within
    the view type's allow-list), the rejection message is the
    requires-endpoint-types message of the first uncovered relationship
    type, and it names every [from] and [to] type of that rule. *)
Theorem createView_endpoint_coverage (this : ViewRepository) (view : ViewDefinition) :
  let elementTypes := normalizeList (allowedElementTypes view) in
  let relationshipTypes := normalizeList (allowedRelationshipTypes view) in
  (exists t, In t relationshipTypes /\ uncovered elementTypes t) ->
  (exists error, createView this view = (CreateFail error, this))
  /\ (forall rule,
        hasEmbeddedPayload view = None ->
        trim (v_id view) <> EmptyString ->
        byId this !! trim (v_id view) = None ->
        trim (v_name view) <> EmptyString ->
        idByNormalizedName this !! normalizeName (trim (v_name view)) = None ->
        record_get viewTypeRules (viewType view) = Some rule ->
        elementTypes <> [] ->
        (forall t, In t elementTypes -> In t (rule_elementTypes rule)) ->
        (forall t, In t relationshipTypes -> In t (rule_relationshipTypes rule)) ->
        exists t endpoints,
          In t relationshipTypes
          /\ getRelationshipEndpointRule t = Some endpoints
          /\ (hasAny elementTypes (from endpoints) = false
              \/ hasAny elementTypes (to endpoints) = false)
          /\ createView this view
             = (CreateFail (err_requires_endpoints t endpoints elementTypes), this)
          /\ (forall x, In x (from endpoints ++ to endpoints) ->
                string_includes x (err_requires_endpoints t endpoints elementTypes)
                = true)).
Proof.
  cbv zeta. intros Hunc. split.
  - destruct Hunc as (t & Hin & Hcov).
    destruct (check_endpoints_uncovered _ _ t Hin Hcov) as [e He].
    unfold createView. cbv zeta.
    destruct (hasEmbeddedPayload view); [eexists; reflexivity |].
    destruct (negb (truthy (trim (v_id view)))); [eexists; reflexivity |].
    destruct (bool_decide (is_Some (byId this !! trim (v_id view))));
      [eexists; reflexivity |].
    destruct (negb (truthy (trim (v_name view)))); [eexists; reflexivity |].
    destruct (bool_decide
                (is_Some (idByNormalizedName this
                            !! normalizeName (trim (v_name view)))));
      [eexists; reflexivity |].
    destruct (isValidViewType (viewType view)) eqn:Hvt; [| eexists; reflexivity].
    simpl negb. cbv iota.
    destruct (length (normalizeList (allowedElementTypes view)) =? 0);
      [eexists; reflexivity |].
    destruct (valid_view_type_has_rule _ Hvt) as [rule ->].
    destruct (find _ (normalizeList (allowedElementTypes view)));
      [eexists; reflexivity |].
    destruct (find _ (normalizeList (allowedRelationshipTypes view)));
      [eexists; reflexivity |].
    rewrite He. eexists; reflexivity.
  - intros rule Hemb Hid Hfree Hname Hnfree Hrule Hnonempty Helems Hrels.
    destruct (check_endpoints_message
                (normalizeList (allowedElementTypes view))
                (normalizeList (allowedRelationshipTypes view)))
      as (t0 & ep0 & Hin0 & Hr0 & Hcov0 & Hres).
    { intros t Ht. eapply view_rule_relationships_known; eauto. }
    { exact Hunc. }
    exists t0, ep0. split; [exact Hin0 |]. split; [exact Hr0 |].
    split; [exact Hcov0 |]. split.
    + unfold createView. cbv zeta.
      apply truthy_true in Hid. apply truthy_true in Hname.
      rewrite Hemb, Hid, Hfree, Hname, Hnfree, Hrule. simpl negb. cbv iota.
      rewrite !bool_decide_eq_false_2 by (intros [? ?]; discriminate).
      assert (Hvt : isValidViewType (viewType view) = true).
      { apply includes_In.
        assert (Hk : forall l (r : ViewTypeRule),
                   record_get l (viewType view) = Some r ->
                   In (viewType view) (List.map fst l)).
        { induction l as [| [k v] l IH]; [discriminate |]. simpl. intros r.
          destruct (String.eqb_spec (viewType view) k); [now left |].
          intros H. right. now apply (IH r). }
        apply Hk in Hrule. simpl in Hrule. simpl. tauto. }
      rewrite Hvt. simpl negb. cbv iota.
      destruct (length (normalizeList (allowedElementTypes view)) =? 0) eqn:Hlen.
      { exfalso. apply Nat.eqb_eq in Hlen. apply Hnonempty.
        now destruct (normalizeList (allowedElementTypes view)). }
      rewrite (find_none_all _ _
                 (fun x Hx => proj2 (negb_false_iff _)
                                (proj2 (includes_In _ _) (Helems x Hx)))).
      rewrite (find_none_all _ _
                 (fun x Hx => proj2 (negb_false_iff _)
                                (proj2 (includes_In _ _) (Hrels x Hx)))).
      now rewrite Hres.
    + intros x Hx. unfold err_requires_endpoints.
      apply in_app_or in Hx. destruct Hx as [Hx | Hx].
      * do 5 apply string_includes_skip.
        apply string_includes_app_l, string_includes_join, Hx.
      * do 7 apply string_includes_skip.
        apply string_includes_app_l, string_includes_join, Hx.
Qed.

(** The capability-map scenario: element types [Capability],
    relationship types [REALIZED_BY].  The view is rejected, and the
    message names Capability and the missing BusinessService. *)
Lemma createView_endpoint_coverage_witness :
  createView (Views.new "project-1") Samples.capability_view
  = (CreateFail
       ("Rejected createView: relationshipType " +:+ dq +:+ "REALIZED_BY" +:+ dq
        +:+ " requires endpoint types (Capability -> BusinessService),"
        +:+ " but allowedElementTypes=[Capability]."),
     Views.new "project-1")
  /\ string_includes "BusinessService"
       (err_requires_endpoints "REALIZED_BY"
          {| from := ["Capability"]; to := ["BusinessService"] |} ["Capability"])
     = true.
Proof.
  assert (Hunc : exists t,
             In t (normalizeList (allowedRelationshipTypes Samples.capability_view))
             /\ uncovered
                  (normalizeList (allowedElementTypes Samples.capability_view)) t).
  { exists "REALIZED_BY". split; [vm_compute; tauto |].
    eexists. split; [reflexivity |]. right. reflexivity. }
  destruct (createView_endpoint_coverage (Views.new "project-1")
              Samples.capability_view Hunc) as [_ Hmsg].
  destruct (Hmsg {| rule_elementTypes :=
                      ["Capability"; "BusinessService"; "ApplicationService";
                       "Application"];
                    rule_relationshipTypes :=
                      ["DECOMPOSES_TO"; "REALIZED_BY"; "SUPPORTS"; "SUPPORTED_BY"] |})
    as (t & ep & Hin & Hrule & _ & Hres & Hnames);
    [ reflexivity | discriminate | reflexivity | discriminate | reflexivity
    | reflexivity | discriminate
    | vm_compute; tauto | vm_compute; tauto | ].
  vm_compute in Hin. destruct Hin as [<- | []].
  vm_compute in Hrule. injection Hrule as <-.
  split; [exact Hres |].
  apply Hnames. simpl. tauto.
Defined.

End CreateView.

Section NameIndex.

Lemma normalizeName_trim (s : string) : normalizeName (trim s) = normalizeName s.
Proof. unfold normalizeName. now rewrite trim_idempotent. Qed.

Lemma name_index_exact_new (projectId : string) :
  name_index_exact (Views.new projectId).
Proof.
  split; simpl.
  - intros id view H. now rewrite lookup_empty in H.
  - intros name id H. now rewrite lookup_empty in H.
Qed.

(** What a successful [createView] stores. *)
Lemma createView_ok (this this' : ViewRepository) (view stored : ViewDefinition) :
  createView this view = (CreateOk stored, this') ->
  byId this !! trim (v_id view) = None
  /\ idByNormalizedName this !! normalizeName (trim (v_name view)) = None
  /\ v_id stored = v_id view
  /\ v_name stored = trim (v_name view)
  /\ byId this' = <[trim (v_id view) := stored]> (byId this)
  /\ idByNormalizedName this'
     = <[normalizeName (trim (v_name view)) := trim (v_id view)]>
         (idByNormalizedName this).
Proof.
  unfold createView. cbv zeta.
  destruct (hasEmbeddedPayload view); [discriminate |].
  destruct (negb (truthy (trim (v_id view)))); [discriminate |].
  destruct (bool_decide (is_Some (byId this !! trim (v_id view)))) eqn:Hid;
    [discriminate |].
  destruct (negb (truthy (trim (v_name view)))); [discriminate |].
  destruct (bool_decide
              (is_Some (idByNormalizedName this
                          !! normalizeName (trim (v_name view))))) eqn:Hn;
    [discriminate |].
  destruct (negb (isValidViewType (viewType view))); [discriminate |].
  destruct (length (normalizeList (allowedElementTypes view)) =? 0);
    [discriminate |].
  destruct (record_get viewTypeRules (viewType view)); [| discriminate].
  destruct (find _ (normalizeList (allowedElementTypes view))); [discriminate |].
  destruct (find _ (normalizeList (allowedRelationshipTypes view)));
    [discriminate |].
  destruct (check_endpoints _ _); [discriminate |].
  intros H. inversion H; subst; clear H. simpl.
  apply bool_decide_eq_false in Hid, Hn.
  rewrite <- eq_None_not_Some in Hid. rewrite <- eq_None_not_Some in Hn.
  repeat split; assumption || reflexivity.
Qed.

Lemma createView_not_ok_unchanged (this : ViewRepository) (view : ViewDefinition) :
  (forall stored, fst (createView this view) <> CreateOk stored) ->
  snd (createView this view) = this.
Proof.
  unfold createView. cbv zeta.
  repeat match goal with
         | |- context [match ?x with _ => _ end] => destruct x
         end; simpl; intros H; try reflexivity.
  exfalso. eapply H. reflexivity.
Qed.

Lemma createView_preserves (this : ViewRepository) (view : ViewDefinition) :
  name_index_exact this -> name_index_exact (snd (createView this view)).
Proof.
  intros [Hfwd Hbwd].
  destruct (createView this view) as [res this'] eqn:Hcv.
  destruct res as [stored | e |].
  - destruct (createView_ok _ _ _ _ Hcv)
      as (Hid & Hn & Hsid & Hname & Hby & Hidx).
    simpl. split; rewrite Hby, Hidx.
    + intros id v Hv. destruct (decide (id = trim (v_id view))) as [-> | Hne].
      * rewrite lookup_insert_eq in Hv. injection Hv as <-.
        split; [now rewrite Hsid |].
        rewrite Hname, normalizeName_trim. apply lookup_insert_eq.
      * rewrite lookup_insert_ne in Hv by congruence.
        destruct (Hfwd _ _ Hv) as [Hkey Hfwd']. split; [exact Hkey |].
        rewrite lookup_insert_ne; [exact Hfwd' |].
        intros Heq. rewrite <- Heq, Hn in Hfwd'. discriminate.
    + intros name id Hl.
      destruct (decide (name = normalizeName (trim (v_name view)))) as [-> | Hne].
      * rewrite lookup_insert_eq in Hl. injection Hl as <-.
        exists stored. rewrite lookup_insert_eq. split; [reflexivity |].
        now rewrite Hname, normalizeName_trim.
      * rewrite lookup_insert_ne in Hl by congruence.
        destruct (Hbwd _ _ Hl) as (v & Hv & Hvn).
        exists v. split; [| exact Hvn].
        rewrite lookup_insert_ne; [exact Hv |].
        intros Heq. rewrite <- Heq, Hid in Hv. discriminate.
  - replace this' with (snd (createView this view)) by now rewrite Hcv.
    rewrite createView_not_ok_unchanged; [now split |].
    intros stored. rewrite Hcv. discriminate.
  - replace this' with (snd (createView this view)) by now rewrite Hcv.
    rewrite createView_not_ok_unchanged; [now split |].
    intros stored. rewrite Hcv. discriminate.
Qed.

Lemma deleteViewById_ok (this this' : ViewRepository) (id : string)
  (deleted : ViewDefinition) :
  deleteViewById this id = (DeleteOk deleted, this') ->
  byId this !! trim id = Some deleted
  /\ byId this' = delete (trim id) (byId this)
  /\ idByNormalizedName this'
     = delete (normalizeName (v_name deleted)) (idByNormalizedName this).
Proof.
  unfold deleteViewById. cbv zeta.
  destruct (negb (truthy (trim id))); [discriminate |].
  destruct (byId this !! trim id) as [existing |] eqn:Hex; [| discriminate].
  intros H. inversion H; subst; clear H. simpl. auto.
Qed.

Lemma deleteViewById_preserves (this : ViewRepository) (id : string) :
  name_index_exact this -> name_index_exact (snd (deleteViewById this id)).
Proof.
  intros [Hfwd Hbwd].
  destruct (deleteViewById this id) as [res this'] eqn:Hdel.
  destruct res as [deleted | e].
  - destruct (deleteViewById_ok _ _ _ _ Hdel) as (Hex & Hby & Hidx).
    simpl. split; rewrite Hby, Hidx.
    + intros k v Hv.
      destruct (decide (k = trim id)) as [-> | Hne];
        [now rewrite lookup_delete_eq in Hv |].
      rewrite lookup_delete_ne in Hv by congruence.
      destruct (Hfwd _ _ Hv) as [Hkey H1]. destruct (Hfwd _ _ Hex) as [_ H2].
      split; [exact Hkey |].
      rewrite lookup_delete_ne; [exact H1 |].
      intros Heq. rewrite <- Heq, H2 in H1. congruence.
    + intros name k Hl.
      destruct (decide (name = normalizeName (v_name deleted))) as [-> | Hne];
        [now rewrite lookup_delete_eq in Hl |].
      rewrite lookup_delete_ne in Hl by congruence.
      destruct (Hbwd _ _ Hl) as (v & Hv & Hvn).
      exists v. split; [| exact Hvn].
      rewrite lookup_delete_ne; [exact Hv |].
      intros Heq. subst k. rewrite Hex in Hv. injection Hv as <-. congruence.
  - unfold deleteViewById in Hdel. cbv zeta in Hdel.
    destruct (negb (truthy (trim id))); [inversion Hdel; subst; now split |].
    destruct (byId this !! trim id); inversion Hdel; subst. now split.
Qed.

Lemma run_preserves (ops : list Operation) (this : ViewRepository) :
  name_index_exact this -> name_index_exact (run this ops).
Proof.
  revert this. induction ops as [| op ops IH]; intros this Hinv; [exact Hinv |].
  simpl. apply IH. destruct op; simpl.
  - now apply createView_preserves.
  - now apply deleteViewById_preserves.
Qed.

Lemma check_endpoints_error_form (elementTypes relationshipTypes : list string)
  (error : string) :
  check_endpoints elementTypes relationshipTypes = Some error ->
  exists t,
    error = err_unknown_relationship t
    \/ exists endpoints, error = err_requires_endpoints t endpoints elementTypes.
Proof.
  induction relationshipTypes as [| r rest IH]; [discriminate |].
  simpl. destruct (getRelationshipEndpointRule r) as [ep |].
  - destruct (negb (hasAny elementTypes (from ep))
              || negb (hasAny elementTypes (to ep))); [| exact IH].
    intros H. injection H as <-. exists r. right. now exists ep.
  - intros H. injection H as <-. exists r. now left.
Qed.

(** A view whose name is not in the index is not refused as a duplicate
    name, whatever name the message would quote. *)
Lemma createView_not_duplicate_name (this : ViewRepository) (view : ViewDefinition)
  (n : string) :
  idByNormalizedName this !! normalizeName (trim (v_name view)) = None ->
  fst (createView this view) <> CreateFail (err_duplicate_name n).
Proof.
  intros Hfree. unfold createView. cbv zeta. rewrite Hfree.
  rewrite (bool_decide_eq_false_2 (is_Some None)) by (intros [? ?]; discriminate).
  unfold err_duplicate_name, err_embedded, err_id_required, err_duplicate_id,
    err_name_required, err_invalid_viewType, err_no_element_types,
    err_element_not_allowed, err_relationship_not_allowed.
  repeat match goal with
         | |- context [match ?x with _ => _ end] => destruct x eqn:?
         end; simpl; try discriminate.
  match goal with
  | H : check_endpoints _ _ = Some _ |- _ =>
      apply check_endpoints_error_form in H;
      destruct H as (t & [-> | (ep & ->)])
  end; discriminate.
Qed.

(** C10: starting from an empty repository, every sequence of
    [createView] and [deleteViewById] operations leaves the name index
    with exactly one entry per stored view: a view is stored under its
    id, trimmed, its trimmed, lower-cased name is mapped to that id, the
    index has no other entry, and no two stored views share a normalized
    name.  Hence a successful
    [deleteViewById] releases the name: the index no longer holds it, and
    a following [createView] whose name differs from the deleted one at
    most in letter case and outer blanks is not refused as a duplicate
    name. *)
Theorem name_index_invariant :
  (forall projectId ops, name_index_exact (run (Views.new projectId) ops))
  /\ (forall projectId ops id1 id2 view1 view2,
        byId (run (Views.new projectId) ops) !! id1 = Some view1 ->
        byId (run (Views.new projectId) ops) !! id2 = Some view2 ->
        normalizeName (v_name view1) = normalizeName (v_name view2) ->
        id1 = id2)
  /\ (forall this view, name_index_exact this ->
        name_index_exact (snd (createView this view)))
  /\ (forall this id deleted this',
        name_index_exact this ->
        deleteViewById this id = (DeleteOk deleted, this') ->
        name_index_exact this'
        /\ byId this' !! trim id = None
        /\ forall view,
             normalizeName (v_name view) = normalizeName (v_name deleted) ->
             idByNormalizedName this' !! normalizeName (trim (v_name view)) = None
             /\ forall n,
                  fst (createView this' view) <> CreateFail (err_duplicate_name n)).
Proof.
  split; [| split; [| split]].
  - intros projectId ops. apply run_preserves, name_index_exact_new.
  - intros projectId ops id1 id2 view1 view2 H1 H2 Hsame.
    destruct (run_preserves ops _ (name_index_exact_new projectId)) as [Hfwd _].
    destruct (Hfwd _ _ H1) as [_ E1]. destruct (Hfwd _ _ H2) as [_ E2].
    rewrite Hsame in E1. congruence.
  - intros this view. apply createView_preserves.
  - intros this id deleted this' Hinv Hdel.
    split.
    { replace this' with (snd (deleteViewById this id)) by now rewrite Hdel.
      now apply deleteViewById_preserves. }
    destruct (deleteViewById_ok _ _ _ _ Hdel) as (Hex & Hby & Hidx).
    split; [rewrite Hby; apply lookup_delete_eq |].
    intros view Hsame.
    assert (Hfree : idByNormalizedName this' !! normalizeName (trim (v_name view))
                    = None).
    { rewrite normalizeName_trim, Hsame, Hidx. apply lookup_delete_eq. }
    split; [exact Hfree |].
    intros n. now apply createView_not_duplicate_name.
Qed.

(** A view is created, deleted, and created again under the same name
    in capitals: the second creation succeeds. *)
Lemma name_index_invariant_witness :
  let r0 := Views.new "project-1" in
  let r1 := snd (createView r0 (Samples.traceability_view "view-1" "Traceability")) in
  let r2 := snd (deleteViewById r1 "view-1") in
  name_index_exact r2
  /\ (forall n,
        fst (createView r2 (Samples.traceability_view "view-2" "TRACEABILITY"))
        <> CreateFail (err_duplicate_name n))
  /\ exists stored,
       fst (createView r2 (Samples.traceability_view "view-2" "TRACEABILITY"))
       = CreateOk stored.
Proof.
  cbv zeta.
  destruct name_index_invariant as (Hrun & _ & _ & Hdel).
  pose (r1 := snd (createView (Views.new "project-1")
                     (Samples.traceability_view "view-1" "Traceability"))).
  destruct (deleteViewById r1 "view-1") as [res r2] eqn:Hd.
  assert (Hres : exists deleted,
             res = DeleteOk deleted /\ v_name deleted = "Traceability").
  { vm_compute in Hd. injection Hd as <- _. eexists. split; reflexivity. }
  destruct Hres as (deleted & -> & Hname).
  assert (Hinv1 : name_index_exact r1).
  { apply (Hrun "project-1"
             [OpCreateView (Samples.traceability_view "view-1" "Traceability")]). }
  destruct (Hdel r1 "view-1" deleted r2 Hinv1 Hd) as (Hinv2 & _ & Hrel).
  fold r1. rewrite Hd. simpl snd.
  split; [exact Hinv2 |]. split.
  - apply (Hrel (Samples.traceability_view "view-2" "TRACEABILITY")).
    rewrite Hname. reflexivity.
  - vm_compute in Hd. injection Hd as _ <-. eexists. vm_compute. reflexivity.
Defined.

End NameIndex.

(** ** Governance gate of the persistence effect *)

Section StrictGovernance.

Variable buildGovernanceDebt : EaRepository -> Time -> string -> GovernanceSummary.

Local Abbreviation commit := (Context.commit buildGovernanceDebt).
Local Abbreviation commits := (Context.commits buildGovernanceDebt).
Local Notation "'debt_of' repo now md" :=
  (buildGovernanceDebt repo now (lifecycleCoverage md))
  (at level 10, repo at level 9, now at level 9, md at level 9, only parsing).

Lemma truthy_app_r (a b : string) : truthy b = true -> truthy (a +:+ b) = true.
Proof. intros H. destruct a; [exact H | reflexivity]. Qed.

Lemma debt_key_truthy (d : GovernanceSummary) : truthy (debt_key d) = true.
Proof. unfold debt_key. now apply truthy_app_r. Qed.

Lemma strict_blocked_iff (d : GovernanceSummary) :
  (0 <? mandatoryFindingCount d) || (0 <? relationshipErrorCount d)
  || (0 <? invalidRelationshipInsertCount d) || (0 <? lifecycleTagMissingCount d)
  = true <-> 0 < strict_debt d.
Proof.
  unfold strict_debt. rewrite !orb_true_iff, !Nat.ltb_lt. lia.
Qed.

Lemma count_events_app (p : Event -> bool) (l1 l2 : list Event) :
  count_events p (l1 ++ l2) = count_events p l1 + count_events p l2.
Proof. unfold count_events. now rewrite List.filter_app, List.length_app. Qed.

Lemma events_since_app (st st' : State) (events : list Event) :
  trace st' = trace st ++ events -> events_since st st' = events.
Proof. intros H. unfold events_since. rewrite H. apply drop_app_length. Qed.

(** One blocked evaluation in Strict mode. *)
Lemma commit_strict_blocked (st : State) (md : EaRepositoryMetadata)
  (repo : EaRepository) (now : Time) :
  metadata st = Some md -> governanceMode md = "Strict" ->
  0 < strict_debt (debt_of repo now md) ->
  let st' := commit repo now st in
  let key := debt_key (debt_of repo now md) in
  storage st' = storage st
  /\ metadata st' = Some md
  /\ lastSaveBlockedKey (governance st') = Some key
  /\ exists events,
       trace st' = trace st ++ events
       /\ count_events is_storage_set events = 0
       /\ count_events is_message_success events = 0
       /\ count_events is_modal_error events
          = if bool_decide (lastSaveBlockedKey (governance st) = Some key)
            then 0 else 1.
Proof.
  intros Hmd Hmode Hdebt. cbv zeta.
  unfold Context.commit, persist. simpl. rewrite Hmd, Hmode. simpl.
  unfold strict_gate.
  rewrite (proj2 (strict_blocked_iff _) Hdebt).
  destruct (decide (lastSaveBlockedKey (governance st)
                    = Some (debt_key (debt_of repo now md)))) as [Heq | Hne].
  - rewrite bool_decide_eq_false_2 by (intros H; now apply H).
    rewrite bool_decide_eq_true_2 by assumption. simpl.
    repeat split; try assumption. exists []. now rewrite app_nil_r.
  - rewrite bool_decide_eq_true_2 by assumption.
    rewrite bool_decide_eq_false_2 by assumption. simpl.
    repeat split; try assumption. eexists. split; [reflexivity |].
    destruct (saveBlockedModal (governance st)); repeat split; reflexivity.
Qed.

(** One evaluation without debt in Strict mode, after a blocked one or
    after a clear one. *)
Lemma commit_strict_clear (st : State) (md : EaRepositoryMetadata)
  (repo : EaRepository) (now : Time) :
  metadata st = Some md -> governanceMode md = "Strict" ->
  strict_debt (debt_of repo now md) = 0 ->
  (forall k, lastSaveBlockedKey (governance st) = Some k -> truthy k = true) ->
  let st' := commit repo now st in
  storage st' = Some (serializeRepository repo md now)
  /\ metadata st' = Some md
  /\ lastSaveBlockedKey (governance st') = None
  /\ exists events,
       trace st' = trace st ++ events
       /\ count_events is_storage_set events = 1
       /\ count_events is_modal_error events = 0
       /\ count_events is_message_success events
          = match lastSaveBlockedKey (governance st) with
            | Some _ => 1
            | None => 0
            end.
Proof.
  intros Hmd Hmode Hdebt Hkey. cbv zeta.
  unfold Context.commit, persist. simpl. rewrite Hmd, Hmode. simpl.
  unfold strict_gate.
  assert (Hb : (0 <? mandatoryFindingCount (debt_of repo now md))
               || (0 <? relationshipErrorCount (debt_of repo now md))
               || (0 <? invalidRelationshipInsertCount (debt_of repo now md))
               || (0 <? lifecycleTagMissingCount (debt_of repo now md)) = false).
  { apply not_true_is_false. rewrite strict_blocked_iff. lia. }
  rewrite Hb.
  destruct (lastSaveBlockedKey (governance st)) as [k |] eqn:Hk; simpl.
  - rewrite (Hkey k eq_refl). simpl.
    repeat split; try assumption. eexists. split; [reflexivity |].
    destruct (saveBlockedModal (governance st)); repeat split; reflexivity.
  - repeat split; try assumption. eexists. split; [reflexivity |].
    repeat split; reflexivity.
Qed.

(** A run of blocked evaluations writes nothing. *)
Lemma commits_strict_blocked (steps : list (EaRepository * Time)) (st : State)
  (md : EaRepositoryMetadata) :
  metadata st = Some md -> governanceMode md = "Strict" ->
  Forall (fun s => 0 < strict_debt (debt_of (fst s) (snd s) md)) steps ->
  storage (commits steps st) = storage st
  /\ metadata (commits steps st) = Some md
  /\ exists events,
       trace (commits steps st) = trace st ++ events
       /\ count_events is_storage_set events = 0
       /\ count_events is_message_success events = 0.
Proof.
  intros Hmd Hmode. revert st Hmd.
  induction steps as [| [repo now] steps IH]; intros st Hmd Hall.
  - simpl. repeat split; try assumption. exists []. now rewrite app_nil_r.
  - inversion Hall as [| ? ? Hd Hrest]; subst. simpl in Hd.
    destruct (commit_strict_blocked st md repo now Hmd Hmode Hd)
      as (Hst & Hmd' & _ & ev1 & Ht1 & Hs1 & Hm1 & _).
    destruct (IH (commit repo now st) Hmd' Hrest)
      as (Hst2 & Hmd2 & ev2 & Ht2 & Hs2 & Hm2).
    change (commits ((repo, now) :: steps) st)
      with (commits steps (commit repo now st)).
    split; [congruence |]. split; [assumption |].
    exists (ev1 ++ ev2). rewrite Ht2, Ht1, <- app_assoc.
    rewrite !count_events_app. split; [reflexivity | lia].
Qed.

(** Further blocked evaluations under the signature last reported raise
    no further dialog. *)
Lemma commits_strict_same_key (steps : list (EaRepository * Time)) (st : State)
  (md : EaRepositoryMetadata) (key : string) :
  metadata st = Some md -> governanceMode md = "Strict" ->
  lastSaveBlockedKey (governance st) = Some key ->
  Forall (fun s => 0 < strict_debt (debt_of (fst s) (snd s) md)
                   /\ debt_key (debt_of (fst s) (snd s) md) = key) steps ->
  exists events,
    trace (commits steps st) = trace st ++ events
    /\ count_events is_modal_error events = 0.
Proof.
  intros Hmd Hmode. revert st Hmd.
  induction steps as [| [repo now] steps IH]; intros st Hmd Hkey Hall.
  - exists []. simpl. now rewrite app_nil_r.
  - inversion Hall as [| ? ? Hhd Hrest]; subst. destruct Hhd as [Hd Hk].
    simpl in Hd, Hk.
    destruct (commit_strict_blocked st md repo now Hmd Hmode Hd)
      as (_ & Hmd' & Hkey' & ev1 & Ht1 & _ & _ & Hm1).
    rewrite Hk in Hkey', Hm1.
    rewrite bool_decide_eq_true_2 in Hm1 by assumption.
    destruct (IH (commit repo now st) Hmd' Hkey' Hrest) as (ev2 & Ht2 & Hm2).
    change (commits ((repo, now) :: steps) st)
      with (commits steps (commit repo now st)).
    exists (ev1 ++ ev2). rewrite Ht2, Ht1, <- app_assoc.
    rewrite count_events_app. split; [reflexivity | lia].
Qed.

(** Along a run of blocked evaluations the dialog is raised at every
    change of signature, and at no other evaluation. *)
Lemma commits_strict_dialogs (steps : list (EaRepository * Time)) (st : State)
  (md : EaRepositoryMetadata) :
  metadata st = Some md -> governanceMode md = "Strict" ->
  Forall (fun s => 0 < strict_debt (debt_of (fst s) (snd s) md)) steps ->
  exists events,
    trace (commits steps st) = trace st ++ events
    /\ count_events is_modal_error events
       = signature_changes (lastSaveBlockedKey (governance st))
           (map (fun s => debt_key (debt_of (fst s) (snd s) md)) steps).
Proof.
  intros Hmd Hmode. revert st Hmd.
  induction steps as [| [repo now] steps IH]; intros st Hmd Hall.
  - exists []. simpl. now rewrite app_nil_r.
  - inversion Hall as [| ? ? Hd Hrest]; subst. simpl in Hd.
    destruct (commit_strict_blocked st md repo now Hmd Hmode Hd)
      as (_ & Hmd' & Hkey' & ev1 & Ht1 & _ & _ & Hm1).
    destruct (IH (commit repo now st) Hmd' Hrest) as (ev2 & Ht2 & Hm2).
    change (commits ((repo, now) :: steps) st)
      with (commits steps (commit repo now st)).
    exists (ev1 ++ ev2). rewrite Ht2, Ht1, <- app_assoc. split; [reflexivity |].
    rewrite count_events_app, Hm1, Hm2, Hkey'. reflexivity.
Qed.

(** Once unblocked, evaluations without debt report nothing more. *)
Lemma commits_strict_clear (steps : list (EaRepository * Time)) (st : State)
  (md : EaRepositoryMetadata) :
  metadata st = Some md -> governanceMode md = "Strict" ->
  lastSaveBlockedKey (governance st) = None ->
  Forall (fun s => strict_debt (debt_of (fst s) (snd s) md) = 0) steps ->
  lastSaveBlockedKey (governance (commits steps st)) = None
  /\ exists events,
       trace (commits steps st) = trace st ++ events
       /\ count_events is_message_success events = 0.
Proof.
  intros Hmd Hmode. revert st Hmd.
  induction steps as [| [repo now] steps IH]; intros st Hmd Hkey Hall.
  - split; [assumption |]. exists []. simpl. now rewrite app_nil_r.
  - inversion Hall as [| ? ? Hd Hrest]; subst. simpl in Hd.
    destruct (commit_strict_clear st md repo now Hmd Hmode Hd)
      as (_ & Hmd' & Hkey' & ev1 & Ht1 & _ & _ & Hm1).
    { intros k Hk. congruence. }
    rewrite Hkey in Hm1.
    destruct (IH (commit repo now st) Hmd' Hkey' Hrest) as (Hk2 & ev2 & Ht2 & Hm2).
    change (commits ((repo, now) :: steps) st)
      with (commits steps (commit repo now st)).
    split; [assumption |].
    exists (ev1 ++ ev2). rewrite Ht2, Ht1, <- app_assoc.
    rewrite count_events_app. split; [reflexivity | lia].
Qed.

(** C3, amended: in Strict mode, while the sum of the mandatory
    findings, the relationship errors, the invalid relationship inserts
    and the missing lifecycle tags is positive, no evaluation writes the
    snapshot: the storage slot keeps its content and no write is emitted.
    A blocked evaluation raises the blocking dialog exactly when its debt
    signature differs from the one reported last: along any run of
    blocked evaluations the dialogs are as many as the changes of
    signature, so a run under one signature raises it once, and a
    signature that returns after another is reported again.  The first
    evaluation at which the sum is zero clears the blocked signature,
    writes the snapshot and emits the success message; the evaluations
    without debt that follow emit it no more. *)
Theorem strict_mode_save_gate (st : State) (md : EaRepositoryMetadata) :
  metadata st = Some md -> governanceMode md = "Strict" ->
  (forall steps,
     Forall (fun s => 0 < strict_debt (debt_of (fst s) (snd s) md)) steps ->
     storage (commits steps st) = storage st
     /\ count_events is_storage_set (events_since st (commits steps st)) = 0)
  /\ (forall steps,
        Forall (fun s => 0 < strict_debt (debt_of (fst s) (snd s) md)) steps ->
        count_events is_modal_error (events_since st (commits steps st))
        = signature_changes (lastSaveBlockedKey (governance st))
            (map (fun s => debt_key (debt_of (fst s) (snd s) md)) steps))
  /\ (forall repo now steps,
        0 < strict_debt (debt_of repo now md) ->
        Forall (fun s => 0 < strict_debt (debt_of (fst s) (snd s) md)
                         /\ debt_key (debt_of (fst s) (snd s) md)
                            = debt_key (debt_of repo now md)) steps ->
        count_events is_modal_error
          (events_since st (commits ((repo, now) :: steps) st))
        = if bool_decide (lastSaveBlockedKey (governance st)
                          = Some (debt_key (debt_of repo now md)))
          then 0 else 1)
  /\ (forall repo now repo' now' steps,
        0 < strict_debt (debt_of repo now md) ->
        strict_debt (debt_of repo' now' md) = 0 ->
        Forall (fun s => strict_debt (debt_of (fst s) (snd s) md) = 0) steps ->
        let blocked := commit repo now st in
        let cleared := commit repo' now' blocked in
        storage blocked = storage st
        /\ lastSaveBlockedKey (governance blocked)
           = Some (debt_key (debt_of repo now md))
        /\ lastSaveBlockedKey (governance cleared) = None
        /\ storage cleared = Some (serializeRepository repo' md now')
        /\ count_events is_message_success (events_since blocked cleared) = 1
        /\ count_events is_message_success
             (events_since blocked (commits steps cleared)) = 1).
Proof.
  intros Hmd Hmode. split; [| split; [| split]].
  - intros steps Hall.
    destruct (commits_strict_blocked steps st md Hmd Hmode Hall)
      as (Hst & _ & ev & Ht & Hs & _).
    split; [assumption |]. now rewrite (events_since_app _ _ _ Ht).
  - intros steps Hall.
    destruct (commits_strict_dialogs steps st md Hmd Hmode Hall)
      as (ev & Ht & Hm).
    now rewrite (events_since_app _ _ _ Ht).
  - intros repo now steps Hd Hall.
    destruct (commit_strict_blocked st md repo now Hmd Hmode Hd)
      as (_ & Hmd' & Hkey' & ev1 & Ht1 & _ & _ & Hm1).
    destruct (commits_strict_same_key steps (commit repo now st) md _
                Hmd' Hmode Hkey' Hall) as (ev2 & Ht2 & Hm2).
    change (commits ((repo, now) :: steps) st)
      with (commits steps (commit repo now st)).
    rewrite (events_since_app st _ (ev1 ++ ev2))
      by (rewrite Ht2, Ht1; now rewrite <- app_assoc).
    rewrite count_events_app, Hm1, Hm2. lia.
  - intros repo now repo' now' steps Hd Hz Hall. cbv zeta.
    destruct (commit_strict_blocked st md repo now Hmd Hmode Hd)
      as (Hst & Hmd' & Hkey' & _).
    destruct (commit_strict_clear (commit repo now st) md repo' now' Hmd' Hmode Hz)
      as (Hst2 & Hmd2 & Hkey2 & ev2 & Ht2 & _ & _ & Hm2).
    { intros k Hk. rewrite Hkey' in Hk. injection Hk as <-.
      apply debt_key_truthy. }
    rewrite Hkey' in Hm2.
    destruct (commits_strict_clear steps _ md Hmd2 Hmode Hkey2 Hall)
      as (_ & ev3 & Ht3 & Hm3).
    repeat split; try assumption.
    + now rewrite (events_since_app _ _ _ Ht2).
    + rewrite (events_since_app _ _ (ev2 ++ ev3))
        by (rewrite Ht3, Ht2; now rewrite <- app_assoc).
      rewrite count_events_app. lia.
Qed.

End StrictGovernance.

(** C3, as stated, fails in one point: the dialog is not raised once
    per distinct debt signature.  The effect remembers only the
    signature it reported last, so a signature that returns after
    another one is reported again.  With one name missing, then two,
    then one again, every evaluation is blocked, the signatures are
    [1|0|0|0|0], [2|0|0|0|0] and [1|0|0|0|0], two of them distinct, and
    the dialog is raised three times. *)
Lemma strict_dialog_repeats_for_a_returning_signature :
  forallb (fun s => 0 <? strict_debt (Samples.name_debt (fst s) (snd s) "Both"))
          Cases.back_and_forth = true
  /\ map (fun s => debt_key (Samples.name_debt (fst s) (snd s) "Both"))
         Cases.back_and_forth
     = ["1|0|0|0|0"; "2|0|0|0|0"; "1|0|0|0|0"]
  /\ length (dedupe (map (fun s => debt_key (Samples.name_debt (fst s) (snd s) "Both"))
                         Cases.back_and_forth)) = 2
  /\ count_events is_modal_error
       (events_since (Samples.fresh_state Samples.strict_metadata)
          (Context.commits Samples.name_debt Cases.back_and_forth
             (Samples.fresh_state Samples.strict_metadata))) = 3.
Proof.
  split; [vm_compute; reflexivity |]. split; [vm_compute; reflexivity |].
  split; vm_compute; reflexivity.
Qed.

(** The scenario: one application without a name blocks the save and
    raises the dialog, once; once it is named, the next evaluation
    writes the snapshot and reports success, once, however many clean
    evaluations follow.  And the run with one name missing, then two,
    then one again raises as many dialogs as its signature changes. *)
Lemma strict_mode_save_gate_witness :
  let st := Samples.fresh_state Samples.strict_metadata in
  let blocked := Context.commit Samples.name_debt Samples.repo_unnamed 1 st in
  let cleared := Context.commit Samples.name_debt Samples.repo_named 2 blocked in
  storage blocked = None
  /\ count_events is_modal_error (events_since st blocked) = 1
  /\ count_events is_modal_error
       (events_since st (Context.commits Samples.name_debt Cases.back_and_forth st))
     = signature_changes None ["1|0|0|0|0"; "2|0|0|0|0"; "1|0|0|0|0"]
  /\ lastSaveBlockedKey (governance cleared) = None
  /\ storage cleared
     = Some (serializeRepository Samples.repo_named Samples.strict_metadata 2)
  /\ count_events is_message_success (events_since blocked cleared) = 1
  /\ count_events is_message_success
       (events_since blocked
          (Context.commits Samples.name_debt [(Samples.repo_two, 3)] cleared)) = 1.
Proof.
  cbv zeta.
  destruct (strict_mode_save_gate Samples.name_debt
              (Samples.fresh_state Samples.strict_metadata)
              Samples.strict_metadata eq_refl eq_refl)
    as (_ & Hdialog & _ & Hclear).
  destruct (Hclear Samples.repo_unnamed 1 Samples.repo_named 2
              [(Samples.repo_two, 3)])
    as (H1 & _ & H3 & H4 & H5 & H6).
  - vm_compute. lia.
  - vm_compute. reflexivity.
  - repeat constructor.
  - split; [exact H1 |]. split; [| split; [| repeat split; assumption]].
    + etransitivity.
      * apply (Hdialog [(Samples.repo_unnamed, 1)]).
        repeat constructor; vm_compute; lia.
      * vm_compute. reflexivity.
    + etransitivity.
      * apply (Hdialog Cases.back_and_forth).
        repeat constructor; vm_compute; lia.
      * vm_compute. reflexivity.
Defined.

(** ** Snapshots and history *)

Section SnapshotRoundTrip.

Lemma map_get_None_keys {V : Type} (m : JsMap V) (k : string) :
  ~ In k (map_keys m) -> map_get m k = None.
Proof.
  induction m as [| [k' v] m IH]; simpl; [reflexivity |].
  intros Hnin. destruct (String.eqb_spec k k') as [-> | Hne].
  - exfalso. apply Hnin. now left.
  - apply IH. intros Hin. apply Hnin. now right.
Qed.

Lemma map_get_Some_keys {V : Type} (m : JsMap V) (k : string) (v : V) :
  map_get m k = Some v -> In k (map_keys m).
Proof.
  induction m as [| [k' v'] m IH]; simpl; [discriminate |].
  destruct (String.eqb_spec k k') as [-> | Hne]; [now left |].
  intros H. right. now apply IH.
Qed.

Lemma addObject_fresh_entry (acc : JsMap EaObject) (rels : list EaRelationship)
  (k : string) (o : EaObject) :
  object_entry_ok (k, o) -> map_get acc k = None ->
  addObject {| objects := acc; relationships := rels |}
    (object_input {| o_id := o_id o; o_type := o_type o;
                     o_attributes := o_attributes o |})
  = (Ok, {| objects := acc ++ [(k, o)]; relationships := rels |}).
Proof.
  intros (Hid & Htrim & Hne & Hty) Hfresh.
  unfold addObject, object_input. cbv zeta.
  cbn [in_id in_type in_attributes o_id o_type o_attributes objects relationships].
  rewrite Hid, Htrim, (proj2 (truthy_true k) Hne), Hty.
  unfold map_has. rewrite Hfresh. cbn [negb].
  cbv beta iota delta [default from_option id].
  rewrite (map_set_fresh _ _ _ Hfresh).
  replace {| o_id := k; o_type := o_type o; o_attributes := o_attributes o |}
    with o by (destruct o; simpl in *; congruence).
  reflexivity.
Qed.

Lemma map_get_in_keys {V : Type} (m : JsMap V) (k : string) :
  In k (map_keys m) -> exists v, map_get m k = Some v.
Proof.
  induction m as [| [k' v'] m IH]; simpl; [tauto |].
  destruct (String.eqb_spec k k') as [-> | Hne]; [now eexists |].
  intros [Hk | Hin]; [congruence | now apply IH].
Qed.

Lemma load_objects_entries (l acc : JsMap EaObject) (rels : list EaRelationship) :
  List.NoDup (map_keys (acc ++ l)) ->
  Forall object_entry_ok l ->
  load_objects {| objects := acc; relationships := rels |}
    (map object_input
       (map (fun o => {| o_id := o_id o; o_type := o_type o;
                         o_attributes := o_attributes o |})
            (map_values l)))
  = {| objects := acc ++ l; relationships := rels |}.
Proof.
  revert acc. induction l as [| [k o] l IH]; intros acc Hnd Hok.
  - simpl. now rewrite app_nil_r.
  - inversion Hok as [| ? ? Hentry Hrest]; subst.
    assert (Hfresh : map_get acc k = None).
    { apply map_get_None_keys. unfold map_keys in *.
      rewrite map_app in Hnd. simpl in Hnd.
      apply List.NoDup_remove_2 in Hnd. intros Hin. apply Hnd.
      apply in_or_app. now left. }
    change (load_objects
              (snd (addObject {| objects := acc; relationships := rels |}
                      (object_input
                         {| o_id := o_id o; o_type := o_type o;
                            o_attributes := o_attributes o |})))
              (map object_input
                 (map (fun o0 => {| o_id := o_id o0; o_type := o_type o0;
                                    o_attributes := o_attributes o0 |})
                      (map_values l)))
            = {| objects := acc ++ (k, o) :: l; relationships := rels |}).
    rewrite (addObject_fresh_entry acc rels k o Hentry Hfresh).
    cbn [snd]. rewrite IH.
    + now rewrite <- app_assoc.
    + now rewrite <- app_assoc.
    + assumption.
Qed.

Lemma addRelationship_entry (objs : JsMap EaObject) (acc : list EaRelationship)
  (r : EaRelationship) :
  relationship_ok objs r ->
  addRelationship {| objects := objs; relationships := acc |}
    (relationship_input
       {| fromId := fromId r; toId := toId r; r_type := r_type r;
          r_attributes := r_attributes r |})
  = (Ok, {| objects := objs; relationships := acc ++ [r] |}).
Proof.
  intros (Hft & Hfne & Htt & Htne & Hty
          & fromObj & toObj & def & Hfo & Hto & Hdef & Hfin & Htin).
  rewrite (addRelationship_resolved _ _ fromObj toObj def);
    unfold relationship_input;
    cbn [in_fromId in_toId in_rtype in_rattributes fromId toId r_type
         r_attributes objects relationships];
    try rewrite Hft; try rewrite Htt; try assumption.
  rewrite (proj2 (includes_In _ _) Hfin), (proj2 (includes_In _ _) Htin).
  cbn [negb orb]. cbv beta iota delta [default from_option id].
  replace {| fromId := fromId r; toId := toId r; r_type := r_type r;
             r_attributes := r_attributes r |} with r by now destruct r.
  reflexivity.
Qed.

Lemma load_relationships_entries (objs : JsMap EaObject)
  (l acc : list EaRelationship) :
  Forall (relationship_ok objs) l ->
  load_relationships {| objects := objs; relationships := acc |}
    (map relationship_input
       (map (fun r => {| fromId := fromId r; toId := toId r; r_type := r_type r;
                         r_attributes := r_attributes r |}) l))
  = {| objects := objs; relationships := acc ++ l |}.
Proof.
  revert acc. induction l as [| r l IH]; intros acc Hok.
  - simpl. now rewrite app_nil_r.
  - inversion Hok as [| ? ? Hr Hrest]; subst.
    change (load_relationships
              (snd (addRelationship {| objects := objs; relationships := acc |}
                      (relationship_input
                         {| fromId := fromId r; toId := toId r; r_type := r_type r;
                            r_attributes := r_attributes r |})))
              (map relationship_input
                 (map (fun r0 => {| fromId := fromId r0; toId := toId r0;
                                    r_type := r_type r0;
                                    r_attributes := r_attributes r0 |}) l))
            = {| objects := objs; relationships := acc ++ r :: l |}).
    rewrite (addRelationship_entry objs acc r Hr). cbn [snd].
    rewrite IH by assumption. now rewrite <- app_assoc.
Qed.

(** Loading the objects and relationships of a snapshot rebuilds the
    repository the snapshot was taken of. *)
Lemma construct_serialized (repo : EaRepository) (md : EaRepositoryMetadata)
  (now : Time) :
  well_formed repo ->
  construct (map object_input (s_objects (serializeRepository repo md now)))
            (map relationship_input
               (s_relationships (serializeRepository repo md now)))
  = repo.
Proof.
  intros (Hnd & Hobjs & Hrels). unfold construct, Repository.empty. simpl.
  rewrite (load_objects_entries (objects repo) [] []); simpl;
    [| now apply NoDup_ListNoDup | assumption].
  rewrite load_relationships_entries by assumption.
  now destruct repo.
Qed.

End SnapshotRoundTrip.

Section WellFormed.

Lemma map_keys_set_present {V : Type} (m : JsMap V) (k : string) (v0 v : V) :
  map_get m k = Some v0 -> map_keys (map_set m k v) = map_keys m.
Proof.
  induction m as [| [k' v'] m IH]; simpl; [discriminate |].
  destruct (String.eqb_spec k k') as [-> | Hne]; simpl; [reflexivity |].
  intros H. now rewrite IH.
Qed.

Lemma Forall_map_set {V : Type} (P : string * V -> Prop) (m : JsMap V)
  (k : string) (v : V) :
  Forall P m -> P (k, v) -> Forall P (map_set m k v).
Proof.
  intros Hm Hkv. induction m as [| [k' v'] m IH]; simpl.
  - now constructor.
  - inversion Hm; subst. destruct (String.eqb k k'); constructor; auto.
Qed.

Lemma relationship_ok_mono (objs objs' : JsMap EaObject) (r : EaRelationship) :
  (forall k o, map_get objs k = Some o ->
     exists o', map_get objs' k = Some o' /\ o_type o' = o_type o) ->
  relationship_ok objs r -> relationship_ok objs' r.
Proof.
  intros Hmono (Hft & Hfne & Htt & Htne & Hty
                & fromObj & toObj & def & Hfo & Hto & Hdef & Hfin & Htin).
  destruct (Hmono _ _ Hfo) as (fo' & Hfo' & Hft').
  destruct (Hmono _ _ Hto) as (to' & Hto' & Htt').
  repeat (split; [assumption |]).
  exists fo', to', def. rewrite Hft', Htt'. auto.
Qed.

Lemma well_formed_empty : well_formed Repository.empty.
Proof. repeat split; constructor. Qed.

Lemma addObject_well_formed (this : EaRepository) (o : ObjectInput) :
  well_formed this -> well_formed (snd (addObject this o)).
Proof.
  intros (Hnd & Hobjs & Hrels). unfold addObject. cbv zeta.
  destruct (truthy (trim (in_id o))) eqn:Hid; [| now repeat split].
  destruct (isValidObjectType (in_type o)) eqn:Hty; [| now repeat split].
  unfold map_has.
  destruct (map_get (objects this) (trim (in_id o))) eqn:Hget;
    [now repeat split |].
  cbn [negb snd]. rewrite (map_set_fresh _ _ _ Hget).
  split; [| split]; cbn [objects relationships].
  - unfold map_keys. rewrite map_app. apply NoDup_app. split; [assumption |].
    split; [| apply NoDup_singleton].
    intros x Hx Hk. apply list_elem_of_In in Hx, Hk.
    cbn [map fst] in Hk. destruct Hk as [<- | []].
    destruct (map_get_in_keys _ _ Hx) as [v Hv]. congruence.
  - apply Forall_app. split; [assumption |]. constructor; [| constructor].
    simpl. split; [reflexivity |]. split; [apply trim_idempotent |].
    split; [now apply truthy_true | assumption].
  - eapply Forall_impl; [exact Hrels |]. intros r. apply relationship_ok_mono.
    intros k obj Hk. exists obj. split; [| reflexivity].
    rewrite map_get_app_fresh, Hk. reflexivity.
Qed.

Lemma addRelationship_well_formed (this : EaRepository) (rel : RelationshipInput) :
  well_formed this -> well_formed (snd (addRelationship this rel)).
Proof.
  intros Hwf. pose proof Hwf as (Hnd & Hobjs & Hrels).
  unfold addRelationship. cbv zeta.
  destruct (truthy (trim (in_fromId rel))) eqn:Hf; [| exact Hwf].
  destruct (truthy (trim (in_toId rel))) eqn:Ht; [| exact Hwf].
  destruct (isValidRelationshipType (in_rtype rel)) eqn:Hty; [| exact Hwf].
  cbn [negb].
  destruct (validateReference this (trim (in_fromId rel))); [| exact Hwf].
  destruct (validateReference this (trim (in_toId rel))); [| exact Hwf].
  destruct (record_get RELATIONSHIP_TYPE_DEFINITIONS (in_rtype rel))
    as [def |] eqn:Hdef; [| exact Hwf].
  destruct (map_get (objects this) (trim (in_fromId rel))) as [fo |] eqn:Hfo;
    [| exact Hwf].
  destruct (map_get (objects this) (trim (in_toId rel))) as [to |] eqn:Hto;
    [| exact Hwf].
  destruct (includes (fromTypes def) (o_type fo)) eqn:Hfin; [| exact Hwf].
  destruct (includes (toTypes def) (o_type to)) eqn:Htin; [| exact Hwf].
  cbn [negb orb snd].
  split; [assumption |]. split; [assumption |]. cbn [objects relationships].
  apply Forall_app. split; [assumption |]. constructor; [| constructor].
  unfold relationship_ok. cbn [fromId toId r_type].
  rewrite !trim_idempotent.
  split; [reflexivity |]. split; [now apply truthy_true |].
  split; [reflexivity |]. split; [now apply truthy_true |].
  split; [now apply includes_In |].
  exists fo, to, def. repeat split; try assumption; now apply includes_In.
Qed.

Lemma updateObjectAttributes_well_formed (this : EaRepository) (id : string)
  (patch : Attrs) (mode : UpdateMode) :
  well_formed this ->
  well_formed (snd (updateObjectAttributes this id patch mode)).
Proof.
  intros (Hnd & Hobjs & Hrels). unfold updateObjectAttributes. cbv zeta.
  destruct (negb (truthy (trim id))); [now repeat split |].
  destruct (map_get (objects this) (trim id)) as [existing |] eqn:Hget;
    [| now repeat split].
  cbn [snd]. split; [| split]; cbn [objects relationships].
  - now rewrite (map_keys_set_present _ _ existing).
  - apply Forall_map_set; [assumption |].
    assert (Hin : In (trim id, existing) (objects this)).
    { clear -Hget. induction (objects this) as [| [k v] m IH]; [discriminate |].
      simpl in Hget. destruct (String.eqb_spec (trim id) k) as [<- | Hne].
      - injection Hget as ->. now left.
      - right. now apply IH. }
    rewrite Forall_forall in Hobjs.
    apply list_elem_of_In in Hin. exact (Hobjs _ Hin).
  - eapply Forall_impl; [exact Hrels |]. intros r. apply relationship_ok_mono.
    intros k obj Hk. destruct (string_dec (trim id) k) as [<- | Hne].
    + rewrite map_get_set_eq. eexists. split; [reflexivity |]. simpl. congruence.
    + rewrite map_get_set_ne by assumption. now exists obj.
Qed.

(** Dropping relationships, as the relationship table of the shell
    does on a clone, keeps a repository well formed. *)
Lemma remove_relationships_well_formed (this : EaRepository)
  (keep : EaRelationship -> bool) :
  well_formed this ->
  well_formed {| objects := objects this;
                 relationships := List.filter keep (relationships this) |}.
Proof.
  intros (Hnd & Hobjs & Hrels). split; [assumption |]. split; [assumption |].
  cbn [objects relationships]. rewrite Forall_forall in *.
  intros r Hr. apply Hrels. apply list_elem_of_In in Hr.
  apply list_elem_of_In. apply List.filter_In in Hr. tauto.
Qed.

End WellFormed.

Section History.

Variable validateRepositoryMetadata :
  EaRepositoryMetadata -> string + EaRepositoryMetadata.
Variable buildGovernanceDebt : EaRepository -> Time -> string -> GovernanceSummary.

Local Abbreviation commit := (Context.commit buildGovernanceDebt).
Local Abbreviation persist := (Context.persist buildGovernanceDebt).
Local Abbreviation undo := (Context.undo validateRepositoryMetadata).
Local Abbreviation redo := (Context.redo validateRepositoryMetadata).
Local Abbreviation tryDeserializeRepository :=
  (Context.tryDeserializeRepository validateRepositoryMetadata).

Lemma archimate_violation_none (repo : EaRepository) (rels : list EaRelationship) :
  archimate_violation repo rels = None ->
  Forall (fun r => isRelationshipTypeAllowedForReferenceFramework
                     (Some "ArchiMate") (r_type r) = true) rels.
Proof.
  induction rels as [| r rels IH]; [constructor |].
  cbn [archimate_violation].
  destruct (isRelationshipTypeAllowedForReferenceFramework (Some "ArchiMate")
              (r_type r)) eqn:Hr; [| discriminate].
  cbn [negb]. intros Hgate. constructor; [exact Hr |]. apply IH.
  destruct (record_get RELATIONSHIP_TYPE_DEFINITIONS (r_type r)) as [def |];
    [| discriminate].
  destruct (map_get (objects repo) (fromId r)) as [fo |]; [| discriminate].
  destruct (map_get (objects repo) (toId r)) as [to |]; [| discriminate].
  destruct (negb (includes (fromTypes def) (o_type fo))
            || negb (includes (toTypes def) (o_type to))); [discriminate |].
  exact Hgate.
Qed.

(** A repository the reference-framework gate lets through carries, under
    ArchiMate, only relationship types of the ArchiMate set. *)
Lemma gate_framework_ok (md : EaRepositoryMetadata) (repo : EaRepository) :
  hasReferenceFrameworkViolations repo (referenceFramework md) = None ->
  framework_ok md repo.
Proof.
  intros Hgate Hfw. unfold hasReferenceFrameworkViolations in Hgate.
  rewrite Hfw in Hgate. apply (archimate_violation_none repo). exact Hgate.
Qed.

Lemma allowed_trim (fw : option string) (t : string) :
  isRelationshipTypeAllowedForReferenceFramework fw (trim t)
  = isRelationshipTypeAllowedForReferenceFramework fw t.
Proof.
  unfold isRelationshipTypeAllowedForReferenceFramework.
  now rewrite trim_idempotent.
Qed.

(** A snapshot of a well-formed repository deserializes to that
    repository and its metadata. *)
Lemma tryDeserialize_serialized (repo : EaRepository) (md : EaRepositoryMetadata)
  (now : Time) :
  validateRepositoryMetadata md = inr md ->
  well_formed repo -> framework_ok md repo ->
  tryDeserializeRepository (serializeRepository repo md now) = inr (repo, md).
Proof.
  intros Hvalid Hwf Hfw. unfold Context.tryDeserializeRepository.
  change (s_metadata (serializeRepository repo md now)) with md.
  rewrite Hvalid. cbv zeta.
  rewrite construct_serialized by assumption.
  assert (Hnone :
    match referenceFramework md with
    | Some fw =>
        if String.eqb fw "ArchiMate" then
          find (fun r => negb (isRelationshipTypeAllowedForReferenceFramework
                                 (Some "ArchiMate") (trim (r_type r))))
               (s_relationships (serializeRepository repo md now))
        else None
    | None => None
    end = None).
  { destruct (referenceFramework md) as [fw |] eqn:Hrf; [| reflexivity].
    destruct (String.eqb_spec fw "ArchiMate") as [-> | Hne]; [| reflexivity].
    specialize (Hfw Hrf). cbn [s_relationships serializeRepository].
    apply find_none_all. intros r Hr. apply in_map_iff in Hr.
    destruct Hr as (r0 & <- & Hr0). cbn [r_type]. rewrite allowed_trim.
    rewrite Forall_forall in Hfw. apply list_elem_of_In in Hr0.
    now rewrite (Hfw _ Hr0). }
  now rewrite Hnone.
Qed.

Lemma commit_fields (st : State) (md : EaRepositoryMetadata)
  (next : EaRepository) (now : Time) :
  metadata st = Some md ->
  eaRepository (commit next now st) = Some next
  /\ metadata (commit next now st) = Some md
  /\ history (commit next now st)
     = track_history (serializeRepository next md now) (history st).
Proof.
  intros Hmd. unfold Context.commit, Context.persist. simpl. rewrite Hmd.
  destruct (String.eqb (governanceMode md) "Strict").
  - destruct (strict_gate _ _) as [[[] g] ev]; simpl; auto.
  - destruct (String.eqb (governanceMode md) "Advisory"); [| simpl; auto].
    destruct (advisory_gate _ _) as [g ev]; simpl; auto.
Qed.

Lemma persist_fields (st : State) (md : EaRepositoryMetadata)
  (repo : EaRepository) (now : Time) :
  eaRepository st = Some repo -> metadata st = Some md ->
  eaRepository (persist now st) = Some repo
  /\ metadata (persist now st) = Some md
  /\ history (persist now st)
     = track_history (serializeRepository repo md now) (history st).
Proof.
  intros Hrepo Hmd. unfold Context.persist. rewrite Hrepo, Hmd.
  destruct (String.eqb (governanceMode md) "Strict").
  - destruct (strict_gate _ _) as [[[] g] ev]; simpl; auto.
  - destruct (String.eqb (governanceMode md) "Advisory"); [| simpl; auto].
    destruct (advisory_gate _ _) as [g ev]; simpl; auto.
Qed.

Lemma track_history_push (next prev : SerializedRepository) (h : History) :
  lastSerialized h = Some prev -> suppressHistory h = false -> prev <> next ->
  track_history next h
  = {| undoStack :=
         if HISTORY_LIMIT <? length (push (undoStack h) prev)
         then shift (push (undoStack h) prev) else push (undoStack h) prev;
       redoStack := [];
       lastSerialized := Some next;
       suppressHistory := false;
       canUndo := true;
       canRedo := false |}.
Proof.
  intros Hlast Hsup Hne. unfold track_history. rewrite Hlast, Hsup.
  cbn [negb]. now rewrite bool_decide_eq_true_2 by assumption.
Qed.

Lemma track_history_suppressed (next : SerializedRepository) (h : History) :
  suppressHistory h = true ->
  track_history next h
  = {| undoStack := undoStack h;
       redoStack := redoStack h;
       lastSerialized := Some next;
       suppressHistory := false;
       canUndo := canUndo h;
       canRedo := canRedo h |}.
Proof. intros Hsup. unfold track_history. now rewrite Hsup. Qed.

Lemma push_below_limit {A : Type} (l : list A) (x : A) :
  length l < HISTORY_LIMIT ->
  (if HISTORY_LIMIT <? length (push l x) then shift (push l x) else push l x)
  = l ++ [x].
Proof.
  intros Hlen. unfold push. rewrite length_app. simpl length.
  destruct (Nat.ltb_spec HISTORY_LIMIT (length l + 1)); [lia | reflexivity].
Qed.

Lemma push_bounded {A : Type} (l : list A) (x : A) :
  length l <= HISTORY_LIMIT ->
  length (if HISTORY_LIMIT <? length (push l x) then shift (push l x) else push l x)
  <= HISTORY_LIMIT.
Proof.
  intros Hlen. unfold push, shift.
  destruct (Nat.ltb_spec HISTORY_LIMIT (length (l ++ [x]))) as [Hgt | Hle];
    [| exact Hle].
  rewrite length_app in Hgt. simpl in Hgt.
  destruct l as [| a l]; simpl in *; [lia |]. rewrite length_app. simpl. lia.
Qed.

Lemma removelast_length {A : Type} (l : list A) :
  length (removelast l) = length l - 1.
Proof.
  induction l as [| a l IH]; [reflexivity |].
  destruct l as [| b l]; [reflexivity |].
  change (removelast (a :: b :: l)) with (a :: removelast (b :: l)).
  change (length (a :: removelast (b :: l)))
    with (S (length (removelast (b :: l)))).
  rewrite IH. simpl. lia.
Qed.

Lemma unshift_bounded {A : Type} (l : list A) (x : A) :
  length l <= HISTORY_LIMIT ->
  length (if HISTORY_LIMIT <? length (unshift l x) then pop (unshift l x)
          else unshift l x)
  <= HISTORY_LIMIT.
Proof.
  intros Hlen. unfold unshift, pop.
  destruct (Nat.ltb_spec HISTORY_LIMIT (length (x :: l))) as [Hgt | Hle];
    [| exact Hle].
  rewrite removelast_length. simpl. lia.
Qed.

Lemma track_history_bounded (next : SerializedRepository) (h : History) :
  length (undoStack h) <= HISTORY_LIMIT -> length (redoStack h) <= HISTORY_LIMIT ->
  length (undoStack (track_history next h)) <= HISTORY_LIMIT
  /\ length (redoStack (track_history next h)) <= HISTORY_LIMIT.
Proof.
  intros Hu Hr. unfold track_history.
  destruct (suppressHistory h); cbn [negb]; [now split |].
  destruct (lastSerialized h) as [prev |]; [| now split].
  destruct (bool_decide (prev <> next)); [| now split].
  cbn [undoStack redoStack]. split; [now apply push_bounded | simpl; lia].
Qed.

Lemma removelast_length_le {A : Type} (l : list A) :
  length (removelast l) <= length l.
Proof. rewrite removelast_length. lia. Qed.

Lemma tail_length_le {A : Type} (l : list A) : length (tail l) <= length l.
Proof. destruct l; simpl; lia. Qed.

Lemma undo_stacks (st : State) :
  let h := history st in
  undoStack (history (snd (undo st)))
  = match last (undoStack h) with
    | None => undoStack h
    | Some _ => pop (undoStack h)
    end
  /\ redoStack (history (snd (undo st)))
     = match last (undoStack h), lastSerialized h with
       | Some _, Some currentRaw =>
           if HISTORY_LIMIT <? length (unshift (redoStack h) currentRaw)
           then pop (unshift (redoStack h) currentRaw)
           else unshift (redoStack h) currentRaw
       | _, _ => redoStack h
       end.
Proof.
  cbv zeta. unfold Context.undo. cbv zeta.
  destruct (last (undoStack (history st))) as [prevRaw |]; [| now split].
  unfold applySerialized.
  destruct (Context.tryDeserializeRepository _ prevRaw) as [e | [repo md]];
    cbn [snd history with_history undoStack redoStack];
    destruct (lastSerialized (history st)); now split.
Qed.

Lemma redo_stacks (st : State) :
  let h := history st in
  redoStack (history (snd (redo st))) = shift (redoStack h)
  /\ undoStack (history (snd (redo st)))
     = match redoStack h, lastSerialized h with
       | _ :: _, Some currentRaw =>
           if HISTORY_LIMIT <? length (push (undoStack h) currentRaw)
           then shift (push (undoStack h) currentRaw)
           else push (undoStack h) currentRaw
       | _, _ => undoStack h
       end.
Proof.
  cbv zeta. unfold Context.redo. cbv zeta.
  destruct (redoStack (history st)) as [| nextRaw rest] eqn:Hredo;
    [cbn [snd history with_history undoStack redoStack]; now split |].
  unfold applySerialized.
  destruct (Context.tryDeserializeRepository _ nextRaw) as [e | [repo md]];
    cbn [snd history with_history undoStack redoStack];
    destruct (lastSerialized (history st)); now split.
Qed.

Lemma undo_success (st : State) (u : list SerializedRepository)
  (prev cur : SerializedRepository) (repo : EaRepository)
  (md : EaRepositoryMetadata) :
  undoStack (history st) = u ++ [prev] ->
  lastSerialized (history st) = Some cur ->
  length (redoStack (history st)) < HISTORY_LIMIT ->
  tryDeserializeRepository prev = inr (repo, md) ->
  exists st',
    undo st = (true, st')
    /\ eaRepository st' = Some repo /\ metadata st' = Some md
    /\ undoStack (history st') = u
    /\ redoStack (history st') = cur :: redoStack (history st)
    /\ lastSerialized (history st') = Some prev
    /\ suppressHistory (history st') = true.
Proof.
  intros Hundo Hlast Hlen Hparse. unfold Context.undo. cbv zeta.
  rewrite Hundo, last_snoc, Hlast. unfold applySerialized. rewrite Hparse.
  eexists. split; [reflexivity |].
  cbn [eaRepository metadata history with_history undoStack redoStack
       lastSerialized suppressHistory].
  unfold pop, unshift. rewrite removelast_last.
  destruct (Nat.ltb_spec HISTORY_LIMIT (length (cur :: redoStack (history st))))
    as [Hgt | Hle]; [simpl in Hgt; lia |].
  repeat split; reflexivity.
Qed.

Lemma redo_success (st : State) (rest : list SerializedRepository)
  (next cur : SerializedRepository) (repo : EaRepository)
  (md : EaRepositoryMetadata) :
  redoStack (history st) = next :: rest ->
  lastSerialized (history st) = Some cur ->
  length (undoStack (history st)) < HISTORY_LIMIT ->
  tryDeserializeRepository next = inr (repo, md) ->
  exists st',
    redo st = (true, st')
    /\ eaRepository st' = Some repo /\ metadata st' = Some md
    /\ undoStack (history st') = undoStack (history st) ++ [cur]
    /\ redoStack (history st') = rest
    /\ lastSerialized (history st') = Some next
    /\ suppressHistory (history st') = true.
Proof.
  intros Hredo Hlast Hlen Hparse. unfold Context.redo. cbv zeta.
  rewrite Hredo, Hlast. unfold applySerialized. rewrite Hparse.
  eexists. split; [reflexivity |].
  cbn [eaRepository metadata history with_history undoStack redoStack
       lastSerialized suppressHistory].
  rewrite push_below_limit by assumption.
  repeat split; reflexivity.
Qed.

Lemma commit_push (st : State) (md : EaRepositoryMetadata)
  (next : EaRepository) (now : Time) (prev : SerializedRepository) :
  metadata st = Some md ->
  lastSerialized (history st) = Some prev ->
  suppressHistory (history st) = false ->
  prev <> serializeRepository next md now ->
  let st' := commit next now st in
  eaRepository st' = Some next /\ metadata st' = Some md
  /\ redoStack (history st') = []
  /\ lastSerialized (history st') = Some (serializeRepository next md now)
  /\ suppressHistory (history st') = false
  /\ undoStack (history st')
     = if HISTORY_LIMIT <? length (push (undoStack (history st)) prev)
       then shift (push (undoStack (history st)) prev)
       else push (undoStack (history st)) prev.
Proof.
  intros Hmd Hlast Hsup Hne. cbv zeta.
  destruct (commit_fields st md next now Hmd) as (Hrepo & Hmd' & Hh).
  rewrite Hh, (track_history_push _ prev) by assumption.
  repeat split; assumption.
Qed.

(** C4: the history is a pair of snapshot stacks that never hold more
    than 50 entries.  A commit whose snapshot differs from the prior one
    pushes the prior snapshot on the undo stack, dropping the oldest
    entry when the stack is full, and empties the redo stack; undo and
    redo take the newest entry of one stack and put the current snapshot
    on the other, again dropping its oldest entry beyond 50.  After
    three such commits, undo brings back the repository as the second
    commit left it; once the effect has run on it, redo brings back the
    repository as the third commit left it, while a fourth commit made
    instead empties the redo stack. *)
Theorem bounded_snapshot_history (st : State) (md : EaRepositoryMetadata) :
  metadata st = Some md -> bounded st ->
  ((forall next now, bounded (commit next now st))
   /\ bounded (snd (undo st)) /\ bounded (snd (redo st))
   /\ (forall prev cur,
         last (undoStack (history st)) = Some prev ->
         lastSerialized (history st) = Some cur ->
         undoStack (history (snd (undo st))) = pop (undoStack (history st))
         /\ redoStack (history (snd (undo st)))
            = if HISTORY_LIMIT <? length (unshift (redoStack (history st)) cur)
              then pop (unshift (redoStack (history st)) cur)
              else unshift (redoStack (history st)) cur)
   /\ (forall next rest cur,
         redoStack (history st) = next :: rest ->
         lastSerialized (history st) = Some cur ->
         redoStack (history (snd (redo st))) = rest
         /\ undoStack (history (snd (redo st)))
            = if HISTORY_LIMIT <? length (push (undoStack (history st)) cur)
              then shift (push (undoStack (history st)) cur)
              else push (undoStack (history st)) cur))
  /\ (forall next now prev,
        lastSerialized (history st) = Some prev ->
        suppressHistory (history st) = false ->
        prev <> serializeRepository next md now ->
        let st' := commit next now st in
        eaRepository st' = Some next
        /\ redoStack (history st') = []
        /\ lastSerialized (history st') = Some (serializeRepository next md now)
        /\ (length (undoStack (history st)) < HISTORY_LIMIT ->
            undoStack (history st') = undoStack (history st) ++ [prev])
        /\ (forall oldest rest,
              undoStack (history st) = oldest :: rest ->
              length (undoStack (history st)) = HISTORY_LIMIT ->
              undoStack (history st') = rest ++ [prev]))
  /\ (forall r1 r2 r3 t1 t2 t3 t4 s0,
        validateRepositoryMetadata md = inr md ->
        lastSerialized (history st) = Some s0 ->
        suppressHistory (history st) = false ->
        length (undoStack (history st)) + 3 <= HISTORY_LIMIT ->
        well_formed r2 -> framework_ok md r2 ->
        well_formed r3 -> framework_ok md r3 ->
        let s1 := serializeRepository r1 md t1 in
        let s2 := serializeRepository r2 md t2 in
        let s3 := serializeRepository r3 md t3 in
        s0 <> s1 -> s1 <> s2 -> s2 <> s3 ->
        let st3 := commit r3 t3 (commit r2 t2 (commit r1 t1 st)) in
        undoStack (history st3) = undoStack (history st) ++ [s0; s1; s2]
        /\ redoStack (history st3) = []
        /\ exists undone,
             undo st3 = (true, undone)
             /\ eaRepository undone = Some r2 /\ metadata undone = Some md
             /\ undoStack (history undone) = undoStack (history st) ++ [s0; s1]
             /\ redoStack (history undone) = [s3]
             /\ (exists redone,
                   redo (persist t4 undone) = (true, redone)
                   /\ eaRepository redone = Some r3 /\ metadata redone = Some md
                   /\ redoStack (history redone) = [])
             /\ (forall r4 t5,
                   serializeRepository r2 md t4 <> serializeRepository r4 md t5 ->
                   let st4 := commit r4 t5 (persist t4 undone) in
                   eaRepository st4 = Some r4
                   /\ redoStack (history st4) = []
                   /\ undoStack (history st4)
                      = undoStack (history st)
                        ++ [s0; s1; serializeRepository r2 md t4])).
Proof.
  intros Hmd [Hu Hr]. split; [| split].
  - split; [| split; [| split; [| split]]].
    + intros next now. destruct (commit_fields st md next now Hmd) as (_ & _ & Hh).
      unfold bounded. rewrite Hh. now apply track_history_bounded.
    + destruct (undo_stacks st) as [Hus Hrs]. cbv zeta in Hus, Hrs.
      unfold bounded. rewrite Hus, Hrs. split.
      * destruct (last (undoStack (history st))); [| exact Hu].
        unfold pop. pose proof (removelast_length_le (undoStack (history st))). lia.
      * destruct (last (undoStack (history st))); [| exact Hr].
        destruct (lastSerialized (history st)); [| exact Hr].
        now apply unshift_bounded.
    + destruct (redo_stacks st) as [Hrs Hus]. cbv zeta in Hus, Hrs.
      unfold bounded. rewrite Hus, Hrs. split.
      * destruct (redoStack (history st)); [exact Hu |].
        destruct (lastSerialized (history st)); [| exact Hu].
        now apply push_bounded.
      * unfold shift. pose proof (tail_length_le (redoStack (history st))). lia.
    + intros prev cur Hprev Hcur.
      destruct (undo_stacks st) as [Hus Hrs]. cbv zeta in Hus, Hrs.
      rewrite Hus, Hrs, Hprev, Hcur. now split.
    + intros next rest cur Hnext Hcur.
      destruct (redo_stacks st) as [Hrs Hus]. cbv zeta in Hus, Hrs.
      rewrite Hus, Hrs, Hnext, Hcur. now split.
  - intros next now prev Hlast Hsup Hne. cbv zeta.
    destruct (commit_push st md next now prev Hmd Hlast Hsup Hne)
      as (Hrepo & _ & Hredo & Hl & _ & Hundo).
    repeat (split; [assumption |]). split.
    + intros Hlen. rewrite Hundo. now apply push_below_limit.
    + intros oldest rest Hstack Hfull. rewrite Hundo, Hstack. unfold push, shift.
      rewrite Hstack in Hfull.
      destruct (Nat.ltb_spec HISTORY_LIMIT (length ((oldest :: rest) ++ [prev])))
        as [Hgt | Hle]; [reflexivity |].
      rewrite length_app in Hle. simpl in Hle, Hfull. lia.
  - intros r1 r2 r3 t1 t2 t3 t4 s0 Hvalid Hlast Hsup Hlen Hwf2 Hfw2 Hwf3 Hfw3.
    cbv zeta. intros H01 H12 H23.
    destruct (commit_push st md r1 t1 s0 Hmd Hlast Hsup H01)
      as (_ & Hmd1 & _ & Hl1 & Hs1 & Hu1).
    rewrite push_below_limit in Hu1 by lia.
    destruct (commit_push _ md r2 t2 _ Hmd1 Hl1 Hs1 H12)
      as (_ & Hmd2 & _ & Hl2 & Hs2 & Hu2).
    rewrite push_below_limit in Hu2 by (rewrite Hu1, length_app; simpl; lia).
    destruct (commit_push _ md r3 t3 _ Hmd2 Hl2 Hs2 H23)
      as (_ & Hmd3 & Hr3 & Hl3 & Hs3 & Hu3).
    rewrite push_below_limit in Hu3
      by (rewrite Hu2, Hu1, !length_app; simpl; lia).
    rewrite Hu2, Hu1, <- !app_assoc in Hu3. simpl in Hu3.
    split; [exact Hu3 |]. split; [exact Hr3 |].
    destruct (undo_success (commit r3 t3 (commit r2 t2 (commit r1 t1 st)))
                (undoStack (history st) ++ [s0; serializeRepository r1 md t1])
                (serializeRepository r2 md t2) (serializeRepository r3 md t3) r2 md)
      as (undone & Hundo & Hrepo & Hmdu & Huu & Hru & Hlu & Hsu).
    { rewrite Hu3, <- app_assoc. reflexivity. }
    { exact Hl3. }
    { rewrite Hr3. simpl. unfold HISTORY_LIMIT. lia. }
    { now apply tryDeserialize_serialized. }
    rewrite Hr3 in Hru.
    exists undone. repeat (split; [assumption |]).
    destruct (persist_fields undone md r2 t4 Hrepo Hmdu) as (Hrepo' & Hmd' & Hh').
    rewrite (track_history_suppressed _ _ Hsu) in Hh'.
    split.
    + destruct (redo_success (persist t4 undone) [] (serializeRepository r3 md t3)
                  (serializeRepository r2 md t4) r3 md)
        as (redone & Hredo & Hrr & Hmr & _ & Hrs & _).
      { now rewrite Hh', Hru. }
      { now rewrite Hh'. }
      { rewrite Hh'. cbn [undoStack]. rewrite Huu, length_app. simpl. lia. }
      { now apply tryDeserialize_serialized. }
      exists redone. auto.
    + intros r4 t5 Hne. cbv zeta.
      destruct (commit_push (persist t4 undone) md r4 t5
                  (serializeRepository r2 md t4) Hmd')
        as (Hrepo4 & _ & Hredo4 & _ & _ & Hundo4);
        [now rewrite Hh' | now rewrite Hh' | exact Hne |].
      rewrite push_below_limit in Hundo4
        by (rewrite Hh'; cbn [undoStack]; rewrite Huu, length_app; simpl; lia).
      rewrite Hh' in Hundo4. cbn [undoStack] in Hundo4.
      rewrite Huu, <- app_assoc in Hundo4.
      repeat (split; [assumption |]). exact Hundo4.
Qed.

End History.

(** Three commits on a new repository (an application is added, named,
    and joined by a second one), then undo, redo, and a fourth commit
    in place of the redo. *)
Lemma bounded_snapshot_history_witness :
  let st3 :=
    Context.commit Samples.name_debt Samples.repo_two 3
      (Context.commit Samples.name_debt Samples.repo_named 2
         (Context.commit Samples.name_debt Samples.repo_unnamed 1
            Samples.started_state)) in
  exists undone,
    Context.undo Samples.accept_metadata st3 = (true, undone)
    /\ eaRepository undone = Some Samples.repo_named
    /\ (exists redone,
          Context.redo Samples.accept_metadata
            (Context.persist Samples.name_debt 4 undone) = (true, redone)
          /\ eaRepository redone = Some Samples.repo_two)
    /\ redoStack
         (history
            (Context.commit Samples.name_debt Samples.repo_three 5
               (Context.persist Samples.name_debt 4 undone))) = [].
Proof.
  cbv zeta.
  assert (Hwf1 : well_formed Samples.repo_unnamed)
    by apply addObject_well_formed, well_formed_empty.
  assert (Hwf2 : well_formed Samples.repo_named)
    by apply updateObjectAttributes_well_formed, Hwf1.
  assert (Hwf3 : well_formed Samples.repo_two)
    by apply addObject_well_formed, Hwf2.
  assert (Hfw : forall r, framework_ok Samples.advisory_metadata r)
    by (intros r H; discriminate H).
  assert (Hbounded : bounded Samples.started_state)
    by (split; vm_compute; lia).
  destruct (bounded_snapshot_history Samples.accept_metadata Samples.name_debt
              Samples.started_state Samples.advisory_metadata eq_refl Hbounded)
    as (_ & _ & Hscenario).
  destruct (Hscenario Samples.repo_unnamed Samples.repo_named Samples.repo_two
              1 2 3 4
              (serializeRepository Repository.empty Samples.advisory_metadata 0))
    as (_ & _ & undone & Hundo & Hrepo & _ & _ & _ & Hredo & Hfourth);
    try reflexivity; try assumption; try apply Hfw;
    try (intros H; apply (f_equal updatedAt) in H; discriminate H).
  { vm_compute. lia. }
  exists undone. split; [exact Hundo |]. split; [exact Hrepo |]. split.
  - destruct Hredo as (redone & Hr & Hrr & _). exists redone. now split.
  - apply (Hfourth Samples.repo_three 5).
    intros H; apply (f_equal updatedAt) in H; discriminate H.
Defined.

(** ** Cloning and aliasing *)

Section Cloning.

Import Store.

Lemma preserved_refl (s : Heap) : preserved s s.
Proof. repeat split; auto. Qed.

Lemma preserved_dom (s s' : Heap) :
  preserved s s' ->
  dom (bags s) ⊆ dom (bags s') /\ dom (maps s) ⊆ dom (maps s')
  /\ dom (arrays s) ⊆ dom (arrays s').
Proof.
  intros (Hb & Hm & Ha).
  repeat split; intros l Hl; apply elem_of_dom;
    [rewrite (Hb l Hl) | rewrite (Hm l Hl) | rewrite (Ha l Hl)];
    now apply elem_of_dom.
Qed.

Lemma preserved_trans (s1 s2 s3 : Heap) :
  preserved s1 s2 -> preserved s2 s3 -> preserved s1 s3.
Proof.
  intros H12 H23. destruct (preserved_dom _ _ H12) as (Db & Dm & Da).
  destruct H12 as (Hb & Hm & Ha). destruct H23 as (Hb' & Hm' & Ha').
  repeat split; intros l Hl.
  - rewrite Hb' by now apply Db. now apply Hb.
  - rewrite Hm' by now apply Dm. now apply Hm.
  - rewrite Ha' by now apply Da. now apply Ha.
Qed.

Lemma alloc_bag_spec (s : Heap) (a : Attrs) :
  let l := fst (alloc_bag s a) in
  let s' := snd (alloc_bag s a) in
  (l ∉ dom (bags s)) /\ bags s' !! l = Some a
  /\ maps s' = maps s /\ arrays s' = arrays s
  /\ preserved s s'.
Proof.
  cbv zeta. unfold alloc_bag. cbn [fst snd bags maps arrays].
  pose proof (is_fresh (dom (bags s))) as Hfresh.
  split; [exact Hfresh |]. split; [apply lookup_insert_eq |].
  split; [reflexivity |]. split; [reflexivity |].
  repeat split; cbn [bags maps arrays]; intros l Hl; try reflexivity.
  apply lookup_insert_ne. intros <-. contradiction.
Qed.

Lemma alloc_map_spec (s : Heap) (m : JsMap ObjectRef) :
  let l := fst (alloc_map s m) in
  let s' := snd (alloc_map s m) in
  (l ∉ dom (maps s)) /\ maps s' !! l = Some m
  /\ bags s' = bags s /\ arrays s' = arrays s
  /\ preserved s s'.
Proof.
  cbv zeta. unfold alloc_map. cbn [fst snd bags maps arrays].
  pose proof (is_fresh (dom (maps s))) as Hfresh.
  split; [exact Hfresh |]. split; [apply lookup_insert_eq |].
  split; [reflexivity |]. split; [reflexivity |].
  repeat split; cbn [bags maps arrays]; intros l Hl; try reflexivity.
  apply lookup_insert_ne. intros <-. contradiction.
Qed.

Lemma alloc_array_spec (s : Heap) (a : list RelationshipRef) :
  let l := fst (alloc_array s a) in
  let s' := snd (alloc_array s a) in
  (l ∉ dom (arrays s)) /\ arrays s' !! l = Some a
  /\ bags s' = bags s /\ maps s' = maps s
  /\ preserved s s'.
Proof.
  cbv zeta. unfold alloc_array. cbn [fst snd bags maps arrays].
  pose proof (is_fresh (dom (arrays s))) as Hfresh.
  split; [exact Hfresh |]. split; [apply lookup_insert_eq |].
  split; [reflexivity |]. split; [reflexivity |].
  repeat split; cbn [bags maps arrays]; intros l Hl; try reflexivity.
  apply lookup_insert_ne. intros <-. contradiction.
Qed.

(** Writing a Map that [s0] does not hold leaves the cells of [s0] as
    they are. *)
Lemma write_map_preserved (s0 s : Heap) (target : loc) (m : JsMap ObjectRef) :
  preserved s0 s -> target ∉ dom (maps s0) ->
  preserved s0 (write_map s target m).
Proof.
  intros (Hb & Hm & Ha) Hfresh. repeat split; cbn [write_map bags maps arrays];
    intros l Hl; auto.
  rewrite lookup_insert_ne; [now apply Hm |]. intros <-. contradiction.
Qed.

Lemma read_map_write (s : Heap) (target : loc) (m : JsMap ObjectRef) :
  read_map (write_map s target m) target = m.
Proof. unfold read_map, write_map. cbn [maps]. now rewrite lookup_insert_eq. Qed.

Lemma read_bag_preserved (s s' : Heap) (l : loc) :
  preserved s s' -> l ∈ dom (bags s) -> read_bag s' l = read_bag s l.
Proof. intros (Hb & _ & _) Hl. unfold read_bag. now rewrite Hb. Qed.

Lemma In_map_set {V : Type} (m : JsMap V) (k : string) (v : V)
  (e : string * V) :
  In e (map_set m k v) -> In e m \/ e = (k, v).
Proof.
  induction m as [| [k' v'] m IH]; simpl.
  - intros [<- | []]. now right.
  - destruct (String.eqb k k'); simpl.
    + intros [<- | Hin]; [now right | left; now right].
    + intros [<- | Hin]; [left; now left |].
      destruct (IH Hin) as [H | H]; [left; now right | now right].
Qed.

(** The object loop: the cells of [s0] stay, the bags of [s] stay, and
    every entry the loop puts in the target Map holds a bag that [s] did
    not have. *)
Lemma copy_objects_frame (entries : JsMap ObjectRef) (s0 s : Heap) (target : loc) :
  preserved s0 s -> target ∉ dom (maps s0) ->
  let s' := copy_objects s target entries in
  preserved s0 s'
  /\ (forall l, l ∈ dom (bags s) -> bags s' !! l = bags s !! l)
  /\ arrays s' = arrays s
  /\ (forall l, l <> target -> maps s' !! l = maps s !! l)
  /\ (forall e, In e (read_map s' target) ->
        In e (read_map s target) \/ h_attributes (snd e) ∉ dom (bags s)).
Proof.
  revert s. induction entries as [| [id obj] rest IH]; intros s Hpres Hfresh.
  - cbn [copy_objects]. cbv zeta. split; [exact Hpres |].
    split; [reflexivity |]. split; [reflexivity |]. split; [reflexivity |].
    intros e He. now left.
  - cbn [copy_objects].
    destruct (alloc_bag s (read_bag s (h_attributes obj))) as [a s1] eqn:Halloc.
    pose proof (alloc_bag_spec s (read_bag s (h_attributes obj))) as Hspec.
    rewrite Halloc in Hspec. cbn [fst snd] in Hspec.
    destruct Hspec as (Ha & Hbag & Hmaps & Harrs & Hp1).
    set (copy := {| h_id := h_id obj; h_type := h_type obj; h_attributes := a |}).
    set (s2 := write_map s1 target (map_set (read_map s1 target) id copy)).
    assert (Hp2 : preserved s0 s2).
    { apply write_map_preserved; [| assumption].
      eapply preserved_trans; eassumption. }
    destruct (IH s2 Hp2 Hfresh) as (Hq & Hbags & Harrays & Hmaps' & Hentries).
    cbv zeta. split; [exact Hq |]. split; [| split; [| split]].
    + intros l Hl. rewrite Hbags.
      * destruct Hp1 as (Hb1 & _ & _). now apply Hb1.
      * destruct (preserved_dom _ _ Hp1) as (Db & _ & _).
        subst s2. cbn [write_map bags]. now apply Db.
    + rewrite Harrays. subst s2. cbn [write_map arrays]. exact Harrs.
    + intros l Hl. rewrite (Hmaps' l Hl). subst s2. cbn [write_map maps].
      rewrite lookup_insert_ne by congruence. now rewrite Hmaps.
    + intros e He. destruct (Hentries e He) as [Hin | Hnew].
      * subst s2. rewrite read_map_write in Hin.
        apply In_map_set in Hin. destruct Hin as [Hin | ->].
        -- left. unfold read_map in *. now rewrite Hmaps in Hin.
        -- right. exact Ha.
      * right. intros Hl. apply Hnew.
        destruct (preserved_dom _ _ Hp1) as (Db & _ & _).
        subst s2. cbn [write_map bags]. now apply Db.
Qed.

(** The relationship loop, likewise. *)
Lemma copy_relationships_frame (rels : list RelationshipRef) (s : Heap) :
  let rels' := fst (copy_relationships s rels) in
  let s' := snd (copy_relationships s rels) in
  preserved s s'
  /\ maps s' = maps s /\ arrays s' = arrays s
  /\ (forall r, In r rels' -> h_rattributes r ∉ dom (bags s)).
Proof.
  revert s. induction rels as [| r rest IH]; intros s.
  - cbn. split; [apply preserved_refl |]. repeat split; tauto.
  - cbn [copy_relationships].
    destruct (alloc_bag s (read_bag s (h_rattributes r))) as [a s1] eqn:Halloc.
    pose proof (alloc_bag_spec s (read_bag s (h_rattributes r))) as Hspec.
    rewrite Halloc in Hspec. cbn [fst snd] in Hspec.
    destruct Hspec as (Ha & Hbag & Hmaps & Harrs & Hp1).
    specialize (IH s1). cbv zeta in IH.
    destruct (copy_relationships s1 rest) as [rest' s2].
    cbn [fst snd] in *. destruct IH as (Hp2 & Hm2 & Ha2 & Hfresh).
    split; [eapply preserved_trans; eassumption |].
    split; [congruence |]. split; [congruence |].
    intros r' [<- | Hin]; [exact Ha |].
    intros Hl. apply (Hfresh r' Hin).
    destruct (preserved_dom _ _ Hp1) as (Db & _ & _). now apply Db.
Qed.

Lemma resolve_entry_preserved (s s' : Heap) (e : string * ObjectRef) :
  (forall l, l ∈ dom (bags s) -> bags s' !! l = bags s !! l) ->
  h_attributes (snd e) ∈ dom (bags s) ->
  resolve_entry s' e = resolve_entry s e.
Proof.
  intros Hp Hl. unfold resolve_entry, resolve_object, read_bag.
  now rewrite (Hp _ Hl).
Qed.

Lemma resolve_relationship_preserved (s s' : Heap) (r : RelationshipRef) :
  (forall l, l ∈ dom (bags s) -> bags s' !! l = bags s !! l) ->
  h_rattributes r ∈ dom (bags s) ->
  resolve_relationship s' r = resolve_relationship s r.
Proof.
  intros Hp Hl. unfold resolve_relationship, read_bag.
  now rewrite (Hp _ Hl).
Qed.

(** The object loop appends to the target Map, in order, entries that
    resolve to what the copied entries resolve to. *)
Lemma copy_objects_content (entries : JsMap ObjectRef) (s : Heap) (target : loc) :
  (forall e, In e entries -> h_attributes (snd e) ∈ dom (bags s)) ->
  (forall e, In e (read_map s target) -> h_attributes (snd e) ∈ dom (bags s)) ->
  List.NoDup (map_keys (read_map s target) ++ map_keys entries) ->
  let s' := copy_objects s target entries in
  map (resolve_entry s') (read_map s' target)
  = map (resolve_entry s) (read_map s target ++ entries)
  /\ (forall e, In e (read_map s' target) -> h_attributes (snd e) ∈ dom (bags s')).
Proof.
  revert s. induction entries as [| [id obj] rest IH]; intros s Hent Hcur Hnd.
  - cbn [copy_objects]. cbv zeta. rewrite app_nil_r. now split.
  - cbn [copy_objects].
    destruct (alloc_bag s (read_bag s (h_attributes obj))) as [a s1] eqn:Halloc.
    pose proof (alloc_bag_spec s (read_bag s (h_attributes obj))) as Hspec.
    rewrite Halloc in Hspec. cbn [fst snd] in Hspec.
    destruct Hspec as (Ha & Hbag & Hmaps & Harrs & Hp1).
    destruct (preserved_dom _ _ Hp1) as (Db & _ & _).
    destruct Hp1 as (Hb1 & _ & _).
    set (copy := {| h_id := h_id obj; h_type := h_type obj; h_attributes := a |}).
    assert (Hm1 : read_map s1 target = read_map s target)
      by (unfold read_map; now rewrite Hmaps).
    assert (Hfresh : map_get (read_map s target) id = None).
    { apply map_get_None_keys. intros Hin.
      apply List.NoDup_remove_2 in Hnd. apply Hnd. apply in_or_app. now left. }
    rewrite Hm1, (map_set_fresh _ _ _ Hfresh).
    set (s2 := write_map s1 target (read_map s target ++ [(id, copy)])).
    assert (Hb2 : forall l, l ∈ dom (bags s) -> bags s2 !! l = bags s !! l)
      by (intros l Hl; subst s2; cbn [write_map bags]; now apply Hb1).
    assert (Hd2 : dom (bags s) ⊆ dom (bags s2))
      by (subst s2; cbn [write_map bags]; exact Db).
    assert (Hr2 : read_map s2 target = read_map s target ++ [(id, copy)])
      by (subst s2; apply read_map_write).
    assert (Ha2 : a ∈ dom (bags s2)).
    { subst s2. cbn [write_map bags]. apply elem_of_dom. now rewrite Hbag. }
    destruct (IH s2) as (Hcontent & Hdom).
    + intros e He. apply Hd2, Hent. now right.
    + intros e He. rewrite Hr2 in He. apply in_app_or in He.
      destruct He as [He | [<- | []]]; [now apply Hd2, Hcur | exact Ha2].
    + rewrite Hr2. unfold map_keys in *. rewrite map_app, <- app_assoc. exact Hnd.
    + cbv zeta. split; [| exact Hdom].
      rewrite Hcontent, Hr2, <- app_assoc. cbn [app].
      rewrite !map_app. cbn [map]. f_equal; [| f_equal].
      * apply map_ext_in. intros e He.
        apply resolve_entry_preserved; [exact Hb2 | now apply Hcur].
      * unfold resolve_entry, resolve_object, read_bag. cbn [fst snd copy h_id h_type h_attributes].
        subst s2. cbn [write_map bags]. now rewrite Hbag.
      * apply map_ext_in. intros e He.
        apply resolve_entry_preserved; [exact Hb2 |]. apply Hent. now right.
Qed.

Lemma copy_relationships_content (rels : list RelationshipRef) (s : Heap) :
  (forall r, In r rels -> h_rattributes r ∈ dom (bags s)) ->
  let rels' := fst (copy_relationships s rels) in
  let s' := snd (copy_relationships s rels) in
  map (resolve_relationship s') rels' = map (resolve_relationship s) rels
  /\ (forall r, In r rels' -> h_rattributes r ∈ dom (bags s')).
Proof.
  revert s. induction rels as [| r rest IH]; intros s Hrels.
  - cbn. split; [reflexivity | tauto].
  - cbn [copy_relationships].
    destruct (alloc_bag s (read_bag s (h_rattributes r))) as [a s1] eqn:Halloc.
    pose proof (alloc_bag_spec s (read_bag s (h_rattributes r))) as Hspec.
    rewrite Halloc in Hspec. cbn [fst snd] in Hspec.
    destruct Hspec as (Ha & Hbag & Hmaps & Harrs & Hp1).
    destruct (preserved_dom _ _ Hp1) as (Db & _ & _).
    destruct Hp1 as (Hb1 & _ & _).
    pose proof (copy_relationships_frame rest s1) as Hframe.
    specialize (IH s1). cbv zeta in IH, Hframe.
    destruct (copy_relationships s1 rest) as [rest' s2].
    cbn [fst snd] in *.
    destruct Hframe as (Hp2 & _).
    destruct (preserved_dom _ _ Hp2) as (Db2 & _ & _).
    destruct Hp2 as (Hb2 & _ & _).
    destruct IH as (Hcontent & Hdom).
    { intros r' Hr'. apply Db, Hrels. now right. }
    assert (Ha1 : a ∈ dom (bags s1)) by (apply elem_of_dom; now rewrite Hbag).
    split.
    + cbn [map]. f_equal.
      * unfold resolve_relationship, read_bag.
        cbn [h_fromId h_toId h_rtype h_rattributes].
        now rewrite (Hb2 a Ha1), Hbag.
      * rewrite Hcontent. apply map_ext_in. intros r' Hr'.
        apply resolve_relationship_preserved; [exact Hb1 |].
        apply Hrels. now right.
    + intros r' [<- | Hin]; [now apply Db2 | now apply Hdom].
Qed.

Lemma read_map_preserved (s s' : Heap) (l : loc) :
  preserved s s' -> l ∈ dom (maps s) -> read_map s' l = read_map s l.
Proof. intros (_ & Hm & _) Hl. unfold read_map. now rewrite Hm. Qed.

Lemma read_array_preserved (s s' : Heap) (l : loc) :
  preserved s s' -> l ∈ dom (arrays s) -> read_array s' l = read_array s l.
Proof. intros (_ & _ & Ha) Hl. unfold read_array. now rewrite Ha. Qed.

(** What is preserved of the heap is preserved of a repository in it. *)
Lemma content_preserved (s s' : Heap) (this : RepositoryRef) :
  allocated s this -> preserved s s' ->
  content s' this = content s this
  /\ (forall id, has_object s' this id = has_object s this id).
Proof.
  intros (Hm & Ha & Hbags & _) Hp. unfold content, has_object.
  rewrite (read_map_preserved _ _ _ Hp Hm), (read_array_preserved _ _ _ Hp Ha).
  split; [| reflexivity]. destruct Hp as (Hb & _ & _).
  f_equal; apply map_ext_in.
  - intros e He. apply resolve_entry_preserved; [exact Hb |].
    apply Hbags. unfold bag_locs. apply in_or_app. left.
    now apply (in_map (fun entry => h_attributes (snd entry))).
  - intros r Hr. apply resolve_relationship_preserved; [exact Hb |].
    apply Hbags. unfold bag_locs. apply in_or_app. right. now apply in_map.
Qed.

Lemma clone_spec (s : Heap) (this : RepositoryRef) :
  allocated s this ->
  let c := fst (clone s this) in
  let s' := snd (clone s this) in
  preserved s s'
  /\ (objects_ref c ∉ dom (maps s))
  /\ (relationships_ref c ∉ dom (arrays s))
  /\ (forall l, In l (bag_locs s' c) -> l ∉ dom (bags s))
  /\ content s' c = content s this.
Proof.
  intros Halloc. pose proof Halloc as (Hm & Ha & Hbags & Hnd).
  cbv zeta. unfold clone, new_repository.
  destruct (alloc_map s []) as [m sa] eqn:Hma.
  pose proof (alloc_map_spec s []) as Hsa. rewrite Hma in Hsa.
  cbn [fst snd] in Hsa. destruct Hsa as (Hmf & Hml & Hsab & Hsaa & Hpa).
  destruct (alloc_array sa []) as [a0 sb] eqn:Haa.
  pose proof (alloc_array_spec sa []) as Hsb. rewrite Haa in Hsb.
  cbn [fst snd] in Hsb. destruct Hsb as (_ & _ & Hsbb & Hsbm & Hpb).
  cbn [objects_ref relationships_ref].
  assert (Hp1 : preserved s sb) by (eapply preserved_trans; eassumption).
  assert (Hbb : bags sb = bags s) by congruence.
  assert (HE : read_map sb (objects_ref this) = read_map s (objects_ref this))
    by now apply read_map_preserved.
  assert (Hempty : read_map sb m = []).
  { unfold read_map. rewrite Hsbm. unfold JsMap in *. now rewrite Hml. }
  rewrite HE.
  set (E := read_map s (objects_ref this)) in *.
  destruct (copy_objects_frame E s sb m Hp1 Hmf)
    as (Hp2 & Hb2 & Ha2 & Hm2 & Hnew).
  destruct (copy_objects_content E sb m) as (Hcontent & Hdom2).
  { intros e He. rewrite Hbb. apply Hbags. unfold bag_locs.
    apply in_or_app. left.
    now apply (in_map (fun entry => h_attributes (snd entry))). }
  { rewrite Hempty. intros e []. }
  { rewrite Hempty. cbn [map_keys map app]. now apply NoDup_ListNoDup. }
  cbv zeta in Hp2, Hb2, Ha2, Hm2, Hnew, Hcontent, Hdom2.
  set (s2 := copy_objects sb m E) in *.
  assert (HR : read_array s2 (relationships_ref this)
               = read_array s (relationships_ref this))
    by now apply read_array_preserved.
  rewrite HR.
  set (R := read_array s (relationships_ref this)) in *.
  pose proof (copy_relationships_frame R s2) as Hframe.
  pose proof (copy_relationships_content R s2) as Hrc.
  cbv zeta in Hframe, Hrc.
  destruct (copy_relationships s2 R) as [rels s3]. cbn [fst snd] in Hframe, Hrc.
  destruct Hframe as (Hp3 & Hm3 & Ha3 & Hrnew).
  destruct Hrc as (Hrcontent & Hrdom).
  { intros r Hr. destruct (preserved_dom _ _ Hp2) as (Db & _ & _).
    apply Db, Hbags. unfold bag_locs. apply in_or_app. right. now apply in_map. }
  destruct (alloc_array s3 rels) as [a s4] eqn:Hal.
  pose proof (alloc_array_spec s3 rels) as Hs4. rewrite Hal in Hs4.
  cbn [fst snd] in Hs4. destruct Hs4 as (Haf & Hall & Hb4 & Hm4 & Hp4).
  cbn [fst snd objects_ref relationships_ref].
  assert (Hmap4 : read_map s4 m = read_map s2 m)
    by (unfold read_map; now rewrite Hm4, Hm3).
  assert (Harr4 : read_array s4 a = rels)
    by (unfold read_array; now rewrite Hall).
  split; [| split; [| split; [| split]]].
  - eapply preserved_trans; [exact Hp2 |].
    eapply preserved_trans; eassumption.
  - exact Hmf.
  - intros Hin. apply Haf.
    destruct (preserved_dom _ _ Hp2) as (_ & _ & D2).
    destruct (preserved_dom _ _ Hp3) as (_ & _ & D3). now apply D3, D2.
  - unfold bag_locs. cbn [objects_ref relationships_ref].
    rewrite Hmap4, Harr4. intros l Hl. apply in_app_or in Hl.
    destruct Hl as [Hl | Hl]; apply in_map_iff in Hl.
    + destruct Hl as (e & <- & He). destruct (Hnew e He) as [Hin | Hfresh].
      * rewrite Hempty in Hin. destruct Hin.
      * now rewrite <- Hbb.
    + destruct Hl as (r & <- & Hr). intros Hin. apply (Hrnew r Hr).
      destruct (preserved_dom _ _ Hp2) as (Db & _ & _). now apply Db.
  - unfold content. cbn [objects_ref relationships_ref].
    rewrite Hmap4, Harr4. f_equal.
    + transitivity (map (resolve_entry s2) (read_map s2 m)).
      * apply map_ext_in. intros e He.
        unfold resolve_entry, resolve_object, read_bag. rewrite Hb4.
        destruct Hp3 as (Hb3 & _ & _). now rewrite (Hb3 _ (Hdom2 e He)).
      * rewrite Hcontent, Hempty. cbn [app]. apply map_ext_in. intros e He.
        unfold resolve_entry, resolve_object, read_bag. now rewrite Hbb.
    + transitivity (map (resolve_relationship s3) rels).
      * apply map_ext_in. intros r Hr.
        unfold resolve_relationship, read_bag. now rewrite Hb4.
      * rewrite Hrcontent. apply map_ext_in. intros r Hr.
        destruct Hp2 as (Hb2' & _ & _).
        apply resolve_relationship_preserved; [exact Hb2' |].
        apply Hbags. unfold bag_locs. apply in_or_app. right. now apply in_map.
Qed.

(** [addObject] on a repository whose Map [s0] does not hold leaves the
    cells of [s0] as they are. *)
Lemma addObject_frame (s0 s : Heap) (c : RepositoryRef) (x : ObjectInputRef) :
  preserved s0 s -> objects_ref c ∉ dom (maps s0) ->
  preserved s0 (snd (Store.addObject s c x)).
Proof.
  intros Hp Hfresh. unfold Store.addObject. cbv zeta.
  destruct (negb (truthy (trim (hi_id x)))); [exact Hp |].
  destruct (negb (isValidObjectType (hi_type x))); [exact Hp |].
  destruct (map_has (read_map s (objects_ref c)) (trim (hi_id x))); [exact Hp |].
  destruct (hi_attributes x) as [a |].
  - cbn [snd]. now apply write_map_preserved.
  - destruct (alloc_bag s ∅) as [a s1] eqn:Halloc.
    pose proof (alloc_bag_spec s ∅) as Hspec. rewrite Halloc in Hspec.
    cbn [fst snd] in Hspec. destruct Hspec as (_ & _ & _ & _ & Hp1).
    cbn [snd]. apply write_map_preserved; [| assumption].
    eapply preserved_trans; eassumption.
Qed.

Lemma write_array_preserved (s0 s : Heap) (target : loc)
  (a : list RelationshipRef) :
  preserved s0 s -> target ∉ dom (arrays s0) ->
  preserved s0 (write_array s target a).
Proof.
  intros (Hb & Hm & Ha) Hfresh. repeat split; cbn [write_array bags maps arrays];
    intros l Hl; auto.
  rewrite lookup_insert_ne; [now apply Ha |]. intros <-. contradiction.
Qed.

Lemma addRelationship_frame (s0 s : Heap) (c : RepositoryRef)
  (rel : RelationshipInputRef) :
  preserved s0 s -> relationships_ref c ∉ dom (arrays s0) ->
  preserved s0 (snd (Store.addRelationship s c rel)).
Proof.
  intros Hp Hfresh. unfold Store.addRelationship. cbv zeta.
  destruct (negb (truthy (trim (hi_fromId rel)))); [exact Hp |].
  destruct (negb (truthy (trim (hi_toId rel)))); [exact Hp |].
  destruct (negb (isValidRelationshipType (hi_rtype rel))); [exact Hp |].
  destruct (Store.validateReference s c (trim (hi_fromId rel))); [| exact Hp].
  destruct (Store.validateReference s c (trim (hi_toId rel))); [| exact Hp].
  destruct (record_get RELATIONSHIP_TYPE_DEFINITIONS (hi_rtype rel)) as [def |];
    [| exact Hp].
  destruct (map_get (read_map s (objects_ref c)) (trim (hi_fromId rel)))
    as [fromObj |]; [| exact Hp].
  destruct (map_get (read_map s (objects_ref c)) (trim (hi_toId rel)))
    as [toObj |]; [| exact Hp].
  destruct (negb (includes (fromTypes def) (h_type fromObj))
            || negb (includes (toTypes def) (h_type toObj))); [exact Hp |].
  destruct (hi_rattributes rel) as [a |].
  - cbn [snd]. now apply write_array_preserved.
  - pose proof (alloc_bag_spec s ∅) as Hspec.
    destruct (alloc_bag s ∅) as [a s1].
    cbn [fst snd] in *. destruct Hspec as (_ & _ & _ & _ & Hp1).
    apply write_array_preserved; [| assumption].
    eapply preserved_trans; eassumption.
Qed.

Lemma updateObjectAttributes_frame (s0 s : Heap) (c : RepositoryRef)
  (id : string) (patch : Attrs) (mode : UpdateMode) :
  preserved s0 s -> objects_ref c ∉ dom (maps s0) ->
  preserved s0 (snd (Store.updateObjectAttributes s c id patch mode)).
Proof.
  intros Hp Hfresh. unfold Store.updateObjectAttributes. cbv zeta.
  destruct (negb (truthy (trim id))); [exact Hp |].
  destruct (map_get (read_map s (objects_ref c)) (trim id)) as [existing |];
    [| exact Hp].
  match goal with
  | |- context [alloc_bag ?h ?v] =>
      pose proof (alloc_bag_spec h v) as Hspec;
      destruct (alloc_bag h v) as [a s1]
  end.
  cbn [fst snd] in *. destruct Hspec as (_ & _ & _ & _ & Hp1).
  apply write_map_preserved; [| assumption].
  eapply preserved_trans; eassumption.
Qed.

(** No run of mutating calls on a repository whose Map and array [s0]
    does not hold changes a cell of [s0]. *)
Lemma mutate_all_frame (ms : list Mutation) (s0 s : Heap) (c : RepositoryRef) :
  preserved s0 s ->
  objects_ref c ∉ dom (maps s0) -> relationships_ref c ∉ dom (arrays s0) ->
  preserved s0 (mutate_all c s ms).
Proof.
  revert s. induction ms as [| m ms IH]; intros s Hp Hm Ha; [exact Hp |].
  cbn [mutate_all fold_left]. apply IH; try assumption.
  destruct m; cbn [mutate].
  - now apply addObject_frame.
  - now apply addRelationship_frame.
  - now apply updateObjectAttributes_frame.
Qed.

Lemma addObject_fresh_ok (s : Heap) (c : RepositoryRef) (x : ObjectInputRef) :
  trim (hi_id x) <> EmptyString ->
  isValidObjectType (hi_type x) = true ->
  has_object s c (trim (hi_id x)) = false ->
  fst (Store.addObject s c x) = Ok
  /\ has_object (snd (Store.addObject s c x)) c (trim (hi_id x)) = true.
Proof.
  intros Hid Hty Hhas. unfold has_object in *. unfold Store.addObject. cbv zeta.
  rewrite (proj2 (truthy_true _) Hid), Hty, Hhas. cbn [negb].
  destruct (hi_attributes x) as [a |].
  - cbn [fst snd]. split; [reflexivity |].
    rewrite read_map_write. apply map_has_set_eq.
  - destruct (alloc_bag s ∅) as [a s1]. cbn [fst snd]. split; [reflexivity |].
    rewrite read_map_write. apply map_has_set_eq.
Qed.

Lemma map_has_resolve (s : Heap) (m : JsMap ObjectRef) (k : string) :
  map_has (map (resolve_entry s) m) k = map_has m k.
Proof.
  unfold map_has. induction m as [| [k' v] m IH]; [reflexivity |].
  cbn [map map_get resolve_entry fst snd].
  destruct (String.eqb k k'); [reflexivity | exact IH].
Qed.

Lemma has_object_content (s s' : Heap) (this c : RepositoryRef) (k : string) :
  content s' c = content s this ->
  has_object s' c k = has_object s this k.
Proof.
  intros Hc. apply (f_equal objects) in Hc. unfold content in Hc.
  cbn [objects] in Hc. unfold has_object.
  rewrite <- (map_has_resolve s'), <- (map_has_resolve s). now rewrite Hc.
Qed.

Lemma map_resolve_set (s : Heap) (m : JsMap ObjectRef) (k : string) (v : ObjectRef) :
  map (resolve_entry s) (map_set m k v)
  = map_set (map (resolve_entry s) m) k (resolve_object s v).
Proof.
  induction m as [| [k' v'] m IH]; [reflexivity |].
  cbn [map_set map resolve_entry fst snd].
  destruct (String.eqb k k'); [reflexivity |].
  cbn [map resolve_entry fst snd]. now rewrite IH.
Qed.

(** On the content of the repository, [addObject] over the heap is
    [addObject] of the graph store. *)
Lemma addObject_content (s : Heap) (this : RepositoryRef) (x : ObjectInputRef) :
  allocated s this ->
  fst (Store.addObject s this x)
  = fst (Repository.addObject (content s this) (resolve_input s x))
  /\ content (snd (Store.addObject s this x)) this
     = snd (Repository.addObject (content s this) (resolve_input s x)).
Proof.
  intros (Hm & Ha & Hbags & _).
  unfold Store.addObject, Repository.addObject. cbv zeta.
  cbn [in_id in_type in_attributes resolve_input].
  destruct (negb (truthy (trim (hi_id x)))); [now split |].
  destruct (negb (isValidObjectType (hi_type x))); [now split |].
  change (objects (content s this))
    with (map (resolve_entry s) (read_map s (objects_ref this))).
  rewrite map_has_resolve.
  destruct (map_has (read_map s (objects_ref this)) (trim (hi_id x)));
    [now split |].
  assert (Hgen : forall a s1,
            (forall l, l ∈ dom (bags s) -> bags s1 !! l = bags s !! l) ->
            maps s1 = maps s -> arrays s1 = arrays s ->
            content
              (write_map s1 (objects_ref this)
                 (map_set (read_map s1 (objects_ref this)) (trim (hi_id x))
                    {| h_id := trim (hi_id x); h_type := hi_type x;
                       h_attributes := a |})) this
            = {| objects :=
                   map_set (map (resolve_entry s) (read_map s (objects_ref this)))
                     (trim (hi_id x))
                     {| o_id := trim (hi_id x); o_type := hi_type x;
                        o_attributes := read_bag s1 a |};
                 relationships := relationships (content s this) |}).
  { intros a s1 Hb Hmaps Harrs. unfold content.
    rewrite read_map_write.
    assert (Hrm : read_map s1 (objects_ref this) = read_map s (objects_ref this))
      by (unfold read_map; now rewrite Hmaps).
    assert (Hra : read_array
                    (write_map s1 (objects_ref this)
                       (map_set (read_map s1 (objects_ref this)) (trim (hi_id x))
                          {| h_id := trim (hi_id x); h_type := hi_type x;
                             h_attributes := a |}))
                    (relationships_ref this)
                  = read_array s (relationships_ref this))
      by (unfold read_array; cbn [write_map arrays]; now rewrite Harrs).
    rewrite Hra, Hrm, map_resolve_set. cbn [relationships]. f_equal.
    - f_equal. apply map_ext_in. intros e He.
      apply resolve_entry_preserved; [exact Hb |].
      apply Hbags. unfold bag_locs. apply in_or_app. left.
      now apply (in_map (fun entry => h_attributes (snd entry))).
    - apply map_ext_in. intros r Hr.
      apply resolve_relationship_preserved; [exact Hb |].
      apply Hbags. unfold bag_locs. apply in_or_app. right. now apply in_map. }
  destruct (hi_attributes x) as [a |];
    cbn [fst snd fmap option_fmap option_map default from_option id].
  - split; [reflexivity |]. now rewrite (Hgen a s).
  - destruct (alloc_bag s ∅) as [a s1] eqn:Halloc.
    pose proof (alloc_bag_spec s ∅) as Hspec. rewrite Halloc in Hspec.
    cbn [fst snd] in Hspec.
    destruct Hspec as (_ & Hbag & Hmaps & Harrs & (Hb & _ & _)).
    cbn [fst snd]. split; [reflexivity |].
    rewrite (Hgen a s1 Hb Hmaps Harrs). unfold read_bag. now rewrite Hbag.
Qed.

(** C9: [clone] returns a repository with the content of the original,
    held in a Map, an array and attribute bags of its own: none of them
    existed before the call, so no attribute bag is shared with the
    original.  Whatever [addObject], and any run of mutating calls, then
    does to the clone, every cell of the heap that existed before the
    clone is left as it was: the original keeps its content, [has]
    answers on it as before, and so for an object [x] whose id the
    original does not have, the clone has it after the call and the
    original still does not. *)
Theorem clone_then_add_leaves_original (s : Heap) (this : RepositoryRef)
  (x : ObjectInputRef) :
  allocated s this ->
  let c := fst (clone s this) in
  let s1 := snd (clone s this) in
  let s2 := snd (Store.addObject s1 c x) in
  content s1 c = content s this
  /\ objects_ref c <> objects_ref this
  /\ relationships_ref c <> relationships_ref this
  /\ (forall l, In l (bag_locs s1 c) ->
        (l ∉ dom (bags s)) /\ ~ In l (bag_locs s this))
  /\ preserved s s2
  /\ content s2 this = content s this
  /\ (forall id, has_object s2 this id = has_object s this id)
  /\ (forall ms,
        preserved s (mutate_all c s1 ms)
        /\ content (mutate_all c s1 ms) this = content s this)
  /\ (has_object s this (trim (hi_id x)) = false ->
      has_object s2 this (trim (hi_id x)) = false
      /\ (trim (hi_id x) <> EmptyString ->
          isValidObjectType (hi_type x) = true ->
          fst (Store.addObject s1 c x) = Ok
          /\ has_object s2 c (trim (hi_id x)) = true)).
Proof.
  intros Halloc. cbv zeta.
  destruct (clone_spec s this Halloc) as (Hp & Hmf & Haf & Hfresh & Hcontent).
  cbv zeta in Hp, Hmf, Haf, Hfresh, Hcontent.
  pose proof Halloc as (Hm & Ha & Hbags & _).
  pose proof (addObject_frame s (snd (clone s this)) (fst (clone s this)) x Hp Hmf)
    as Hp2.
  destruct (content_preserved s _ this Halloc Hp2) as (Hc2 & Hhas2).
  destruct (content_preserved s _ this Halloc Hp) as (_ & Hhas1).
  split; [exact Hcontent |].
  split; [intros Heq; apply Hmf; now rewrite Heq |].
  split; [intros Heq; apply Haf; now rewrite Heq |].
  split; [| split; [exact Hp2 | split; [exact Hc2 | split; [exact Hhas2 |
           split]]]].
  - intros l Hl. split; [now apply Hfresh |].
    intros Hin. apply (Hfresh l Hl). now apply Hbags.
  - intros ms.
    pose proof (mutate_all_frame ms s (snd (clone s this)) (fst (clone s this))
                  Hp Hmf Haf) as Hpm.
    split; [exact Hpm |]. now apply content_preserved.
  - intros Hnew. split; [now rewrite Hhas2 |].
    intros Hid Hty. apply addObject_fresh_ok; try assumption.
    now rewrite (has_object_content s _ this _ _ Hcontent).
Qed.

(** A repository with one application is cloned and a second
    application is added to the clone: the clone has it, the original
    does not, and the original's content is what it was. *)
Lemma clone_then_add_leaves_original_witness :
  let c := fst (clone Samples.heap_one Samples.heap_this) in
  let s1 := snd (clone Samples.heap_one Samples.heap_this) in
  let s2 := snd (Store.addObject s1 c Samples.second_application) in
  has_object s2 c "app-2" = true
  /\ has_object s2 Samples.heap_this "app-2" = false
  /\ content s2 Samples.heap_this = content Samples.heap_one Samples.heap_this
  /\ content s1 c = content Samples.heap_one Samples.heap_this.
Proof.
  cbv zeta.
  assert (Halloc : allocated Samples.heap_one Samples.heap_this).
  { split; [| split; [| split]].
    - apply elem_of_dom. eexists. vm_compute. reflexivity.
    - apply elem_of_dom. eexists. vm_compute. reflexivity.
    - intros l Hl. vm_compute in Hl. destruct Hl as [<- | []].
      apply elem_of_dom. eexists. vm_compute. reflexivity.
    - replace (map_keys (read_map Samples.heap_one (objects_ref Samples.heap_this)))
        with ["app-1"] by (vm_compute; reflexivity).
      apply NoDup_singleton. }
  destruct (clone_then_add_leaves_original Samples.heap_one Samples.heap_this
              Samples.second_application Halloc)
    as (Hcopy & _ & _ & _ & _ & Hcontent & _ & _ & Hnew).
  destruct (Hnew eq_refl) as (Horig & Hclone).
  destruct Hclone as (_ & Hhas); [discriminate | reflexivity |].
  repeat split; assumption.
Defined.

End Cloning.

(** ** More on the graph store *)

(** Every branch of a method body, one goal each. *)
Ltac method_branches :=
  repeat match goal with
         | |- context [if ?b then _ else _] => destruct b eqn:?
         | |- context [match ?x with _ => _ end] => destruct x eqn:?
         end.

Section ConstructorIntegrity.

Lemma load_objects_well_formed (objs : list ObjectInput) (this : EaRepository) :
  well_formed this -> well_formed (load_objects this objs).
Proof.
  revert this. induction objs as [| x objs IH]; intros this Hwf; [exact Hwf |].
  apply (IH (snd (addObject this x))). now apply addObject_well_formed.
Qed.

Lemma load_relationships_well_formed (rels : list RelationshipInput)
  (this : EaRepository) :
  well_formed this -> well_formed (load_relationships this rels).
Proof.
  revert this. induction rels as [| x rels IH]; intros this Hwf; [exact Hwf |].
  apply (IH (snd (addRelationship this x))). now apply addRelationship_well_formed.
Qed.

Lemma construct_well_formed (objs : list ObjectInput) (rels : list RelationshipInput) :
  well_formed (construct objs rels).
Proof.
  apply load_relationships_well_formed, load_objects_well_formed, well_formed_empty.
Qed.

Lemma addObject_relationships (this : EaRepository) (x : ObjectInput) :
  relationships (snd (addObject this x)) = relationships this.
Proof. unfold addObject. cbv zeta. method_branches; reflexivity. Qed.

Lemma addRelationship_objects (this : EaRepository) (rel : RelationshipInput) :
  objects (snd (addRelationship this rel)) = objects this.
Proof. unfold addRelationship. cbv zeta. method_branches; reflexivity. Qed.

Lemma updateObjectAttributes_relationships (this : EaRepository) (id : string)
  (patch : Attrs) (mode : UpdateMode) :
  relationships (snd (updateObjectAttributes this id patch mode))
  = relationships this.
Proof.
  unfold updateObjectAttributes. cbv zeta.
  destruct (negb (truthy (trim id))); [reflexivity |].
  destruct (map_get (objects this) (trim id)); reflexivity.
Qed.

Lemma addObject_stored (this : EaRepository) (x : ObjectInput) (k : string)
  (o : EaObject) :
  In (k, o) (objects (snd (addObject this x))) ->
  In (k, o) (objects this) \/ (k = trim (in_id x) /\ o = stored_object x).
Proof.
  unfold addObject. cbv zeta.
  destruct (negb (truthy (trim (in_id x)))); [now left |].
  destruct (negb (isValidObjectType (in_type x))); [now left |].
  unfold map_has.
  destruct (map_get (objects this) (trim (in_id x))) eqn:Hget; [now left |].
  cbn [snd objects]. rewrite (map_set_fresh _ _ _ Hget).
  intros Hin. apply in_app_or in Hin. destruct Hin as [Hin | [Heq | []]].
  - now left.
  - right. now inversion Heq.
Qed.

Lemma load_objects_stored (objs : list ObjectInput) (this : EaRepository)
  (k : string) (o : EaObject) :
  In (k, o) (objects (load_objects this objs)) ->
  In (k, o) (objects this)
  \/ exists x, In x objs /\ k = trim (in_id x) /\ o = stored_object x.
Proof.
  revert this. induction objs as [| x objs IH]; intros this Hin; [now left |].
  destruct (IH (snd (addObject this x)) Hin) as [Hold | (y & Hy & Hk & Ho)].
  - destruct (addObject_stored _ _ _ _ Hold) as [Hthis | [Hk Ho]].
    + now left.
    + right. exists x. split; [now left | now split].
  - right. exists y. split; [now right | now split].
Qed.

Lemma addRelationship_stored (this : EaRepository) (rel : RelationshipInput)
  (r : EaRelationship) :
  In r (relationships (snd (addRelationship this rel))) ->
  In r (relationships this) \/ r = stored_relationship rel.
Proof.
  unfold addRelationship. cbv zeta. method_branches; cbn [snd relationships];
    intros Hin; try (now left).
  apply in_app_or in Hin. destruct Hin as [Hin | [Heq | []]];
    [now left | right; now subst].
Qed.

Lemma load_relationships_stored (rels : list RelationshipInput)
  (this : EaRepository) (r : EaRelationship) :
  In r (relationships (load_relationships this rels)) ->
  In r (relationships this)
  \/ exists rel, In rel rels /\ r = stored_relationship rel.
Proof.
  revert this. induction rels as [| x rels IH]; intros this Hin; [now left |].
  destruct (IH (snd (addRelationship this x)) Hin) as [Hold | (y & Hy & Hr)].
  - destruct (addRelationship_stored _ _ _ Hold) as [Hthis | Hr].
    + now left.
    + right. exists x. split; [now left | assumption].
  - right. exists y. split; [now right | assumption].
Qed.

Lemma load_relationships_objects (rels : list RelationshipInput)
  (this : EaRepository) :
  objects (load_relationships this rels) = objects this.
Proof.
  revert this. induction rels as [| x rels IH]; intros this; [reflexivity |].
  change (objects (load_relationships (snd (addRelationship this x)) rels)
          = objects this).
  now rewrite IH, addRelationship_objects.
Qed.

Lemma load_objects_relationships (objs : list ObjectInput) (this : EaRepository) :
  relationships (load_objects this objs) = relationships this.
Proof.
  revert this. induction objs as [| x objs IH]; intros this; [reflexivity |].
  change (relationships (load_objects (snd (addObject this x)) objs)
          = relationships this).
  now rewrite IH, addObject_relationships.
Qed.

(** X1: whatever the constructor is given, the repository it builds is
    sound.  No key of the objects map is repeated; every entry is an
    object stored under its own id, trimmed and not blank, of a valid
    type, and was built from one of the given objects; every
    relationship was built from one of the given relationships and
    joins two stored objects whose types the definition of its type
    admits as source and as target. *)
Theorem constructor_referential_integrity
  (objs : list ObjectInput) (rels : list RelationshipInput) :
  let repo := construct objs rels in
  NoDup (map_keys (objects repo))
  /\ (forall k o, In (k, o) (objects repo) ->
        o_id o = k /\ trim k = k /\ k <> EmptyString
        /\ isValidObjectType (o_type o) = true
        /\ exists x, In x objs /\ o = stored_object x)
  /\ (forall r, In r (relationships repo) ->
        (exists rel, In rel rels /\ r = stored_relationship rel)
        /\ exists fromObj toObj def,
             map_get (objects repo) (fromId r) = Some fromObj
             /\ map_get (objects repo) (toId r) = Some toObj
             /\ record_get RELATIONSHIP_TYPE_DEFINITIONS (r_type r) = Some def
             /\ In (o_type fromObj) (fromTypes def)
             /\ In (o_type toObj) (toTypes def)).
Proof.
  cbv zeta. destruct (construct_well_formed objs rels) as (Hnd & Hobjs & Hrels).
  split; [exact Hnd |]. split.
  - intros k o Hin. rewrite Forall_forall in Hobjs.
    destruct (Hobjs (k, o) (proj2 (list_elem_of_In _ _) Hin))
      as (Hid & Htrim & Hne & Hty).
    repeat (split; [assumption |]).
    unfold construct in Hin. rewrite load_relationships_objects in Hin.
    destruct (load_objects_stored _ _ _ _ Hin) as [[] | (x & Hx & _ & Ho)].
    now exists x.
  - intros r Hin. rewrite Forall_forall in Hrels.
    destruct (Hrels r (proj2 (list_elem_of_In _ _) Hin))
      as (_ & _ & _ & _ & _ & fromObj & toObj & def & H).
    split; [| now exists fromObj, toObj, def].
    unfold construct in Hin.
    destruct (load_relationships_stored _ _ _ Hin) as [Hold | Hnew];
      [| exact Hnew].
    rewrite load_objects_relationships in Hold. destruct Hold.
Qed.

End ConstructorIntegrity.

Section InsertOnly.

Lemma addObject_keeps (this : EaRepository) (x : ObjectInput) (k : string)
  (obj : EaObject) :
  map_get (objects this) k = Some obj ->
  map_get (objects (snd (addObject this x))) k = Some obj.
Proof.
  intros Hget. unfold addObject. cbv zeta.
  destruct (negb (truthy (trim (in_id x)))); [exact Hget |].
  destruct (negb (isValidObjectType (in_type x))); [exact Hget |].
  unfold map_has.
  destruct (map_get (objects this) (trim (in_id x))) eqn:Hid; [exact Hget |].
  cbn [snd objects]. rewrite map_get_set_ne; [exact Hget |]. congruence.
Qed.

Lemma updateObjectAttributes_keeps (this : EaRepository) (id : string)
  (patch : Attrs) (mode : UpdateMode) (k : string) (obj : EaObject) :
  map_get (objects this) k = Some obj ->
  exists obj',
    map_get (objects (snd (updateObjectAttributes this id patch mode))) k = Some obj'
    /\ o_id obj' = o_id obj /\ o_type obj' = o_type obj
    /\ (trim id <> k -> obj' = obj).
Proof.
  intros Hget. unfold updateObjectAttributes. cbv zeta.
  destruct (negb (truthy (trim id))); [now exists obj |].
  destruct (map_get (objects this) (trim id)) as [existing |] eqn:Hid;
    [| now exists obj].
  cbn [snd objects]. destruct (string_dec (trim id) k) as [<- | Hne].
  - rewrite map_get_set_eq. eexists. split; [reflexivity |].
    assert (existing = obj) by congruence. subst. cbn.
    repeat split. intros Hne. now contradiction Hne.
  - rewrite map_get_set_ne by assumption. now exists obj.
Qed.

Lemma updateObjectAttributes_keys (this : EaRepository) (id : string)
  (patch : Attrs) (mode : UpdateMode) :
  map_keys (objects (snd (updateObjectAttributes this id patch mode)))
  = map_keys (objects this).
Proof.
  unfold updateObjectAttributes. cbv zeta.
  destruct (negb (truthy (trim id))); [reflexivity |].
  destruct (map_get (objects this) (trim id)) as [existing |] eqn:Hid;
    [| reflexivity].
  cbn [snd objects]. now apply (map_keys_set_present _ _ existing).
Qed.

Lemma addRelationship_appends (this : EaRepository) (rel : RelationshipInput) :
  exists added,
    relationships (snd (addRelationship this rel)) = relationships this ++ added.
Proof.
  unfold addRelationship. cbv zeta. method_branches; cbn [snd relationships];
    try (exists []; now rewrite app_nil_r).
  eexists. reflexivity.
Qed.

Lemma apply_call_keeps (this : EaRepository) (c : Call) (k : string)
  (obj : EaObject) :
  map_get (objects this) k = Some obj ->
  exists obj',
    map_get (objects (apply_call this c)) k = Some obj'
    /\ o_id obj' = o_id obj /\ o_type obj' = o_type obj.
Proof.
  intros Hget. destruct c as [x | rel | id patch mode]; cbn [apply_call].
  - exists obj. split; [now apply addObject_keeps | now split].
  - exists obj. rewrite addRelationship_objects. now repeat split.
  - destruct (updateObjectAttributes_keeps this id patch mode k obj Hget)
      as (obj' & H1 & H2 & H3 & _).
    now exists obj'.
Qed.

Lemma apply_call_appends (this : EaRepository) (c : Call) :
  exists added, relationships (apply_call this c) = relationships this ++ added.
Proof.
  destruct c as [x | rel | id patch mode]; cbn [apply_call].
  - exists []. now rewrite addObject_relationships, app_nil_r.
  - apply addRelationship_appends.
  - exists []. now rewrite updateObjectAttributes_relationships, app_nil_r.
Qed.

Lemma apply_call_well_formed (this : EaRepository) (c : Call) :
  well_formed this -> well_formed (apply_call this c).
Proof.
  destruct c; cbn [apply_call];
    [apply addObject_well_formed | apply addRelationship_well_formed
    | apply updateObjectAttributes_well_formed].
Qed.

(** X2: the repository has no call that removes or retypes.  Through
    any run of [addObject], [addRelationship] and
    [updateObjectAttributes], failing calls included, an object that is
    stored stays stored under its key with the same id and the same
    type, and the relationships held at the start stay, in order, at the
    front of the list. *)
Theorem calls_never_remove (cs : list Call) (this : EaRepository) (k : string)
  (obj : EaObject) :
  map_get (objects this) k = Some obj ->
  (exists obj',
     map_get (objects (apply_calls this cs)) k = Some obj'
     /\ o_id obj' = o_id obj /\ o_type obj' = o_type obj)
  /\ exists added,
       relationships (apply_calls this cs) = relationships this ++ added.
Proof.
  revert this obj. induction cs as [| c cs IH]; intros this obj Hget.
  - split; [now exists obj |]. exists []. now rewrite app_nil_r.
  - destruct (apply_call_keeps this c k obj Hget) as (obj1 & Hget1 & Hid1 & Hty1).
    destruct (IH (apply_call this c) obj1 Hget1)
      as ((obj' & Hget' & Hid' & Hty') & (added' & Hrels')).
    split.
    + exists obj'. split; [exact Hget' |]. split; congruence.
    + destruct (apply_call_appends this c) as (added & Hrels).
      exists (added ++ added'). cbn [apply_calls fold_left] in *.
      unfold apply_calls in Hrels'. rewrite Hrels', Hrels. now rewrite app_assoc.
Qed.

(** After an application is stored, a failing insert, an update and a
    relationship leave it stored with its type. *)
Lemma calls_never_remove_witness :
  exists obj',
    map_get
      (objects
         (apply_calls Samples.repo_unnamed
            [ ToAddObject (Samples.obj "app-1" "Technology");
              ToUpdateObjectAttributes "app-1" {[ "name" := JStr "Billing" ]} replace;
              ToAddRelationship (Samples.rel "app-1" "DEPENDS_ON" "app-1") ]))
      "app-1"
    = Some obj'
    /\ o_id obj' = "app-1" /\ o_type obj' = "Application".
Proof.
  apply (calls_never_remove _ Samples.repo_unnamed "app-1"
           {| o_id := "app-1"; o_type := "Application"; o_attributes := ∅ |}).
  reflexivity.
Defined.

End InsertOnly.

Section Updates.

Lemma map_set_set {V : Type} (m : JsMap V) (k : string) (v1 v2 : V) :
  map_set (map_set m k v1) k v2 = map_set m k v2.
Proof.
  induction m as [| [k' v'] m IH]; simpl.
  - now rewrite String.eqb_refl.
  - destruct (String.eqb k k') eqn:Hk; simpl.
    + now rewrite String.eqb_refl.
    + now rewrite Hk, IH.
Qed.

Lemma map_set_same {V : Type} (m : JsMap V) (k : string) (v : V) :
  map_get m k = Some v -> map_set m k v = m.
Proof.
  induction m as [| [k' v'] m IH]; simpl; [discriminate |].
  destruct (String.eqb_spec k k') as [-> | Hne].
  - intros H. now inversion H.
  - intros H. now rewrite IH.
Qed.

Lemma updateObjectAttributes_ok_inv (this : EaRepository) (id : string)
  (patch : Attrs) (mode : UpdateMode) (r' : EaRepository) :
  updateObjectAttributes this id patch mode = (Ok, r') ->
  exists existing,
    map_get (objects this) (trim id) = Some existing
    /\ r' = {| objects :=
                 map_set (objects this) (trim id)
                   {| o_id := o_id existing; o_type := o_type existing;
                      o_attributes :=
                        match mode with
                        | replace => patch
                        | merge => patch ∪ o_attributes existing
                        end |};
               relationships := relationships this |}.
Proof.
  unfold updateObjectAttributes. cbv zeta.
  destruct (negb (truthy (trim id))) eqn:Hid; [discriminate |].
  destruct (map_get (objects this) (trim id)) as [existing |]; [| discriminate].
  intros H. inversion H. now exists existing.
Qed.

Lemma updateObjectAttributes_found (this : EaRepository) (id : string)
  (patch : Attrs) (mode : UpdateMode) (existing : EaObject) :
  trim id <> EmptyString ->
  map_get (objects this) (trim id) = Some existing ->
  updateObjectAttributes this id patch mode
  = (Ok, {| objects :=
              map_set (objects this) (trim id)
                {| o_id := o_id existing; o_type := o_type existing;
                   o_attributes :=
                     match mode with
                     | replace => patch
                     | merge => patch ∪ o_attributes existing
                     end |};
            relationships := relationships this |}).
Proof.
  intros Hne Hget. unfold updateObjectAttributes. cbv zeta.
  rewrite (proj2 (truthy_true _) Hne), Hget. reflexivity.
Qed.

(** X3: what a successful [updateObjectAttributes] does.  The object
    under the trimmed id keeps its id and type; in merge mode each key
    of the patch takes the value of the patch and every other key keeps
    its value, in replace mode the attributes are the patch.  Every other
    object, the order of the keys and the relationships are left as they
    were. *)
Theorem updateObjectAttributes_effect (this : EaRepository) (id : string)
  (patch : Attrs) (mode : UpdateMode) (r' : EaRepository) :
  updateObjectAttributes this id patch mode = (Ok, r') ->
  exists existing updated,
    map_get (objects this) (trim id) = Some existing
    /\ map_get (objects r') (trim id) = Some updated
    /\ o_id updated = o_id existing /\ o_type updated = o_type existing
    /\ (forall key,
          o_attributes updated !! key
          = match mode with
            | replace => patch !! key
            | merge =>
                match patch !! key with
                | Some v => Some v
                | None => o_attributes existing !! key
                end
            end)
    /\ (forall k, k <> trim id -> map_get (objects r') k = map_get (objects this) k)
    /\ map_keys (objects r') = map_keys (objects this)
    /\ relationships r' = relationships this.
Proof.
  intros Hok. destruct (updateObjectAttributes_ok_inv _ _ _ _ _ Hok)
    as (existing & Hget & ->).
  eexists existing, _. cbn [objects relationships].
  split; [exact Hget |]. split; [apply map_get_set_eq |].
  cbn [o_id o_type o_attributes]. split; [reflexivity |]. split; [reflexivity |].
  split; [| split; [| split]].
  - intros key. destruct mode; [| reflexivity].
    rewrite lookup_union. destruct (patch !! key), (o_attributes existing !! key);
      reflexivity.
  - intros k Hk. apply map_get_set_ne. congruence.
  - now apply (map_keys_set_present _ _ existing).
  - reflexivity.
Qed.

(** The application named by a merge keeps its type and gains the
    name. *)
Lemma updateObjectAttributes_effect_witness :
  exists existing updated,
    map_get (objects Samples.repo_unnamed) (trim " app-1 ") = Some existing
    /\ map_get (objects Samples.repo_named) (trim " app-1 ") = Some updated
    /\ o_type updated = o_type existing
    /\ o_attributes updated !! "name" = Some (JStr "Billing").
Proof.
  destruct (updateObjectAttributes_effect Samples.repo_unnamed " app-1 "
              {[ "name" := JStr "Billing" ]} merge Samples.repo_named eq_refl)
    as (existing & updated & H1 & H2 & _ & H4 & H5 & _).
  exists existing, updated. repeat split; try assumption.
  rewrite H5. reflexivity.
Defined.

(** X4: updates of one object compose.  After a successful merge of
    [p1], merging [p2] gives what one merge of [p2] laid over [p1] gives
    on the original repository; merging [p1] a second time changes
    nothing; and a replace forgets the merge altogether. *)
Theorem updateObjectAttributes_compose (this : EaRepository) (id : string)
  (p1 p2 : Attrs) (r1 : EaRepository) :
  updateObjectAttributes this id p1 merge = (Ok, r1) ->
  updateObjectAttributes r1 id p2 merge
  = updateObjectAttributes this id (p2 ∪ p1) merge
  /\ updateObjectAttributes r1 id p1 merge = (Ok, r1)
  /\ updateObjectAttributes r1 id p2 replace
     = updateObjectAttributes this id p2 replace.
Proof.
  intros Hok. destruct (updateObjectAttributes_ok_inv _ _ _ _ _ Hok)
    as (existing & Hget & ->).
  assert (Hne : trim id <> EmptyString).
  { unfold updateObjectAttributes in Hok. cbv zeta in Hok.
    destruct (truthy (trim id)) eqn:Hid; [now apply truthy_true | discriminate]. }
  set (r1 := {| objects := _; relationships := _ |}).
  assert (Hget1 : map_get (objects r1) (trim id)
                  = Some {| o_id := o_id existing; o_type := o_type existing;
                            o_attributes := p1 ∪ o_attributes existing |}).
  { apply map_get_set_eq. }
  split; [| split].
  - rewrite (updateObjectAttributes_found r1 id p2 merge _ Hne Hget1).
    rewrite (updateObjectAttributes_found this id (p2 ∪ p1) merge _ Hne Hget).
    subst r1. cbn [objects relationships o_id o_type o_attributes].
    now rewrite map_set_set, (assoc_L (∪)).
  - rewrite (updateObjectAttributes_found r1 id p1 merge _ Hne Hget1).
    subst r1. cbn [objects relationships o_id o_type o_attributes].
    now rewrite map_set_set, (assoc_L (∪)), (idemp_L (∪)).
  - rewrite (updateObjectAttributes_found r1 id p2 replace _ Hne Hget1).
    rewrite (updateObjectAttributes_found this id p2 replace _ Hne Hget).
    subst r1. cbn [objects relationships o_id o_type o_attributes].
    now rewrite map_set_set.
Qed.

(** Naming the application twice is naming it once. *)
Lemma updateObjectAttributes_compose_witness :
  updateObjectAttributes Samples.repo_named "app-1"
    {[ "name" := JStr "Billing" ]} merge
  = (Ok, Samples.repo_named).
Proof.
  apply (updateObjectAttributes_compose Samples.repo_unnamed "app-1"
           {[ "name" := JStr "Billing" ]} ∅ Samples.repo_named eq_refl).
Defined.

End Updates.

Section ByType.

Lemma flat_map_insert {A : Type} (f : A -> string) (x : A)
  (g : string -> list A) (keys : list string) :
  List.NoDup keys -> In (f x) keys ->
  flat_map (fun k => if String.eqb (f x) k then x :: g k else g k) keys
  ≡ₚ x :: flat_map g keys.
Proof.
  induction keys as [| k keys IH]; intros Hnd Hin; [destruct Hin |].
  inversion Hnd as [| ? ? Hk Hnd']; subst. cbn [flat_map].
  destruct (String.eqb_spec (f x) k) as [Heq | Hne].
  - subst k. cbn [app]. apply Permutation_cons; [reflexivity |].
    apply Permutation_app_head.
    assert (Hsame : forall l, ~ In (f x) l ->
              flat_map (fun k => if String.eqb (f x) k then x :: g k else g k) l
              = flat_map g l).
    { clear. induction l as [| k l IHl]; intros Hnin; [reflexivity |].
      cbn [flat_map]. destruct (String.eqb_spec (f x) k) as [Heq | Hne].
      - exfalso. apply Hnin. left. now symmetry.
      - rewrite IHl; [reflexivity |]. intros Hin. apply Hnin. now right. }
    now rewrite Hsame.
  - destruct Hin as [Heq | Hin]; [congruence |].
    rewrite (IH Hnd' Hin). symmetry. apply Permutation_middle.
Qed.

Lemma filter_by_key_partition {A : Type} (f : A -> string) (keys : list string)
  (l : list A) :
  List.NoDup keys -> (forall x, In x l -> In (f x) keys) ->
  flat_map (fun k => List.filter (fun x => String.eqb (f x) k) l) keys ≡ₚ l.
Proof.
  intros Hnd. induction l as [| x l IH]; intros Hall.
  - clear. induction keys as [| k keys IHk]; [reflexivity |].
    cbn [flat_map List.filter app]. exact IHk.
  - cbn [List.filter].
    rewrite (flat_map_insert f x (fun k => List.filter (fun y => String.eqb (f y) k) l));
      [| exact Hnd | apply Hall; now left].
    apply Permutation_cons; [reflexivity |]. apply IH.
    intros y Hy. apply Hall. now right.
Qed.

Lemma OBJECT_TYPES_NoDup : List.NoDup OBJECT_TYPES.
Proof.
  unfold OBJECT_TYPES.
  repeat (constructor; [cbn; intros H; repeat destruct H as [H | H];
                        try discriminate H; try contradiction |]).
  constructor.
Qed.

Lemma RELATIONSHIP_TYPES_NoDup : List.NoDup RELATIONSHIP_TYPES.
Proof.
  unfold RELATIONSHIP_TYPES.
  repeat (constructor; [cbn; intros H; repeat destruct H as [H | H];
                        try discriminate H; try contradiction |]).
  constructor.
Qed.

Lemma getObjectsByType_valid (this : EaRepository) (t : string) :
  In t OBJECT_TYPES ->
  getObjectsByType this t
  = List.filter (fun obj => String.eqb (o_type obj) t) (map_values (objects this)).
Proof.
  intros Hin. unfold getObjectsByType, isValidObjectType.
  now rewrite (proj2 (includes_In _ _) Hin).
Qed.

Lemma getRelationshipsByType_valid (this : EaRepository) (t : string) :
  In t RELATIONSHIP_TYPES ->
  getRelationshipsByType this t
  = List.filter (fun r => String.eqb (r_type r) t) (relationships this).
Proof.
  intros Hin. unfold getRelationshipsByType, isValidRelationshipType.
  now rewrite (proj2 (includes_In _ _) Hin).
Qed.

Lemma flat_map_ext_in {A B : Type} (f g : A -> list B) (l : list A) :
  (forall x, In x l -> f x = g x) -> flat_map f l = flat_map g l.
Proof.
  induction l as [| x l IH]; intros H; [reflexivity |].
  cbn [flat_map]. rewrite (H x) by now left.
  rewrite IH; [reflexivity |]. intros y Hy. apply H. now right.
Qed.

(** X5: the two queries by type split a sound repository.  Asking
    [getObjectsByType] for each object type in turn gives every stored
    object exactly once, and [getRelationshipsByType] over the
    relationship types gives every relationship exactly once; for a
    string that is no such type both answer with the empty list. *)
Theorem queries_by_type_partition (this : EaRepository) :
  well_formed this ->
  flat_map (getObjectsByType this) OBJECT_TYPES ≡ₚ map_values (objects this)
  /\ flat_map (getRelationshipsByType this) RELATIONSHIP_TYPES ≡ₚ relationships this
  /\ (forall t, ~ In t OBJECT_TYPES -> getObjectsByType this t = [])
  /\ (forall t, ~ In t RELATIONSHIP_TYPES -> getRelationshipsByType this t = []).
Proof.
  intros (Hnd & Hobjs & Hrels). split; [| split; [| split]].
  - rewrite (flat_map_ext_in _
               (fun t => List.filter (fun obj => String.eqb (o_type obj) t)
                           (map_values (objects this))));
      [| intros t Ht; now apply getObjectsByType_valid].
    apply filter_by_key_partition; [apply OBJECT_TYPES_NoDup |].
    intros o Ho. unfold map_values in Ho. apply in_map_iff in Ho.
    destruct Ho as ([k o'] & <- & Hin). rewrite Forall_forall in Hobjs.
    destruct (Hobjs (k, o') (proj2 (list_elem_of_In _ _) Hin)) as (_ & _ & _ & Hty).
    now apply includes_In.
  - rewrite (flat_map_ext_in _
               (fun t => List.filter (fun r => String.eqb (r_type r) t)
                           (relationships this)));
      [| intros t Ht; now apply getRelationshipsByType_valid].
    apply filter_by_key_partition; [apply RELATIONSHIP_TYPES_NoDup |].
    intros r Hr. rewrite Forall_forall in Hrels.
    destruct (Hrels r (proj2 (list_elem_of_In _ _) Hr)) as (_ & _ & _ & _ & Hty & _).
    exact Hty.
  - intros t Hnin. unfold getObjectsByType, isValidObjectType.
    now rewrite (proj2 (includes_false _ _) Hnin).
  - intros t Hnin. unfold getRelationshipsByType, isValidRelationshipType.
    now rewrite (proj2 (includes_false _ _) Hnin).
Qed.

(** The three applications and one dependency of the sample: the two
    of them that are applications are what the query for applications
    gives. *)
Lemma queries_by_type_partition_witness :
  flat_map (getObjectsByType Samples.repo_three) OBJECT_TYPES
  ≡ₚ map_values (objects Samples.repo_three)
  /\ flat_map (getRelationshipsByType Samples.repo_three) RELATIONSHIP_TYPES
     ≡ₚ relationships Samples.repo_three.
Proof.
  assert (Hwf : well_formed Samples.repo_three).
  { unfold Samples.repo_three, Samples.repo_two, Samples.repo_named,
      Samples.repo_unnamed.
    apply addRelationship_well_formed, addObject_well_formed,
      updateObjectAttributes_well_formed, addObject_well_formed,
      well_formed_empty. }
  destruct (queries_by_type_partition Samples.repo_three Hwf) as (H1 & H2 & _).
  split; assumption.
Defined.

End ByType.

Section Duplicates.

Lemma addRelationship_ok_inv (this : EaRepository) (rel : RelationshipInput)
  (r1 : EaRepository) :
  addRelationship this rel = (Ok, r1) ->
  r1 = {| objects := objects this;
          relationships := relationships this ++ [stored_relationship rel] |}
  /\ exists fromObj toObj def,
       trim (in_fromId rel) <> EmptyString /\ trim (in_toId rel) <> EmptyString
       /\ In (in_rtype rel) RELATIONSHIP_TYPES
       /\ map_get (objects this) (trim (in_fromId rel)) = Some fromObj
       /\ map_get (objects this) (trim (in_toId rel)) = Some toObj
       /\ record_get RELATIONSHIP_TYPE_DEFINITIONS (in_rtype rel) = Some def
       /\ includes (fromTypes def) (o_type fromObj) = true
       /\ includes (toTypes def) (o_type toObj) = true.
Proof.
  unfold addRelationship. cbv zeta.
  destruct (truthy (trim (in_fromId rel))) eqn:Hf; [| discriminate].
  destruct (truthy (trim (in_toId rel))) eqn:Ht; [| discriminate].
  destruct (isValidRelationshipType (in_rtype rel)) eqn:Hty; [| discriminate].
  cbn [negb].
  destruct (validateReference this (trim (in_fromId rel))); [| discriminate].
  destruct (validateReference this (trim (in_toId rel))); [| discriminate].
  destruct (record_get RELATIONSHIP_TYPE_DEFINITIONS (in_rtype rel))
    as [def |] eqn:Hdef; [| discriminate].
  destruct (map_get (objects this) (trim (in_fromId rel))) as [fo |] eqn:Hfo;
    [| discriminate].
  destruct (map_get (objects this) (trim (in_toId rel))) as [to |] eqn:Hto;
    [| discriminate].
  destruct (includes (fromTypes def) (o_type fo)) eqn:Hfin; [| discriminate].
  destruct (includes (toTypes def) (o_type to)) eqn:Htin; [| discriminate].
  cbn [negb orb]. intros H. inversion H. split; [reflexivity |].
  exists fo, to, def. repeat split; try assumption;
    try (now apply truthy_true). now apply includes_In.
Qed.

(** X6: relationships are not a set.  A relationship that was accepted
    is appended as the last entry of the list; given again, it is
    accepted again, and both copies are kept, the second behind the
    first, the objects staying as they were. *)
Theorem addRelationship_keeps_duplicates (this : EaRepository)
  (rel : RelationshipInput) (r1 : EaRepository) :
  addRelationship this rel = (Ok, r1) ->
  relationships r1 = relationships this ++ [stored_relationship rel]
  /\ addRelationship r1 rel
     = (Ok, {| objects := objects this;
               relationships :=
                 relationships this
                 ++ [stored_relationship rel; stored_relationship rel] |}).
Proof.
  intros Hok. destruct (addRelationship_ok_inv _ _ _ Hok)
    as (-> & fo & to & def & Hf & Ht & Hty & Hfo & Hto & Hdef & Hfin & Htin).
  split; [reflexivity |].
  rewrite (addRelationship_resolved _ rel fo to def); try assumption.
  cbn [objects relationships]. rewrite Hfin, Htin. cbn [negb orb].
  unfold stored_relationship. now rewrite <- app_assoc.
Qed.

(** An application made to depend on itself, twice. *)
Lemma addRelationship_keeps_duplicates_witness :
  let self := Samples.rel "app-1" "DEPENDS_ON" "app-1" in
  let r1 := snd (addRelationship Samples.repo_named self) in
  addRelationship r1 self
  = (Ok, {| objects := objects Samples.repo_named;
            relationships := [stored_relationship self; stored_relationship self] |}).
Proof.
  cbv zeta.
  apply (addRelationship_keeps_duplicates Samples.repo_named
           (Samples.rel "app-1" "DEPENDS_ON" "app-1")).
  reflexivity.
Defined.

End Duplicates.

(** ** More on the scope policy and the tables the shell reads *)

Section ScopeReasons.








End ScopeReasons.

Section ShellTables.

Lemma invalid_object_type_tests (t : string) :
  isValidObjectType t = false ->
  forall name, In name OBJECT_TYPES -> String.eqb t name = false.
Proof.
  intros H name Hin. apply String.eqb_neq. intros ->.
  apply includes_false in H. contradiction.
Qed.

Lemma layer_of_invalid (t : string) :
  isValidObjectType t = false -> record_get OBJECT_TYPE_DEFINITIONS t = None.
Proof.
  intros H. pose proof (invalid_object_type_tests t H) as Hno.
  unfold OBJECT_TYPE_DEFINITIONS. cbn [record_get].
  rewrite !Hno by (cbn; tauto). reflexivity.
Qed.

(** X8: the Layer column of the catalogue table agrees with the
    metamodel.  For every string, [layerForObjectType] gives the name of
    the layer the definition of that object type carries, and
    [Unknown] exactly for the strings that are no object type. *)
Theorem layerForObjectType_agrees (t : string) :
  CatalogTableTab.layerForObjectType t
  = match layer_of t with
    | Some layer => CatalogTableTab.layer_name layer
    | None => "Unknown"
    end
  /\ (CatalogTableTab.layerForObjectType t = "Unknown"
      <-> isValidObjectType t = false).
Proof.
  destruct (isValidObjectType t) eqn:Hvalid.
  - apply includes_In in Hvalid. cbn in Hvalid.
    repeat (destruct Hvalid as [<- | Hvalid]); try (destruct Hvalid);
      vm_compute; (split; [reflexivity | split; discriminate]).
  - pose proof (invalid_object_type_tests t Hvalid) as Hno.
    unfold layer_of. rewrite (layer_of_invalid t Hvalid).
    unfold CatalogTableTab.layerForObjectType.
    rewrite !Hno by (cbn; tauto). cbn. split; [reflexivity | now split].
Qed.

Lemma outgoing_types_have_source (fromType t : string)
  (def : EaObjectTypeDefinition) :
  record_get OBJECT_TYPE_DEFINITIONS fromType = Some def ->
  In t (allowedOutgoingRelationships def) ->
  In t RELATIONSHIP_TYPES
  /\ exists rdef,
       record_get RELATIONSHIP_TYPE_DEFINITIONS t = Some rdef
       /\ In fromType (fromTypes rdef).
Proof.
  intros Hdef Hin. destruct (isValidObjectType fromType) eqn:Hvalid.
  - apply includes_In in Hvalid. cbn in Hvalid.
    repeat (destruct Hvalid as [<- | Hvalid]); try (destruct Hvalid);
      cbn in Hdef; injection Hdef as <-; cbn in Hin;
      repeat (destruct Hin as [<- | Hin]); try (destruct Hin);
      (split; [cbn; tauto | eexists; split; [reflexivity | cbn; tauto]]).
  - rewrite (layer_of_invalid _ Hvalid) in Hdef. discriminate.
Qed.

Lemma relationship_type_trimmed (t : string) :
  In t RELATIONSHIP_TYPES -> trim t = t.
Proof.
  intros H. cbn in H. repeat (destruct H as [<- | H]); try reflexivity.
  destruct H.
Qed.

Lemma relationshipOptions_In (fromType : string) (fw : option string) (t : string) :
  In t (ObjectTableTab.relationshipOptions fromType fw) ->
  isRelationshipTypeAllowedForReferenceFramework fw t = true
  /\ In t RELATIONSHIP_TYPES
  /\ exists rdef,
       record_get RELATIONSHIP_TYPE_DEFINITIONS t = Some rdef
       /\ In fromType (fromTypes rdef).
Proof.
  unfold ObjectTableTab.relationshipOptions. intros Hin.
  apply List.filter_In in Hin. destruct Hin as [Hin Hallowed].
  apply List.filter_In in Hin. destruct Hin as [Hin Hvalid].
  split; [exact Hallowed |].
  destruct (record_get OBJECT_TYPE_DEFINITIONS fromType) as [def |] eqn:Hdef;
    [| destruct Hin].
  exact (outgoing_types_have_source fromType t def Hdef Hin).
Qed.

Lemma archimate_violation_app (repo : EaRepository) (rels : list EaRelationship)
  (r : EaRelationship) :
  archimate_violation repo rels = None ->
  archimate_violation repo [r] = None ->
  archimate_violation repo (rels ++ [r]) = None.
Proof.
  intros Hrels Hr. induction rels as [| x rels IH]; [exact Hr |].
  cbn [app archimate_violation] in *.
  destruct (negb (isRelationshipTypeAllowedForReferenceFramework
                    (Some "ArchiMate") (r_type x))); [discriminate |].
  destruct (record_get RELATIONSHIP_TYPE_DEFINITIONS (r_type x)); [| discriminate].
  destruct (map_get (objects repo) (fromId x)); [| discriminate].
  destruct (map_get (objects repo) (toId x)); [| discriminate].
  destruct (negb (includes (fromTypes e) (o_type e0))
            || negb (includes (toTypes e) (o_type e1))); [discriminate |].
  now apply IH.
Qed.

(** X9: the relationship dialog offers only what the repository will
    take.  For a stored element, every relationship type the dialog
    offers is a relationship type, is allowed by the reference framework
    and admits the type of the element as source.  So with a stored
    target whose type the definition admits the new relationship is
    appended, with a target of another type the call is refused for its
    endpoints and the repository is kept; and a repository that passed
    the reference-framework gate passes it with the new relationship. *)
Theorem offered_relationship_is_accepted (repo : EaRepository)
  (fw : option string) (id targetId t : string) (obj target : EaObject) :
  well_formed repo ->
  map_get (objects repo) id = Some obj ->
  In t (ObjectTableTab.relationshipOptions (o_type obj) fw) ->
  map_get (objects repo) (trim targetId) = Some target ->
  exists rdef,
    record_get RELATIONSHIP_TYPE_DEFINITIONS t = Some rdef
    /\ In (o_type obj) (fromTypes rdef)
    /\ (In (o_type target) (toTypes rdef) ->
        let next :=
          {| objects := objects repo;
             relationships :=
               relationships repo
               ++ [ {| fromId := id; toId := trim targetId; r_type := t;
                       r_attributes := ∅ |} ] |} in
        ObjectTableTab.createRelationship_updater id (trim targetId) (trim t) (Some repo)
        = (None, Some next)
        /\ (hasReferenceFrameworkViolations repo fw = None ->
            hasReferenceFrameworkViolations next fw = None))
    /\ (~ In (o_type target) (toTypes rdef) ->
        ObjectTableTab.createRelationship_updater id (trim targetId) (trim t) (Some repo)
        = (Some (err_invalid_endpoints t (o_type obj) (o_type target)), Some repo)).
Proof.
  intros (Hnd & Hobjs & Hrels) Hobj Hoffer Htarget.
  destruct (relationshipOptions_In _ _ _ Hoffer)
    as (Hallowed & Hty & rdef & Hrdef & Hfrom).
  exists rdef. split; [exact Hrdef |]. split; [exact Hfrom |].
  assert (Hentry : In (id, obj) (objects repo)).
  { clear -Hobj. induction (objects repo) as [| [k v] m IH]; [discriminate |].
    cbn in Hobj. destruct (String.eqb_spec id k) as [<- | Hne].
    - injection Hobj as ->. now left.
    - right. now apply IH. }
  rewrite Forall_forall in Hobjs.
  destruct (Hobjs _ (proj2 (list_elem_of_In _ _) Hentry)) as (_ & Htrim & Hne & _).
  assert (Htne : trim targetId <> EmptyString).
  { intros Hblank. rewrite Hblank in Htarget.
    assert (Hin : In EmptyString (map_keys (objects repo)))
      by (eapply map_get_Some_keys; exact Htarget).
    unfold map_keys in Hin. apply in_map_iff in Hin.
    destruct Hin as ([k v] & Hk & Hkv). cbn in Hk. subst k.
    destruct (Hobjs _ (proj2 (list_elem_of_In _ _) Hkv)) as (_ & _ & Hnb & _).
    now apply Hnb. }
  pose proof (relationship_type_trimmed t Hty) as Htt.
  assert (Hcall :
    addRelationship repo
      {| in_fromId := id; in_toId := trim targetId; in_rtype := trim t;
         in_rattributes := Some ∅ |}
    = if negb (includes (fromTypes rdef) (o_type obj))
         || negb (includes (toTypes rdef) (o_type target))
      then (Fail (err_invalid_endpoints t (o_type obj) (o_type target)), repo)
      else (Ok,
            {| objects := objects repo;
               relationships :=
                 relationships repo
                 ++ [ {| fromId := id; toId := trim targetId; r_type := t;
                         r_attributes := ∅ |} ] |})).
  { rewrite (addRelationship_resolved repo _ obj target rdef);
      cbn [in_fromId in_toId in_rtype in_rattributes];
      rewrite ?Htt, ?Htrim, ?trim_idempotent; try assumption.
    reflexivity. }
  rewrite (proj2 (includes_In _ _) Hfrom) in Hcall. cbn [negb orb] in Hcall.
  split.
  - intros Hto. cbv zeta.
    rewrite (proj2 (includes_In _ _) Hto) in Hcall. cbn [negb] in Hcall.
    unfold ObjectTableTab.createRelationship_updater. rewrite Hcall.
    split; [reflexivity |].
    unfold hasReferenceFrameworkViolations. cbn [relationships].
    destruct fw as [fw |]; [| reflexivity].
    destruct (negb (truthy fw)); [reflexivity |].
    destruct (String.eqb_spec fw "ArchiMate") as [-> | Hother]; [| reflexivity].
    intros Hgate.
    apply (archimate_violation_app
             {| objects := objects repo; relationships := _ |}).
    + clear -Hgate. revert Hgate. generalize (relationships repo) at 1 3.
      intros rels. induction rels as [| x rels IH]; [reflexivity |].
      cbn [archimate_violation objects].
      destruct (negb (isRelationshipTypeAllowedForReferenceFramework
                        (Some "ArchiMate") (r_type x))); [discriminate |].
      destruct (record_get RELATIONSHIP_TYPE_DEFINITIONS (r_type x));
        [| discriminate].
      destruct (map_get (objects repo) (fromId x)); [| discriminate].
      destruct (map_get (objects repo) (toId x)); [| discriminate].
      destruct (negb (includes (fromTypes e) (o_type e0))
                || negb (includes (toTypes e) (o_type e1))); [discriminate |].
      exact IH.
    + cbn [archimate_violation objects r_type fromId toId].
      rewrite Hallowed, Hrdef, Hobj, Htarget.
      rewrite (proj2 (includes_In _ _) Hfrom), (proj2 (includes_In _ _) Hto).
      reflexivity.
  - intros Hto. apply includes_false in Hto. rewrite Hto in Hcall.
    cbn [negb] in Hcall.
    unfold ObjectTableTab.createRelationship_updater. now rewrite Hcall.
Qed.

(** For the first application of the sample the dialog offers
    DEPENDS_ON, and the second application is an admissible target. *)
Lemma offered_relationship_is_accepted_witness :
  ObjectTableTab.createRelationship_updater "app-1" (trim " app-2") (trim "DEPENDS_ON")
    (Some Samples.repo_two)
  = (None, Some Samples.repo_three).
Proof.
  assert (Hwf : well_formed Samples.repo_two).
  { unfold Samples.repo_two, Samples.repo_named, Samples.repo_unnamed.
    apply addObject_well_formed, updateObjectAttributes_well_formed,
      addObject_well_formed, well_formed_empty. }
  destruct (offered_relationship_is_accepted Samples.repo_two None
              "app-1" " app-2" "DEPENDS_ON"
              {| o_id := "app-1"; o_type := "Application";
                 o_attributes := {[ "name" := JStr "Billing" ]} |}
              {| o_id := "app-2"; o_type := "Application";
                 o_attributes := {[ "name" := JStr "Ledger" ]} |}
              Hwf eq_refl)
    as (rdef & Hrdef & _ & Hok & _).
  - cbn. now left.
  - reflexivity.
  - injection Hrdef as <-. destruct Hok as [Hcall _]; [cbn; now left |].
    exact Hcall.
Defined.

Lemma countLive_same (repo : EaRepository) (type : string) :
  ExplorerTree.countLiveObjectsByType (objects repo) type
  = countLiveObjectsByType repo type.
Proof. reflexivity. Qed.

(** X10: the creation guard of the explorer against the scope policy.
    Under Domain scope the guard lets through exactly the types the
    policy makes writable.  Under Programme scope it lets through the
    writable types once a live Programme exists, and before that only a
    Programme.  Under Business Unit scope it does not look at the layer:
    every type passes, a second live Enterprise excepted.  With no
    restricting scope everything passes. *)
Theorem createObject_guard_matches_policy (repo : EaRepository) (t : string) :
  (ExplorerTree.createObject_guard (Some repo) (Some "Domain") t = None
   <-> isObjectTypeWritableForScope (Some "Domain") t = true)
  /\ (ExplorerTree.createObject_guard (Some repo) (Some "Programme") t = None
      <-> isObjectTypeWritableForScope (Some "Programme") t = true
          /\ (t = "Programme" \/ 1 <= countLiveObjectsByType repo "Programme"))
  /\ (ExplorerTree.createObject_guard (Some repo) (Some "Business Unit") t = None
      <-> (t = "Enterprise" -> countLiveObjectsByType repo "Enterprise" = 0))
  /\ (forall scope,
        scope_is scope "Programme" || scope_is scope "Business Unit"
        || scope_is scope "Domain" = false ->
        ExplorerTree.createObject_guard (Some repo) scope t = None).
Proof.
  split; [| split; [| split]].
  - unfold ExplorerTree.createObject_guard, isObjectTypeWritableForScope, includes.
    cbn [scope_is String.eqb Ascii.eqb Bool.eqb andb existsb].
    destruct (String.eqb t "Capability"), (String.eqb t "BusinessService"),
      (String.eqb t "Application"), (String.eqb t "ApplicationService");
      cbn; split; congruence.
  - unfold ExplorerTree.createObject_guard, isObjectTypeWritableForScope, includes.
    rewrite countLive_same.
    cbn [scope_is String.eqb Ascii.eqb Bool.eqb andb existsb].
    destruct (Nat.ltb_spec (countLiveObjectsByType repo "Programme") 1) as [Hlt | Hge];
      destruct (String.eqb_spec t "Programme") as [-> | Hne]; cbn.
    + split; [intros _; split; [reflexivity | now left] | reflexivity].
    + split; [discriminate |]. intros [_ [Heq | Hge]]; [contradiction | lia].
    + split; [intros _; split; [reflexivity | now left] | reflexivity].
    + destruct (String.eqb t "Project"), (String.eqb t "Capability"),
        (String.eqb t "Application"); cbn;
        (split; [intros H;
                 first [discriminate H | split; [reflexivity | now right]]
                | intros [H _]; congruence]).
  - unfold ExplorerTree.createObject_guard.
    rewrite countLive_same.
    cbn [scope_is String.eqb Ascii.eqb Bool.eqb andb].
    destruct (String.eqb_spec t "Enterprise") as [-> | Hne]; cbn.
    + change (ExplorerTree.countLiveObjectsByType (objects repo) "Enterprise")
        with (countLiveObjectsByType repo "Enterprise").
      destruct (countLiveObjectsByType repo "Enterprise") as [| n].
      * split; [intros _ _; reflexivity | reflexivity].
      * split; [discriminate |]. intros H. specialize (H eq_refl). discriminate H.
    + split; [intros _ H; contradiction | reflexivity].
  - intros scope Hscope. apply orb_false_elim in Hscope.
    destruct Hscope as [Hscope Hd]. apply orb_false_elim in Hscope.
    destruct Hscope as [Hp Hb].
    unfold ExplorerTree.createObject_guard. now rewrite Hp, Hd, Hb.
Qed.

(** In an empty Programme repository a project is held back and a
    programme is let through. *)
Lemma createObject_guard_matches_policy_witness :
  ExplorerTree.createObject_guard (Some Repository.empty) (Some "Programme") "Programme"
  = None
  /\ ExplorerTree.createObject_guard (Some Repository.empty) (Some "Programme") "Project"
     <> None.
Proof.
  split.
  - apply (proj1 (proj2 (createObject_guard_matches_policy
                           Repository.empty "Programme"))).
    split; [reflexivity | now left].
  - intros H.
    apply (proj1 (proj2 (createObject_guard_matches_policy
                           Repository.empty "Project"))) in H.
    destruct H as [_ [H | H]]; [discriminate H | cbn in H; lia].
Defined.

End ShellTables.

(** ** More on the view repository *)

Section NormalizedLists.

Local Abbreviation dedupe_from :=
  (fold_left (fun seen v => if includes seen v then seen else seen ++ [v])).

Lemma dedupe_from_In (l seen : list string) (x : string) :
  In x (dedupe_from l seen) <-> In x seen \/ In x l.
Proof.
  revert seen. induction l as [| v l IH]; intros seen; cbn [fold_left].
  - cbn [In]. tauto.
  - rewrite IH. destruct (includes seen v) eqn:Hv.
    + apply includes_In in Hv. cbn. intuition (subst; auto).
    + rewrite in_app_iff. cbn. tauto.
Qed.

Lemma dedupe_from_NoDup (l seen : list string) :
  List.NoDup seen -> List.NoDup (dedupe_from l seen).
Proof.
  revert seen. induction l as [| v l IH]; intros seen Hnd; cbn [fold_left];
    [exact Hnd |].
  apply IH. destruct (includes seen v) eqn:Hv; [exact Hnd |].
  apply includes_false in Hv. apply NoDup_ListNoDup.
  apply NoDup_app. split; [now apply NoDup_ListNoDup |].
  split; [| apply NoDup_singleton].
  intros x Hx Hin. apply list_elem_of_In in Hx, Hin.
  destruct Hin as [<- | []]. contradiction.
Qed.

Lemma dedupe_from_fixed (l seen : list string) :
  List.NoDup (seen ++ l) -> dedupe_from l seen = seen ++ l.
Proof.
  revert seen. induction l as [| v l IH]; intros seen Hnd; cbn [fold_left].
  - now rewrite app_nil_r.
  - assert (Hv : includes seen v = false).
    { apply includes_false. intros Hin.
      apply List.NoDup_remove_2 in Hnd. apply Hnd, in_or_app. now left. }
    rewrite Hv, IH; rewrite <- app_assoc; [reflexivity | exact Hnd].
Qed.

Lemma filter_all {A : Type} (p : A -> bool) (l : list A) :
  (forall x, In x l -> p x = true) -> List.filter p l = l.
Proof.
  induction l as [| x l IH]; intros H; [reflexivity |]. cbn [List.filter].
  rewrite (H x (or_introl eq_refl)), IH; [reflexivity |].
  intros y Hy. apply H. now right.
Qed.

Lemma normalizeList_In (l : list string) (x : string) :
  In x (normalizeList l) <-> x <> EmptyString /\ exists y, In y l /\ trim y = x.
Proof.
  unfold normalizeList, dedupe. rewrite dedupe_from_In.
  rewrite List.filter_In, in_map_iff. split.
  - intros [[] | [(y & Hy & Hin) Hlen]]. split; [| now exists y].
    intros ->. discriminate Hlen.
  - intros (Hne & y & Hin & Hy). right. split; [now exists y |].
    destruct x; [contradiction | reflexivity].
Qed.

Lemma normalizeList_NoDup (l : list string) : List.NoDup (normalizeList l).
Proof. apply dedupe_from_NoDup. constructor. Qed.

Lemma normalizeList_idempotent (l : list string) :
  normalizeList (normalizeList l) = normalizeList l.
Proof.
  pose proof (normalizeList_NoDup l) as Hnd.
  assert (Hall : forall x, In x (normalizeList l) ->
                           x <> EmptyString /\ trim x = x).
  { intros x Hx. apply normalizeList_In in Hx.
    destruct Hx as (Hne & y & _ & <-). split; [exact Hne | apply trim_idempotent]. }
  revert Hnd Hall. generalize (normalizeList l). intros n Hnd Hall.
  unfold normalizeList.
  replace (map trim n) with n.
  - rewrite filter_all.
    + unfold dedupe. now rewrite dedupe_from_fixed.
    + intros x Hx. destruct (Hall x Hx) as [Hne _].
      destruct x; [contradiction | reflexivity].
  - rewrite <- (map_id n) at 1. apply map_ext_in. intros x Hx.
    symmetry. now apply Hall.
Qed.

End NormalizedLists.

Section StoredViews.

Lemma check_endpoints_covered (elementTypes relationshipTypes : list string) :
  check_endpoints elementTypes relationshipTypes = None ->
  forall t, In t relationshipTypes ->
    exists endpoints,
      getRelationshipEndpointRule t = Some endpoints
      /\ hasAny elementTypes (from endpoints) = true
      /\ hasAny elementTypes (to endpoints) = true.
Proof.
  induction relationshipTypes as [| r rest IH]; intros Hnone t Hin; [destruct Hin |].
  cbn [check_endpoints] in Hnone.
  destruct (getRelationshipEndpointRule r) as [ep |] eqn:Hep; [| discriminate].
  destruct (hasAny elementTypes (from ep)) eqn:Hfrom; [| discriminate].
  destruct (hasAny elementTypes (to ep)) eqn:Hto; [| discriminate].
  cbn [negb orb] in Hnone. destruct Hin as [<- | Hin].
  - now exists ep.
  - now apply IH.
Qed.

(** Everything a successful [createView] has checked. *)
Lemma createView_ok_checks (this this' : ViewRepository) (view stored : ViewDefinition) :
  createView this view = (CreateOk stored, this') ->
  hasEmbeddedPayload view = None
  /\ trim (v_id view) <> EmptyString
  /\ trim (v_name view) <> EmptyString
  /\ stored = {| v_id := v_id view; v_name := trim (v_name view);
                 viewType := viewType view;
                 allowedElementTypes := normalizeList (allowedElementTypes view);
                 allowedRelationshipTypes :=
                   normalizeList (allowedRelationshipTypes view);
                 v_other := v_other view |}
  /\ normalizeList (allowedElementTypes view) <> []
  /\ exists rule,
       record_get viewTypeRules (viewType view) = Some rule
       /\ (forall t, In t (normalizeList (allowedElementTypes view)) ->
             In t (rule_elementTypes rule))
       /\ (forall t, In t (normalizeList (allowedRelationshipTypes view)) ->
             In t (rule_relationshipTypes rule))
       /\ check_endpoints (normalizeList (allowedElementTypes view))
            (normalizeList (allowedRelationshipTypes view)) = None.
Proof.
  unfold createView. cbv zeta.
  destruct (hasEmbeddedPayload view); [discriminate |].
  destruct (truthy (trim (v_id view))) eqn:Hid; [| discriminate]. cbn [negb].
  destruct (bool_decide (is_Some (byId this !! trim (v_id view))));
    [discriminate |].
  destruct (truthy (trim (v_name view))) eqn:Hname; [| discriminate]. cbn [negb].
  destruct (bool_decide
              (is_Some (idByNormalizedName this
                          !! normalizeName (trim (v_name view)))));
    [discriminate |].
  destruct (negb (isValidViewType (viewType view))); [discriminate |].
  destruct (length (normalizeList (allowedElementTypes view)) =? 0) eqn:Hlen;
    [discriminate |].
  destruct (record_get viewTypeRules (viewType view)) as [rule |]; [| discriminate].
  destruct (find _ (normalizeList (allowedElementTypes view))) eqn:Hel;
    [discriminate |].
  destruct (find _ (normalizeList (allowedRelationshipTypes view))) eqn:Hrel;
    [discriminate |].
  destruct (check_endpoints _ _) eqn:Hends; [discriminate |].
  intros H. inversion H; subst; clear H.
  split; [reflexivity |]. split; [now apply truthy_true |].
  split; [now apply truthy_true |]. split; [reflexivity |].
  split.
  { intros Hnil. rewrite Hnil in Hlen. discriminate Hlen. }
  exists rule. split; [reflexivity |]. split; [| split; [| reflexivity]].
  - intros t Ht. pose proof (find_none _ _ Hel t Ht) as Hin.
    apply negb_false_iff in Hin. now apply includes_In.
  - intros t Ht. pose proof (find_none _ _ Hrel t Ht) as Hin.
    apply negb_false_iff in Hin. now apply includes_In.
Qed.

(** X11: what a successful [createView] stores and how it is found
    again.  The stored view is the given one with its name trimmed and
    its two type lists normalized: no entry blank, padded or repeated.
    Every element type is one the rule of the view type allows and there
    is at least one; every relationship type is one the rule allows, and
    the canonical endpoint rule of each finds a source type and a target
    type among the element types.  [getViewById] returns the stored view
    for every spelling of the id that trims to the same key, and a second
    [createView] under that id, of a view without embedded payload, is
    refused as a duplicate id and changes nothing. *)
Theorem createView_stores_normalized (this this' : ViewRepository)
  (view stored : ViewDefinition) :
  createView this view = (CreateOk stored, this') ->
  (v_id stored = v_id view /\ v_name stored = trim (v_name view)
   /\ viewType stored = viewType view /\ v_other stored = v_other view
   /\ allowedElementTypes stored = normalizeList (allowedElementTypes view)
   /\ allowedRelationshipTypes stored
      = normalizeList (allowedRelationshipTypes view))
  /\ (allowedElementTypes stored <> []
      /\ List.NoDup (allowedElementTypes stored)
      /\ List.NoDup (allowedRelationshipTypes stored)
      /\ forall t, In t (allowedElementTypes stored)
                   \/ In t (allowedRelationshipTypes stored) ->
                   t <> EmptyString /\ trim t = t)
  /\ (exists rule,
        record_get viewTypeRules (viewType stored) = Some rule
        /\ (forall t, In t (allowedElementTypes stored) ->
              In t (rule_elementTypes rule))
        /\ (forall t, In t (allowedRelationshipTypes stored) ->
              In t (rule_relationshipTypes rule)
              /\ exists endpoints,
                   getRelationshipEndpointRule t = Some endpoints
                   /\ hasAny (allowedElementTypes stored) (from endpoints) = true
                   /\ hasAny (allowedElementTypes stored) (to endpoints) = true))
  /\ (forall id, trim id = trim (v_id view) -> getViewById this' id = Some stored)
  /\ (forall again,
        hasEmbeddedPayload again = None ->
        trim (v_id again) = trim (v_id view) ->
        createView this' again
        = (CreateFail (err_duplicate_id (trim (v_id view))), this')).
Proof.
  intros Hok.
  destruct (createView_ok_checks _ _ _ _ Hok)
    as (_ & Hid & _ & Hstored & Hne & rule & Hrule & Hel & Hrel & Hends).
  destruct (createView_ok _ _ _ _ Hok) as (_ & _ & _ & _ & Hby & _).
  subst stored. cbn [v_id v_name viewType v_other allowedElementTypes
                     allowedRelationshipTypes] in *.
  split; [repeat split |]. split; [| split; [| split]].
  - split; [exact Hne |]. split; [apply normalizeList_NoDup |].
    split; [apply normalizeList_NoDup |].
    intros t [Ht | Ht]; apply normalizeList_In in Ht;
      destruct Ht as (Hnb & y & _ & <-); (split; [exact Hnb | apply trim_idempotent]).
  - exists rule. split; [exact Hrule |]. split; [exact Hel |].
    intros t Ht. split; [now apply Hrel |].
    exact (check_endpoints_covered _ _ Hends t Ht).
  - intros id Hsame. unfold getViewById. rewrite Hsame, Hby.
    apply lookup_insert_eq.
  - intros again Hplain Hsame. unfold createView. cbv zeta.
    rewrite Hplain, Hsame, (proj2 (truthy_true _) Hid). cbn [negb].
    rewrite Hby, lookup_insert_eq.
    rewrite bool_decide_eq_true_2 by (eexists; reflexivity). reflexivity.
Qed.

(** A capability map given with padded and repeated types is stored
    with the two types once each, and is found under its id however it
    is padded. *)
Lemma createView_stores_normalized_witness :
  let given :=
    Samples.view " view-1 " " Traceability " "CapabilityMap"
      [" Capability"; "BusinessService "; "Capability"; " "] ["REALIZED_BY"; ""] in
  let stored :=
    Samples.view " view-1 " "Traceability" "CapabilityMap"
      ["Capability"; "BusinessService"] ["REALIZED_BY"] in
  getViewById (snd (createView (Views.new "project-1") given)) "view-1  "
  = Some stored.
Proof.
  cbv zeta.
  destruct (createView_stores_normalized (Views.new "project-1")
              (snd (createView (Views.new "project-1")
                      (Samples.view " view-1 " " Traceability " "CapabilityMap"
                         [" Capability"; "BusinessService "; "Capability"; " "]
                         ["REALIZED_BY"; ""])))
              (Samples.view " view-1 " " Traceability " "CapabilityMap"
                 [" Capability"; "BusinessService "; "Capability"; " "]
                 ["REALIZED_BY"; ""])
              (Samples.view " view-1 " "Traceability" "CapabilityMap"
                 ["Capability"; "BusinessService"] ["REALIZED_BY"])
              eq_refl)
    as (_ & _ & _ & Hget & _).
  apply Hget. reflexivity.
Defined.

(** X12: [normalizeList] gives a canonical list.  Normalizing twice is
    normalizing once; the result has no repeated entry; and its entries
    are exactly the trimmed inputs that are not empty. *)
Theorem normalizeList_canonical (values : list string) :
  normalizeList (normalizeList values) = normalizeList values
  /\ List.NoDup (normalizeList values)
  /\ (forall x, In x (normalizeList values)
                <-> x <> EmptyString /\ exists y, In y values /\ trim y = x).
Proof.
  split; [apply normalizeList_idempotent |].
  split; [apply normalizeList_NoDup |]. apply normalizeList_In.
Qed.

End StoredViews.

Section ImmutableViews.

Lemma createView_keeps (this : ViewRepository) (view : ViewDefinition)
  (k : string) (v : ViewDefinition) :
  byId this !! k = Some v -> byId (snd (createView this view)) !! k = Some v.
Proof.
  intros Hk. destruct (createView this view) as [res this'] eqn:Hcv.
  destruct res as [stored | e |]; cbn [snd].
  - destruct (createView_ok _ _ _ _ Hcv) as (Hfree & _ & _ & _ & Hby & _).
    rewrite Hby, lookup_insert_ne; [exact Hk |]. congruence.
  - replace this' with (snd (createView this view)) by now rewrite Hcv.
    rewrite createView_not_ok_unchanged; [exact Hk |].
    intros stored. rewrite Hcv. discriminate.
  - replace this' with (snd (createView this view)) by now rewrite Hcv.
    rewrite createView_not_ok_unchanged; [exact Hk |].
    intros stored. rewrite Hcv. discriminate.
Qed.

Lemma deleteViewById_fail (this this' : ViewRepository) (id error : string) :
  deleteViewById this id = (DeleteFail error, this') ->
  this' = this
  /\ ((trim id = EmptyString /\ error = err_delete_id_required)
      \/ (trim id <> EmptyString /\ byId this !! trim id = None
          /\ error = err_no_such_view (trim id))).
Proof.
  unfold deleteViewById. cbv zeta.
  destruct (truthy (trim id)) eqn:Hid; cbn [negb].
  - destruct (byId this !! trim id) eqn:Hget; [discriminate |].
    intros H. inversion H. split; [reflexivity |]. right.
    split; [now apply truthy_true | now split].
  - intros H. inversion H. split; [reflexivity |]. left.
    split; [now apply truthy_false | reflexivity].
Qed.

Lemma deleteViewById_keeps (this : ViewRepository) (id k : string)
  (v : ViewDefinition) :
  trim id <> k -> byId this !! k = Some v ->
  byId (snd (deleteViewById this id)) !! k = Some v.
Proof.
  intros Hne Hk. destruct (deleteViewById this id) as [res this'] eqn:Hdel.
  destruct res as [deleted | e]; cbn [snd].
  - destruct (deleteViewById_ok _ _ _ _ Hdel) as (_ & Hby & _).
    rewrite Hby, lookup_delete_ne; [exact Hk | exact Hne].
  - destruct (deleteViewById_fail _ _ _ _ Hdel) as [-> _]. exact Hk.
Qed.

(** X13: stored views are immutable.  Whatever views are created and
    whatever other views are deleted, a stored view stays under its key
    exactly as it was stored, until [deleteViewById] is called with its
    own id. *)
Theorem stored_views_are_immutable (ops : list Operation) (this : ViewRepository)
  (k : string) (v : ViewDefinition) :
  byId this !! k = Some v ->
  (forall id, In (OpDeleteViewById id) ops -> trim id <> k) ->
  byId (run this ops) !! k = Some v.
Proof.
  revert this. induction ops as [| op ops IH]; intros this Hk Hnot; [exact Hk |].
  cbn [run fold_left]. apply IH.
  - destruct op as [view | id]; cbn [step].
    + now apply createView_keeps.
    + apply deleteViewById_keeps; [| exact Hk]. apply Hnot. now left.
  - intros id Hin. apply Hnot. now right.
Qed.

(** A stored view survives a second creation under its id, under its
    name, and the deletion of another view. *)
Lemma stored_views_are_immutable_witness :
  let r1 :=
    snd (createView (Views.new "project-1")
           (Samples.traceability_view "view-1" "Traceability")) in
  byId
    (run r1
       [ OpCreateView (Samples.traceability_view "view-1" "Other");
         OpCreateView (Samples.traceability_view "view-2" "TRACEABILITY");
         OpCreateView (Samples.traceability_view "view-3" "Third");
         OpDeleteViewById " view-3" ])
    !! "view-1"
  = byId r1 !! "view-1".
Proof.
  cbv zeta. rewrite (stored_views_are_immutable _ _ "view-1"
                       (Samples.view "view-1" "Traceability" "CapabilityMap"
                          ["Capability"; "BusinessService"] ["REALIZED_BY"])).
  - symmetry. vm_compute. reflexivity.
  - vm_compute. reflexivity.
  - intros id [H | [H | [H | [H | []]]]]; try discriminate H.
    injection H as <-. vm_compute. discriminate.
Defined.

(** X14: what [deleteViewById] does.  A successful call takes out the
    view stored under the trimmed id and nothing else; afterwards
    [getViewById] finds nothing under that id and a second call fails
    with the no-such-view message.  A failing call leaves the repository
    as it was: the id is blank, or no view is stored under it. *)
Theorem deleteViewById_effect (this : ViewRepository) (id : string) :
  match deleteViewById this id with
  | (DeleteOk deleted, this') =>
      getViewById this id = Some deleted
      /\ getViewById this' id = None
      /\ (forall k, k <> trim id -> byId this' !! k = byId this !! k)
      /\ deleteViewById this' id = (DeleteFail (err_no_such_view (trim id)), this')
  | (DeleteFail error, this') =>
      this' = this
      /\ ((trim id = EmptyString /\ error = err_delete_id_required)
          \/ (trim id <> EmptyString /\ getViewById this id = None
              /\ error = err_no_such_view (trim id)))
  end.
Proof.
  destruct (deleteViewById this id) as [res this'] eqn:Hdel.
  destruct res as [deleted | error].
  - destruct (deleteViewById_ok _ _ _ _ Hdel) as (Hget & Hby & _).
    assert (Hid : truthy (trim id) = true).
    { unfold deleteViewById in Hdel. cbv zeta in Hdel.
      destruct (truthy (trim id)); [reflexivity | discriminate]. }
    unfold getViewById. split; [exact Hget |].
    split; [rewrite Hby; apply lookup_delete_eq |].
    split; [intros k Hk; rewrite Hby; now apply lookup_delete_ne |].
    unfold deleteViewById. cbv zeta. rewrite Hid. cbn [negb].
    now rewrite Hby, lookup_delete_eq.
  - exact (deleteViewById_fail _ _ _ _ Hdel).
Qed.

End ImmutableViews.

(** ** The view repository of the running process *)

Section ViewStore.

Import ViewRepositoryStore.

Lemma createView_projectId (this : ViewRepository) (view : ViewDefinition) :
  projectId (snd (Views.createView this view)) = projectId this.
Proof.
  unfold Views.createView. cbv zeta.
  repeat match goal with
         | |- context [match ?x with _ => _ end] => destruct x
         end; reflexivity.
Qed.

Lemma deleteViewById_projectId (this : ViewRepository) (id : string) :
  projectId (snd (deleteViewById this id)) = projectId this.
Proof.
  unfold deleteViewById. cbv zeta.
  destruct (negb (truthy (trim id))); [reflexivity |].
  destruct (byId this !! trim id); reflexivity.
Qed.

Lemma getViewRepository_bound (p : string) (st : Store) (repo : ViewRepository) :
  p <> EmptyString -> viewRepository st = Some repo -> projectId repo = p ->
  getViewRepository (Some p) st = (inr repo, st).
Proof.
  intros Hp Hrepo Hid. unfold getViewRepository. cbv zeta.
  cbv beta iota delta [default from_option id].
  rewrite (proj2 (truthy_true _) Hp), Hrepo, Hid, String.eqb_refl. reflexivity.
Qed.

Lemma store_eta (st : Store) :
  {| viewRepository := viewRepository st; viewsRevision := viewsRevision st |} = st.
Proof. now destruct st. Qed.

Lemma deleteViewById_not_ok_unchanged (this : ViewRepository) (id : string) :
  (forall deleted, fst (deleteViewById this id) <> DeleteOk deleted) ->
  snd (deleteViewById this id) = this.
Proof.
  unfold deleteViewById. cbv zeta.
  destruct (negb (truthy (trim id))); [reflexivity |].
  destruct (byId this !! trim id) as [existing |]; [| reflexivity].
  intros H. exfalso. now apply (H existing).
Qed.

(** X15: the revision counts the changes.  While the store holds the
    repository of the active project, [createView] and [deleteView] give
    the result of the repository's own method, keep the repository bound
    to the project, and raise the revision by one exactly when the call
    succeeds; a call that fails leaves the store as it was. *)
Theorem store_revision_counts_changes (p : string) (st : Store)
  (repo : ViewRepository) (view : ViewDefinition) (viewId : string) :
  p <> EmptyString -> viewRepository st = Some repo -> projectId repo = p ->
  (fst (createView (Some p) view st) = inr (fst (Views.createView repo view))
   /\ viewRepository (snd (createView (Some p) view st))
      = Some (snd (Views.createView repo view))
   /\ viewsRevision (snd (createView (Some p) view st))
      = viewsRevision st
        + match fst (Views.createView repo view) with CreateOk _ => 1 | _ => 0 end
   /\ bound_to p (snd (createView (Some p) view st))
   /\ ((forall stored, fst (Views.createView repo view) <> CreateOk stored) ->
       snd (createView (Some p) view st) = st))
  /\ (fst (deleteView (Some p) viewId st) = inr (fst (deleteViewById repo viewId))
      /\ viewRepository (snd (deleteView (Some p) viewId st))
         = Some (snd (deleteViewById repo viewId))
      /\ viewsRevision (snd (deleteView (Some p) viewId st))
         = viewsRevision st
           + match fst (deleteViewById repo viewId) with
             | DeleteOk _ => 1
             | DeleteFail _ => 0
             end
      /\ bound_to p (snd (deleteView (Some p) viewId st))
      /\ ((forall deleted, fst (deleteViewById repo viewId) <> DeleteOk deleted) ->
          snd (deleteView (Some p) viewId st) = st)).
Proof.
  intros Hp Hrepo Hid. split.
  - unfold createView. rewrite (getViewRepository_bound p st repo Hp Hrepo Hid).
    pose proof (createView_projectId repo view) as Hkeep.
    pose proof (createView_not_ok_unchanged repo view) as Hsame.
    destruct (Views.createView repo view) as [result repo'].
    cbn [fst snd] in *.
    split; [reflexivity |].
    split; [now destruct result |].
    split; [destruct result; cbn; lia |].
    split.
    + exists repo'. split; [now destruct result | congruence].
    + intros Hfail. rewrite (Hsame Hfail).
      destruct result as [stored | error |];
        [now contradiction (Hfail stored) | |];
        rewrite <- Hrepo; apply store_eta.
  - unfold deleteView. rewrite (getViewRepository_bound p st repo Hp Hrepo Hid).
    pose proof (deleteViewById_projectId repo viewId) as Hkeep.
    pose proof (deleteViewById_not_ok_unchanged repo viewId) as Hsame.
    destruct (deleteViewById repo viewId) as [result repo'].
    cbn [fst snd] in *.
    split; [reflexivity |].
    split; [now destruct result |].
    split; [destruct result; cbn; lia |].
    split.
    + exists repo'. split; [now destruct result | congruence].
    + intros Hfail. rewrite (Hsame Hfail).
      destruct result as [deleted | error];
        [now contradiction (Hfail deleted) |].
      rewrite <- Hrepo. apply store_eta.
Qed.

(** A first view is created at revision 1 and the second, refused for
    its name, leaves the revision at 2. *)
Lemma store_revision_counts_changes_witness :
  let st1 := snd (getViewRepository (Some "project-1") initial) in
  let st2 :=
    snd (createView (Some "project-1")
           (Samples.traceability_view "view-1" "Traceability") st1) in
  viewsRevision st2 = 2
  /\ snd (createView (Some "project-1")
            (Samples.traceability_view "view-2" "traceability") st2) = st2.
Proof.
  cbv zeta. split.
  - destruct (store_revision_counts_changes "project-1"
                (snd (getViewRepository (Some "project-1") initial))
                (Views.new "project-1")
                (Samples.traceability_view "view-1" "Traceability") "view-1"
                ltac:(discriminate) eq_refl eq_refl)
      as ((_ & _ & Hrev & _) & _).
    rewrite Hrev. reflexivity.
  - destruct (store_revision_counts_changes "project-1"
                (snd (createView (Some "project-1")
                        (Samples.traceability_view "view-1" "Traceability")
                        (snd (getViewRepository (Some "project-1") initial))))
                (snd (Views.createView (Views.new "project-1")
                        (Samples.traceability_view "view-1" "Traceability")))
                (Samples.traceability_view "view-2" "traceability") "view-1"
                ltac:(discriminate) eq_refl eq_refl)
      as ((_ & _ & _ & _ & Hsame) & _).
    apply Hsame. intros stored. vm_compute. discriminate.
Defined.

(** X16: the store follows the active project.  [getViewRepository]
    throws, leaving the store alone, when there is no project or its id
    is blank.  It returns the stored repository, leaving the store
    alone, exactly when that repository was made for the project id as
    it is given.  Otherwise it makes a new, empty repository for the
    project and raises the revision: the views of the one it replaces
    are gone, also when the project that owned them becomes active
    again. *)
Theorem store_follows_the_project (project : option string) (st : Store) :
  let p := default EmptyString project in
  match getViewRepository project st with
  | (inl error, st') =>
      st' = st
      /\ ((p = EmptyString /\ error = err_no_project)
          \/ (p <> EmptyString /\ trim p = EmptyString
              /\ error = err_project_required))
  | (inr repo, st') =>
      p <> EmptyString
      /\ ((bound_to p st /\ viewRepository st = Some repo /\ st' = st)
          \/ (~ bound_to p st /\ trim p <> EmptyString
              /\ repo = Views.new p
              /\ st' = {| viewRepository := Some (Views.new p);
                          viewsRevision := S (viewsRevision st) |}
              /\ forall viewId, getViewById repo viewId = None))
  end.
Proof.
  cbv zeta. unfold getViewRepository. cbv zeta.
  destruct (truthy (default EmptyString project)) eqn:Hp; cbn [negb].
  2:{ split; [reflexivity |]. left. split; [now apply truthy_false | reflexivity]. }
  apply truthy_true in Hp.
  assert (Hfresh : forall bound : Prop, ~ bound ->
    match
      match construct (default EmptyString project) with
      | inl error => (inl error, st)
      | inr fresh =>
          (inr fresh,
           notifyViewsChanged
             {| viewRepository := Some fresh; viewsRevision := viewsRevision st |})
      end
    with
    | (inl error, st') =>
        st' = st
        /\ ((default EmptyString project = EmptyString /\ error = err_no_project)
            \/ (default EmptyString project <> EmptyString
                /\ trim (default EmptyString project) = EmptyString
                /\ error = err_project_required))
    | (inr repo, st') =>
        default EmptyString project <> EmptyString
        /\ ((bound /\ viewRepository st = Some repo /\ st' = st)
            \/ (~ bound /\ trim (default EmptyString project) <> EmptyString
                /\ repo = Views.new (default EmptyString project)
                /\ st' = {| viewRepository :=
                              Some (Views.new (default EmptyString project));
                            viewsRevision := S (viewsRevision st) |}
                /\ forall viewId, getViewById repo viewId = None))
    end).
  { intros bound Hnot. unfold construct.
    destruct (truthy (trim (default EmptyString project))) eqn:Ht; cbn [negb].
    - split; [exact Hp |]. right. split; [exact Hnot |].
      split; [now apply truthy_true |]. split; [reflexivity |].
      split; [reflexivity |]. intros viewId. apply lookup_empty.
    - split; [reflexivity |]. right. split; [exact Hp |].
      split; [now apply truthy_false | reflexivity]. }
  destruct (viewRepository st) as [repo |] eqn:Hrepo.
  - destruct (String.eqb_spec (projectId repo) (default EmptyString project))
      as [Heq | Hne]; cbn [negb].
    + split; [exact Hp |]. left. split; [now exists repo | now split].
    + apply Hfresh. intros (repo' & Hr & Hid). congruence.
  - apply Hfresh. intros (repo' & Hr & _). congruence.
Qed.

Lemma new_projectId (p : string) : projectId (Views.new p) = trim p.
Proof. reflexivity. Qed.

(** X17: a project id with outer blanks never stays bound.  The
    repository keeps the id trimmed and [getViewRepository] compares it
    with the id as given, so every call makes a new repository: a view
    created through the store is not there at the next read, whereas
    under an id without outer blanks it is. *)
Theorem padded_project_id_loses_views (p : string) (view stored : ViewDefinition)
  (st : Store) :
  trimmed_binding st -> trim p <> EmptyString ->
  fst (createView (Some p) view st) = inr (CreateOk stored) ->
  trimmed_binding (snd (createView (Some p) view st))
  /\ fst (readView (Some p) (v_id view) (snd (createView (Some p) view st)))
     = inr (if String.eqb (trim p) p then Some stored else None).
Proof.
  intros Hinv Htrim Hok.
  assert (Hp : p <> EmptyString) by (intros ->; now apply Htrim).
  assert (Hget : exists repo0 st1,
            getViewRepository (Some p) st = (inr repo0, st1)
            /\ trim (projectId repo0) = projectId repo0
            /\ (projectId repo0 = p \/ projectId repo0 = trim p)).
  { unfold createView in Hok. unfold getViewRepository in *. cbv zeta in *.
    cbv beta iota delta [default from_option id] in *.
    rewrite (proj2 (truthy_true _) Hp) in *. cbn [negb] in *.
    unfold construct in *. rewrite (proj2 (truthy_true _) Htrim) in *.
    cbn [negb] in *.
    destruct (viewRepository st) as [repo |] eqn:Hrepo.
    - destruct (String.eqb_spec (projectId repo) p) as [Heq | Hne]; cbn [negb].
      + exists repo, st. split; [reflexivity |]. split; [now apply Hinv | now left].
      + eexists _, _. split; [reflexivity |].
        split; [apply trim_idempotent | now right].
    - eexists _, _. split; [reflexivity |].
      split; [apply trim_idempotent | now right]. }
  destruct Hget as (repo0 & st1 & Hget & Htrimmed & Hwhich).
  unfold createView in *. rewrite Hget in *.
  pose proof (createView_projectId repo0 view) as Hkeep.
  destruct (Views.createView repo0 view) as [result repo'] eqn:Hcv.
  cbn [fst snd] in *. injection Hok as ->.
  destruct (createView_ok _ _ _ _ Hcv) as (_ & _ & _ & _ & Hby & _).
  cbn [notifyViewsChanged viewRepository viewsRevision]. split.
  - intros repo Hrepo. cbn in Hrepo. injection Hrepo as <-. congruence.
  - unfold readView, getViewRepository. cbv zeta.
    cbv beta iota delta [default from_option id].
    rewrite (proj2 (truthy_true _) Hp).
    cbn [negb viewRepository notifyViewsChanged viewsRevision]. rewrite Hkeep.
    destruct (String.eqb_spec (projectId repo0) p) as [Heq | Hne]; cbn [negb fst].
    + rewrite <- Heq, Htrimmed, String.eqb_refl.
      unfold getViewById. now rewrite Hby, lookup_insert_eq.
    + destruct Hwhich as [Heq | Heq]; [contradiction |].
      rewrite <- Heq. rewrite (proj2 (String.eqb_neq _ _) Hne).
      unfold construct. rewrite (proj2 (truthy_true _) Htrim). cbn [negb fst].
      unfold getViewById. apply f_equal. apply lookup_empty.
Qed.

(** Under the project id [" project-1"] the view just created is not
    found; under ["project-1"] it is. *)
Lemma padded_project_id_loses_views_witness :
  fst (readView (Some " project-1") "view-1"
         (snd (createView (Some " project-1")
                 (Samples.traceability_view "view-1" "Traceability") initial)))
  = inr None
  /\ fst (readView (Some "project-1") "view-1"
            (snd (createView (Some "project-1")
                    (Samples.traceability_view "view-1" "Traceability") initial)))
     = inr (Some (Samples.traceability_view "view-1" "Traceability")).
Proof.
  assert (Hinitial : trimmed_binding initial) by (intros repo H; discriminate H).
  split.
  - apply (padded_project_id_loses_views " project-1"
             (Samples.traceability_view "view-1" "Traceability")
             (Samples.traceability_view "view-1" "Traceability") initial Hinitial);
      [discriminate | reflexivity].
  - apply (padded_project_id_loses_views "project-1"
             (Samples.traceability_view "view-1" "Traceability")
             (Samples.traceability_view "view-1" "Traceability") initial Hinitial);
      [discriminate | reflexivity].
Defined.

End ViewStore.

(** ** More on the repository context: gates, roots and edges *)

Section ScopeGates.

Lemma normalizeDomainId_truthy (value : option JsValue) (d : string) :
  normalizeDomainId value = Some d -> truthy d = true.
Proof.
  unfold normalizeDomainId. cbv zeta.
  destruct (trimmed_text value) as [| c s]; cbn; [discriminate |].
  intros H. now inversion H.
Qed.

Lemma effective_domain_truthy (obj : EaObject) (current : option string)
  (d : string) :
  or_else (getObjectDomainId (Some obj))
          (normalizeDomainId (JStr <$> current)) = Some d ->
  truthy d = true.
Proof.
  unfold or_else, getObjectDomainId.
  destruct (normalizeDomainId (o_attributes obj !! "domainId")) as [own |] eqn:Hown.
  - intros H. injection H as <-. exact (normalizeDomainId_truthy _ _ Hown).
  - apply normalizeDomainId_truthy.
Qed.

Lemma enterprise_ownership_none (repo : EaRepository) (rels : list EaRelationship) :
  enterprise_ownership repo rels = None
  <-> forall r from to,
        In r rels -> r_type r = "OWNS" ->
        map_get (objects repo) (fromId r) = Some from ->
        map_get (objects repo) (toId r) = Some to ->
        isSoftDeleted (o_attributes from) = false ->
        isSoftDeleted (o_attributes to) = false ->
        ~ (o_type from = "Enterprise" /\ o_type to = "Enterprise").
Proof.
  induction rels as [| x rels IH]; cbn [enterprise_ownership].
  - split; [intros _ r from to [] | reflexivity].
  - destruct (String.eqb_spec (r_type x) "OWNS") as [Howns | Hother]; cbn [negb].
    + destruct (map_get (objects repo) (fromId x)) as [fo |] eqn:Hfo;
        [destruct (map_get (objects repo) (toId x)) as [to |] eqn:Hto |].
      * destruct (isSoftDeleted (o_attributes fo)) eqn:Hdf;
          [| destruct (isSoftDeleted (o_attributes to)) eqn:Hdt;
             [| destruct (String.eqb_spec (o_type fo) "Enterprise") as [Hef | Hef];
                [destruct (String.eqb_spec (o_type to) "Enterprise") as [Het | Het]
                |]]]; cbn [andb].
        -- rewrite IH. split.
           ++ intros H r from to' [<- | Hin] Ht Hf Ht' Hl1 Hl2;
                [congruence | now apply (H r from to')].
           ++ intros H r from to' Hin. apply H. now right.
        -- rewrite IH. split.
           ++ intros H r from to' [<- | Hin] Ht Hf Ht' Hl1 Hl2;
                [congruence | now apply (H r from to')].
           ++ intros H r from to' Hin. apply H. now right.
        -- split; [discriminate |]. intros H. exfalso.
           apply (H x fo to (or_introl eq_refl) Howns Hfo Hto Hdf Hdt). now split.
        -- rewrite IH. split.
           ++ intros H r from to' [<- | Hin] Ht Hf Ht' Hl1 Hl2;
                [intros [_ He]; congruence | now apply (H r from to')].
           ++ intros H r from to' Hin. apply H. now right.
        -- rewrite IH. split.
           ++ intros H r from to' [<- | Hin] Ht Hf Ht' Hl1 Hl2;
                [intros [He _]; congruence | now apply (H r from to')].
           ++ intros H r from to' Hin. apply H. now right.
      * rewrite IH. split.
        -- intros H r from to' [<- | Hin] Ht Hf Ht' Hl1 Hl2;
             [congruence | now apply (H r from to')].
        -- intros H r from to' Hin. apply H. now right.
      * rewrite IH. split.
        -- intros H r from to' [<- | Hin] Ht Hf Ht' Hl1 Hl2;
             [congruence | now apply (H r from to')].
        -- intros H r from to' Hin. apply H. now right.
    + rewrite IH. split.
      * intros H r from to' [<- | Hin] Ht Hf Ht' Hl1 Hl2;
          [congruence | now apply (H r from to')].
      * intros H r from to' Hin. apply H. now right.
Qed.

Lemma cross_domain_none (repo : EaRepository) (current : option string)
  (rels : list EaRelationship) :
  cross_domain repo current rels = None
  <-> forall r from to d1 d2,
        In r rels ->
        map_get (objects repo) (fromId r) = Some from ->
        map_get (objects repo) (toId r) = Some to ->
        isSoftDeleted (o_attributes from) = false ->
        isSoftDeleted (o_attributes to) = false ->
        or_else (getObjectDomainId (Some from)) current = Some d1 ->
        or_else (getObjectDomainId (Some to)) current = Some d2 ->
        truthy d1 = true -> truthy d2 = true ->
        d1 = d2.
Proof.
  induction rels as [| x rels IH]; cbn [cross_domain].
  - split; [intros _ r from to d1 d2 [] | reflexivity].
  - assert (Hskip :
      (forall from to d1 d2,
         map_get (objects repo) (fromId x) = Some from ->
         map_get (objects repo) (toId x) = Some to ->
         isSoftDeleted (o_attributes from) = false ->
         isSoftDeleted (o_attributes to) = false ->
         or_else (getObjectDomainId (Some from)) current = Some d1 ->
         or_else (getObjectDomainId (Some to)) current = Some d2 ->
         truthy d1 = true -> truthy d2 = true -> d1 = d2) ->
      (cross_domain repo current rels = None
       <-> forall r from to d1 d2,
             In r (x :: rels) ->
             map_get (objects repo) (fromId r) = Some from ->
             map_get (objects repo) (toId r) = Some to ->
             isSoftDeleted (o_attributes from) = false ->
             isSoftDeleted (o_attributes to) = false ->
             or_else (getObjectDomainId (Some from)) current = Some d1 ->
             or_else (getObjectDomainId (Some to)) current = Some d2 ->
             truthy d1 = true -> truthy d2 = true -> d1 = d2)).
    { intros Hx. rewrite IH. split.
      - intros H r from to d1 d2 [<- | Hin]; [apply Hx | now apply H].
      - intros H r from to d1 d2 Hin. apply H. now right. }
    destruct (map_get (objects repo) (fromId x)) as [fo |] eqn:Hfo;
      [destruct (map_get (objects repo) (toId x)) as [to |] eqn:Hto |];
      [| apply Hskip; intros; discriminate | apply Hskip; intros; discriminate].
    destruct (isSoftDeleted (o_attributes fo)) eqn:Hdf;
      [apply Hskip; intros; congruence |].
    destruct (isSoftDeleted (o_attributes to)) eqn:Hdt;
      [apply Hskip; intros; congruence |].
    cbv zeta.
    destruct (or_else (getObjectDomainId (Some fo)) current) as [d1 |] eqn:H1;
      [| cbn [key_truthy andb]; apply Hskip; intros; congruence].
    destruct (or_else (getObjectDomainId (Some to)) current) as [d2 |] eqn:H2;
      [| cbn [key_truthy andb]; rewrite andb_false_r; apply Hskip; intros;
         congruence].
    cbn [key_truthy].
    destruct (truthy d1) eqn:Ht1; cbn [andb];
      [| apply Hskip; intros; congruence].
    destruct (truthy d2) eqn:Ht2; cbn [andb];
      [| apply Hskip; intros; congruence].
    destruct (decide (Some d1 <> Some d2)) as [Hne | Heq].
    + rewrite bool_decide_eq_true_2 by exact Hne.
      split; [discriminate |]. intros H. exfalso. apply Hne. f_equal.
      apply (H x fo to d1 d2); auto. now left.
    + rewrite bool_decide_eq_false_2 by exact Heq.
      apply Hskip. intros from to' e1 e2 Hf Ht' _ _ He1 He2 _ _.
      assert (from = fo) by congruence. assert (to' = to) by congruence. subst.
      destruct (decide (Some d1 = Some d2)) as [Hsame | Hdiff];
        [congruence | contradiction].
Qed.

Lemma find_none_iff {A : Type} (p : A -> bool) (l : list A) :
  find p l = None <-> forall x, In x l -> p x = false.
Proof.
  split; [apply find_none | apply find_none_all].
Qed.

(** X30: what the three scope gates ask of a proposed repository.
    Business Unit: exactly one live Enterprise, and no OWNS relationship
    between two live Enterprises.  Programme: a live Programme, or no
    live object at all.  Domain: every relationship between two live
    objects joins objects of one domain, an object without a domain id
    of its own counting for the current domain; where neither has a
    domain, nothing is asked.  Objects marked [_deleted], and
    relationships with a missing end, are not looked at. *)
Theorem scope_gates_characterized (repo : EaRepository)
  (currentDomainId : option string) :
  (hasBusinessUnitScopeViolations repo = None
   <-> countLiveObjectsByType repo "Enterprise" = 1
       /\ forall r from to,
            In r (relationships repo) -> r_type r = "OWNS" ->
            map_get (objects repo) (fromId r) = Some from ->
            map_get (objects repo) (toId r) = Some to ->
            isSoftDeleted (o_attributes from) = false ->
            isSoftDeleted (o_attributes to) = false ->
            ~ (o_type from = "Enterprise" /\ o_type to = "Enterprise"))
  /\ (hasProgrammeScopeViolations repo = None
      <-> 1 <= countLiveObjectsByType repo "Programme"
          \/ forall obj, In obj (map_values (objects repo)) ->
                         isSoftDeleted (o_attributes obj) = true)
  /\ (hasDomainScopeRelationshipViolations repo currentDomainId = None
      <-> forall r from to d1 d2,
            In r (relationships repo) ->
            map_get (objects repo) (fromId r) = Some from ->
            map_get (objects repo) (toId r) = Some to ->
            isSoftDeleted (o_attributes from) = false ->
            isSoftDeleted (o_attributes to) = false ->
            or_else (getObjectDomainId (Some from))
                    (normalizeDomainId (JStr <$> currentDomainId)) = Some d1 ->
            or_else (getObjectDomainId (Some to))
                    (normalizeDomainId (JStr <$> currentDomainId)) = Some d2 ->
            d1 = d2).
Proof.
  split; [| split].
  - unfold hasBusinessUnitScopeViolations. cbv zeta.
    destruct (countLiveObjectsByType repo "Enterprise") as [| [| n]] eqn:Hcount;
      cbn [Nat.ltb Nat.leb].
    + split; [discriminate | intros [H _]; discriminate H].
    + rewrite enterprise_ownership_none. split; [intros H; now split | tauto].
    + split; [discriminate | intros [H _]; discriminate H].
  - unfold hasProgrammeScopeViolations. cbv zeta.
    destruct (countLiveObjectsByType repo "Programme") as [| n] eqn:Hcount;
      cbn [Nat.ltb Nat.leb].
    + assert (Hnone : forall obj, In obj (map_values (objects repo)) ->
                String.eqb (o_type obj) "Programme"
                && negb (isSoftDeleted (o_attributes obj)) = false).
      { unfold countLiveObjectsByType in Hcount.
        apply length_zero_iff_nil in Hcount. intros obj Hin.
        destruct (String.eqb (o_type obj) "Programme"
                  && negb (isSoftDeleted (o_attributes obj))) eqn:Hp;
          [| reflexivity].
        assert (Hmem : In obj (List.filter
                                 (fun o => String.eqb (o_type o) "Programme"
                                           && negb (isSoftDeleted (o_attributes o)))
                                 (map_values (objects repo))))
          by (apply List.filter_In; now split).
        rewrite Hcount in Hmem. destruct Hmem. }
      destruct (find _ (map_values (objects repo))) as [found |] eqn:Hfind.
      * split; [discriminate |]. intros [Hge | Hall]; [lia |].
        apply find_some in Hfind. destruct Hfind as [Hin Hp].
        rewrite (Hall found Hin) in Hp. discriminate Hp.
      * split; [| reflexivity]. intros _. right. intros obj Hin.
        pose proof (proj1 (find_none_iff _ _) Hfind obj Hin) as Hp.
        pose proof (Hnone obj Hin) as Hq.
        cbv beta in Hp.
        destruct (isSoftDeleted (o_attributes obj)) eqn:Hdel; [reflexivity |].
        destruct (String.eqb (o_type obj) "Programme") eqn:Hty;
          cbn in Hp, Hq; congruence.
    + split; [intros _; left; lia | reflexivity].
  - unfold hasDomainScopeRelationshipViolations. cbv zeta.
    rewrite cross_domain_none. split.
    + intros H r from to d1 d2 Hin Hf Ht Hl1 Hl2 H1 H2.
      apply (H r from to d1 d2); try assumption.
      * exact (effective_domain_truthy _ _ _ H1).
      * exact (effective_domain_truthy _ _ _ H2).
    + intros H r from to d1 d2 Hin Hf Ht Hl1 Hl2 H1 H2 _ _.
      now apply (H r from to d1 d2).
Qed.

(** An empty repository passes the Programme gate and fails the
    Business Unit gate; one with its Enterprise root passes it. *)
Lemma scope_gates_characterized_witness :
  hasProgrammeScopeViolations Repository.empty = None
  /\ hasBusinessUnitScopeViolations Repository.empty <> None
  /\ hasBusinessUnitScopeViolations Samples.repo_org = None.
Proof.
  destruct (scope_gates_characterized Repository.empty None) as (Hbu & Hp & _).
  destruct (scope_gates_characterized Samples.repo_org None) as (Horg & _ & _).
  split; [| split].
  - apply Hp. right. intros obj [].
  - intros H. apply Hbu in H. destruct H as [H _]. discriminate H.
  - apply Horg. split; [reflexivity |]. intros r from to [].
Defined.

End ScopeGates.

(** ** The guarded setter of the repository *)

Section SetRepository.

Variable stableStringify : Attrs -> string.

Local Abbreviation setEaRepository := (Context.setEaRepository stableStringify).
Local Abbreviation hasReadOnlyObjectChanges :=
  (Context.hasReadOnlyObjectChanges stableStringify).
Local Abbreviation read_only_change := (Context.read_only_change stableStringify).

Lemma warn_effect (st : State) (text : string) :
  (metadata (warn st text) = metadata st /\ history (warn st text) = history st
   /\ governance (warn st text) = governance st
   /\ storage (warn st text) = storage st)
  /\ eaRepository (warn st text) = eaRepository st
  /\ exists text', trace (warn st text) = trace st ++ [MessageWarning text'].
Proof.
  split; [now repeat split |]. split; [reflexivity | now exists text].
Qed.

Local Ltac refuse :=
  match goal with
  | |- context [warn ?st ?text] =>
      let Hsame := fresh in
      let Hrepo := fresh in
      let Htrace := fresh in
      destruct (warn_effect st text) as (Hsame & Hrepo & Htrace);
      split; [exact Hsame |]; split; [right; now split | discriminate]
  end.

Lemma setEaRepository_outcome (capturedName : option string)
  (next : SetStateAction) (st : State) :
  eaRepository (setEaRepository capturedName next st) = eaRepository st
  \/ (eaRepository (setEaRepository capturedName next st)
      = resolve next (eaRepository st)
      /\ forall resolved,
           resolve next (eaRepository st) = Some resolved ->
           hasReadOnlyObjectChanges (eaRepository st) (Some resolved)
             (metadata st ≫= architectureScope) = false).
Proof.
  unfold Context.setEaRepository. cbv zeta.
  destruct (resolve next (eaRepository st)) as [resolved |] eqn:Hres;
    [| right; split; [reflexivity | discriminate]].
  destruct (hasReferenceFrameworkViolations resolved
              (metadata st ≫= referenceFramework)); [now left |].
  destruct (if scope_is (metadata st ≫= architectureScope) "Business Unit"
            then hasBusinessUnitScopeViolations resolved else None); [now left |].
  destruct (if scope_is (metadata st ≫= architectureScope) "Domain"
            then hasDomainScopeRelationshipViolations resolved capturedName
            else None); [now left |].
  destruct (if scope_is (metadata st ≫= architectureScope) "Programme"
            then hasProgrammeScopeViolations resolved else None); [now left |].
  destruct (hasReadOnlyObjectChanges (eaRepository st) (Some resolved)
              (metadata st ≫= architectureScope)) eqn:Hro; cbn [negb].
  - left. destruct (scope_is (metadata st ≫= architectureScope) "Domain");
      [reflexivity |].
    destruct (scope_is (metadata st ≫= architectureScope) "Programme"); reflexivity.
  - right. split; [reflexivity |]. intros r Hr. injection Hr as <-. exact Hro.
Qed.

(** X18: a proposal is taken whole or not at all.  [setEaRepository]
    touches nothing but the repository and the messages.  Either the
    proposal becomes the repository and no message is shown, and then it
    has passed the reference-framework gate, the gate of the scope in
    force and the read-only check; or the repository stays as it was and
    one warning is shown.  Clearing is always taken. *)
Theorem setEaRepository_accepts_or_warns (capturedName : option string)
  (next : SetStateAction) (st : State) :
  let st' := setEaRepository capturedName next st in
  let scope := metadata st ≫= architectureScope in
  (metadata st' = metadata st /\ history st' = history st
   /\ governance st' = governance st /\ storage st' = storage st)
  /\ ((eaRepository st' = resolve next (eaRepository st)
       /\ trace st' = trace st
       /\ forall resolved,
            resolve next (eaRepository st) = Some resolved ->
            hasReferenceFrameworkViolations resolved
              (metadata st ≫= referenceFramework) = None
            /\ (scope_is scope "Business Unit" = true ->
                hasBusinessUnitScopeViolations resolved = None)
            /\ (scope_is scope "Domain" = true ->
                hasDomainScopeRelationshipViolations resolved capturedName = None)
            /\ (scope_is scope "Programme" = true ->
                hasProgrammeScopeViolations resolved = None)
            /\ hasReadOnlyObjectChanges (eaRepository st) (Some resolved) scope
               = false)
      \/ (eaRepository st' = eaRepository st
          /\ exists text, trace st' = trace st ++ [MessageWarning text]))
  /\ (resolve next (eaRepository st) = None ->
      eaRepository st' = None /\ trace st' = trace st).
Proof.
  cbv zeta. unfold Context.setEaRepository. cbv zeta.
  destruct (resolve next (eaRepository st)) as [resolved |] eqn:Hres.
  2:{ split; [now repeat split |]. split; [| now split].
      left. split; [reflexivity |]. split; [reflexivity |]. intros r H.
      discriminate H. }
  destruct (hasReferenceFrameworkViolations resolved
              (metadata st ≫= referenceFramework)) as [v |] eqn:Hfw;
    [refuse |].
  destruct (scope_is (metadata st ≫= architectureScope) "Business Unit") eqn:Hbu;
    [destruct (hasBusinessUnitScopeViolations resolved) as [v |] eqn:Hbug;
     [refuse |] |].
  all: destruct (scope_is (metadata st ≫= architectureScope) "Domain") eqn:Hdo;
    [destruct (hasDomainScopeRelationshipViolations resolved capturedName)
       as [v |] eqn:Hdog; [refuse |] |].
  all: destruct (scope_is (metadata st ≫= architectureScope) "Programme") eqn:Hpr;
    [destruct (hasProgrammeScopeViolations resolved) as [v |] eqn:Hprg;
     [refuse |] |].
  all: destruct (hasReadOnlyObjectChanges (eaRepository st) (Some resolved)
                   (metadata st ≫= architectureScope)) eqn:Hro; cbn [negb];
    try refuse.
  all: split; [now repeat split |]; split; [| discriminate]; left;
    split; [reflexivity |]; split; [reflexivity |];
    intros r Hr; injection Hr as Hr; subst r;
    (split; [exact Hfw |]); (split; [intros Hin; first [exact Hbug | discriminate Hin] |]);
    (split; [intros Hin; first [exact Hdog | discriminate Hin] |]);
    (split; [intros Hin; first [exact Hprg | discriminate Hin] | exact Hro]).
Qed.

Lemma read_only_change_false (scope : option string) (prevById nextById : JsMap EaObject)
  (ids : list string) :
  read_only_change scope prevById nextById ids = false ->
  forall id, In id ids ->
    (isAnyObjectTypeWritableForScope scope (o_type <$> map_get prevById id) = true
     /\ isAnyObjectTypeWritableForScope scope (o_type <$> map_get nextById id) = true)
    \/ exists a b,
         map_get prevById id = Some a /\ map_get nextById id = Some b
         /\ o_type a = o_type b
         /\ stableStringify (o_attributes a) = stableStringify (o_attributes b).
Proof.
  induction ids as [| x ids IH]; intros Hfalse id Hin; [destruct Hin |].
  cbn [Context.read_only_change] in Hfalse. cbv zeta in Hfalse.
  assert (Hchecked :
    match map_get prevById x, map_get nextById x with
    | Some a, Some b =>
        if negb (String.eqb (o_type a) (o_type b)) then true
        else if negb (String.eqb (stableStringify (o_attributes a))
                                 (stableStringify (o_attributes b)))
        then true
        else read_only_change scope prevById nextById ids
    | _, _ => true
    end = false ->
    (exists a b,
       map_get prevById x = Some a /\ map_get nextById x = Some b
       /\ o_type a = o_type b
       /\ stableStringify (o_attributes a) = stableStringify (o_attributes b))
    /\ read_only_change scope prevById nextById ids = false).
  { destruct (map_get prevById x) as [a |]; [| discriminate].
    destruct (map_get nextById x) as [b |]; [| discriminate].
    destruct (String.eqb_spec (o_type a) (o_type b)) as [Hty | Hty];
      [| discriminate]. cbn [negb].
    destruct (String.eqb_spec (stableStringify (o_attributes a))
                              (stableStringify (o_attributes b))) as [Hs | Hs];
      [| discriminate]. cbn [negb].
    intros Hrest. split; [| exact Hrest]. now exists a, b. }
  destruct (isAnyObjectTypeWritableForScope scope (o_type <$> map_get prevById x))
    eqn:Hwa;
    [destruct (isAnyObjectTypeWritableForScope scope (o_type <$> map_get nextById x))
       eqn:Hwb |]; cbn [negb orb] in Hfalse.
  - destruct Hin as [<- | Hin]; [left; now split | now apply IH].
  - destruct (Hchecked Hfalse) as [Hsame Hrest].
    destruct Hin as [<- | Hin]; [now right | now apply IH].
  - destruct (Hchecked Hfalse) as [Hsame Hrest].
    destruct Hin as [<- | Hin]; [now right | now apply IH].
Qed.

Lemma dedupe_In (l : list string) (x : string) : In x (dedupe l) <-> In x l.
Proof. unfold dedupe. rewrite dedupe_from_In. cbn [In]. tauto. Qed.

Lemma map_has_keys {V : Type} (m : JsMap V) (k : string) :
  map_has m k = true <-> In k (map_keys m).
Proof.
  unfold map_has. split.
  - destruct (map_get m k) eqn:Hget; [| discriminate].
    intros _. eapply map_get_Some_keys. exact Hget.
  - intros Hin. destruct (map_get_in_keys m k Hin) as [v ->]. reflexivity.
Qed.

Lemma unchanged_keys (scope : option string) (prev next : EaRepository) :
  scope_is scope "Business Unit" || scope_is scope "Domain"
  || scope_is scope "Programme" = true ->
  hasReadOnlyObjectChanges (Some prev) (Some next) scope = false ->
  (forall id, map_has (objects next) id = map_has (objects prev) id)
  /\ forall id a b,
       map_get (objects prev) id = Some a -> map_get (objects next) id = Some b ->
       isAnyObjectTypeWritableForScope scope (Some (o_type a)) = false
       \/ isAnyObjectTypeWritableForScope scope (Some (o_type b)) = false ->
       o_type a = o_type b
       /\ stableStringify (o_attributes a) = stableStringify (o_attributes b).
Proof.
  intros Hscoped Hfalse. unfold Context.hasReadOnlyObjectChanges in Hfalse.
  assert (Hguard : negb (scope_is scope "Business Unit")
                   && negb (scope_is scope "Domain")
                   && negb (scope_is scope "Programme") = false).
  { destruct (scope_is scope "Business Unit"), (scope_is scope "Domain"),
      (scope_is scope "Programme"); try reflexivity. discriminate Hscoped. }
  rewrite Hguard in Hfalse. cbv zeta in Hfalse.
  pose proof (read_only_change_false _ _ _ _ Hfalse) as Hall.
  assert (Hboth : forall id,
            In id (map_keys (objects prev)) \/ In id (map_keys (objects next)) ->
            exists a b, map_get (objects prev) id = Some a
                        /\ map_get (objects next) id = Some b).
  { intros id Hin.
    assert (Hid : In id (dedupe (map_keys (objects prev) ++ map_keys (objects next))))
      by (apply dedupe_In, in_or_app; exact Hin).
    destruct (Hall id Hid) as [[Hwa Hwb] | (a & b & Ha & Hb & _)];
      [| now exists a, b].
    destruct (map_get (objects prev) id) as [a |]; [| discriminate Hwa].
    destruct (map_get (objects next) id) as [b |]; [| discriminate Hwb].
    now exists a, b. }
  split.
  - intros id. destruct (map_has (objects prev) id) eqn:Hp.
    + apply map_has_keys in Hp. destruct (Hboth id (or_introl Hp)) as (a & b & _ & Hb).
      unfold map_has. now rewrite Hb.
    + destruct (map_has (objects next) id) eqn:Hn; [| reflexivity].
      apply map_has_keys in Hn. destruct (Hboth id (or_intror Hn)) as (a & b & Ha & _).
      unfold map_has in Hp. rewrite Ha in Hp. discriminate Hp.
  - intros id a b Ha Hb Hro.
    assert (Hid : In id (dedupe (map_keys (objects prev) ++ map_keys (objects next)))).
    { apply dedupe_In, in_or_app. left. apply map_has_keys.
      unfold map_has. now rewrite Ha. }
    destruct (Hall id Hid) as [[Hwa Hwb] | (a' & b' & Ha' & Hb' & Hty & Hs)].
    + rewrite Ha in Hwa. rewrite Hb in Hwb. cbn [fmap option_fmap option_map] in *.
      destruct Hro; congruence.
    + assert (a' = a) by congruence. assert (b' = b) by congruence. subst.
      now split.
Qed.

(** X19: under a restricting scope the set of objects is frozen.  With
    a repository loaded under Business Unit, Domain or Programme scope,
    whatever is proposed to [setEaRepository], the repository that
    results, unless cleared, has exactly the object ids it had: a
    proposal that adds or removes an object, of whatever type, is turned
    down.  An object whose type the scope makes read-only, before or
    after, also keeps its type and the text of its attributes. *)
Theorem scoped_repository_keeps_its_objects (capturedName : option string)
  (next : SetStateAction) (st : State)
  (md : EaRepositoryMetadata) (prev r : EaRepository) :
  metadata st = Some md -> eaRepository st = Some prev ->
  scope_is (architectureScope md) "Business Unit"
  || scope_is (architectureScope md) "Domain"
  || scope_is (architectureScope md) "Programme" = true ->
  eaRepository (setEaRepository capturedName next st) = Some r ->
  (forall id, map_has (objects r) id = map_has (objects prev) id)
  /\ forall id a b,
       map_get (objects prev) id = Some a -> map_get (objects r) id = Some b ->
       isAnyObjectTypeWritableForScope (architectureScope md) (Some (o_type a)) = false
       \/ isAnyObjectTypeWritableForScope (architectureScope md) (Some (o_type b))
          = false ->
       o_type a = o_type b
       /\ stableStringify (o_attributes a) = stableStringify (o_attributes b).
Proof.
  intros Hmd Hprev Hscoped Hr.
  assert (Hcases :
    r = prev
    \/ hasReadOnlyObjectChanges (Some prev) (Some r) (architectureScope md) = false).
  { unfold Context.setEaRepository in Hr. cbv zeta in Hr.
    rewrite Hmd, Hprev in Hr. cbn [mbind option_bind] in Hr.
    destruct (resolve next (Some prev)) as [resolved |]; [| discriminate Hr].
    destruct (hasReferenceFrameworkViolations resolved (referenceFramework md));
      [left; cbn in Hr; congruence |].
    destruct (if scope_is (architectureScope md) "Business Unit"
              then hasBusinessUnitScopeViolations resolved else None);
      [left; cbn in Hr; congruence |].
    destruct (if scope_is (architectureScope md) "Domain"
              then hasDomainScopeRelationshipViolations resolved capturedName
              else None);
      [left; cbn in Hr; congruence |].
    destruct (if scope_is (architectureScope md) "Programme"
              then hasProgrammeScopeViolations resolved else None);
      [left; cbn in Hr; congruence |].
    destruct (hasReadOnlyObjectChanges (Some prev) (Some resolved)
                (architectureScope md)) eqn:Hro; cbn [negb] in Hr.
    - left. destruct (scope_is (architectureScope md) "Domain");
        [| destruct (scope_is (architectureScope md) "Programme")];
        cbn in Hr; congruence.
    - right. cbn in Hr. injection Hr as <-. exact Hro. }
  destruct Hcases as [-> | Hro].
  - split; [reflexivity |]. intros id a b Ha Hb _.
    assert (a = b) by congruence. now subst.
  - exact (unchanged_keys _ _ _ Hscoped Hro).
Qed.

End SetRepository.

(** In a repository without scope or framework a proposal is taken as
    it is. *)
Lemma setEaRepository_accepts_or_warns_witness :
  eaRepository
    (Context.setEaRepository Cases.plain_text None (SetValue (Some Samples.repo_two))
       (Samples.fresh_state Samples.advisory_metadata))
  = Some Samples.repo_two.
Proof.
  destruct (setEaRepository_accepts_or_warns Cases.plain_text None
              (SetValue (Some Samples.repo_two))
              (Samples.fresh_state Samples.advisory_metadata))
    as (_ & [[Htaken _] | [_ [text Hwarned]]] & _).
  - exact Htaken.
  - discriminate Hwarned.
Defined.

(** In a Domain repository holding one application, a proposal with a
    second application is turned down: there is still no [app-2]. *)
Lemma scoped_repository_keeps_its_objects_witness :
  map_has
    (objects
       (default Repository.empty
          (eaRepository
             (Context.setEaRepository Cases.plain_text (Some "Payments")
                (SetValue (Some Samples.repo_two)) Cases.domain_state))))
    "app-2"
  = false.
Proof.
  destruct (scoped_repository_keeps_its_objects Cases.plain_text (Some "Payments")
              (SetValue (Some Samples.repo_two)) Cases.domain_state
              Cases.domain_metadata Samples.repo_named Samples.repo_named
              eq_refl eq_refl eq_refl eq_refl) as [Hkeys _].
  reflexivity.
Defined.

(** ** More on persistence, loading and the history *)

Section Persistence.

Variable validateRepositoryMetadata :
  EaRepositoryMetadata -> string + EaRepositoryMetadata.
Variable buildGovernanceDebt : EaRepository -> Time -> string -> GovernanceSummary.

Local Abbreviation persist := (Context.persist buildGovernanceDebt).
Local Abbreviation undo := (Context.undo validateRepositoryMetadata).
Local Abbreviation redo := (Context.redo validateRepositoryMetadata).
Local Abbreviation tryDeserializeRepository :=
  (Context.tryDeserializeRepository validateRepositoryMetadata).
Local Abbreviation loadRepositoryFromJsonText :=
  (Context.loadRepositoryFromJsonText validateRepositoryMetadata).
Local Abbreviation createNewRepository :=
  (Context.createNewRepository validateRepositoryMetadata).

Lemma advisory_gate_effect (debt : GovernanceSummary) (g : Governance) :
  let warns :=
    (0 <? total debt)
    && bool_decide (lastAdvisoryWarnKey g <> Some (debt_key debt)) in
  snd (advisory_gate debt g) = (if warns then advisory_warning debt else [])
  /\ lastAdvisoryWarnKey (fst (advisory_gate debt g))
     = (if total debt =? 0 then None else Some (debt_key debt))
  /\ lastSaveBlockedKey (fst (advisory_gate debt g)) = lastSaveBlockedKey g
  /\ saveBlockedModal (fst (advisory_gate debt g)) = saveBlockedModal g.
Proof.
  cbv zeta. unfold advisory_gate, advisory_warning. cbv zeta.
  destruct (total debt) as [| n] eqn:Htotal.
  - now repeat split.
  - change (0 <? S n) with true. change (S n =? 0) with false. cbn [andb].
    destruct (decide (lastAdvisoryWarnKey g <> Some (debt_key debt))) as [Hne | Heq].
    + rewrite bool_decide_eq_true_2 by exact Hne. now repeat split.
    + rewrite bool_decide_eq_false_2 by exact Heq.
      cbn [fst snd]. repeat split.
      destruct (decide (lastAdvisoryWarnKey g = Some (debt_key debt))) as [He | Hn];
        [exact He | contradiction].
Qed.

Lemma drop_own_length {A : Type} (l more : list A) : drop (length l) (l ++ more) = more.
Proof. induction l as [| x l IH]; [reflexivity | exact IH]. Qed.

(** X20: outside Strict mode governance never stands in the way of a
    save.  Every run of the persistence effect on a loaded repository
    writes the snapshot of that repository.  In Advisory mode it first
    warns, once, when there is debt whose signature differs from the one
    last warned about, and remembers the signature while there is debt;
    after a run that found debt, a run that finds the same signature
    only writes.  In any other mode nothing but the write happens. *)
Theorem other_modes_always_save (st : State) (repo : EaRepository)
  (md : EaRepositoryMetadata) (now : Time) :
  eaRepository st = Some repo -> metadata st = Some md ->
  governanceMode md <> "Strict" ->
  let st' := persist now st in
  let snapshot := serializeRepository repo md now in
  let debt := buildGovernanceDebt repo now (lifecycleCoverage md) in
  storage st' = Some snapshot
  /\ eaRepository st' = Some repo /\ metadata st' = Some md
  /\ (governanceMode md = "Advisory" ->
      trace st'
      = trace st
        ++ (if (0 <? total debt)
               && bool_decide (lastAdvisoryWarnKey (governance st)
                               <> Some (debt_key debt))
            then advisory_warning debt else [])
        ++ [StorageSetItem snapshot]
      /\ lastAdvisoryWarnKey (governance st')
         = (if total debt =? 0 then None else Some (debt_key debt))
      /\ lastSaveBlockedKey (governance st') = lastSaveBlockedKey (governance st)
      /\ forall now',
           let debt' := buildGovernanceDebt repo now' (lifecycleCoverage md) in
           0 < total debt -> debt_key debt' = debt_key debt ->
           events_since st' (persist now' st')
           = [StorageSetItem (serializeRepository repo md now')])
  /\ (governanceMode md <> "Advisory" ->
      trace st' = trace st ++ [StorageSetItem snapshot]
      /\ governance st' = governance st).
Proof.
  intros Hrepo Hmd Hstrict. cbv zeta.
  assert (Hrun : forall s t,
    eaRepository s = Some repo -> metadata s = Some md ->
    governanceMode md = "Advisory" ->
    Context.persist buildGovernanceDebt t s
    = {| eaRepository := eaRepository s; metadata := metadata s;
         history := track_history (serializeRepository repo md t) (history s);
         governance :=
           fst (advisory_gate (buildGovernanceDebt repo t (lifecycleCoverage md))
                  (governance s));
         storage := Some (serializeRepository repo md t);
         trace :=
           trace s
           ++ snd (advisory_gate (buildGovernanceDebt repo t (lifecycleCoverage md))
                     (governance s))
           ++ [StorageSetItem (serializeRepository repo md t)] |}).
  { intros s t Hr Hm Hadv. unfold Context.persist. rewrite Hr, Hm, Hadv.
    cbn [String.eqb Ascii.eqb Bool.eqb andb]. cbv zeta.
    destruct (advisory_gate _ (governance s)) as [g events]. reflexivity. }
  destruct (String.eqb_spec (governanceMode md) "Advisory") as [Hadv | Hother].
  - rewrite (Hrun st now Hrepo Hmd Hadv).
    cbn [storage eaRepository metadata trace governance].
    destruct (advisory_gate_effect
                (buildGovernanceDebt repo now (lifecycleCoverage md)) (governance st))
      as (Hevents & Hkey & Hblocked & Hmodal). cbv zeta in Hevents.
    split; [reflexivity |]. split; [exact Hrepo |]. split; [exact Hmd |].
    split; [| intros Hne; contradiction].
    intros _. split; [now rewrite Hevents |]. split; [exact Hkey |].
    split; [exact Hblocked |].
    intros now' Htotal Hsame.
    rewrite (Hrun _ now'); [| exact Hrepo | exact Hmd | exact Hadv].
    unfold events_since. cbn [trace governance]. rewrite drop_own_length.
    destruct (advisory_gate_effect
                (buildGovernanceDebt repo now' (lifecycleCoverage md))
                (fst (advisory_gate
                        (buildGovernanceDebt repo now (lifecycleCoverage md))
                        (governance st))))
      as (Hevents' & _). cbv zeta in Hevents'. rewrite Hevents', Hkey, Hsame.
    destruct (total (buildGovernanceDebt repo now (lifecycleCoverage md)))
      as [| n]; [lia |]. cbn [Nat.eqb].
    rewrite bool_decide_eq_false_2 by (intros Hne; now apply Hne).
    now rewrite andb_false_r.
  - assert (Hplain :
      Context.persist buildGovernanceDebt now st
      = {| eaRepository := eaRepository st; metadata := metadata st;
           history := track_history (serializeRepository repo md now) (history st);
           governance := governance st;
           storage := Some (serializeRepository repo md now);
           trace := trace st ++ [] ++ [StorageSetItem (serializeRepository repo md now)]
        |}).
    { unfold Context.persist. rewrite Hrepo, Hmd.
      destruct (String.eqb_spec (governanceMode md) "Strict") as [H | _];
        [contradiction |].
      destruct (String.eqb_spec (governanceMode md) "Advisory") as [H | _];
        [contradiction |]. reflexivity. }
    rewrite Hplain. cbn [storage eaRepository metadata trace governance].
    split; [reflexivity |]. split; [exact Hrepo |]. split; [exact Hmd |].
    split; [intros Hadv; contradiction |]. intros _. now split.
Qed.

(** X21: loading is a new history root only until the effect runs.
    [loadRepositoryFromJsonText] empties both stacks and lowers both
    flags, yet leaves the last snapshot in place; so the effect that
    follows the load, finding a snapshot that differs from the one
    loaded, pushes it: the undo stack is that one snapshot, undo is
    offered, and undo brings back the repository that was open before
    the load, when its snapshot still deserializes. *)
Theorem load_keeps_the_way_back (parsed prev : SerializedRepository) (st : State)
  (repo repo0 : EaRepository) (md md0 : EaRepositoryMetadata) (now : Time) :
  tryDeserializeRepository parsed = inr (repo, md) ->
  lastSerialized (history st) = Some prev ->
  suppressHistory (history st) = false ->
  prev <> serializeRepository repo md now ->
  tryDeserializeRepository prev = inr (repo0, md0) ->
  let loaded := snd (loadRepositoryFromJsonText parsed st) in
  let saved := persist now loaded in
  fst (loadRepositoryFromJsonText parsed st) = Ok
  /\ eaRepository loaded = Some repo /\ metadata loaded = Some md
  /\ undoStack (history loaded) = [] /\ redoStack (history loaded) = []
  /\ canUndo (history loaded) = false /\ canRedo (history loaded) = false
  /\ undoStack (history saved) = [prev] /\ canUndo (history saved) = true
  /\ exists undone,
       undo saved = (true, undone)
       /\ eaRepository undone = Some repo0 /\ metadata undone = Some md0
       /\ undoStack (history undone) = []
       /\ redoStack (history undone) = [serializeRepository repo md now].
Proof.
  intros Hparsed Hlast Hsup Hne Hprev. cbv zeta.
  unfold Context.loadRepositoryFromJsonText. rewrite Hparsed. cbn [fst snd].
  cbn [eaRepository metadata history undoStack redoStack canUndo canRedo
       reset_history].
  repeat (split; [reflexivity |]).
  match goal with
  | |- context [Context.persist _ now ?s] => set (loaded := s)
  end.
  destruct (persist_fields buildGovernanceDebt loaded md repo now eq_refl eq_refl)
    as (Hrepo & Hmd & Hh).
  assert (Htracked :
    history (persist now loaded)
    = {| undoStack := [prev]; redoStack := [];
         lastSerialized := Some (serializeRepository repo md now);
         suppressHistory := false; canUndo := true; canRedo := false |}).
  { rewrite Hh. rewrite (track_history_push _ prev); [reflexivity | | |].
    - exact Hlast.
    - exact Hsup.
    - exact Hne. }
  rewrite Htracked. cbn [undoStack canUndo].
  split; [reflexivity |]. split; [reflexivity |].
  destruct (undo_success validateRepositoryMetadata (persist now loaded) []
              prev (serializeRepository repo md now) repo0 md0)
    as (undone & Hundo & Hr0 & Hm0 & Hus & Hrs & _).
  - now rewrite Htracked.
  - now rewrite Htracked.
  - rewrite Htracked. cbn. unfold HISTORY_LIMIT. lia.
  - exact Hprev.
  - exists undone. rewrite Htracked in Hrs. now repeat split.
Qed.

Lemma persist_nothing_open (st : State) (now : Time) :
  eaRepository st = None ->
  persist now st
  = {| eaRepository := eaRepository st; metadata := metadata st;
       history :=
         {| undoStack := undoStack (history st);
            redoStack := redoStack (history st);
            lastSerialized := None;
            suppressHistory := suppressHistory (history st);
            canUndo := canUndo (history st);
            canRedo := canRedo (history st) |};
       governance := governance st;
       storage := None;
       trace := trace st ++ [StorageRemoveItem] |}.
Proof. intros Hnone. unfold Context.persist. now rewrite Hnone. Qed.

(** X22: clearing is a history root that lasts.  After
    [clearRepository] and the effect that follows it, nothing is open,
    the stored snapshot is removed, both stacks are empty and no last
    snapshot is kept: undo and redo both answer false, and the effect
    that follows the next load pushes nothing. *)
Theorem clearRepository_forgets_the_past (st : State) (now : Time) :
  let cleared := persist now (clearRepository st) in
  eaRepository cleared = None /\ metadata cleared = None
  /\ storage cleared = None
  /\ trace cleared = trace st ++ [StorageRemoveItem]
  /\ undoStack (history cleared) = [] /\ redoStack (history cleared) = []
  /\ lastSerialized (history cleared) = None
  /\ fst (undo cleared) = false /\ fst (redo cleared) = false
  /\ forall parsed now',
       let saved := persist now' (snd (loadRepositoryFromJsonText parsed cleared)) in
       undoStack (history saved) = [] /\ redoStack (history saved) = []
       /\ canUndo (history saved) = false.
Proof.
  cbv zeta. rewrite (persist_nothing_open (clearRepository st) now eq_refl).
  unfold clearRepository.
  cbn [eaRepository metadata storage trace history undoStack redoStack
       lastSerialized reset_history canUndo canRedo suppressHistory governance].
  repeat (split; [reflexivity |]).
  intros parsed now'.
  unfold Context.loadRepositoryFromJsonText.
  destruct (Context.tryDeserializeRepository validateRepositoryMetadata parsed)
    as [error | [repo md]]; cbn [snd].
  - unfold Context.persist at 1 2 3.
    cbn [eaRepository metadata storage trace history undoStack redoStack
         lastSerialized reset_history canUndo canRedo suppressHistory governance].
    now repeat split.
  - match goal with
    | |- context [Context.persist _ now' ?s] => set (loaded := s)
    end.
    destruct (persist_fields buildGovernanceDebt loaded md repo now' eq_refl eq_refl)
      as (_ & _ & Hh).
    rewrite Hh. unfold track_history, loaded.
    cbn [eaRepository metadata storage trace history undoStack redoStack
         lastSerialized reset_history canUndo canRedo suppressHistory governance].
    destruct (suppressHistory (history st)); cbn [negb undoStack redoStack canUndo];
      now repeat split.
Qed.

(** X23: an undo or a redo that cannot be carried out still consumes
    its entry.  On an empty stack the call answers false and only lowers
    its flag.  When the entry taken does not deserialize, the call
    answers false and leaves repository, metadata and both flags as they
    were, but the entry is gone from its stack and the current snapshot,
    if any, has moved to the other one. *)
Theorem failed_undo_redo_consume_the_entry (st : State) :
  let h := history st in
  (last (undoStack h) = None ->
   undo st
   = (false,
      with_history st
        {| undoStack := undoStack h; redoStack := redoStack h;
           lastSerialized := lastSerialized h;
           suppressHistory := suppressHistory h;
           canUndo := false; canRedo := canRedo h |}))
  /\ (redoStack h = [] ->
      redo st
      = (false,
         with_history st
           {| undoStack := undoStack h; redoStack := redoStack h;
              lastSerialized := lastSerialized h;
              suppressHistory := suppressHistory h;
              canUndo := canUndo h; canRedo := false |}))
  /\ (forall older prevRaw error,
        undoStack h = older ++ [prevRaw] ->
        tryDeserializeRepository prevRaw = inl error ->
        let st' := snd (undo st) in
        fst (undo st) = false
        /\ eaRepository st' = eaRepository st /\ metadata st' = metadata st
        /\ undoStack (history st') = older
        /\ redoStack (history st')
           = match lastSerialized h with
             | Some currentRaw =>
                 if HISTORY_LIMIT <? length (currentRaw :: redoStack h)
                 then removelast (currentRaw :: redoStack h)
                 else currentRaw :: redoStack h
             | None => redoStack h
             end
        /\ lastSerialized (history st') = lastSerialized h
        /\ canUndo (history st') = canUndo h
        /\ canRedo (history st') = canRedo h)
  /\ (forall nextRaw newer error,
        redoStack h = nextRaw :: newer ->
        tryDeserializeRepository nextRaw = inl error ->
        let st' := snd (redo st) in
        fst (redo st) = false
        /\ eaRepository st' = eaRepository st /\ metadata st' = metadata st
        /\ redoStack (history st') = newer
        /\ undoStack (history st')
           = match lastSerialized h with
             | Some currentRaw =>
                 if HISTORY_LIMIT <? length (undoStack h ++ [currentRaw])
                 then tail (undoStack h ++ [currentRaw])
                 else undoStack h ++ [currentRaw]
             | None => undoStack h
             end
        /\ lastSerialized (history st') = lastSerialized h
        /\ canUndo (history st') = canUndo h
        /\ canRedo (history st') = canRedo h).
Proof.
  cbv zeta. split; [| split; [| split]].
  - intros Hnone. unfold Context.undo. cbv zeta. now rewrite Hnone.
  - intros Hnone. unfold Context.redo. cbv zeta. now rewrite Hnone.
  - intros older prevRaw error Hstack Hbad. unfold Context.undo. cbv zeta.
    rewrite Hstack, last_snoc. unfold applySerialized. rewrite Hbad.
    cbn [fst snd eaRepository metadata history with_history undoStack redoStack
         lastSerialized canUndo canRedo].
    unfold pop, unshift. rewrite removelast_last. now repeat split.
  - intros nextRaw newer error Hstack Hbad. unfold Context.redo. cbv zeta.
    rewrite Hstack. unfold applySerialized. rewrite Hbad.
    cbn [fst snd eaRepository metadata history with_history undoStack redoStack
         lastSerialized canUndo canRedo shift tail].
    unfold push, shift. now repeat split.
Qed.

Lemma archimate_violation_accepts (repo : EaRepository) (rels : list EaRelationship) :
  Forall (relationship_ok (objects repo)) rels ->
  Forall (fun r => isRelationshipTypeAllowedForReferenceFramework
                     (Some "ArchiMate") (r_type r) = true) rels ->
  archimate_violation repo rels = None.
Proof.
  induction rels as [| r rels IH]; intros Hok Hallowed; [reflexivity |].
  inversion Hok as [| ? ? Hr Hrest]; subst.
  inversion Hallowed as [| ? ? Har Harest]; subst.
  cbn [archimate_violation]. rewrite Har. cbn [negb].
  destruct Hr as (_ & _ & _ & _ & _ & fo & to & def & Hf & Ht & Hd & Hif & Hit).
  rewrite Hd, Hf, Ht.
  rewrite (proj2 (includes_In _ _) Hif), (proj2 (includes_In _ _) Hit).
  cbn [negb orb]. now apply IH.
Qed.

(** X25: a new repository satisfies the gates of its own scope.  When
    the metadata validates, [createNewRepository] opens, under Business
    Unit scope, a repository holding the single Enterprise [ent-root],
    named after the organization or, without a name, [Business Unit],
    and under any other scope an empty repository; both stacks are
    emptied.  The repository passes the reference-framework gate and the
    gate of its scope, be it Business Unit, Domain or Programme.  When
    the metadata does not validate, nothing changes. *)
Theorem createNewRepository_passes_its_gates (input : EaRepositoryMetadata)
  (organizationName : option string) (st : State) :
  match validateRepositoryMetadata input with
  | inl error => createNewRepository input organizationName st = (Fail error, st)
  | inr md =>
      exists repo,
        createNewRepository input organizationName st
        = (Ok,
           {| eaRepository := Some repo; metadata := Some md;
              history := reset_history (history st);
              governance := governance st; storage := storage st;
              trace := trace st |})
        /\ objects repo
           = (if scope_is (architectureScope md) "Business Unit"
              then [("ent-root", enterprise_root organizationName)] else [])
        /\ relationships repo = []
        /\ hasReferenceFrameworkViolations repo (referenceFramework md) = None
        /\ (scope_is (architectureScope md) "Business Unit" = true ->
            hasBusinessUnitScopeViolations repo = None)
        /\ (forall current, hasDomainScopeRelationshipViolations repo current = None)
        /\ (scope_is (architectureScope md) "Business Unit" = false ->
            hasProgrammeScopeViolations repo = None)
  end.
Proof.
  unfold Context.createNewRepository.
  destruct (validateRepositoryMetadata input) as [error | md]; [reflexivity |].
  cbv zeta.
  assert (Hfw : forall repo, relationships repo = [] ->
            hasReferenceFrameworkViolations repo (referenceFramework md) = None).
  { intros repo Hnone. unfold hasReferenceFrameworkViolations.
    destruct (referenceFramework md) as [fw |]; [| reflexivity].
    destruct (negb (truthy fw)); [reflexivity |].
    destruct (String.eqb fw "ArchiMate"); [| reflexivity].
    now rewrite Hnone. }
  destruct (scope_is (architectureScope md) "Business Unit") eqn:Hbu.
  - eexists. split; [reflexivity |].
    split; [reflexivity |]. split; [reflexivity |].
    split; [now apply Hfw |]. split; [reflexivity |].
    split; [reflexivity | discriminate].
  - exists Repository.empty. split; [reflexivity |].
    split; [reflexivity |]. split; [reflexivity |].
    split; [now apply Hfw |]. split; [discriminate |].
    split; reflexivity.
Qed.

End Persistence.

(** An empty Advisory repository is saved by the first run of the
    effect. *)
Lemma other_modes_always_save_witness :
  storage (Context.persist Samples.name_debt 0
             (Samples.fresh_state Samples.advisory_metadata))
  = Some (serializeRepository Repository.empty Samples.advisory_metadata 0).
Proof.
  exact (proj1 (other_modes_always_save Samples.name_debt
                  (Samples.fresh_state Samples.advisory_metadata)
                  Repository.empty Samples.advisory_metadata 0
                  eq_refl eq_refl ltac:(discriminate))).
Defined.

(** With an empty repository open and saved, loading the snapshot of a
    repository with two applications leaves one step to undo. *)
Lemma load_keeps_the_way_back_witness :
  undoStack
    (history
       (Context.persist Samples.name_debt 2
          (snd (Context.loadRepositoryFromJsonText Samples.accept_metadata
                  (serializeRepository Samples.repo_two Samples.advisory_metadata 1)
                  Samples.started_state))))
  = [serializeRepository Repository.empty Samples.advisory_metadata 0].
Proof.
  destruct (load_keeps_the_way_back Samples.accept_metadata Samples.name_debt
              (serializeRepository Samples.repo_two Samples.advisory_metadata 1)
              (serializeRepository Repository.empty Samples.advisory_metadata 0)
              Samples.started_state
              Samples.repo_two Repository.empty
              Samples.advisory_metadata Samples.advisory_metadata 2
              eq_refl eq_refl eq_refl ltac:(discriminate) eq_refl)
    as (_ & _ & _ & _ & _ & _ & _ & Hstack & _).
  exact Hstack.
Defined.

(** ** GraphView: what a diagram shows *)

Section DepthFilter.

Import GraphView.

Lemma set_add_In (s : list string) (x v : string) :
  In v (set_add s x) <-> In v s \/ v = x.
Proof.
  unfold set_add. destruct (includes s x) eqn:Hx.
  - apply includes_In in Hx. split; [auto | intros [H | ->]; assumption].
  - rewrite in_app_iff. cbn [In]. intuition congruence.
Qed.

Lemma visit_spec (acc : list string * list string) (v0 v : string) :
  (In v (fst (visit acc v0)) <-> In v (fst acc) \/ v = v0)
  /\ (In v (snd (visit acc v0)) <-> In v (snd acc) \/ (v = v0 /\ ~ In v0 (fst acc))).
Proof.
  destruct acc as [included next]. unfold visit. cbn [fst snd].
  destruct (includes included v0) eqn:Hv0; cbn [negb fst snd].
  - apply includes_In in Hv0. split.
    + split; [auto | intros [H | ->]; assumption].
    + split; [auto | intros [H | [_ H]]; [assumption | contradiction]].
  - apply includes_false in Hv0. rewrite !set_add_In. split; [reflexivity |].
    split; [intros [H | ->]; auto | intros [H | [-> _]]; auto].
Qed.

Lemma visits_spec (neighbors : list string) (acc : list string * list string)
  (v : string) :
  (In v (fst (fold_left visit neighbors acc)) <-> In v (fst acc) \/ In v neighbors)
  /\ (In v (snd (fold_left visit neighbors acc))
      <-> In v (snd acc) \/ (In v neighbors /\ ~ In v (fst acc))).
Proof.
  revert acc. induction neighbors as [| v0 rest IH]; intros acc; cbn [fold_left In].
  - split; [tauto | tauto].
  - destruct (IH (visit acc v0)) as [IHa IHb].
    destruct (visit_spec acc v0 v) as [Ha Hb].
    split.
    + rewrite IHa, Ha. intuition (subst; auto).
    + rewrite IHb, Hb, Ha. destruct (string_dec v v0) as [-> | Hne].
      * tauto.
      * intuition (subst; try tauto; congruence).
Qed.

Lemma expands_spec (outgoing : JsMap (list string)) (frontier : list string)
  (acc : list string * list string) (v : string) :
  let near := exists u, In u frontier /\ In v (default [] (map_get outgoing u)) in
  (In v (fst (fold_left (expand outgoing) frontier acc)) <-> In v (fst acc) \/ near)
  /\ (In v (snd (fold_left (expand outgoing) frontier acc))
      <-> In v (snd acc) \/ (near /\ ~ In v (fst acc))).
Proof.
  cbv zeta. revert acc.
  induction frontier as [| x rest IH]; intros acc; cbn [fold_left].
  - split; [split; [auto | intros [H | (u & [] & _)]; exact H] |].
    split; [auto | intros [H | [(u & [] & _) _]]; exact H].
  - destruct (IH (expand outgoing acc x)) as [IHa IHb].
    destruct (visits_spec (default [] (map_get outgoing x)) acc v) as [Ha Hb].
    fold (expand outgoing acc x) in Ha, Hb.
    split.
    + rewrite IHa, Ha. split.
      * intros [[H | H] | (u & Hu & Hv)].
        -- now left.
        -- right. exists x. split; [now left | exact H].
        -- right. exists u. split; [now right | exact Hv].
      * intros [H | (u & [<- | Hu] & Hv)].
        -- left. now left.
        -- left. now right.
        -- right. now exists u.
    + rewrite IHb, Hb, Ha. split.
      * intros [[H | [Hv Hnew]] | [(u & Hu & Hv) Hnew]].
        -- now left.
        -- right. split; [| exact Hnew]. exists x. split; [now left | exact Hv].
        -- right. split; [| tauto]. exists u. split; [now right | exact Hv].
      * intros [H | [(u & [<- | Hu] & Hv) Hnew]].
        -- left. now left.
        -- left. right. now split.
        -- destruct (in_dec string_dec v (default [] (map_get outgoing x)))
             as [Hx | Hx].
           ++ left. right. now split.
           ++ right. split; [now exists u | tauto].
Qed.

Lemma outgoing_step (outgoing : JsMap (list string)) (e : EaGraphEdge)
  (u v : string) :
  let outgoing' :=
    match map_get outgoing (e_fromId e) with
    | Some current => map_set outgoing (e_fromId e) (current ++ [e_toId e])
    | None => map_set outgoing (e_fromId e) [e_toId e]
    end in
  In v (default [] (map_get outgoing' u))
  <-> In v (default [] (map_get outgoing u)) \/ (e_fromId e = u /\ e_toId e = v).
Proof.
  cbv zeta. destruct (string_dec (e_fromId e) u) as [<- | Hne].
  - destruct (map_get outgoing (e_fromId e)) as [current |] eqn:Hget;
      rewrite map_get_set_eq; cbv beta iota delta [default from_option id].
    + rewrite in_app_iff. cbn [In]. intuition congruence.
    + cbn [In]. intuition congruence.
  - destruct (map_get outgoing (e_fromId e)) as [current |];
      rewrite map_get_set_ne by exact Hne; intuition congruence.
Qed.

Lemma outgoing_from (edges : list EaGraphEdge) (outgoing : JsMap (list string))
  (u v : string) :
  In v (default []
          (map_get
             (fold_left
                (fun outgoing e =>
                   match map_get outgoing (e_fromId e) with
                   | Some current =>
                       map_set outgoing (e_fromId e) (current ++ [e_toId e])
                   | None => map_set outgoing (e_fromId e) [e_toId e]
                   end)
                edges outgoing) u))
  <-> In v (default [] (map_get outgoing u))
      \/ exists e, In e edges /\ e_fromId e = u /\ e_toId e = v.
Proof.
  revert outgoing. induction edges as [| e rest IH]; intros outgoing; cbn [fold_left].
  - split; [auto | intros [H | (e & [] & _)]; exact H].
  - rewrite IH. pose proof (outgoing_step outgoing e u v) as Hstep.
    cbv zeta in Hstep. rewrite Hstep. split.
    + intros [[H | [Hu Hv]] | (e' & He' & Hu & Hv)].
      * now left.
      * right. exists e. split; [now left | now split].
      * right. exists e'. split; [now right | now split].
    + intros [H | (e' & [<- | He'] & Hu & Hv)].
      * left. now left.
      * left. right. now split.
      * right. now exists e'.
Qed.

Lemma outgoing_of_spec (edges : list EaGraphEdge) (u v : string) :
  In v (default [] (map_get (outgoing_of edges) u))
  <-> exists e, In e edges /\ e_fromId e = u /\ e_toId e = v.
Proof.
  unfold outgoing_of. rewrite outgoing_from. cbn. tauto.
Qed.

Lemma within_S (edges : list EaGraphEdge) (root : string) (k : nat) (v : string) :
  within edges root k v -> within edges root (S k) v.
Proof.
  induction 1 as [k | k e Hfrom IH Hin]; [constructor | now constructor].
Qed.

Lemma within_le (edges : list EaGraphEdge) (root : string) (k k' : nat) (v : string) :
  within edges root k v -> k <= k' -> within edges root k' v.
Proof.
  intros Hv Hle. induction Hle as [| k' Hle IH]; [exact Hv | now apply within_S].
Qed.

Lemma within_closed (edges : list EaGraphEdge) (root : string) (s : list string) :
  In root s ->
  (forall e, In e edges -> In (e_fromId e) s -> In (e_toId e) s) ->
  forall k v, within edges root k v -> In v s.
Proof.
  intros Hroot Hclosed k v Hv.
  induction Hv as [k | k e Hfrom IH Hin]; [exact Hroot | now apply Hclosed].
Qed.

Lemma levels_spec (edges : list EaGraphEdge) (root : string) (d : nat) :
  forall k included frontier,
    (forall v, In v included <-> within edges root k v) ->
    (forall v, In v frontier -> In v included) ->
    (forall e, In e edges -> In (e_fromId e) included ->
               In (e_fromId e) frontier \/ In (e_toId e) included) ->
    forall v, In v (levels (outgoing_of edges) d included frontier)
              <-> within edges root (k + d) v.
Proof.
  induction d as [| d IH]; intros k included frontier Hreach Hsub Hdone v;
    cbn [levels].
  - rewrite Nat.add_0_r. apply Hreach.
  - destruct (fold_left (expand (outgoing_of edges)) frontier (included, []))
      as [included' next] eqn:Hfold.
    assert (Hspec : forall w,
      (In w included'
       <-> In w included
           \/ exists e, In e edges /\ In (e_fromId e) frontier /\ e_toId e = w)
      /\ (In w next <-> In w included' /\ ~ In w included)).
    { intros w.
      pose proof (expands_spec (outgoing_of edges) frontier (included, []) w) as Hw.
      cbv zeta in Hw. rewrite Hfold in Hw. cbn [fst snd In] in Hw.
      destruct Hw as [Ha Hb].
      assert (Hnear :
        (exists u, In u frontier /\ In w (default [] (map_get (outgoing_of edges) u)))
        <-> exists e, In e edges /\ In (e_fromId e) frontier /\ e_toId e = w).
      { split.
        - intros (u & Hu & Hw). apply outgoing_of_spec in Hw.
          destruct Hw as (e & He & <- & <-). now exists e.
        - intros (e & He & Hu & <-). exists (e_fromId e). split; [exact Hu |].
          apply outgoing_of_spec. now exists e. }
      split; [now rewrite Ha, Hnear |].
      rewrite Hb, Ha. tauto. }
    assert (Hreach' : forall w, In w included' <-> within edges root (S k) w).
    { intros w. destruct (Hspec w) as [Hw _]. rewrite Hw. split.
      - intros [H | (e & He & Hu & <-)].
        + apply within_S. now apply Hreach.
        + apply within_step; [| exact He]. apply Hreach. now apply Hsub.
      - intros H. inversion H as [k0 | k0 e Hfrom He]; subst.
        + left. apply Hreach. constructor.
        + apply Hreach in Hfrom. destruct (Hdone e He Hfrom) as [Hf | Ht].
          * right. now exists e.
          * now left. }
    assert (Hsub' : forall w, In w next -> In w included').
    { intros w Hw. now apply (proj2 (Hspec w)) in Hw. }
    assert (Hdone' : forall e, In e edges -> In (e_fromId e) included' ->
              In (e_fromId e) next \/ In (e_toId e) included').
    { intros e He Hfrom.
      destruct (in_dec string_dec (e_fromId e) included) as [Hold | Hnew].
      - right. apply (proj1 (Hspec (e_toId e))).
        destruct (Hdone e He Hold) as [Hf | Ht]; [right; now exists e | now left].
      - left. apply (proj2 (Hspec (e_fromId e))). now split. }
    replace (k + S d) with (S k + d) by lia.
    destruct next as [| n next]; cbn [length Nat.eqb].
    + split.
      * intros Hv. apply (within_le edges root (S k)); [now apply Hreach' | lia].
      * apply within_closed.
        -- apply Hreach'. constructor.
        -- intros e He Hfrom. destruct (Hdone' e He Hfrom) as [[] | Ht]. exact Ht.
    + now apply (IH (S k) included' (n :: next)).
Qed.

(** X26: the impact filter keeps what lies within [depth] edges of the
    root.  Without a root id the result is empty.  With one, the nodes
    kept are those of the graph, in their order, whose id can be reached
    from the root along at most [depth] edges in their direction, the
    root itself included; the edges kept are those with both ends
    reachable so. *)
Theorem filterGraphByDepth_reach (data : GraphData) (rootId : string) (depth : nat) :
  (truthy rootId = false -> filterGraphByDepth data rootId depth = no_graph)
  /\ (truthy rootId = true ->
      exists included,
        (forall v, In v included <-> within (edges data) rootId depth v)
        /\ nodes (filterGraphByDepth data rootId depth)
           = List.filter (fun n => includes included (n_id n)) (nodes data)
        /\ edges (filterGraphByDepth data rootId depth)
           = List.filter (fun e => includes included (e_fromId e)
                                   && includes included (e_toId e))
                         (edges data)).
Proof.
  unfold filterGraphByDepth. split; intros Hroot; rewrite Hroot; cbn [negb].
  - reflexivity.
  - exists (levels (outgoing_of (edges data)) depth [rootId] [rootId]).
    split; [| now split].
    apply (levels_spec (edges data) rootId depth 0).
    + intros v. cbn [In]. split.
      * intros [<- | []]. constructor.
      * intros H. inversion H. now left.
    + auto.
    + intros e _ Hin. now left.
Qed.

End DepthFilter.

Section Diagram.

Import GraphView.

Variable isObjectVisibleForLifecycleCoverage : option string -> Attrs -> bool.

Local Abbreviation elements := (GraphView.elements isObjectVisibleForLifecycleCoverage).
Local Abbreviation filtered_graph :=
  (GraphView.filtered_graph isObjectVisibleForLifecycleCoverage).
Local Abbreviation graph_nodes :=
  (GraphView.graph_nodes isObjectVisibleForLifecycleCoverage).

Lemma node_ids_app (a b : list Element) : node_ids (a ++ b) = node_ids a ++ node_ids b.
Proof. unfold node_ids. apply flat_map_app. Qed.

Lemma edge_ends_app (a b : list Element) :
  edge_ends (a ++ b) = edge_ends a ++ edge_ends b.
Proof. unfold edge_ends. apply flat_map_app. Qed.

Lemma node_elements_ids (l : list EaGraphNode) :
  node_ids (map (fun n => NodeElement (n_id n) (label n) (objectType n)) l)
  = map n_id l
  /\ edge_ends (map (fun n => NodeElement (n_id n) (label n) (objectType n)) l) = [].
Proof.
  induction l as [| n l [IHa IHb]]; [now split |].
  unfold node_ids, edge_ends in *. cbn [map flat_map app]. now rewrite IHa, IHb.
Qed.

Lemma edge_elements_ends (l : list EaGraphEdge) (index : nat) :
  node_ids (edge_elements index l) = []
  /\ edge_ends (edge_elements index l) = map (fun e => (e_fromId e, e_toId e)) l.
Proof.
  revert index. induction l as [| e l IH]; intros index; [now split |].
  destruct (IH (S index)) as [IHa IHb].
  unfold node_ids, edge_ends in *. cbn [edge_elements map flat_map app].
  now rewrite IHa, IHb.
Qed.

Lemma filtered_graph_within (eaRepository : EaRepository)
  (allowedObjectTypes allowedRelationshipTypes : list string)
  (lifecycleCoverage : option string) (viewMode : ViewMode)
  (rootNodeId : option string) (depth : nat) :
  let filtered :=
    filtered_graph eaRepository allowedObjectTypes allowedRelationshipTypes
      lifecycleCoverage viewMode rootNodeId depth in
  let all := graph_nodes eaRepository allowedObjectTypes lifecycleCoverage in
  (forall n, In n (nodes filtered) -> In n all)
  /\ (forall e, In e (edges filtered) ->
        In e (graph_edges eaRepository allowedRelationshipTypes all)).
Proof.
  cbv zeta. unfold GraphView.filtered_graph. cbv zeta.
  destruct viewMode; [now split |].
  match goal with
  | |- context [if truthy ?root then _ else _] => destruct (truthy root)
  end; [| split; intros x []].
  unfold filterGraphByDepth.
  match goal with
  | |- context [if negb (truthy ?root) then _ else _] => destruct (negb (truthy root))
  end; [split; intros x [] |].
  cbn [nodes edges]. split; intros x Hx; apply List.filter_In in Hx; tauto.
Qed.

(** X27: a diagram shows only live, visible objects and no edge
    without its ends.  Every node of the element list is a stored object
    of a type the view allows that is not marked [_deleted] nor
    [hiddenFromDiagrams] and that the lifecycle policy lets through.
    Every edge joins two nodes of the list and comes from a stored
    relationship of a type the view allows.  In impact mode without a
    root among the nodes, nothing is shown. *)
Theorem diagram_shows_live_objects_only (eaRepository : EaRepository)
  (allowedObjectTypes allowedRelationshipTypes : list string)
  (lifecycleCoverage : option string) (viewMode : ViewMode)
  (rootNodeId : option string) (depth : nat) :
  let shown :=
    elements eaRepository allowedObjectTypes allowedRelationshipTypes
      lifecycleCoverage viewMode rootNodeId depth in
  (forall id, In id (node_ids shown) ->
     exists obj,
       In obj (map_values (objects eaRepository)) /\ o_id obj = id
       /\ includes allowedObjectTypes (o_type obj) = true
       /\ attribute_true (o_attributes obj) "_deleted" = false
       /\ attribute_true (o_attributes obj) "hiddenFromDiagrams" = false
       /\ isObjectVisibleForLifecycleCoverage lifecycleCoverage (o_attributes obj)
          = true)
  /\ (forall source target, In (source, target) (edge_ends shown) ->
        In source (node_ids shown) /\ In target (node_ids shown)
        /\ exists r,
             In r (relationships eaRepository)
             /\ fromId r = source /\ toId r = target
             /\ includes allowedRelationshipTypes (r_type r) = true)
  /\ (viewMode = impact ->
      (forall root, rootNodeId = Some root ->
         ~ In root (map n_id
                      (graph_nodes eaRepository allowedObjectTypes lifecycleCoverage))) ->
      shown = []).
Proof.
  cbv zeta.
  destruct (filtered_graph_within eaRepository allowedObjectTypes
              allowedRelationshipTypes lifecycleCoverage viewMode rootNodeId depth)
    as [Hnodes Hedges]. cbv zeta in Hnodes, Hedges.
  unfold GraphView.elements. cbv zeta.
  set (filtered := filtered_graph eaRepository allowedObjectTypes
                     allowedRelationshipTypes lifecycleCoverage viewMode
                     rootNodeId depth) in *.
  assert (Hids : forall l,
    node_ids (map (fun n => NodeElement (n_id n) (label n) (objectType n))
                  (nodes filtered) ++ edge_elements 0 l)
    = map n_id (nodes filtered)).
  { intros l. rewrite node_ids_app.
    rewrite (proj1 (node_elements_ids _)), (proj1 (edge_elements_ends _ _)).
    apply app_nil_r. }
  assert (Hends : forall l,
    edge_ends (map (fun n => NodeElement (n_id n) (label n) (objectType n))
                   (nodes filtered) ++ edge_elements 0 l)
    = map (fun e => (e_fromId e, e_toId e)) l).
  { intros l. rewrite edge_ends_app.
    now rewrite (proj2 (node_elements_ids _)), (proj2 (edge_elements_ends _ _)). }
  split; [| split].
  - intros id Hid. rewrite Hids in Hid. apply in_map_iff in Hid.
    destruct Hid as (n & <- & Hn). apply Hnodes in Hn.
    unfold GraphView.graph_nodes in Hn. apply in_map_iff in Hn.
    destruct Hn as (obj & <- & Hobj).
    repeat (apply List.filter_In in Hobj; destruct Hobj as [Hobj ?]).
    exists obj. cbn [node_of n_id].
    repeat match goal with
           | H : negb _ = true |- _ => apply negb_true_iff in H
           end.
    now repeat split.
  - intros source target Hin. rewrite Hends in Hin. rewrite Hids.
    apply in_map_iff in Hin. destruct Hin as (e & Heq & He).
    injection Heq as <- <-. apply List.filter_In in He.
    destruct He as [He Hboth]. apply andb_true_iff in Hboth.
    destruct Hboth as [Hfrom Hto]. apply includes_In in Hfrom, Hto.
    split; [exact Hfrom |]. split; [exact Hto |].
    apply Hedges in He. unfold graph_edges in He. cbv zeta in He.
    apply in_map_iff in He. destruct He as (r & <- & Hr).
    apply List.filter_In in Hr. destruct Hr as [Hr _].
    apply List.filter_In in Hr. destruct Hr as [Hr Hallowed].
    exists r. now repeat split.
  - intros -> Hroot.
    assert (Hnone : filtered = no_graph).
    { unfold filtered, GraphView.filtered_graph. cbv zeta.
      destruct rootNodeId as [root |]; [| reflexivity].
      replace (existsb (fun n => String.eqb (n_id n) root)
                 (graph_nodes eaRepository allowedObjectTypes lifecycleCoverage))
        with false; [now rewrite andb_false_r |].
      symmetry. apply not_true_is_false. intros Hex.
      apply existsb_exists in Hex. destruct Hex as (n & Hn & Heq).
      apply String.eqb_eq in Heq. apply (Hroot root eq_refl).
      apply in_map_iff. now exists n. }
    rewrite Hnone. reflexivity.
Qed.

End Diagram.

(** ** The explorer tree: fresh ids and copies *)

Section UniqueIds.

Import ExplorerTree.

Lemma trimStart_length (s : string) :
  String.length (trimStart s) <= String.length s.
Proof.
  induction s as [| c s IH]; [reflexivity |].
  cbn [trimStart]. destruct (is_white_space c); cbn [String.length]; lia.
Qed.

Lemma trimStart_fixed_head (c : ascii) (s : string) :
  trimStart (String c s) = String c s -> is_white_space c = false.
Proof.
  cbn [trimStart]. destruct (is_white_space c); [| reflexivity].
  intros H. pose proof (trimStart_length s) as Hlen. rewrite H in Hlen.
  cbn [String.length] in Hlen. lia.
Qed.

Lemma append_empty_r (a b : string) : a +:+ b = EmptyString -> b = EmptyString.
Proof. destruct a; cbn; [auto | discriminate]. Qed.

Lemma trimEnd_app_keep (a b : string) :
  trimEnd b = b -> b <> EmptyString -> trimEnd (a +:+ b) = a +:+ b.
Proof.
  intros Hb Hne. induction a as [| c a IH]; [exact Hb |].
  cbn [String.append].
  change (match trimEnd (a +:+ b) with
          | EmptyString =>
              if is_white_space c then EmptyString else String c EmptyString
          | String d r => String c (String d r)
          end = String c (a +:+ b)).
  rewrite IH.
  destruct (a +:+ b) eqn:Hab; [| reflexivity].
  apply append_empty_r in Hab. contradiction.
Qed.

Lemma trim_app_keep (a b : string) :
  trim a = a -> a <> EmptyString -> trimEnd b = b -> b <> EmptyString ->
  trim (a +:+ b) = a +:+ b.
Proof.
  intros Ha Hnea Hb Hneb. destruct a as [| c a]; [contradiction |].
  assert (Hc : is_white_space c = false).
  { apply (trimStart_fixed_head c a). rewrite <- Ha at 1 2. apply trimStart_trim. }
  unfold trim. change (String c a +:+ b) with (String c (a +:+ b)).
  cbn [trimStart]. rewrite Hc.
  exact (trimEnd_app_keep (String c a) b Hb Hneb).
Qed.

Lemma digits_trimEnd (d : Decimal.uint) :
  trimEnd (NilEmpty.string_of_uint d) = NilEmpty.string_of_uint d.
Proof.
  induction d as [| d IH | d IH | d IH | d IH | d IH | d IH | d IH | d IH | d IH
                  | d IH];
    cbn [NilEmpty.string_of_uint]; [reflexivity | ..];
    rewrite trimEnd_cons_keep by reflexivity; now rewrite IH.
Qed.

Lemma to_uint_nonnil (n : nat) : Nat.to_uint n <> Decimal.Nil.
Proof.
  pose proof (Unsigned.to_of (Nat.to_uint n)) as H. rewrite Unsigned.of_to in H.
  rewrite H. unfold Decimal.unorm.
  destruct (Decimal.nzhead (Nat.to_uint n)); discriminate.
Qed.

Lemma show_nat_nonempty (n : nat) : show_nat n <> EmptyString.
Proof.
  unfold show_nat. pose proof (to_uint_nonnil n) as Hn.
  destruct (Nat.to_uint n); [contradiction | ..]; discriminate.
Qed.

Lemma show_nat_inj (i j : nat) : show_nat i = show_nat j -> i = j.
Proof.
  unfold show_nat. intros H. apply Unsigned.to_uint_inj.
  apply (f_equal NilEmpty.uint_of_string) in H. rewrite !NilEmpty.usu in H.
  now injection H.
Qed.

Lemma append_inj_l (a x y : string) : a +:+ x = a +:+ y -> x = y.
Proof.
  induction a as [| c a IH]; intros H; [exact H |].
  change (String c (a +:+ x) = String c (a +:+ y)) in H.
  injection H as H. now apply IH.
Qed.

Lemma append_fixed (a b : string) : a +:+ b = a -> b = EmptyString.
Proof.
  induction a as [| c a IH]; intros H; [exact H |].
  change (String c (a +:+ b) = String c a) in H.
  injection H as H. now apply IH.
Qed.

Lemma numbered_inj (normalized : string) (i j : nat) :
  numbered normalized i = numbered normalized j -> i = j.
Proof.
  unfold numbered. intros H. apply append_inj_l in H. apply append_inj_l in H.
  now apply show_nat_inj.
Qed.

Lemma numbered_other (normalized : string) (i : nat) :
  numbered normalized i <> normalized.
Proof.
  unfold numbered. intros H. apply append_fixed in H. discriminate H.
Qed.

Lemma numbered_trimmed (normalized : string) (i : nat) :
  trim normalized = normalized -> normalized <> EmptyString ->
  trim (numbered normalized i) = numbered normalized i
  /\ numbered normalized i <> EmptyString.
Proof.
  intros Htrim Hne. unfold numbered. split.
  - apply trim_app_keep; [exact Htrim | exact Hne | | discriminate].
    change (trimEnd (String "-"%char (show_nat i)) = String "-"%char (show_nat i)).
    rewrite trimEnd_cons_keep by reflexivity.
    unfold show_nat. now rewrite digits_trimEnd.
  - intros H. destruct normalized; [contradiction | discriminate H].
Qed.

Lemma first_free_spec (existingIds : list string) (normalized : string)
  (steps i : nat) :
  exists j,
    first_free existingIds normalized i steps = numbered normalized j
    /\ i <= j <= i + steps
    /\ (forall k, i <= k < j -> In (numbered normalized k) existingIds)
    /\ (j < i + steps -> ~ In (numbered normalized j) existingIds).
Proof.
  revert i. induction steps as [| steps IH]; intros i; cbn [first_free].
  - exists i. split; [reflexivity |]. split; [lia |]. split; intros; lia.
  - destruct (includes existingIds (numbered normalized i)) eqn:Hi.
    + apply includes_In in Hi. destruct (IH (S i)) as (j & Hj & Hrange & Hused & Hfree).
      exists j. split; [exact Hj |]. split; [lia |]. split.
      * intros k Hk. destruct (Nat.eq_dec k i) as [-> | Hne]; [exact Hi |].
        apply Hused. lia.
      * intros Hlt. apply Hfree. lia.
    + apply includes_false in Hi. exists i. split; [reflexivity |].
      split; [lia |]. split; [intros; lia | now intros _].
Qed.

Lemma candidates_NoDup (normalized : string) (len i : nat) :
  List.NoDup (normalized :: map (numbered normalized) (seq i len)).
Proof.
  constructor.
  - intros Hin. apply in_map_iff in Hin. destruct Hin as (k & Hk & _).
    exact (numbered_other normalized k Hk).
  - revert i. induction len as [| len IH]; intros i; cbn [seq map]; constructor.
    + intros Hin. apply in_map_iff in Hin. destruct Hin as (k & Hk & Hrange).
      apply numbered_inj in Hk. apply in_seq in Hrange. lia.
    + apply IH.
Qed.

Lemma normalized_trimmed (base : string) :
  let normalized := if truthy (trim base) then trim base else "new" in
  trim normalized = normalized /\ normalized <> EmptyString.
Proof.
  cbv zeta. destruct (truthy (trim base)) eqn:Hbase.
  - split; [apply trim_idempotent | now apply truthy_true].
  - split; [reflexivity | discriminate].
Qed.

(** With the plain id taken, [length existingIds] turns are enough: the
    candidates up to the one found and the plain id are all different
    and all taken, so they are no more than the ids given. *)
Lemma first_free_found (existingIds : list string) (normalized : string) :
  In normalized existingIds ->
  exists j,
    first_free existingIds normalized 2 (length existingIds) = numbered normalized j
    /\ 2 <= j <= S (length existingIds)
    /\ (forall k, 2 <= k < j -> In (numbered normalized k) existingIds)
    /\ ~ In (numbered normalized j) existingIds.
Proof.
  intros Htaken.
  destruct (first_free_spec existingIds normalized (length existingIds) 2)
    as (j & Hj & Hrange & Hused & Hfree).
  assert (Hincl : incl (normalized :: map (numbered normalized) (seq 2 (j - 2)))
                       existingIds).
  { intros x [<- | Hx]; [exact Htaken |].
    apply in_map_iff in Hx. destruct Hx as (k & <- & Hk).
    apply in_seq in Hk. apply Hused. lia. }
  pose proof (List.NoDup_incl_length
                (candidates_NoDup normalized (j - 2) 2) Hincl) as Hlen.
  cbn [length] in Hlen. rewrite length_map, length_seq in Hlen.
  exists j. split; [exact Hj |]. split; [lia |]. split; [exact Hused |].
  apply Hfree. lia.
Qed.

Lemma makeUniqueId_not_taken (existingIds : list string) (base : string) :
  ~ In (makeUniqueId existingIds base) existingIds
  /\ trim (makeUniqueId existingIds base) = makeUniqueId existingIds base
  /\ makeUniqueId existingIds base <> EmptyString.
Proof.
  destruct (normalized_trimmed base) as [Htrim Hne]. cbv zeta in Htrim, Hne.
  unfold makeUniqueId. cbv zeta.
  destruct (includes existingIds (if truthy (trim base) then trim base else "new"))
    eqn:Htaken; cbn [negb].
  - apply includes_In in Htaken.
    destruct (first_free_found existingIds _ Htaken) as (j & -> & _ & _ & Hfree).
    split; [exact Hfree |]. now apply numbered_trimmed.
  - apply includes_false in Htaken. now repeat split.
Qed.

(** X28: [makeUniqueId] gives an id that is not taken.  The id is the
    base, trimmed, or [new] for a blank base, when that is free;
    otherwise it is the base followed by [-i] for the least [i] from 2 on
    that is free, and [i] is at most one more than the number of ids
    given, so the search always ends.  The id is never blank and carries
    no outer white space. *)
Theorem makeUniqueId_fresh (existingIds : list string) (base : string) :
  let normalized := if truthy (trim base) then trim base else "new" in
  let id := makeUniqueId existingIds base in
  ~ In id existingIds
  /\ trim id = id /\ id <> EmptyString
  /\ (~ In normalized existingIds -> id = normalized)
  /\ (In normalized existingIds ->
      exists i,
        2 <= i <= S (length existingIds)
        /\ id = numbered normalized i
        /\ forall k, 2 <= k < i -> In (numbered normalized k) existingIds).
Proof.
  cbv zeta. destruct (normalized_trimmed base) as [Htrim Hne]. cbv zeta in Htrim, Hne.
  unfold makeUniqueId. cbv zeta.
  set (normalized := if truthy (trim base) then trim base else "new") in *.
  destruct (includes existingIds normalized) eqn:Htaken; cbn [negb].
  - apply includes_In in Htaken.
    destruct (first_free_found existingIds normalized Htaken)
      as (j & -> & Hrange & Hused & Hfree).
    destruct (numbered_trimmed normalized j Htrim Hne) as [Hjt Hjn].
    split; [exact Hfree |]. split; [exact Hjt |]. split; [exact Hjn |].
    split; [intros Hfree'; contradiction |].
    intros _. exists j. split; [exact Hrange |]. split; [reflexivity | exact Hused].
  - apply includes_false in Htaken.
    split; [exact Htaken |]. split; [exact Htrim |]. split; [exact Hne |].
    split; [reflexivity | intros H; contradiction].
Qed.

End UniqueIds.

Section Copies.

Import ExplorerTree.

Variable stableStringify : Attrs -> string.

Local Abbreviation setEaRepository := (Context.setEaRepository stableStringify).

(** X29: Duplicate appends one copy under a fresh id, and a restricting
    scope turns it down.  For a source of a valid type the updater of
    [duplicateObject] never fails: the repository it proposes is the
    previous one with one more object at the end, under the id
    [makeUniqueId] picks, of the type of the source and with its
    attributes, the name replaced by the name shown for the source
    followed by [ (Copy)]; no relationship is copied.  Handed to
    [setEaRepository] under Business Unit, Domain or Programme scope,
    the proposal is refused and the repository stays as it was. *)
Theorem duplicateObject_appends_a_copy (src : EaObject) (now : nat)
  (repo : EaRepository) :
  isValidObjectType (o_type src) = true ->
  let base := defaultIdPrefixForType (o_type src) +:+ "copy-" +:+ show_nat now in
  let newId := makeUniqueId (map_keys (objects repo)) base in
  let copy :=
    {| o_id := newId; o_type := o_type src;
       o_attributes :=
         <[ "name" := JStr (nameForObject src +:+ " (Copy)") ]> (o_attributes src) |} in
  let next :=
    {| objects := objects repo ++ [(newId, copy)];
       relationships := relationships repo |} in
  duplicateObject_updater src now (Some repo) = (None, Some next)
  /\ map_get (objects repo) newId = None
  /\ (forall capturedName st md,
        eaRepository st = Some repo -> metadata st = Some md ->
        scope_is (architectureScope md) "Business Unit"
        || scope_is (architectureScope md) "Domain"
        || scope_is (architectureScope md) "Programme" = true ->
        eaRepository
          (setEaRepository capturedName
             (SetUpdater (fun prev => snd (duplicateObject_updater src now prev))) st)
        = Some repo).
Proof.
  intros Hvalid. cbv zeta.
  set (base := defaultIdPrefixForType (o_type src) +:+ "copy-" +:+ show_nat now).
  destruct (makeUniqueId_not_taken (map_keys (objects repo)) base)
    as (Hfresh & Htrim & Hne).
  set (newId := makeUniqueId (map_keys (objects repo)) base) in *.
  assert (Hnone : map_get (objects repo) newId = None)
    by (now apply map_get_None_keys).
  assert (Hrun :
    duplicateObject_updater src now (Some repo)
    = (None,
       Some {| objects :=
                 objects repo
                 ++ [(newId,
                      {| o_id := newId; o_type := o_type src;
                         o_attributes :=
                           <[ "name" := JStr (nameForObject src +:+ " (Copy)") ]>
                             (o_attributes src) |})];
               relationships := relationships repo |})).
  { unfold duplicateObject_updater. cbv zeta. fold base. fold newId.
    unfold addObject. cbv zeta. cbn [in_id in_type in_attributes].
    rewrite Htrim. rewrite (proj2 (truthy_true newId) Hne), Hvalid. cbn [negb].
    unfold map_has. rewrite Hnone.
    rewrite map_set_fresh by exact Hnone. reflexivity. }
  split; [exact Hrun |]. split; [exact Hnone |].
  intros capturedName st md Hrepo Hmd Hscoped.
  destruct (setEaRepository_outcome stableStringify capturedName
              (SetUpdater (fun prev => snd (duplicateObject_updater src now prev))) st)
    as [Hkept | [Htaken Hro]].
  - now rewrite Hkept.
  - exfalso. cbn [resolve] in Hro. rewrite Hrepo, Hrun in Hro. cbn [snd] in Hro.
    specialize (Hro _ eq_refl). rewrite Hmd in Hro. cbn [mbind option_bind] in Hro.
    destruct (unchanged_keys stableStringify _ _ _ Hscoped Hro) as [Hkeys _].
    specialize (Hkeys newId). cbn [objects] in Hkeys.
    unfold map_has in Hkeys. rewrite Hnone in Hkeys.
    rewrite map_get_app_fresh in Hkeys.
    rewrite Hnone, String.eqb_refl in Hkeys. discriminate Hkeys.
Qed.

End Copies.

(** The id picked for a copy of an application is not among the ids of
    the repository. *)
Lemma duplicateObject_appends_a_copy_witness :
  map_get (objects Samples.repo_named)
    (ExplorerTree.makeUniqueId (map_keys (objects Samples.repo_named))
       (ExplorerTree.defaultIdPrefixForType "Application" +:+ "copy-" +:+ show_nat 7))
  = None.
Proof.
  exact (proj1 (proj2 (duplicateObject_appends_a_copy Cases.plain_text
                         {| o_id := "app-1"; o_type := "Application";
                            o_attributes := ∅ |}
                         7 Samples.repo_named eq_refl))).
Defined.

(** ** Deserializing a value of unknown shape *)

Section ParsedItems.

Lemma parsed_addObject_returned (this next : EaRepository) (item : Parsed.ObjectItem)
  (res : EaRepositoryAddResult) :
  Parsed.addObject this item = Parsed.Returned (res, next) ->
  next = this \/ exists input, addObject this input = (Ok, next).
Proof.
  destruct item as [| id type attributes]; [discriminate |].
  unfold Parsed.addObject.
  destruct id as [| | s | text]; cbn [Parsed.trimmed]; [| | | discriminate].
  - change (trim EmptyString) with EmptyString. cbn [truthy negb].
    intros H. injection H as _ <-. now left.
  - change (trim EmptyString) with EmptyString. cbn [truthy negb].
    intros H. injection H as _ <-. now left.
  - destruct (truthy (trim s)) eqn:Hid; cbn [negb];
      [| intros H; injection H as _ <-; now left].
    destruct type as [| | t | [text |]];
      cbn [Parsed.valid_object_type Parsed.to_string];
      try discriminate;
      try (intros H; injection H as _ <-; now left).
    destruct (isValidObjectType t) eqn:Hty;
      [| intros H; injection H as _ <-; now left].
    destruct (map_has (objects this) (trim s)) eqn:Hhas;
      [intros H; injection H as _ <-; now left |].
    intros H. injection H as _ <-. right.
    exists {| in_id := s; in_type := t; in_attributes := attributes |}.
    unfold addObject. cbv zeta. cbn [in_id in_type in_attributes].
    now rewrite Hid, Hty, Hhas.
Qed.

Lemma parsed_addRelationship_returned (this next : EaRepository)
  (item : Parsed.RelationshipItem) (res : EaRepositoryAddResult) :
  Parsed.addRelationship this item = Parsed.Returned (res, next) ->
  next = this
  \/ exists input,
       addRelationship this input = (Ok, next)
       /\ Parsed.type_text item = Parsed.Returned (in_rtype input).
Proof.
  destruct item as [| rel_from rel_to type attributes]; [discriminate |].
  unfold Parsed.addRelationship.
  destruct rel_from as [| | a | text]; cbn [Parsed.trimmed]; [| | | discriminate];
    destruct rel_to as [| | b | text']; cbn [Parsed.trimmed]; try discriminate;
    try (change (trim EmptyString) with EmptyString;
         intros H; left; cbn [truthy negb] in H;
         repeat match type of H with
                | context [if negb (truthy ?x) then _ else _] =>
                    destruct (truthy x); cbn [negb] in H
                end;
         now injection H as _ <-).
  destruct (truthy (trim a)) eqn:Ha; cbn [negb];
    [| intros H; injection H as _ <-; now left].
  destruct (truthy (trim b)) eqn:Hb; cbn [negb];
    [| intros H; injection H as _ <-; now left].
  destruct type as [| | t | [text |]];
    cbn [Parsed.valid_relationship_type Parsed.to_string];
    try discriminate;
    try (intros H; injection H as _ <-; now left).
  destruct (isValidRelationshipType t) eqn:Hty;
    [| intros H; injection H as _ <-; now left].
  destruct (validateReference this (trim a)) as [| e] eqn:Hra;
    [| intros H; injection H as _ <-; now left].
  destruct (validateReference this (trim b)) as [| e] eqn:Hrb;
    [| intros H; injection H as _ <-; now left].
  destruct (record_get RELATIONSHIP_TYPE_DEFINITIONS t) as [def |] eqn:Hdef;
    [| intros H; injection H as _ <-; now left].
  destruct (map_get (objects this) (trim a)) as [fromObj |] eqn:Hfo;
    [| intros H; injection H as _ <-; now left].
  destruct (map_get (objects this) (trim b)) as [toObj |] eqn:Hto;
    [| intros H; injection H as _ <-; now left].
  cbv zeta.
  destruct (negb (includes (fromTypes def) (o_type fromObj))
            || negb (includes (toTypes def) (o_type toObj))) eqn:Hends;
    [intros H; injection H as _ <-; now left |].
  intros H. injection H as _ <-. right.
  exists {| in_fromId := a; in_toId := b; in_rtype := t;
            in_rattributes := attributes |}.
  split; [| reflexivity].
  unfold addRelationship. cbv zeta.
  cbn [in_fromId in_toId in_rtype in_rattributes].
  rewrite Ha, Hb, Hty. cbn [negb]. rewrite Hra, Hrb, Hdef, Hfo, Hto, Hends.
  reflexivity.
Qed.

Lemma parsed_load_objects_well_formed (items : list Parsed.ObjectItem)
  (this repo : EaRepository) :
  well_formed this ->
  Parsed.load_objects this items = Parsed.Returned repo ->
  well_formed repo /\ relationships repo = relationships this.
Proof.
  revert this. induction items as [| item items IH]; intros this Hwf;
    cbn [Parsed.load_objects].
  - intros H. injection H as <-. now split.
  - destruct (Parsed.addObject this item) as [[res next] | e] eqn:Hadd;
      [| discriminate].
    intros Hrest.
    destruct (parsed_addObject_returned _ _ _ _ Hadd) as [-> | (input & Hin)].
    + now apply IH.
    + assert (Hnext : well_formed next).
      { pose proof (addObject_well_formed this input Hwf) as H.
        now rewrite Hin in H. }
      destruct (IH next Hnext Hrest) as [Hrepo Hrels]. split; [exact Hrepo |].
      rewrite Hrels. pose proof (addObject_relationships this input) as H.
      now rewrite Hin in H.
Qed.

Lemma parsed_load_relationships_well_formed (ok : string -> Prop)
  (items : list Parsed.RelationshipItem) (this repo : EaRepository) :
  well_formed this ->
  Forall (fun r => ok (r_type r)) (relationships this) ->
  (forall item text,
     In item items -> Parsed.type_text item = Parsed.Returned text -> ok text) ->
  Parsed.load_relationships this items = Parsed.Returned repo ->
  well_formed repo /\ Forall (fun r => ok (r_type r)) (relationships repo).
Proof.
  revert this. induction items as [| item items IH]; intros this Hwf Hold Hitems;
    cbn [Parsed.load_relationships].
  - intros H. injection H as <-. now split.
  - destruct (Parsed.addRelationship this item) as [[res next] | e] eqn:Hadd;
      [| discriminate].
    intros Hrest.
    assert (Htail : forall x text,
              In x items -> Parsed.type_text x = Parsed.Returned text -> ok text)
      by (intros x text Hx; apply Hitems; now right).
    destruct (parsed_addRelationship_returned _ _ _ _ Hadd)
      as [-> | (input & Hin & Hty)].
    + exact (IH this Hwf Hold Htail Hrest).
    + apply (IH next); [| | exact Htail | exact Hrest].
      * pose proof (addRelationship_well_formed this input Hwf) as H.
        now rewrite Hin in H.
      * destruct (addRelationship_ok_inv _ _ _ Hin) as [-> _].
        cbn [relationships]. apply Forall_app. split; [exact Hold |].
        constructor; [| constructor].
        cbn [stored_relationship r_type].
        apply (Hitems item); [now left | exact Hty].
Qed.

Lemma parsed_addObject_throws (this : EaRepository) (item : Parsed.ObjectItem) :
  match Parsed.addObject this item with
  | Parsed.Thrown _ => Parsed.object_throws item = true
  | Parsed.Returned _ => Parsed.object_throws item = false
  end.
Proof.
  destruct item as [| id type attributes]; [reflexivity |].
  unfold Parsed.addObject, Parsed.object_throws.
  destruct id as [| | s | text]; cbn [Parsed.trimmed]; try reflexivity.
  destruct (truthy (trim s)); cbn [negb].
  - destruct type as [| | t | [text |]];
      cbn [Parsed.valid_object_type Parsed.to_string]; try reflexivity.
    destruct (isValidObjectType t); reflexivity.
  - destruct type as [| | t | [text |]]; reflexivity.
Qed.

Lemma parsed_addRelationship_throws (this : EaRepository)
  (item : Parsed.RelationshipItem) :
  match Parsed.addRelationship this item with
  | Parsed.Thrown _ => Parsed.relationship_throws item = true
  | Parsed.Returned _ => Parsed.relationship_throws item = false
  end.
Proof.
  destruct item as [| rel_from rel_to type attributes]; [reflexivity |].
  unfold Parsed.addRelationship, Parsed.relationship_throws.
  destruct rel_from as [| | a | text]; cbn [Parsed.trimmed]; try reflexivity;
    destruct rel_to as [| | b | text']; cbn [Parsed.trimmed]; try reflexivity;
    try (destruct (truthy (trim a)); reflexivity).
  destruct (truthy (trim a)); cbn [negb andb];
    [| destruct type as [| | t | [text |]]; reflexivity].
  destruct (truthy (trim b)); cbn [negb];
    [| destruct type as [| | t | [text |]]; reflexivity].
  destruct type as [| | t | [text |]];
    cbn [Parsed.valid_relationship_type Parsed.to_string]; try reflexivity.
  destruct (isValidRelationshipType t); reflexivity.
Qed.

Lemma parsed_load_objects_throws (items : list Parsed.ObjectItem)
  (this : EaRepository) :
  match Parsed.load_objects this items with
  | Parsed.Thrown _ => existsb Parsed.object_throws items = true
  | Parsed.Returned _ => existsb Parsed.object_throws items = false
  end.
Proof.
  revert this. induction items as [| item items IH]; intros this;
    cbn [Parsed.load_objects existsb]; [reflexivity |].
  pose proof (parsed_addObject_throws this item) as Hstep.
  destruct (Parsed.addObject this item) as [[res next] | e]; rewrite Hstep;
    [apply IH | reflexivity].
Qed.

Lemma parsed_load_relationships_throws (items : list Parsed.RelationshipItem)
  (this : EaRepository) :
  match Parsed.load_relationships this items with
  | Parsed.Thrown _ => existsb Parsed.relationship_throws items = true
  | Parsed.Returned _ => existsb Parsed.relationship_throws items = false
  end.
Proof.
  revert this. induction items as [| item items IH]; intros this;
    cbn [Parsed.load_relationships existsb]; [reflexivity |].
  pose proof (parsed_addRelationship_throws this item) as Hstep.
  destruct (Parsed.addRelationship this item) as [[res next] | e]; rewrite Hstep;
    [apply IH | reflexivity].
Qed.

Lemma parsed_load_objects_items (l : list EaObject) (this : EaRepository) :
  Parsed.load_objects this (map Parsed.object_item l)
  = Parsed.Returned (load_objects this (map object_input l)).
Proof.
  revert this. induction l as [| o l IH]; intros this; [reflexivity |].
  cbn [map Parsed.load_objects].
  assert (Hstep : Parsed.addObject this (Parsed.object_item o)
                  = Parsed.Returned (addObject this (object_input o))).
  { unfold Parsed.addObject, Parsed.object_item, addObject, object_input.
    cbv zeta. cbn [Parsed.trimmed Parsed.valid_object_type Parsed.to_string
                   in_id in_type in_attributes].
    destruct (truthy (trim (o_id o))); cbn [negb]; [| reflexivity].
    destruct (isValidObjectType (o_type o)); cbn [negb]; [| reflexivity].
    destruct (map_has (objects this) (trim (o_id o))); reflexivity. }
  rewrite Hstep. unfold load_objects. cbn [fold_left].
  destruct (addObject this (object_input o)) as [res next]. exact (IH next).
Qed.

Lemma parsed_load_relationships_items (l : list EaRelationship) (this : EaRepository) :
  Parsed.load_relationships this (map Parsed.relationship_item l)
  = Parsed.Returned (load_relationships this (map relationship_input l)).
Proof.
  revert this. induction l as [| r l IH]; intros this; [reflexivity |].
  cbn [map Parsed.load_relationships].
  assert (Hstep : Parsed.addRelationship this (Parsed.relationship_item r)
                  = Parsed.Returned (addRelationship this (relationship_input r))).
  { unfold Parsed.addRelationship, Parsed.relationship_item, addRelationship,
      relationship_input.
    cbv zeta. cbn [Parsed.trimmed Parsed.valid_relationship_type Parsed.to_string
                   in_fromId in_toId in_rtype in_rattributes].
    destruct (truthy (trim (fromId r))); cbn [negb]; [| reflexivity].
    destruct (truthy (trim (toId r))); cbn [negb]; [| reflexivity].
    destruct (isValidRelationshipType (r_type r)); cbn [negb]; [| reflexivity].
    destruct (validateReference this (trim (fromId r))); [| reflexivity].
    destruct (validateReference this (trim (toId r))); [| reflexivity].
    destruct (record_get RELATIONSHIP_TYPE_DEFINITIONS (r_type r)) as [def |];
      [| reflexivity].
    destruct (map_get (objects this) (trim (fromId r))) as [fromObj |];
      [| reflexivity].
    destruct (map_get (objects this) (trim (toId r))) as [toObj |];
      [| reflexivity].
    cbv zeta.
    destruct (negb (includes (fromTypes def) (o_type fromObj))
              || negb (includes (toTypes def) (o_type toObj))); reflexivity. }
  rewrite Hstep. unfold load_relationships. cbn [fold_left].
  destruct (addRelationship this (relationship_input r)) as [res next].
  exact (IH next).
Qed.

Lemma first_unsupported_spec (relationships : list Parsed.RelationshipItem) :
  match Parsed.first_unsupported relationships with
  | Parsed.Thrown e =>
      exists r, In r relationships /\ Parsed.type_text r = Parsed.Thrown e
  | Parsed.Returned (Some t) =>
      exists r text,
        In r relationships
        /\ Parsed.type_text r = Parsed.Returned text
        /\ isRelationshipTypeAllowedForReferenceFramework (Some "ArchiMate") text
           = false
        /\ t = trim text
  | Parsed.Returned None =>
      forall item text,
        In item relationships -> Parsed.type_text item = Parsed.Returned text ->
        isRelationshipTypeAllowedForReferenceFramework (Some "ArchiMate") text = true
  end.
Proof.
  induction relationships as [| r rest IH]; cbn [Parsed.first_unsupported].
  - intros item text [].
  - destruct (Parsed.type_text r) as [text | e] eqn:Htext;
      [| exists r; split; [now left | exact Htext]].
    cbv zeta. rewrite allowed_trim.
    destruct (isRelationshipTypeAllowedForReferenceFramework (Some "ArchiMate") text)
      eqn:Hallowed; cbn [negb];
      [| exists r, text; split; [now left | now repeat split]].
    destruct (Parsed.first_unsupported rest) as [[t |] | e].
    + destruct IH as (bad & text' & Hin & Hrest). exists bad, text'.
      split; [now right | exact Hrest].
    + intros item text' [<- | Hin] Hitem; [congruence | now apply (IH item)].
    + destruct IH as (bad & Hin & Hbad). exists bad. split; [now right | exact Hbad].
Qed.

Lemma first_unsupported_items (l : list EaRelationship) :
  Parsed.first_unsupported (map Parsed.relationship_item l)
  = Parsed.Returned
      (option_map (fun r => trim (r_type r))
         (find (fun r => negb (isRelationshipTypeAllowedForReferenceFramework
                                 (Some "ArchiMate") (trim (r_type r)))) l)).
Proof.
  induction l as [| r l IH]; [reflexivity |].
  cbn [map Parsed.first_unsupported find].
  change (Parsed.type_text (Parsed.relationship_item r))
    with (Parsed.Returned (r_type r)).
  cbv beta iota zeta.
  destruct (negb (isRelationshipTypeAllowedForReferenceFramework
                    (Some "ArchiMate") (trim (r_type r))));
    [reflexivity | exact IH].
Qed.

Lemma construct_throws (objects : list Parsed.ObjectItem)
  (relationships : list Parsed.RelationshipItem) :
  match Parsed.construct objects relationships with
  | Parsed.Thrown _ =>
      existsb Parsed.object_throws objects
      || existsb Parsed.relationship_throws relationships = true
  | Parsed.Returned _ =>
      existsb Parsed.object_throws objects
      || existsb Parsed.relationship_throws relationships = false
  end.
Proof.
  unfold Parsed.construct.
  pose proof (parsed_load_objects_throws objects Repository.empty) as Ho.
  destruct (Parsed.load_objects Repository.empty objects) as [loaded | e].
  - rewrite Ho. cbn [orb].
    exact (parsed_load_relationships_throws relationships loaded).
  - now rewrite Ho.
Qed.

Lemma construct_passes (md : EaRepositoryMetadata)
  (objects : list Parsed.ObjectItem) (relationships : list Parsed.RelationshipItem)
  (repo : EaRepository) :
  Parsed.construct objects relationships = Parsed.Returned repo ->
  (referenceFramework md = Some "ArchiMate" ->
   forall item text,
     In item relationships -> Parsed.type_text item = Parsed.Returned text ->
     isRelationshipTypeAllowedForReferenceFramework (Some "ArchiMate") text = true) ->
  well_formed repo
  /\ hasReferenceFrameworkViolations repo (referenceFramework md) = None.
Proof.
  intros Hrepo Hallowed. unfold Parsed.construct in Hrepo.
  destruct (Parsed.load_objects Repository.empty objects) as [loaded | e] eqn:Hload;
    [| discriminate Hrepo].
  destruct (parsed_load_objects_well_formed _ _ _ well_formed_empty Hload)
    as [Hwf Hnone].
  assert (Hplain : well_formed repo).
  { destruct (parsed_load_relationships_well_formed (fun _ => True)
                relationships loaded repo Hwf) as [Hrepo_wf _];
      [apply Forall_forall; intros; exact I | intros; exact I | exact Hrepo
      | exact Hrepo_wf]. }
  split; [exact Hplain |].
  destruct (referenceFramework md) as [fw |] eqn:Hfw; [| reflexivity].
  unfold hasReferenceFrameworkViolations.
  destruct (negb (truthy fw)); [reflexivity |].
  destruct (String.eqb_spec fw "ArchiMate") as [-> | Hother]; [| reflexivity].
  destruct (parsed_load_relationships_well_formed
              (fun t => isRelationshipTypeAllowedForReferenceFramework
                          (Some "ArchiMate") t = true)
              relationships loaded repo Hwf) as [_ Hgate].
  - rewrite Hnone. constructor.
  - now apply Hallowed.
  - exact Hrepo.
  - destruct Hplain as (_ & _ & Hok). now apply archimate_violation_accepts.
Qed.

End ParsedItems.

Section ParsedSnapshots.

Variable RawMetadata : Type.
Variable validateRepositoryMetadata : RawMetadata -> string + EaRepositoryMetadata.
Variable message : Parsed.TypeError -> string.

Local Abbreviation tryDeserializeRepository :=
  (Parsed.tryDeserializeRepository RawMetadata validateRepositoryMetadata message).

(** X24: what [tryDeserializeRepository] makes of a value of unknown
    shape.  A value it accepts had valid metadata and two arrays none of
    whose items made the constructor throw, and gives a well-formed
    repository that passes the whole reference-framework gate of
    [setEaRepository] for the framework of its metadata, although only
    the types of the relationships were checked: the constructor skips
    every relationship whose ends are missing or of the wrong type.  A
    value is refused for its metadata; else for [objects] or
    [relationships] that is no array; else, under ArchiMate, for the
    first relationship whose type, as a string, is outside the ArchiMate
    set; else for the exception the constructor throws, which it does
    exactly when an item is [null], carries an id that is neither
    missing nor a string, or carries ids that are not blank and a type
    that has no string form.  The function itself throws only under
    ArchiMate, at a relationship whose type has no string form. *)
Theorem deserialized_repository_passes_the_gate
  (value : Parsed.Snapshot RawMetadata) :
  match tryDeserializeRepository value with
  | Parsed.Returned (inr (repo, md)) =>
      validateRepositoryMetadata (Parsed.raw_metadata value) = inr md
      /\ (exists objects relationships,
            Parsed.raw_objects value = Some objects
            /\ Parsed.raw_relationships value = Some relationships
            /\ Parsed.construct objects relationships = Parsed.Returned repo
            /\ existsb Parsed.object_throws objects
               || existsb Parsed.relationship_throws relationships = false)
      /\ well_formed repo
      /\ hasReferenceFrameworkViolations repo (referenceFramework md) = None
  | Parsed.Returned (inl error) =>
      validateRepositoryMetadata (Parsed.raw_metadata value) = inl error
      \/ exists md,
           validateRepositoryMetadata (Parsed.raw_metadata value) = inr md
           /\ ((error = Parsed.err_expected_arrays
                /\ (Parsed.raw_objects value = None
                    \/ Parsed.raw_relationships value = None))
               \/ exists objects relationships,
                    Parsed.raw_objects value = Some objects
                    /\ Parsed.raw_relationships value = Some relationships
                    /\ ((exists r text,
                           referenceFramework md = Some "ArchiMate"
                           /\ In r relationships
                           /\ Parsed.type_text r = Parsed.Returned text
                           /\ isRelationshipTypeAllowedForReferenceFramework
                                (Some "ArchiMate") text = false
                           /\ error = Parsed.err_unsupported_relationship_type
                                        (trim text))
                        \/ (exists e,
                              Parsed.construct objects relationships = Parsed.Thrown e
                              /\ error = (if truthy (message e) then message e
                                          else Parsed.err_failed_to_load)
                              /\ existsb Parsed.object_throws objects
                                 || existsb Parsed.relationship_throws relationships
                                 = true)))
  | Parsed.Thrown e =>
      exists md objects relationships r,
        validateRepositoryMetadata (Parsed.raw_metadata value) = inr md
        /\ Parsed.raw_objects value = Some objects
        /\ Parsed.raw_relationships value = Some relationships
        /\ referenceFramework md = Some "ArchiMate"
        /\ In r relationships
        /\ Parsed.type_text r = Parsed.Thrown e
  end.
Proof.
  unfold Parsed.tryDeserializeRepository.
  destruct (validateRepositoryMetadata (Parsed.raw_metadata value))
    as [error | md] eqn:Hmd; [now left |].
  destruct (Parsed.raw_objects value) as [objects |] eqn:Hobjs;
    [| right; exists md; split; [reflexivity |]; left; split; [reflexivity | now left]].
  destruct (Parsed.raw_relationships value) as [relationships |] eqn:Hrels;
    [| right; exists md; split; [reflexivity |]; left; split; [reflexivity | now right]].
  cbv zeta.
  assert (Hsearch :
    match
      match referenceFramework md with
      | Some fw =>
          if String.eqb fw "ArchiMate" then Parsed.first_unsupported relationships
          else Parsed.Returned None
      | None => Parsed.Returned None
      end
    with
    | Parsed.Thrown e =>
        referenceFramework md = Some "ArchiMate"
        /\ exists r, In r relationships /\ Parsed.type_text r = Parsed.Thrown e
    | Parsed.Returned (Some t) =>
        referenceFramework md = Some "ArchiMate"
        /\ exists r text,
             In r relationships
             /\ Parsed.type_text r = Parsed.Returned text
             /\ isRelationshipTypeAllowedForReferenceFramework
                  (Some "ArchiMate") text = false
             /\ t = trim text
    | Parsed.Returned None =>
        referenceFramework md = Some "ArchiMate" ->
        forall item text,
          In item relationships -> Parsed.type_text item = Parsed.Returned text ->
          isRelationshipTypeAllowedForReferenceFramework (Some "ArchiMate") text
          = true
    end).
  { destruct (referenceFramework md) as [fw |]; [| discriminate].
    destruct (String.eqb_spec fw "ArchiMate") as [-> | Hother]; [| congruence].
    pose proof (first_unsupported_spec relationships) as Hspec.
    destruct (Parsed.first_unsupported relationships) as [[t |] | e];
      [split; [reflexivity | exact Hspec] | intros _; exact Hspec
      | split; [reflexivity | exact Hspec]]. }
  match type of Hsearch with
  | match ?found with _ => _ end => destruct found as [[t |] | e]
  end.
  - destruct Hsearch as (Hfw & bad & text & Hin & Htext & Hbad & ->).
    right. exists md. split; [reflexivity |]. right.
    exists objects, relationships. split; [reflexivity |]. split; [reflexivity |].
    left. exists bad, text. now repeat split.
  - pose proof (construct_throws objects relationships) as Hthrows.
    destruct (Parsed.construct objects relationships) as [repo | e] eqn:Hrepo.
    + destruct (construct_passes md objects relationships repo Hrepo Hsearch)
        as [Hwf Hgate].
      split; [reflexivity |]. split; [| now split].
      exists objects, relationships. now repeat split.
    + right. exists md. split; [reflexivity |]. right.
      exists objects, relationships. split; [reflexivity |]. split; [reflexivity |].
      right. exists e. now repeat split.
  - destruct Hsearch as (Hfw & bad & Hin & Hbad).
    exists md, objects, relationships, bad. now repeat split.
Qed.

End ParsedSnapshots.

(** On a value of the shape of a snapshot, as the provider writes it,
    no refusal for a missing array and no exception arises, and the
    result is that of [Context.tryDeserializeRepository]. *)
Lemma tryDeserializeRepository_of_serialized
  (validateRepositoryMetadata : EaRepositoryMetadata -> string + EaRepositoryMetadata)
  (message : Parsed.TypeError -> string) (value : SerializedRepository) :
  Parsed.tryDeserializeRepository EaRepositoryMetadata validateRepositoryMetadata
    message (Parsed.of_serialized value)
  = Parsed.Returned (Context.tryDeserializeRepository validateRepositoryMetadata value).
Proof.
  unfold Parsed.tryDeserializeRepository, Context.tryDeserializeRepository,
    Parsed.of_serialized.
  cbn [Parsed.raw_metadata Parsed.raw_objects Parsed.raw_relationships].
  destruct (validateRepositoryMetadata (s_metadata value)) as [error | md];
    [reflexivity |]. cbv zeta.
  assert (Hbuilt :
    Parsed.construct (map Parsed.object_item (s_objects value))
      (map Parsed.relationship_item (s_relationships value))
    = Parsed.Returned
        (construct (map object_input (s_objects value))
           (map relationship_input (s_relationships value)))).
  { unfold Parsed.construct, construct.
    rewrite parsed_load_objects_items. apply parsed_load_relationships_items. }
  rewrite Hbuilt, first_unsupported_items.
  destruct (referenceFramework md) as [fw |]; [| reflexivity].
  destruct (String.eqb fw "ArchiMate"); [| reflexivity].
  destruct (find _ (s_relationships value)) as [bad |]; reflexivity.
Qed.

(** A snapshot with valid metadata whose [objects] holds [null] alone
    and whose [relationships] is empty is refused with the message of
    the exception the constructor threw. *)
Lemma null_object_is_refused
  (validateRepositoryMetadata : EaRepositoryMetadata -> string + EaRepositoryMetadata)
  (message : Parsed.TypeError -> string) (md : EaRepositoryMetadata) :
  validateRepositoryMetadata md = inr md ->
  referenceFramework md = None ->
  truthy (message (Parsed.ReadOfNull "id")) = true ->
  Parsed.tryDeserializeRepository EaRepositoryMetadata validateRepositoryMetadata
    message
    {| Parsed.raw_metadata := md;
       Parsed.raw_objects := Some [Parsed.ObjectNull];
       Parsed.raw_relationships := Some [] |}
  = Parsed.Returned (inl (message (Parsed.ReadOfNull "id"))).
Proof.
  intros Hmd Hfw Hmessage. unfold Parsed.tryDeserializeRepository.
  cbn [Parsed.raw_metadata Parsed.raw_objects Parsed.raw_relationships].
  rewrite Hmd, Hfw. cbv zeta.
  cbn [Parsed.construct Parsed.load_objects Parsed.addObject].
  now rewrite Hmessage.
Qed.
